(* ===== verification/_CoqProject ===== *)
-Q . S2P
Prelude.v
CircularBuffer.v
RingTypes.v
Memory.v
Kernel.v
AesdIoctl.v
CharDriver.v
DriverSpec.v
DriverRefine.v
DriverProps.v
CString.v
Posix.v
SimOS.v
DataFile.v
SList.v
Queue.v
QueueMacros.v
QueueSpec.v
QueueOps.v
QueueProps.v
Server.v
Runs.v
Device.v
ServerSpec.v
ServerRefine.v
Cut.v
ServerProps.v
Cancel.v
Timer.v
Protocol.v
Interleave.v
Concurrent.v
Serial.v
EndToEnd.v
PlainFile.v
ConnList.v
Lifetime.v
StartProps.v
Signals.v
Main.v
MainThread.v
Shutdown.v
ShutdownDemo.v
SystemCalls.v
Threading.v
Writer.v
Autotest.v
