(* ===== verification/Prelude.v ===== *)
(** * Verification of the aesd assignments repository

    The repository holds a Linux char device that remembers the last ten lines
    written to it, a socket server that stores lines in that device, and a few
    small C programs.  This library models the C code and proves what makes it
    correct; where the code does not do what it means to, a theorem states what it
    does instead.

    ** The program and its models

    - The ring of the driver, [aesd-char-driver/aesd-circular-buffer.c] and [.h]:
      file [CircularBuffer].  The structure is the record [aesd_circular_buffer];
      every function has the name it has in C.  Indices are 8-bit, sizes 64-bit.
    - The driver, [aesd-char-driver/main.c], [aesdchar.h], [aesd_ioctl.h]: files
      [AesdIoctl] (the structure and number of the ioctl) and [CharDriver] (the file
      operations, module initialisation and cleanup).  The state [kstate] is the
      heap of the module, its [aesd_dev] and the memory of the calling process.
      The kernel is the class [Kernel] with its laws [KernelLaws] (file [Kernel]);
      [sim_kernel] is an executable one.
    - The data file of the server, [server/datafile.c] and [.h]: file [DataFile], over
      the C string functions of [CString].
    - The lists of [server/queue.h]: file [SList] has the [SLIST] macros on the one list
      the server keeps; [Queue] and [QueueMacros] have all macros of the four
      structures ([SLIST], [STAILQ], [LIST], [TAILQ]) on a memory of links with any
      number of heads, and both compile-time switches of the header.
    - The server, [server/aesdsocket.c] and [.h]: file [Server], every function of it.
    - [examples/systemcalls/systemcalls.c]: file [SystemCalls].
    - [examples/threading/threading.c] and [.h]: file [Threading].
    - [finder-app/writer.c]: file [Writer].
    - [examples/autotest-validate] and its unit test: file [Autotest].

    The driver and the server meet in the data file: the server's [write] and [ioctl]
    on [/dev/aesdchar] are [aesd_write] and [aesd_unlocked_ioctl] of the driver, and
    both sides use the layout of [AesdIoctl].  File [Device] puts them together: it
    answers the calls of the threads of the server on the data file with the functions
    of the driver.

    The handlers of the clients, the timer and [main] are threads.  File [Interleave] has the
    system that they share (class [System]) and the interleaving [exec] of their calls; [Concurrent] adds
    the data file as they see it (class [SharedFile]) and [Serial] what the clients see.
    The class has two instances: the device ([EndToEnd]) and an ordinary file
    ([PlainFile]), for the two builds of the server.  The flag [dev] of the definitions
    of the server is the build.  (At this commit the build for the ordinary file does not
    compile: [parse_seekto_cmd] in [datafile.c] uses [struct aesd_seekto], whose header is
    included for the device only.  Its model is the code without that function, which this
    build does not call.)

    The user-space programs run on a system that is the class [OS] with its laws
    [OSLaws] (file [Posix]); a program is a function [prog] on a process state, which
    has the heap, the world of the system, the trace of the calls made so far and
    the variables of the program.  [SimOS] is an executable system.  The system also says
    at which calls it acts on a request to cancel the thread; [Uncancelled] is a system
    on which nobody cancels it.

    ** Conventions

    C integers are [Z], reduced where C converts them ([u8], [u32], [u64], [s32],
    [s64] below).  Undefined behaviour is a value of [fault], not an error code.
    Memory (file [Memory]) is a finite map of blocks of bytes.  Structures that
    [malloc] returned have their block in the heap, for their life time, and
    their contents in a typed store.  Uninitialised variables are arguments of the
    definitions ([x0], [y0], [ts0], [success0], [mode0]).

    ** What is proved

    - [CircularBuffer]: the search returns the byte of the concatenated entries,
      additions keep the last ten, the position of a line computed by the jump is
      found again by the search while the scan does not wrap, and overshoots when
      it does.
    - [RingTypes]: whatever values of their C types the members of the ring have, no
      search, jump or addition leaves the array, and the types are kept.
    - [DriverSpec], [DriverRefine], [DriverProps]: the abstract state of the device is
      a log of at most ten complete lines and an unfinished one.  Each file
      operation refines an operation of the log, keeps the invariant [drv_inv] (the
      module owns exactly the blocks of the ring and of the unfinished line, the lock
      is free), and so every reachable state is sound, its log is what the successful
      writes made of the empty one, and cleanup frees everything.
      The failing inputs (no newline, zero bytes, failed allocation, small read
      buffer, line numbers above 255) have their own theorems.
    - [DataFile]: the seek command is read back as it is printed, a message is
      appended by one [write] or one [ioctl], the message buffer is never left, and
      which commands break the parser.
    - [ServerSpec], [ServerRefine], [ServerProps]: the relations [session] and [serves]
      say which calls the connection handler makes, in either build, for the chunks a
      client sends; the handler follows them for every sequence of chunks whose seek commands
      are well formed, loses no byte of a text, and leaves with the mutex and its memory
      released; it leaks descriptors, and delays a second line in a chunk.  The server goes
      on after answers that it does not look at, short writes and short sends among them:
      [proceeds] are the answers that let the handler go on, [event_ok] those of calls that
      did all they were asked to, and [sent_bytes] the bytes that [send] accepted.
    - [Cancel]: a handler that is cancelled, at any call of its loop, leaves as at its
      normal end; one that is cancelled at the first call of the cleanup of its normal end,
      after a send that failed, keeps its memory, its socket and the lock.  [Cut]: the calls of a cancelled handler are the first of
      those it would have made, and those that close the connection.
    - [Timer]: each run of the timer writes one row at the end of the file under the lock, or
      nothing; when the file has 2 GiB or more it writes nothing, though no call failed.
    - [Protocol]: the calls of a handler, cancelled or not, and of the timer are runs of
      automata ([hnext]), whatever the calls answer ([handler_follows_protocol]);
      this is what the other threads may rely on.
    - [Interleave]: with the automata as interface, any interleaving of the handlers of
      any number of clients and the timer keeps the accesses to the data file apart,
      on every system, and nobody has the lock when all threads have ended
      ([lock_is_free_in_the_end]).
    - [Concurrent], [Serial]: at every moment such an interleaving is explained by one serial
      order of the messages, for the data file and for what each client was sent
      ([clients_share_serial_log]).  On an ordinary file this needs that no other message is
      appended between the moment a handler goes to the end of the file and the
      moment it writes ([undisturbed]); the lock is taken between the two, and
      [plain_file_loses_message] is an execution in which a message is overwritten.
    - [EndToEnd], [PlainFile]: one client, from its socket through the server to the device
      or the file and back ([device_serves_client], [plain_serves_client]).  The driver
      ignores the size of the reader's buffer: [Device] notes when it writes past the buffer
      of the server, and lines that fit the buffer rule it out.
    - [ConnList]: [cleanup_term_conn] removes and frees exactly the ended connections.
    - [StartProps]: what [accept_conn] sets up is what the handler needs; what
      [send_response] sends; the calls of [start_server], as a daemon or not, for every way in
      which it ends.
    - [Signals]: a round of the accept loop keeps the list of connections well formed;
      the signal handler makes the calls that stop the server, in order, and frees what
      the list holds; the loop of [main] goes on without a signal and ends with one.
    - [Main]: [main] as a whole, from the start of the process: it gives up, is a parent of
      the daemon, or serves until a signal and returns 0, on a system whose [shutdown]
      succeeds after finitely many failures.
    - [Lifetime], [MainThread]: the calls of [main] are a run of an automaton over the
      threads that were created and not joined ([lnext]): the list of connections holds
      exactly these ([accept_keeps_list]), none is cancelled or joined at another time, and
      the lock is destroyed when there are none, as long as no join failed
      ([main_joins_its_threads]); a join that fails is ignored ([failed_join_is_ignored]).
    - [Shutdown], [ShutdownDemo]: [main] as one more thread of the interleavings.  With the
      automata of the two sides as interface and what POSIX promises of threads
      ([posix_threads]), the accesses to the data file are kept apart
      ([main_and_threads_exclude]) and nobody has the lock when it is destroyed
      ([mutex_is_destroyed_free]), but for a run of the timer, for which the code does not
      wait ([timer_holds_destroyed_lock]), and if the joins succeeded.
    - [QueueSpec], [QueueOps], [QueueProps]: [rep] says that the links in memory are
      those of a family of lists, [ref] what each operation does to the lists, and
      [macro_ref] that each macro does the same; so every program of macro calls agrees
      with the same program on lists, forwards, backwards and while removing.
    - [SystemCalls], [Threading], [Writer]: the outcome of every path of the small
      programs, seen as the calls they make.

    ** Fuel

    Loops that C writes without a bound are fixpoints with fuel, and the
    definitions choose enough of it: the scans of the ring take the number of
    slots, the scans of a block its length, the copy loops the length of the source,
    the receive loop the number of chunks the peer still delivers, the read loop of
    [send_response] the number of bytes to be read, the loops over a list the number
    of its link fields, the loops of [queue.h] the number of links in memory.  The
    theorems give results other than [OutOfFuel], so the fuel is enough.  Only the loop of [signal_handler] that repeats [shutdown] until it
    succeeds, and the accept loop of [main], take their bound as an argument: they can
    run for ever.

    ** Not modelled

    Logging ([printk], [syslog], [printf] of diagnostics; but the objects that the messages
    of [threading.c] dereference are read) and [errno] beside the range
    error of [strtoul]; accesses of two threads to memory at the same time (the handlers
    share no memory of the server but the lock, and meet in system calls, which are what
    [Interleave] interleaves; the main thread frees the connection of a thread only once it
    has joined the thread); the main thread in the theorems on what the data file holds (it
    opens and closes the file before it creates a thread, and removes it when it stops; the
    theorems on the lock and on the threads have it, in [Shutdown]); two processes
    inside the driver at once, which its mutex rules out; a signal at another point than
    [accept]; the declarations of [queue.h] for C++; scripts, makefiles and continuous
    integration. *)

From stdpp Require Export base numbers list gmap.

#[global] Open Scope Z_scope.

(** ** Outcomes of C code

    A C function of the repository is a Rocq function into [res]: [Ok] when the
    C code runs to its [return], [Err] when it does something the C language or
    the kernel gives no meaning to.  An [Err] is never a C error code: error
    codes are ordinary return values inside [Ok]. *)

Inductive fault : Type :=
| NullDeref    (* access through a null pointer *)
| OutOfBounds  (* access outside an object *)
| BadFree      (* release of something that is not allocated *)
| Deadlock     (* a lock is taken by the thread that holds it *)
| Panic        (* a consistency check of the code fails *)
| OutOfFuel.   (* the fuel of the model ran out: ruled out by theorems *)

Inductive res (A : Type) : Type :=
| Ok (a : A)
| Err (f : fault).

Arguments Ok {_} _.
Arguments Err {_} _.

#[global] Instance fault_eq_dec : EqDecision fault.
Proof. solve_decision. Defined.

#[global] Instance res_eq_dec `{EqDecision A} : EqDecision (res A).
Proof. solve_decision. Defined.

#[global] Instance res_ret : MRet res := λ _ a, Ok a.

#[global] Instance res_bind : MBind res := λ _ _ f m,
  match m with Ok a => f a | Err e => Err e end.

#[global] Instance res_fmap : FMap res := λ _ _ f m,
  match m with Ok a => Ok (f a) | Err e => Err e end.

Lemma res_bind_Ok {A B} (m : res A) (f : A → res B) (b : B) :
  m ≫= f = Ok b ↔ ∃ a, m = Ok a ∧ f a = Ok b.
Proof.
  destruct m as [x|e]; cbn; split.
  - intros H. by exists x.
  - by intros (y & [= ->] & H).
  - done.
  - by intros (y & [=] & H).
Qed.

Lemma res_bind_assoc {A B C} (m : res A) (f : A → res B) (g : B → res C) :
  (m ≫= f) ≫= g = m ≫= (λ a, f a ≫= g).
Proof. by destruct m. Qed.

(** [res_step] runs the first outcome of a sequence that is known. *)
Ltac res_step :=
  match goal with
  | H : ?m = Ok _ |- context [?m ≫= _] => rewrite H; cbn [mbind res_bind]
  | H : ?m = Err _ |- context [?m ≫= _] => rewrite H; cbn [mbind res_bind]
  | |- context [Ok _ ≫= _] => cbn [mbind res_bind]
  end.

(** [res_inv] takes apart hypotheses of the form [m ≫= f = Ok b]. *)
Ltac res_inv :=
  repeat match goal with
  | H : _ ≫= _ = Ok _ |- _ =>
      apply res_bind_Ok in H; destruct H as (? & ? & H)
  | H : Ok _ = Ok _ |- _ => injection H; clear H; intros; subst
  | H : Err _ = Ok _ |- _ => discriminate H
  end.

(** ** Machine integers

    A value of an integer type of width [w] is a [Z]; a conversion to the type
    reduces it, as C does (unsigned) and as the compilers in use do (signed). *)

Definition u8 (x : Z) : Z := x mod 2 ^ 8.
Definition u32 (x : Z) : Z := x mod 2 ^ 32.
Definition u64 (x : Z) : Z := x mod 2 ^ 64.
Definition s32 (x : Z) : Z := (x + 2 ^ 31) mod 2 ^ 32 - 2 ^ 31.
Definition s64 (x : Z) : Z := (x + 2 ^ 63) mod 2 ^ 64 - 2 ^ 63.

Lemma u8_id x : 0 ≤ x < 256 → u8 x = x.
Proof. apply Z.mod_small. Qed.
Lemma u32_id x : 0 ≤ x < 2 ^ 32 → u32 x = x.
Proof. apply Z.mod_small. Qed.
Lemma u64_id x : 0 ≤ x < 2 ^ 64 → u64 x = x.
Proof. apply Z.mod_small. Qed.
Lemma s32_id x : - 2 ^ 31 ≤ x < 2 ^ 31 → s32 x = x.
Proof. intros. unfold s32. rewrite Z.mod_small; lia. Qed.
Lemma s64_id x : - 2 ^ 63 ≤ x < 2 ^ 63 → s64 x = x.
Proof. intros. unfold s64. rewrite Z.mod_small; lia. Qed.

Lemma u8_range x : 0 ≤ u8 x < 256.
Proof. unfold u8. apply Z.mod_pos_bound. lia. Qed.
Lemma u32_range x : 0 ≤ u32 x < 2 ^ 32.
Proof. unfold u32. apply Z.mod_pos_bound. lia. Qed.
Lemma u64_range x : 0 ≤ u64 x < 2 ^ 64.
Proof. unfold u64. apply Z.mod_pos_bound. lia. Qed.

(** Two values with the same reduction stay equal when a third is added. *)
Lemma u64_add_l x y : u64 (u64 x + y) = u64 (x + y).
Proof. unfold u64. apply Zplus_mod_idemp_l. Qed.
Lemma u64_add_r x y : u64 (x + u64 y) = u64 (x + y).
Proof. unfold u64. apply Zplus_mod_idemp_r. Qed.

(** ** C arrays

    An array object is a list; an index outside it is undefined behaviour. *)

Definition arr_get {A} (l : list A) (i : Z) : res A :=
  if i <? 0 then Err OutOfBounds
  else match l !! Z.to_nat i with Some x => Ok x | None => Err OutOfBounds end.

Definition arr_set {A} (l : list A) (i : Z) (x : A) : res (list A) :=
  if (i <? 0) || (Z.of_nat (length l) <=? i) then Err OutOfBounds
  else Ok (<[Z.to_nat i := x]> l).

Lemma arr_get_Some {A} (l : list A) i x :
  0 ≤ i → l !! Z.to_nat i = Some x → arr_get l i = Ok x.
Proof. intros Hi Hx. unfold arr_get. rewrite Hx. by destruct (Z.ltb_spec i 0); [lia|]. Qed.

Lemma arr_get_Ok {A} (l : list A) i x :
  arr_get l i = Ok x → 0 ≤ i ∧ l !! Z.to_nat i = Some x.
Proof.
  unfold arr_get. destruct (Z.ltb_spec i 0); [done|].
  destruct (l !! Z.to_nat i); [|done]. by intros [= ->].
Qed.

Lemma arr_get_oob {A} (l : list A) i :
  Z.of_nat (length l) ≤ i → arr_get l i = Err OutOfBounds.
Proof.
  intros H. unfold arr_get. destruct (Z.ltb_spec i 0); [done|].
  by rewrite (proj2 (lookup_ge_None l (Z.to_nat i))) by lia.
Qed.

Lemma arr_set_in {A} (l : list A) i x :
  0 ≤ i < Z.of_nat (length l) → arr_set l i x = Ok (<[Z.to_nat i := x]> l).
Proof.
  intros H. unfold arr_set.
  by destruct (Z.ltb_spec i 0), (Z.leb_spec (Z.of_nat (length l)) i); try lia.
Qed.

(** ** Sums of integers over a list *)

Definition zsum (l : list Z) : Z := foldr Z.add 0 l.

Lemma zsum_cons x l : zsum (x :: l) = x + zsum l.
Proof. done. Qed.
Lemma zsum_app l k : zsum (l ++ k) = zsum l + zsum k.
Proof. induction l as [|x l IH]; cbn [app]; rewrite ?zsum_cons, ?IH; cbn; lia. Qed.
Lemma zsum_nonneg l : Forall (λ x, 0 ≤ x) l → 0 ≤ zsum l.
Proof. induction 1; rewrite ?zsum_cons; cbn; lia. Qed.
Lemma zsum_zeros l : Forall (λ x, x = 0) l → zsum l = 0.
Proof. induction 1; rewrite ?zsum_cons; cbn; lia. Qed.
Lemma zsum_insert l i x y :
  l !! i = Some y → zsum (<[i := x]> l) = zsum l - y + x.
Proof.
  revert i. induction l as [|z l IH]; intros [|i] H; try done.
  - injection H as ->. change (zsum (x :: l) = zsum (y :: l) - y + x).
    rewrite !zsum_cons. lia.
  - change (zsum (z :: <[i := x]> l) = zsum (z :: l) - y + x).
    rewrite !zsum_cons, (IH i) by done. lia.
Qed.
Lemma zsum_concat {A} (ls : list (list A)) :
  zsum ((λ l, Z.of_nat (length l)) <$> ls) = Z.of_nat (length (concat ls)).
Proof.
  induction ls as [|l ls IH]; [done|].
  cbn [fmap list_fmap concat]. rewrite zsum_cons, IH, length_app. lia.
Qed.
Lemma zsum_take_le l k : Forall (λ x, 0 ≤ x) l → zsum (take k l) ≤ zsum l.
Proof.
  intros H. rewrite <- (take_drop k l) at 2. rewrite zsum_app.
  pose proof (zsum_nonneg (drop k l) (Forall_drop _ _ _ H)). lia.
Qed.

Create HintDb cint.
Create Rewrite HintDb cint.
#[export] Hint Rewrite @zsum_cons @zsum_app u64_add_l u64_add_r : cint.
#[export] Hint Resolve u8_range u32_range u64_range zsum_nonneg : cint.

(** [bool_cases] turns the integer comparisons of the goal into case splits. *)
Ltac bool_cases :=
  repeat match goal with
  | |- context [?x <? ?y] => destruct (Z.ltb_spec x y)
  | |- context [?x <=? ?y] => destruct (Z.leb_spec x y)
  | |- context [?x =? ?y] => destruct (Z.eqb_spec x y)
  end; try lia.

(** [forall_lia] proves a [Forall] of arithmetic facts over an explicit list. *)
Ltac forall_lia := repeat (apply Forall_cons; split; [cbn; lia|]); apply Forall_nil; done.
