(* ===== verification/CircularBuffer.v ===== *)
(** * The circular buffer of the char driver

    Models [aesd-char-driver/aesd-circular-buffer.c] and its header: the ring
    of the last ten write commands.  A [char *] is the address of a block (0 is
    [NULL]); the ring never looks through it, so the addresses stay opaque here.
    The abstract view of the ring is [cb_entries], the live entries from the
    oldest to the newest. *)

From S2P Require Import Prelude.

Definition AESDCHAR_MAX_WRITE_OPERATIONS_SUPPORTED : Z := 10.

Definition EINVAL : Z := 22.

(** [struct aesd_buffer_entry]: [size] is a [size_t]. *)
Record aesd_buffer_entry := Entry { buffptr : Z; e_size : Z }.

(** [struct aesd_circular_buffer]: [in_offs] and [out_offs] are [uint8_t], the
    last member is the [size_t size]. *)
Record aesd_circular_buffer := CircBuf {
  entry : list aesd_buffer_entry;
  in_offs : Z;
  out_offs : Z;
  full : bool;
  cb_size : Z
}.

#[export] Instance aesd_buffer_entry_eq_dec : EqDecision aesd_buffer_entry.
Proof. solve_decision. Defined.

#[export] Instance aesd_circular_buffer_eq_dec : EqDecision aesd_circular_buffer.
Proof. solve_decision. Defined.

(** The macro [LENGTH(buffer->entry)]: the size of the member is fixed by its
    declaration. *)
Definition LENGTH : Z := AESDCHAR_MAX_WRITE_OPERATIONS_SUPPORTED.

Definition CB_POINTER_INC (pointer : Z) : Z := u8 ((pointer + 1) mod LENGTH).

Definition CB_POINTER_CAST (pointer : Z) : Z := pointer mod LENGTH.

Definition CB_LOOP_UPPER_BOUNDARY (buffer : aesd_circular_buffer) : Z :=
  let boundary_var := in_offs buffer in
  if full buffer then u8 (boundary_var + LENGTH) else boundary_var.

(** A loop whose counter is a [uint8_t] below a [uint8_t] bound makes at most
    255 passes. *)
Definition u8_fuel : nat := Z.to_nat 256.

(** The [for] loop of [aesd_circular_buffer_find_entry_offset_for_fpos]: the
    result is the index of the entry and the byte stored through
    [entry_offset_byte_rtn], or [None] for [NULL]. *)
Fixpoint find_loop (fuel : nat) (buffer : aesd_circular_buffer)
    (i upper_boundary char_offset : Z) : res (option (Z * Z)) :=
  match fuel with
  | O => Err OutOfFuel
  | S fuel =>
    if i <? upper_boundary then
      let ind := CB_POINTER_CAST i in
      e ← arr_get (entry buffer) ind;
      let block_len := e_size e in
      if char_offset <? block_len then mret (Some (ind, char_offset))
      else find_loop fuel buffer (u8 (i + 1)) upper_boundary
             (u64 (char_offset - block_len))
    else mret None
  end.

Definition aesd_circular_buffer_find_entry_offset_for_fpos
    (buffer : aesd_circular_buffer) (char_offset : Z) : res (option (Z * Z)) :=
  find_loop u8_fuel buffer (out_offs buffer) (CB_LOOP_UPPER_BOUNDARY buffer)
    char_offset.

(** The [for] loop of [aesd_circular_buffer_jmp_entry_offset]; [pos += size]
    is an [unsigned long] addition stored into a [long long]. *)
Fixpoint jmp_loop (fuel : nat) (buffer : aesd_circular_buffer)
    (i upper_boundary ind pos : Z) : res Z :=
  match fuel with
  | O => Err OutOfFuel
  | S fuel =>
    if i <? upper_boundary then
      if i =? ind then mret pos
      else
        e ← arr_get (entry buffer) (CB_POINTER_CAST i);
        jmp_loop fuel buffer (u8 (i + 1)) upper_boundary ind
          (s64 (pos + e_size e))
    else mret pos
  end.

(** [entrynum] is a [uint8_t] and [offset] a [size_t], so the comparisons with
    0 in the source are never true. *)
Definition aesd_circular_buffer_jmp_entry_offset
    (buffer : aesd_circular_buffer) (entrynum offset : Z) : res Z :=
  if (entrynum <? 0) || (LENGTH <=? entrynum) then mret (- EINVAL)
  else
    let ind := u8 (CB_POINTER_CAST (out_offs buffer + entrynum)) in
    e ← arr_get (entry buffer) ind;
    if (buffptr e =? 0) || (e_size e =? 0) || (offset <? 0) || (e_size e <=? offset)
    then mret (- EINVAL)
    else
      pos ← jmp_loop u8_fuel buffer (out_offs buffer)
              (CB_LOOP_UPPER_BOUNDARY buffer) ind 0;
      mret (s64 (pos + offset)).

(** The pointer returned is the one of the overwritten entry, for the caller to
    free. *)
Definition aesd_circular_buffer_add_entry
    (buffer : aesd_circular_buffer) (add_entry : aesd_buffer_entry)
    : res (Z * aesd_circular_buffer) :=
  '(old_buf, out) ←
    (if full buffer then
       e ← arr_get (entry buffer) (in_offs buffer);
       mret (buffptr e, CB_POINTER_INC (out_offs buffer))
     else mret (0, out_offs buffer));
  cur ← arr_get (entry buffer) (in_offs buffer);
  let size := u64 (cb_size buffer + u64 (e_size add_entry - e_size cur)) in
  entries ← arr_set (entry buffer) (in_offs buffer) add_entry;
  let in_ := CB_POINTER_INC (in_offs buffer) in
  mret (old_buf, CircBuf entries in_ out (in_ =? out) size).

Definition zero_entry : aesd_buffer_entry := Entry 0 0.

(** [memset(buffer, 0, sizeof(struct aesd_circular_buffer))]. *)
Definition aesd_circular_buffer_init : aesd_circular_buffer :=
  CircBuf (replicate 10 zero_entry) 0 0 false 0.

(** The visits of [AESD_CIRCULAR_BUFFER_FOREACH]: every slot in index order,
    live or not. *)
Definition AESD_CIRCULAR_BUFFER_FOREACH (buffer : aesd_circular_buffer)
    : list aesd_buffer_entry :=
  take 10 (entry buffer).

(** ** Specification *)

(** The live entries, oldest first. *)
Definition cb_entries (b : aesd_circular_buffer) : list aesd_buffer_entry :=
  if full b then drop (Z.to_nat (out_offs b)) (entry b)
                 ++ take (Z.to_nat (out_offs b)) (entry b)
  else take (Z.to_nat (in_offs b)) (entry b).

(** A bounded log: a new element pushes the oldest out when ten are kept. *)
Definition push {A} (l : list A) (x : A) : list A :=
  (if decide (length l < 10)%nat then l else tail l) ++ [x].

Record cb_wf (b : aesd_circular_buffer) : Prop := {
  wf_len : length (entry b) = 10%nat;
  wf_in : 0 ≤ in_offs b < 10;
  wf_out : out_offs b = if full b then in_offs b else 0;
  wf_free : full b = false → ∀ i, in_offs b ≤ i < 10 →
    entry b !! Z.to_nat i = Some zero_entry;
  wf_sizes : Forall (λ e, 0 ≤ e_size e < 2 ^ 64) (entry b);
  wf_size : cb_size b = u64 (zsum (e_size <$> entry b))
}.

(** The entry and the byte of it at an offset of the concatenated entries. *)
Fixpoint locate (sizes : list Z) (off : Z) : option (nat * Z) :=
  match sizes with
  | [] => None
  | s :: sizes =>
    if off <? s then Some (0%nat, off)
    else '(k, r) ← locate sizes (off - s); Some (S k, r)
  end.

(** The slot of the k-th live entry. *)
Definition slot (b : aesd_circular_buffer) (k : nat) : Z :=
  (out_offs b + Z.of_nat k) mod 10.

(** ** Facts shared by the theorems *)

Arguments u8_fuel : simpl never.

Lemma cb_entries_length b :
  cb_wf b → Z.of_nat (length (cb_entries b)) = if full b then 10 else in_offs b.
Proof.
  intros [Hlen Hin Hout _ _ _]. unfold cb_entries. destruct (full b).
  - rewrite length_app, length_drop, length_take. lia.
  - rewrite length_take. lia.
Qed.

Lemma cb_upper_boundary b :
  cb_wf b →
  CB_LOOP_UPPER_BOUNDARY b = out_offs b + Z.of_nat (length (cb_entries b)).
Proof.
  intros Hwf. rewrite (cb_entries_length b Hwf). destruct Hwf as [_ Hin Hout _ _ _].
  unfold CB_LOOP_UPPER_BOUNDARY, LENGTH, AESDCHAR_MAX_WRITE_OPERATIONS_SUPPORTED.
  destruct (full b); [rewrite u8_id by lia|]; lia.
Qed.

Lemma cb_out_range b : cb_wf b → 0 ≤ out_offs b < 10.
Proof. intros [_ Hin Hout _ _ _]. destruct (full b); lia. Qed.

Lemma slot_range b k : 0 ≤ slot b k < 10.
Proof. unfold slot. apply Z.mod_pos_bound. lia. Qed.

(** The index arithmetic of the ring: the k-th live entry is in [slot b k]. *)
Lemma cb_entries_lookup b k :
  cb_wf b → (k < length (cb_entries b))%nat →
  cb_entries b !! k = entry b !! Z.to_nat (slot b k).
Proof.
  intros Hwf Hk. pose proof (cb_entries_length b Hwf) as Hn.
  destruct Hwf as [Hlen Hin Hout _ _ _]. unfold cb_entries, slot in *.
  destruct (full b).
  - destruct (decide (Z.to_nat (out_offs b) + k < 10)%nat).
    + rewrite lookup_app_l by (rewrite length_drop; lia).
      rewrite lookup_drop, Z.mod_small by lia. f_equal. lia.
    + rewrite lookup_app_r by (rewrite length_drop; lia).
      rewrite length_drop, lookup_take_lt by lia.
      replace ((out_offs b + Z.of_nat k) mod 10) with (out_offs b + Z.of_nat k - 10).
      * f_equal. lia.
      * apply Z.mod_unique with 1; lia.
  - rewrite lookup_take_lt, Z.mod_small by lia. f_equal. lia.
Qed.

Lemma cb_slot_entry b k e :
  cb_wf b → cb_entries b !! k = Some e → arr_get (entry b) (slot b k) = Ok e.
Proof.
  intros Hwf He. pose proof (slot_range b k). apply arr_get_Some; [lia|].
  rewrite <- cb_entries_lookup; [done|done|]. by eapply lookup_lt_Some.
Qed.

(** Every entry of the ring, live or free, has a size that fits its type. *)
Lemma cb_sizes_range b k e :
  cb_wf b → cb_entries b !! k = Some e → 0 ≤ e_size e < 2 ^ 64.
Proof.
  intros Hwf He. rewrite cb_entries_lookup in He by (done || by eapply lookup_lt_Some).
  eapply Forall_lookup_1 in He; [|apply Hwf]. done.
Qed.

Lemma cb_sizes_nonneg b : cb_wf b → Forall (λ x, 0 ≤ x) (e_size <$> cb_entries b).
Proof.
  intros Hwf. apply Forall_lookup_2. intros k x Hx.
  apply list_lookup_fmap_Some in Hx as (e & -> & He).
  pose proof (cb_sizes_range b k e Hwf He). lia.
Qed.

(** The sum kept by the ring is the sum over the live entries: a free slot has
    size 0. *)
Lemma cb_live_sum b :
  cb_wf b → zsum (e_size <$> entry b) = zsum (e_size <$> cb_entries b).
Proof.
  intros [Hlen Hin Hout Hfree _ _]. unfold cb_entries. destruct (full b).
  - rewrite <- (take_drop (Z.to_nat (out_offs b)) (entry b)) at 1.
    rewrite !fmap_app, !zsum_app. lia.
  - rewrite <- (take_drop (Z.to_nat (in_offs b)) (entry b)) at 1.
    rewrite fmap_app, zsum_app, (zsum_zeros (_ <$> drop _ _)); [lia|].
    apply Forall_lookup_2. intros k x Hx.
    apply list_lookup_fmap_Some in Hx as (e & -> & He). rewrite lookup_drop in He.
    pose proof (lookup_lt_Some _ _ _ He).
    specialize (Hfree eq_refl (in_offs b + Z.of_nat k) ltac:(lia)).
    replace (Z.to_nat (in_offs b + Z.of_nat k))
      with (Z.to_nat (in_offs b) + k)%nat in Hfree by lia.
    rewrite He in Hfree. by injection Hfree as ->.
Qed.

Lemma cb_size_live b :
  cb_wf b → cb_size b = u64 (zsum (e_size <$> cb_entries b)).
Proof. intros Hwf. rewrite <- cb_live_sum by done. apply Hwf. Qed.

Lemma cb_init_wf : cb_wf aesd_circular_buffer_init.
Proof.
  split; try done; cbn -[replicate].
  - intros _ i Hi. apply (lookup_replicate 10). split; [done|lia].
  - repeat constructor; cbn; lia.
Qed.

(** ** Positions in a concatenation *)

Lemma locate_None sizes off :
  Forall (λ x, 0 ≤ x) sizes → 0 ≤ off → locate sizes off = None ↔ zsum sizes ≤ off.
Proof.
  intros H. revert off. induction H as [|s ss Hs Hss IH]; intros off Hoff.
  - by split; intros; [cbn; lia|].
  - rewrite zsum_cons. cbn [locate]. pose proof (zsum_nonneg ss Hss).
    bool_cases; [split; [done|lia]|]. destruct (IH (off - s) ltac:(lia)) as [IH1 IH2].
    destruct (locate ss (off - s)) as [[k r]|]; cbn [mbind option_bind];
      split; intros Hx; try done.
    + by specialize (IH2 ltac:(lia)).
    + specialize (IH1 eq_refl). lia.
Qed.

Lemma locate_Some sizes off k r :
  0 ≤ off → locate sizes off = Some (k, r) →
  ∃ s, sizes !! k = Some s ∧ 0 ≤ r < s ∧ off = zsum (take k sizes) + r.
Proof.
  revert off k. induction sizes as [|s ss IH]; intros off k Hoff H; [done|].
  cbn [locate] in H. destruct (Z.ltb_spec off s).
  - injection H as <- <-. exists s. cbn. split; [done|lia].
  - destruct (locate ss (off - s)) as [[j q]|] eqn:E; [|done].
    cbn in H. injection H as <- <-.
    destruct (IH (off - s) j ltac:(lia) E) as (t & Ht & Hr & Heq).
    exists t. cbn [take]. rewrite zsum_cons. repeat split; try done; lia.
Qed.

Lemma locate_at sizes k s r :
  Forall (λ x, 0 ≤ x) sizes → sizes !! k = Some s → 0 ≤ r < s →
  locate sizes (zsum (take k sizes) + r) = Some (k, r).
Proof.
  intros H. revert k. induction H as [|t ss Ht Hss IH]; intros k Hk Hr; [done|].
  destruct k as [|k]; cbn [take locate].
  - injection Hk as ->. cbn. bool_cases. do 2 f_equal; lia.
  - rewrite zsum_cons. pose proof (zsum_nonneg _ (Forall_take _ k _ Hss)).
    bool_cases. replace (t + zsum (take k ss) + r - t) with (zsum (take k ss) + r) by lia.
    by rewrite (IH k Hk Hr).
Qed.

(** Reading the concatenation at the start of the k-th list plus r. *)
Lemma concat_lookup {A} (ls : list (list A)) k l r :
  ls !! k = Some l → (r < length l)%nat →
  concat ls !! (length (concat (take k ls)) + r)%nat = l !! r.
Proof.
  revert k. induction ls as [|l' ls IH]; intros [|k] Hk Hr; try done; cbn in *.
  - injection Hk as ->. by rewrite lookup_app_l.
  - rewrite length_app, <- Nat.add_assoc, lookup_app_r by lia.
    rewrite <- (IH k Hk Hr). f_equal. lia.
Qed.

(** ** The search loop *)

Lemma find_loop_spec b fuel k off :
  cb_wf b → (k ≤ length (cb_entries b))%nat →
  (length (cb_entries b) - k < fuel)%nat → 0 ≤ off < 2 ^ 64 →
  find_loop fuel b (out_offs b + Z.of_nat k) (CB_LOOP_UPPER_BOUNDARY b) off =
  Ok ('(j, r) ← locate (drop k (e_size <$> cb_entries b)) off;
      Some (slot b (k + j), r)).
Proof.
  intros Hwf. rewrite (cb_upper_boundary b Hwf).
  pose proof (cb_out_range b Hwf). pose proof (cb_entries_length b Hwf).
  pose proof (wf_in b Hwf).
  revert k off. induction fuel as [|fuel IH]; intros k off Hk Hfuel Hoff; [lia|].
  cbn [find_loop]. destruct (Z.ltb_spec (out_offs b + Z.of_nat k)
    (out_offs b + Z.of_nat (length (cb_entries b)))).
  - destruct (lookup_lt_is_Some_2 (cb_entries b) k ltac:(lia)) as [e He].
    pose proof (cb_sizes_range b k e Hwf He).
    pose proof (cb_slot_entry b k e Hwf He) as Hget. unfold slot in Hget.
    unfold CB_POINTER_CAST, LENGTH, AESDCHAR_MAX_WRITE_OPERATIONS_SUPPORTED.
    res_step. erewrite (drop_S _ (e_size e)) by (by rewrite list_lookup_fmap, He).
    cbn [locate]. bool_cases.
    + cbn. by rewrite Nat.add_0_r.
    + rewrite u8_id by (destruct (full b); lia). rewrite u64_id by lia.
      replace (out_offs b + Z.of_nat k + 1) with (out_offs b + Z.of_nat (S k)) by lia.
      rewrite IH by lia.
      destruct (locate _ _) as [[j r]|]; [|done]. cbn. by rewrite Nat.add_succ_r.
  - replace k with (length (cb_entries b)) by lia.
    rewrite drop_ge by (rewrite length_fmap; lia). done.
Qed.

Lemma find_spec b off :
  cb_wf b → 0 ≤ off < 2 ^ 64 →
  aesd_circular_buffer_find_entry_offset_for_fpos b off =
  Ok ('(k, r) ← locate (e_size <$> cb_entries b) off; Some (slot b k, r)).
Proof.
  intros Hwf Hoff. pose proof (cb_entries_length b Hwf). pose proof (wf_in b Hwf).
  unfold aesd_circular_buffer_find_entry_offset_for_fpos.
  replace (out_offs b) with (out_offs b + Z.of_nat 0) by lia.
  rewrite find_loop_spec; [done|done|lia| |done].
  unfold u8_fuel. destruct (full b); lia.
Qed.

(** ** Adding an entry *)

Lemma push_length {A} (l : list A) x :
  (length l ≤ 10)%nat → (length (push l x) ≤ 10)%nat.
Proof. unfold push. case_decide; rewrite length_app; destruct l; cbn in *; lia. Qed.

Lemma CB_POINTER_INC_spec i :
  0 ≤ i < 10 → CB_POINTER_INC i = if i =? 9 then 0 else i + 1.
Proof.
  intros Hi. unfold CB_POINTER_INC, LENGTH, AESDCHAR_MAX_WRITE_OPERATIONS_SUPPORTED.
  destruct (Z.eqb_spec i 9) as [->|]; [done|].
  rewrite (Z.mod_small (i + 1)), u8_id by lia. lia.
Qed.

(** The ring with [e] stored in the slot [in_offs]. *)
Definition cb_added (b : aesd_circular_buffer) (e : aesd_buffer_entry)
    : aesd_circular_buffer :=
  let in_ := CB_POINTER_INC (in_offs b) in
  let out := if full b then CB_POINTER_INC (out_offs b) else out_offs b in
  CircBuf (<[Z.to_nat (in_offs b) := e]> (entry b)) in_ out (in_ =? out)
    (u64 (zsum (e_size <$> <[Z.to_nat (in_offs b) := e]> (entry b)))).

Lemma add_entry_run b e :
  cb_wf b →
  aesd_circular_buffer_add_entry b e =
  Ok (if full b then from_option buffptr 0 (head (cb_entries b)) else 0, cb_added b e).
Proof.
  intros Hwf. pose proof Hwf as [Hlen Hin Hout Hfree Hsz Hsum].
  destruct (lookup_lt_is_Some_2 (entry b) (Z.to_nat (in_offs b)) ltac:(lia)) as [c Hc].
  pose proof (arr_get_Some (entry b) (in_offs b) c ltac:(lia) Hc) as Hget.
  assert (u64 (cb_size b + u64 (e_size e - e_size c)) =
          u64 (zsum (e_size <$> <[Z.to_nat (in_offs b) := e]> (entry b)))) as Hnew.
  { rewrite Hsum, u64_add_l, u64_add_r, list_fmap_insert.
    erewrite zsum_insert by (by rewrite list_lookup_fmap, Hc). f_equal. lia. }
  unfold aesd_circular_buffer_add_entry, cb_added. rewrite Hget. rewrite <- Hnew.
  destruct (full b) eqn:Hf; cbn [mbind res_bind mret res_ret];
    rewrite arr_set_in by lia; cbn [mbind res_bind]; [|done].
  do 3 f_equal. unfold cb_entries. rewrite Hf, Hout.
  rewrite (drop_S _ c) by done. done.
Qed.

Lemma cb_added_wf b e :
  cb_wf b → 0 ≤ e_size e < 2 ^ 64 → cb_wf (cb_added b e).
Proof.
  intros [Hlen Hin Hout Hfree Hsz Hsum] He.
  pose proof (CB_POINTER_INC_spec (in_offs b) Hin) as Hinc.
  split; unfold cb_added; cbn [entry in_offs out_offs full cb_size].
  - by rewrite length_insert.
  - rewrite Hinc. bool_cases.
  - rewrite Hout. destruct (full b); bool_cases; done.
  - rewrite Hout. destruct (full b); [by rewrite Z.eqb_refl|].
    rewrite Hinc. intros Hne i Hi. revert Hne Hi.
    destruct (Z.eqb_spec (in_offs b) 9); [done|]. intros _ Hi.
    rewrite list_lookup_insert_ne by lia. apply Hfree; [done|lia].
  - by apply Forall_insert.
  - done.
Qed.

(** The full ring drops its oldest entry... *)
Lemma cb_added_entries_full b e :
  cb_wf b → full b = true → cb_entries (cb_added b e) = tail (cb_entries b) ++ [e].
Proof.
  intros Hwf Hf. destruct Hwf as [Hlen Hin Hout _ _ _]. rewrite Hf in Hout.
  pose proof (CB_POINTER_INC_spec (in_offs b) Hin) as Hinc.
  unfold cb_entries, cb_added; cbn [entry in_offs out_offs full cb_size].
  rewrite Hf, Hout, Z.eqb_refl, Hinc.
  set (p := Z.to_nat (in_offs b)) in *. assert (p < 10)%nat as Hp by lia.
  destruct (lookup_lt_is_Some_2 (entry b) p ltac:(lia)) as [c Hc].
  rewrite (drop_S _ c p) by done. cbn [tail app]. bool_cases.
  - replace p with 9%nat by lia.
    rewrite take_0, app_nil_r, drop_0, (drop_ge (entry b)) by lia. cbn [app].
    rewrite insert_take_drop by lia. by rewrite (drop_ge (entry b)) by lia.
  - replace (Z.to_nat (in_offs b + 1)) with (S p) by lia.
    rewrite insert_take_drop by lia.
    rewrite drop_app_ge, take_app_ge by (rewrite length_take; lia).
    rewrite length_take. replace (S p - p `min` length (entry b))%nat with 1%nat by lia.
    cbn. by rewrite app_assoc.
Qed.

(** ... and the ring that is not full keeps them all. *)
Lemma cb_added_entries_free b e :
  cb_wf b → full b = false → cb_entries (cb_added b e) = cb_entries b ++ [e].
Proof.
  intros Hwf Hf. destruct Hwf as [Hlen Hin Hout _ _ _]. rewrite Hf in Hout.
  pose proof (CB_POINTER_INC_spec (in_offs b) Hin) as Hinc.
  unfold cb_entries, cb_added; cbn [entry in_offs out_offs full cb_size].
  rewrite Hf, Hout, Hinc.
  destruct (Z.eqb_spec (in_offs b) 9) as [->|]; [|rewrite (proj2 (Z.eqb_neq _ _)) by lia].
  - rewrite Z.eqb_refl. change (Z.to_nat 0) with 0%nat.
    rewrite drop_0, take_0, app_nil_r, insert_take_drop by lia.
    by rewrite (drop_ge (entry b)) by lia.
  - rewrite insert_take_drop by lia.
    rewrite take_app_ge by (rewrite length_take; lia). rewrite length_take.
    by replace (Z.to_nat (in_offs b + 1) - _)%nat with 1%nat by lia.
Qed.

Lemma cb_added_entries b e :
  cb_wf b → cb_entries (cb_added b e) = push (cb_entries b) e.
Proof.
  intros Hwf. pose proof (cb_entries_length b Hwf). pose proof (wf_in b Hwf).
  unfold push. destruct (full b) eqn:Hf.
  - rewrite decide_False by lia. by apply cb_added_entries_full.
  - rewrite decide_True by lia. by apply cb_added_entries_free.
Qed.

(** The sequence of calls that adds the entries [es], with the pointers the
    calls return. *)
Fixpoint add_all (b : aesd_circular_buffer) (es : list aesd_buffer_entry)
    : res (list Z * aesd_circular_buffer) :=
  match es with
  | [] => mret ([], b)
  | e :: es =>
    '(old, b) ← aesd_circular_buffer_add_entry b e;
    '(olds, b) ← add_all b es;
    mret (old :: olds, b)
  end.

(** What adding [es] to the live entries [l] returns and leaves. *)
Definition evicted (l es : list aesd_buffer_entry) : list Z :=
  replicate (length es `min` (10 - length l)) 0
    ++ (buffptr <$> take (length l + length es - 10) (l ++ es)).

Definition last_ten {A} (l : list A) : list A := drop (length l - 10) l.

Lemma evicted_cons l e es :
  (length l ≤ 10)%nat →
  evicted l (e :: es) =
  (if decide (length l < 10)%nat then 0 else from_option buffptr 0 (head l))
    :: evicted (push l e) es.
Proof.
  intros Hl. unfold evicted, push. case_decide.
  - rewrite !length_app. cbn [length].
    replace (S (length es) `min` (10 - length l))%nat
      with (S (length es `min` (10 - (length l + 1))))%nat by lia.
    rewrite <- app_assoc. cbn [replicate app]. do 4 f_equal. lia.
  - destruct l as [|x l]; [cbn in *; lia|]. cbn [tail head from_option].
    rewrite !length_app. cbn [length] in *.
    replace (10 - S (length l))%nat with 0%nat by lia.
    replace (10 - (length l + 1))%nat with 0%nat by lia.
    rewrite !Nat.min_0_r, <- app_assoc. cbn [replicate app].
    replace (S (length l) + S (length es) - 10)%nat
      with (S (length l + 1 + length es - 10)) by lia. done.
Qed.

Lemma last_ten_push {A} (l es : list A) e :
  (length l ≤ 10)%nat → last_ten (push l e ++ es) = last_ten (l ++ e :: es).
Proof.
  intros Hl. unfold last_ten, push. case_decide.
  - by rewrite <- app_assoc.
  - destruct l as [|x l]; [cbn in *; lia|]. cbn [tail].
    rewrite <- app_assoc, !length_app. cbn [length app] in *.
    replace (S (length l) + S (length es) - 10)%nat
      with (S (length l + S (length es) - 10)) by lia. done.
Qed.

Lemma cb_entries_le b : cb_wf b → (length (cb_entries b) ≤ 10)%nat.
Proof.
  intros Hwf. pose proof (cb_entries_length b Hwf). pose proof (wf_in b Hwf).
  destruct (full b); lia.
Qed.

Lemma full_iff_ten b : cb_wf b → full b = bool_decide (¬ length (cb_entries b) < 10)%nat.
Proof.
  intros Hwf. pose proof (cb_entries_length b Hwf). pose proof (wf_in b Hwf).
  destruct (full b); symmetry; [apply bool_decide_eq_true | apply bool_decide_eq_false]; lia.
Qed.

Lemma add_all_spec b es :
  cb_wf b → Forall (λ e, 0 ≤ e_size e < 2 ^ 64) es →
  ∃ b', add_all b es = Ok (evicted (cb_entries b) es, b')
    ∧ cb_wf b' ∧ cb_entries b' = last_ten (cb_entries b ++ es).
Proof.
  intros Hwf Hes. revert b Hwf. induction Hes as [|e es He Hes IH]; intros b Hwf;
    pose proof (cb_entries_le b Hwf).
  - exists b. rewrite app_nil_r. unfold last_ten, evicted. cbn [length].
    replace (length (cb_entries b) + 0 - 10)%nat with 0%nat by lia.
    by replace (length (cb_entries b) - 10)%nat with 0%nat by lia.
  - destruct (IH (cb_added b e) (cb_added_wf b e Hwf He)) as (b' & Hrun & Hwf' & Hb').
    rewrite cb_added_entries, last_ten_push in Hb' by done.
    exists b'. split; [|done]. cbn [add_all]. rewrite (add_entry_run b e Hwf).
    cbn [mbind res_bind]. rewrite Hrun. cbn [mbind res_bind mret res_ret].
    rewrite evicted_cons, cb_added_entries, full_iff_ten by done. repeat f_equal.
    by repeat case_decide.
Qed.

(** ** Jumping to an entry *)

(** The bytes held by the live entries. *)
Definition cb_total (b : aesd_circular_buffer) : Z := zsum (e_size <$> cb_entries b).

(** The counter of the jump loop is compared with [ind] before it is reduced, so
    the loop stops at [ind] only when the scan reaches that slot without
    wrapping; otherwise it sums every live entry. *)
Definition jmp_stop (b : aesd_circular_buffer) (ind : Z) : nat :=
  if (out_offs b <=? ind) && (ind <? out_offs b + Z.of_nat (length (cb_entries b)))
  then Z.to_nat (ind - out_offs b)
  else length (cb_entries b).

Lemma jmp_loop_spec b fuel k ind pos :
  cb_wf b → (k ≤ jmp_stop b ind)%nat →
  (length (cb_entries b) - k < fuel)%nat →
  0 ≤ pos → pos + zsum (drop k (e_size <$> cb_entries b)) < 2 ^ 63 →
  jmp_loop fuel b (out_offs b + Z.of_nat k) (CB_LOOP_UPPER_BOUNDARY b) ind pos =
  Ok (pos + zsum (take (jmp_stop b ind - k) (drop k (e_size <$> cb_entries b)))).
Proof.
  intros Hwf. rewrite (cb_upper_boundary b Hwf).
  pose proof (cb_out_range b Hwf). pose proof (cb_entries_le b Hwf).
  assert (jmp_stop b ind ≤ length (cb_entries b))%nat as Hstop
    by (unfold jmp_stop; bool_cases; cbn; lia).
  revert k pos. induction fuel as [|fuel IH]; intros k pos Hk Hfuel Hpos Hmax; [lia|].
  cbn [jmp_loop].
  destruct (Z.ltb_spec (out_offs b + Z.of_nat k)
    (out_offs b + Z.of_nat (length (cb_entries b)))) as [Hlt|Hge].
  - destruct (lookup_lt_is_Some_2 (cb_entries b) k ltac:(lia)) as [e He].
    assert (drop k (e_size <$> cb_entries b) =
            e_size e :: drop (S k) (e_size <$> cb_entries b)) as Hd
      by (apply drop_S; by rewrite list_lookup_fmap, He).
    rewrite Hd, zsum_cons in Hmax.
    pose proof (zsum_nonneg _ (Forall_drop _ (S k) _ (cb_sizes_nonneg b Hwf))).
    pose proof (cb_sizes_range b k e Hwf He).
    destruct (Z.eqb_spec (out_offs b + Z.of_nat k) ind) as [Hi|Hi].
    + replace (jmp_stop b ind) with k; [rewrite Nat.sub_diag, take_0; cbn; f_equal; lia|].
      unfold jmp_stop. bool_cases; cbn; lia.
    + assert (S k ≤ jmp_stop b ind)%nat.
      { revert Hk. unfold jmp_stop. bool_cases; cbn; lia. }
      pose proof (cb_slot_entry b k e Hwf He) as Hget. unfold slot in Hget.
      unfold CB_POINTER_CAST, LENGTH, AESDCHAR_MAX_WRITE_OPERATIONS_SUPPORTED.
      res_step. rewrite u8_id, s64_id by lia.
      replace (out_offs b + Z.of_nat k + 1) with (out_offs b + Z.of_nat (S k)) by lia.
      rewrite IH, Hd by lia.
      replace (jmp_stop b ind - k)%nat with (S (jmp_stop b ind - S k)) by lia.
      cbn [take]. rewrite zsum_cons. f_equal. lia.
  - rewrite (drop_ge _ k), take_nil by (rewrite length_fmap; lia). cbn. f_equal. lia.
Qed.

(** The result of the jump on a live entry: the start of the entry, when the
    scan does not wrap to reach it, and otherwise the end of the contents. *)
Definition jmp_start (b : aesd_circular_buffer) (k : nat) : Z :=
  if out_offs b + Z.of_nat k <? 10 then zsum (take k (e_size <$> cb_entries b))
  else cb_total b.

Lemma jmp_stop_slot b k :
  cb_wf b → (k < length (cb_entries b))%nat →
  jmp_stop b (slot b k) =
  if out_offs b + Z.of_nat k <? 10 then k else length (cb_entries b).
Proof.
  intros Hwf Hk. pose proof (cb_out_range b Hwf). pose proof (cb_entries_le b Hwf).
  unfold jmp_stop, slot. destruct (Z.ltb_spec (out_offs b + Z.of_nat k) 10).
  - rewrite Z.mod_small by lia. bool_cases; cbn; lia.
  - replace ((out_offs b + Z.of_nat k) mod 10) with (out_offs b + Z.of_nat k - 10)
      by (apply Z.mod_unique with 1; lia).
    bool_cases; cbn; lia.
Qed.

Lemma cb_total_prefix b k :
  cb_wf b → 0 ≤ zsum (take k (e_size <$> cb_entries b)) ≤ cb_total b.
Proof.
  intros Hwf. pose proof (cb_sizes_nonneg b Hwf) as Hnn. split.
  - by apply zsum_nonneg, Forall_take.
  - by apply zsum_take_le.
Qed.

(** A slot past the live entries is zeroed. *)
Lemma cb_dead_slot b k :
  cb_wf b → 0 ≤ k < 10 → Z.of_nat (length (cb_entries b)) ≤ k →
  arr_get (entry b) (u8 (CB_POINTER_CAST (out_offs b + k))) = Ok zero_entry.
Proof.
  intros Hwf Hk Hn. rewrite (cb_entries_length b Hwf) in Hn.
  destruct Hwf as [Hlen Hin Hout Hfree _ _]. destruct (full b); [lia|].
  unfold CB_POINTER_CAST, LENGTH, AESDCHAR_MAX_WRITE_OPERATIONS_SUPPORTED.
  rewrite Hout, Z.mod_small, u8_id by lia.
  apply arr_get_Some; [lia|]. by apply Hfree; [|lia].
Qed.

Lemma jmp_run_loop b k :
  cb_wf b → (k < length (cb_entries b))%nat → cb_total b < 2 ^ 63 →
  jmp_loop u8_fuel b (out_offs b) (CB_LOOP_UPPER_BOUNDARY b) (slot b k) 0 =
  Ok (jmp_start b k).
Proof.
  intros Hwf Hk Htot. pose proof (cb_entries_le b Hwf).
  replace (out_offs b) with (out_offs b + Z.of_nat 0) at 1 by lia.
  rewrite jmp_loop_spec; [|done|lia|unfold u8_fuel; lia|lia|done].
  rewrite drop_0, Nat.sub_0_r, jmp_stop_slot by done. unfold jmp_start.
  destruct (_ <? 10); [done|].
  by rewrite take_ge by (rewrite length_fmap; lia).
Qed.

Lemma cast_slot b k :
  0 ≤ k → u8 (CB_POINTER_CAST (out_offs b + k)) = slot b (Z.to_nat k).
Proof.
  intros Hk. pose proof (slot_range b (Z.to_nat k)) as Hr. unfold slot in *.
  rewrite Z2Nat.id in * by done.
  apply u8_id. change (0 ≤ (out_offs b + k) mod 10 < 256). lia.
Qed.

(** A byte of a live entry is within the contents. *)
Lemma cb_total_entry b k e :
  cb_wf b → cb_entries b !! k = Some e → e_size e ≤ cb_total b.
Proof.
  intros Hwf He. pose proof (cb_total_prefix b (S k) Hwf) as Hp.
  pose proof (cb_total_prefix b k Hwf).
  erewrite take_S_r in Hp by (by rewrite list_lookup_fmap, He).
  rewrite zsum_app, zsum_cons in Hp. change (zsum []) with 0 in Hp. lia.
Qed.

Lemma jmp_start_range b k : cb_wf b → 0 ≤ jmp_start b k ≤ cb_total b.
Proof.
  intros Hwf. unfold jmp_start. pose proof (cb_total_prefix b k Hwf).
  destruct (_ <? 10); lia.
Qed.

Lemma jmp_spec b k o :
  cb_wf b → 0 ≤ k → 0 ≤ o → cb_total b < 2 ^ 62 →
  aesd_circular_buffer_jmp_entry_offset b k o =
  Ok (match cb_entries b !! Z.to_nat k with
      | Some e =>
          if (buffptr e =? 0) || (e_size e <=? o) then - EINVAL
          else jmp_start b (Z.to_nat k) + o
      | None => - EINVAL
      end).
Proof.
  intros Hwf Hk Ho Htot. pose proof (cb_entries_le b Hwf).
  unfold aesd_circular_buffer_jmp_entry_offset.
  rewrite (proj2 (Z.ltb_ge k 0)), (proj2 (Z.ltb_ge o 0)) by done. cbn [orb].
  destruct (cb_entries b !! Z.to_nat k) as [e|] eqn:He.
  - pose proof (lookup_lt_Some _ _ _ He) as Hlt.
    pose proof (cb_sizes_range b _ e Hwf He). pose proof (cb_total_entry b _ e Hwf He).
    rewrite (proj2 (Z.leb_gt LENGTH k))
      by (unfold LENGTH, AESDCHAR_MAX_WRITE_OPERATIONS_SUPPORTED; lia).
    rewrite cast_slot, (cb_slot_entry b _ e) by done. cbn [mbind res_bind].
    rewrite orb_false_r. destruct (Z.eqb_spec (buffptr e) 0); [done|]. cbn [orb].
    destruct (Z.leb_spec (e_size e) o); [by rewrite orb_true_r|].
    rewrite (proj2 (Z.eqb_neq (e_size e) 0)) by lia. cbn [orb].
    rewrite jmp_run_loop by (done || lia). cbn [mbind res_bind].
    pose proof (jmp_start_range b (Z.to_nat k) Hwf). rewrite s64_id by lia. done.
  - apply lookup_ge_None in He.
    destruct (Z.leb_spec LENGTH k) as [|Hlt]; [done|].
    unfold LENGTH, AESDCHAR_MAX_WRITE_OPERATIONS_SUPPORTED in Hlt.
    by rewrite cb_dead_slot by (done || lia).
Qed.

(** ** Properties of the ring *)

(** C14: the search finds the byte at [char_offset] of the concatenation of the
    live entries, oldest first: a result names a slot and a byte of it that hold
    exactly that byte, and [NULL] means the offset is past the contents.  The
    search always returns. *)
Theorem find_reads_concatenation
    (b : aesd_circular_buffer) (mem : aesd_buffer_entry → list Z) (char_offset : Z)
    (Hwf : cb_wf b)
    (Hmem : ∀ k e, cb_entries b !! k = Some e → Z.of_nat (length (mem e)) = e_size e)
    (Hoff : 0 ≤ char_offset < 2 ^ 64) :
  ∃ r, aesd_circular_buffer_find_entry_offset_for_fpos b char_offset = Ok r ∧
    match r with
    | Some (ind, byte) =>
        ∃ e x, arr_get (entry b) ind = Ok e
          ∧ mem e !! Z.to_nat byte = Some x
          ∧ concat (mem <$> cb_entries b) !! Z.to_nat char_offset = Some x
    | None => Z.of_nat (length (concat (mem <$> cb_entries b))) ≤ char_offset
    end.
Proof.
  rewrite find_spec by done. eexists. split; [done|].
  assert (e_size <$> cb_entries b =
          (λ l, Z.of_nat (length l)) <$> (mem <$> cb_entries b)) as Hsz.
  { rewrite <- list_fmap_compose. apply list_fmap_ext. intros k e He. cbn.
    symmetry. by eapply Hmem. }
  destruct (locate _ _) as [[k r]|] eqn:Hl; cbn [mbind option_bind].
  - apply locate_Some in Hl as (s & Hs & Hr & Heq); [|lia].
    apply list_lookup_fmap_Some in Hs as (e & -> & He).
    pose proof (Hmem k e He) as Hlen.
    destruct (lookup_lt_is_Some_2 (mem e) (Z.to_nat r) ltac:(lia)) as [x Hx].
    exists e, x. split; [by apply cb_slot_entry|]. split; [done|].
    rewrite <- Hx, <- (concat_lookup (mem <$> cb_entries b) k (mem e))
      by (lia || by rewrite list_lookup_fmap, He).
    f_equal. rewrite Hsz, <- fmap_take, zsum_concat in Heq. lia.
  - apply locate_None in Hl; [|by apply cb_sizes_nonneg|lia].
    by rewrite <- zsum_concat, <- Hsz.
Qed.

(** A ring that has wrapped: eleven entries of sizes 1 to 11 were added, so the
    oldest live entry is the second one, in slot 1. *)
Definition wrapped_ring : aesd_circular_buffer :=
  CircBuf (Entry 111 11 :: ((λ n, Entry (100 + n) n) <$> [2; 3; 4; 5; 6; 7; 8; 9; 10]))
    1 1 true 65.

Lemma wrapped_ring_wf : cb_wf wrapped_ring.
Proof. split; try done. cbn. forall_lia. Qed.

Lemma wrapped_ring_reached :
  add_all aesd_circular_buffer_init
    ((λ n, Entry (100 + n) n) <$> [1; 2; 3; 4; 5; 6; 7; 8; 9; 10; 11]) =
  Ok (replicate 10 0 ++ [101], wrapped_ring).
Proof. vm_compute. reflexivity. Qed.

Definition find_reads_mem (e : aesd_buffer_entry) : list Z :=
  replicate (Z.to_nat (e_size e)) (buffptr e).

Lemma find_reads_concatenation_witness :
  ∃ r, aesd_circular_buffer_find_entry_offset_for_fpos wrapped_ring 60 = Ok r ∧
    match r with
    | Some (ind, byte) =>
        ∃ e x, arr_get (entry wrapped_ring) ind = Ok e
          ∧ find_reads_mem e !! Z.to_nat byte = Some x
          ∧ concat (find_reads_mem <$> cb_entries wrapped_ring) !! Z.to_nat 60 = Some x
    | None => Z.of_nat (length (concat (find_reads_mem <$> cb_entries wrapped_ring))) ≤ 60
    end.
Proof.
  apply (find_reads_concatenation wrapped_ring find_reads_mem 60).
  - apply wrapped_ring_wf.
  - intros k e He. pose proof (cb_sizes_range _ _ _ wrapped_ring_wf He).
    unfold find_reads_mem. rewrite length_replicate. lia.
  - lia.
Defined.

(** C15: adding any sequence of entries to a fresh ring keeps exactly the last
    ten, in order, and hands back the pointers of the others in the order they
    were added, each when its slot is reused; the ring stays well formed, so the
    [size] it maintains is the number of bytes held. *)
Theorem ring_keeps_last_ten (es : list aesd_buffer_entry)
    (Hes : Forall (λ e, 0 ≤ e_size e < 2 ^ 64) es) :
  ∃ b, add_all aesd_circular_buffer_init es =
      Ok (replicate (length es `min` 10) 0 ++ (buffptr <$> take (length es - 10) es), b)
    ∧ cb_entries b = drop (length es - 10) es
    ∧ cb_wf b
    ∧ cb_size b = u64 (zsum (e_size <$> drop (length es - 10) es)).
Proof.
  destruct (add_all_spec _ es cb_init_wf Hes) as (b & Hrun & Hwf & Hb).
  exists b. split; [by rewrite Hrun|]. split; [by rewrite Hb|]. split; [done|].
  by rewrite cb_size_live, Hb.
Qed.

Lemma ring_keeps_last_ten_witness :
  let es := (λ n, Entry (100 + n) n) <$> [1; 2; 3; 4; 5; 6; 7; 8; 9; 10; 11] in
  ∃ b, add_all aesd_circular_buffer_init es =
      Ok (replicate (length es `min` 10) 0 ++ (buffptr <$> take (length es - 10) es), b)
    ∧ cb_entries b = drop (length es - 10) es
    ∧ cb_wf b
    ∧ cb_size b = u64 (zsum (e_size <$> drop (length es - 10) es)).
Proof.
  apply ring_keeps_last_ten. cbn. forall_lia.
Defined.

(** C23: while the scan does not wrap, jumping to byte [o] of the k-th live entry
    gives a position that the search maps back to that entry and that byte. *)
Theorem jmp_find_roundtrip (b : aesd_circular_buffer) (k o : Z) (e : aesd_buffer_entry)
    (Hwf : cb_wf b) (Htot : cb_total b < 2 ^ 62)
    (Hk : 0 ≤ k) (He : cb_entries b !! Z.to_nat k = Some e) (Hp : buffptr e ≠ 0)
    (Ho : 0 ≤ o < e_size e) (Hnowrap : out_offs b + k < 10) :
  ∃ pos, aesd_circular_buffer_jmp_entry_offset b k o = Ok pos
    ∧ 0 ≤ pos < cb_total b
    ∧ aesd_circular_buffer_find_entry_offset_for_fpos b pos =
        Ok (Some (out_offs b + k, o)).
Proof.
  pose proof (jmp_start_range b (Z.to_nat k) Hwf).
  pose proof (cb_sizes_nonneg b Hwf) as Hnn.
  assert ((e_size <$> cb_entries b) !! Z.to_nat k = Some (e_size e)) as Hs
    by (by rewrite list_lookup_fmap, He).
  exists (jmp_start b (Z.to_nat k) + o).
  rewrite jmp_spec, He by (done || lia).
  rewrite (proj2 (Z.eqb_neq _ _) Hp), (proj2 (Z.leb_gt _ _)) by lia.
  assert (jmp_start b (Z.to_nat k) + o < cb_total b).
  { unfold cb_total. apply Z.nle_gt. intros Hle.
    apply locate_None in Hle; [|done|lia]. revert Hle. unfold jmp_start.
    rewrite (proj2 (Z.ltb_lt _ _)) by lia. by erewrite locate_at. }
  split; [done|]. split; [lia|]. rewrite find_spec by (done || lia).
  unfold jmp_start. rewrite (proj2 (Z.ltb_lt _ _)) by lia.
  erewrite locate_at by done. cbn. unfold slot. rewrite Z2Nat.id by lia.
  rewrite Z.mod_small by (pose proof (cb_out_range b Hwf); lia). done.
Qed.

Lemma jmp_find_roundtrip_witness :
  ∃ pos, aesd_circular_buffer_jmp_entry_offset wrapped_ring 3 2 = Ok pos
    ∧ 0 ≤ pos < cb_total wrapped_ring
    ∧ aesd_circular_buffer_find_entry_offset_for_fpos wrapped_ring pos =
        Ok (Some (out_offs wrapped_ring + 3, 2)).
Proof.
  apply (jmp_find_roundtrip wrapped_ring 3 2 (Entry 105 5)); try done.
  apply wrapped_ring_wf.
Defined.

(** C29: once the ring has wrapped, jumping to a live entry whose slot lies before
    [out_offs] does not find it: the counter is compared with the reduced index
    but is not reduced itself, so the position returned is past the end of the
    contents and the next search at it finds nothing. *)
Theorem jmp_wrapped_overshoots (b : aesd_circular_buffer) (k o : Z) (e : aesd_buffer_entry)
    (Hwf : cb_wf b) (Htot : cb_total b < 2 ^ 62)
    (Hk : 0 ≤ k) (He : cb_entries b !! Z.to_nat k = Some e) (Hp : buffptr e ≠ 0)
    (Ho : 0 ≤ o < e_size e) (Hwrap : 10 ≤ out_offs b + k) :
  aesd_circular_buffer_jmp_entry_offset b k o = Ok (cb_total b + o)
  ∧ aesd_circular_buffer_find_entry_offset_for_fpos b (cb_total b + o) = Ok None.
Proof.
  pose proof (cb_total_entry b _ e Hwf He).
  pose proof (zsum_nonneg _ (cb_sizes_nonneg b Hwf)) as Hnn. fold (cb_total b) in Hnn.
  split.
  - rewrite jmp_spec, He by (done || lia).
    rewrite (proj2 (Z.eqb_neq _ _) Hp), (proj2 (Z.leb_gt _ _)) by lia. cbn [orb].
    unfold jmp_start. by rewrite (proj2 (Z.ltb_ge _ _)) by lia.
  - rewrite find_spec by (done || lia).
    rewrite (proj2 (locate_None _ (cb_total b + o) (cb_sizes_nonneg b Hwf) ltac:(lia)));
      [done|unfold cb_total; lia].
Qed.

Lemma jmp_wrapped_overshoots_witness :
  aesd_circular_buffer_jmp_entry_offset wrapped_ring 9 1 = Ok (cb_total wrapped_ring + 1)
  ∧ aesd_circular_buffer_find_entry_offset_for_fpos wrapped_ring (cb_total wrapped_ring + 1)
    = Ok None.
Proof.
  apply (jmp_wrapped_overshoots wrapped_ring 9 1 (Entry 111 11)); try done.
  apply wrapped_ring_wf.
Defined.
