(* ===== verification/RingTypes.v ===== *)
(** * The types of the circular buffer

    The operations of [aesd-char-driver/aesd-circular-buffer.c] on a ring of which
    nothing is known but the C types of its members ([ring_typed]): no caller has to
    keep the offsets in step, or below ten, for a search or a jump to end and to stay
    inside the array; only adding needs [in_offs] to be an index. *)

From S2P Require Import Prelude CircularBuffer.

(** [size_t] and the pointers. *)
Record entry_typed (e : aesd_buffer_entry) : Prop := {
  typed_ptr : 0 ≤ buffptr e < 2 ^ 64;
  typed_size : 0 ≤ e_size e < 2 ^ 64
}.

Record ring_typed (b : aesd_circular_buffer) : Prop := {
  typed_len : length (entry b) = 10%nat;
  typed_entries : Forall entry_typed (entry b);
  typed_in : 0 ≤ in_offs b < 256;
  typed_out : 0 ≤ out_offs b < 256;
  typed_total : 0 ≤ cb_size b < 2 ^ 64
}.

Lemma s64_range x : - 2 ^ 63 ≤ s64 x < 2 ^ 63.
Proof. unfold s64. pose proof (Z.mod_pos_bound (x + 2 ^ 63) (2 ^ 64) ltac:(lia)). lia. Qed.

Lemma CB_POINTER_CAST_range i : 0 ≤ CB_POINTER_CAST i < 10.
Proof. unfold CB_POINTER_CAST. by apply Z.mod_pos_bound. Qed.

Lemma CB_POINTER_INC_range i : 0 ≤ CB_POINTER_INC i < 10.
Proof.
  unfold CB_POINTER_INC, LENGTH, AESDCHAR_MAX_WRITE_OPERATIONS_SUPPORTED.
  pose proof (Z.mod_pos_bound (i + 1) 10 ltac:(lia)). rewrite u8_id by lia. lia.
Qed.

Lemma boundary_range b : ring_typed b → 0 ≤ CB_LOOP_UPPER_BOUNDARY b < 256.
Proof.
  intros Hb. unfold CB_LOOP_UPPER_BOUNDARY. destruct (full b); [apply u8_range|apply Hb].
Qed.

(** A reduced index is inside the array. *)
Lemma typed_get b i : ring_typed b → 0 ≤ i < 10 →
  ∃ e, arr_get (entry b) i = Ok e ∧ entry b !! Z.to_nat i = Some e ∧ entry_typed e.
Proof.
  intros Hb Hi. pose proof (typed_len b Hb).
  destruct (lookup_lt_is_Some_2 (entry b) (Z.to_nat i) ltac:(lia)) as [e He].
  exists e. split; [apply arr_get_Some; [lia|done]|]. split; [done|].
  by eapply (Forall_lookup_1 _ _ _ _ (typed_entries b Hb)).
Qed.

(** The counters are bytes below a byte, so the loops end. *)
Lemma find_loop_typed b fuel i upper off :
  ring_typed b → 0 ≤ i < 256 → 0 ≤ upper < 256 → 0 ≤ off < 2 ^ 64 →
  upper - i < Z.of_nat fuel → (0 < fuel)%nat →
  ∃ r, find_loop fuel b i upper off = Ok r
    ∧ match r with
      | None => True
      | Some (ind, byte) => 0 ≤ ind < 10
          ∧ ∃ e, entry b !! Z.to_nat ind = Some e ∧ 0 ≤ byte < e_size e
      end.
Proof.
  intros Hb. revert i off. induction fuel as [|fuel IH]; intros i off Hi Hu Ho Hf Hf0; [lia|].
  cbn [find_loop]. destruct (Z.ltb_spec i upper); [|by eexists].
  destruct (typed_get b (CB_POINTER_CAST i) Hb (CB_POINTER_CAST_range i)) as (e & He & Hl & _).
  rewrite He. cbn [mbind res_bind]. destruct (Z.ltb_spec off (e_size e)).
  - eexists. split; [done|]. split; [apply CB_POINTER_CAST_range|]. exists e. split; [done|lia].
  - rewrite (u8_id (i + 1)) by lia. apply IH; [lia|done|apply u64_range|lia|lia].
Qed.

Lemma jmp_loop_typed b fuel i upper ind pos :
  ring_typed b → 0 ≤ i < 256 → 0 ≤ upper < 256 → - 2 ^ 63 ≤ pos < 2 ^ 63 →
  upper - i < Z.of_nat fuel → (0 < fuel)%nat →
  ∃ r, jmp_loop fuel b i upper ind pos = Ok r ∧ - 2 ^ 63 ≤ r < 2 ^ 63.
Proof.
  intros Hb. revert i pos. induction fuel as [|fuel IH]; intros i pos Hi Hu Hp Hf Hf0; [lia|].
  cbn [jmp_loop]. destruct (Z.ltb_spec i upper); [|by eexists].
  destruct (Z.eqb_spec i ind); [by eexists|].
  destruct (typed_get b (CB_POINTER_CAST i) Hb (CB_POINTER_CAST_range i)) as (e & He & _).
  rewrite He. cbn [mbind res_bind]. rewrite (u8_id (i + 1)) by lia.
  apply IH; [lia|done|apply s64_range|lia|lia].
Qed.

(** C18: On a ring with any values of the types of its members, a search ends and returns
    [NULL] or an index of the array with an offset inside the size of that entry, a jump
    ends with a value of [loff_t], and adding an entry at an index of the array gives a
    ring of the same types with offsets below ten: no operation leaves the array. *)
Theorem ring_operations_typed b (Hb : ring_typed b) :
  (∀ char_offset, 0 ≤ char_offset < 2 ^ 64 →
    ∃ r, aesd_circular_buffer_find_entry_offset_for_fpos b char_offset = Ok r
      ∧ match r with
        | None => True
        | Some (ind, byte) => 0 ≤ ind < 10
            ∧ ∃ e, entry b !! Z.to_nat ind = Some e ∧ 0 ≤ byte < e_size e
        end)
  ∧ (∀ entrynum offset, 0 ≤ entrynum < 256 → 0 ≤ offset < 2 ^ 64 →
    ∃ r, aesd_circular_buffer_jmp_entry_offset b entrynum offset = Ok r
      ∧ - 2 ^ 63 ≤ r < 2 ^ 63)
  ∧ (∀ e, entry_typed e → in_offs b < 10 →
    ∃ p b', aesd_circular_buffer_add_entry b e = Ok (p, b') ∧ 0 ≤ p < 2 ^ 64
      ∧ ring_typed b' ∧ in_offs b' < 10 ∧ (full b = true → out_offs b' < 10)).
Proof.
  pose proof (boundary_range b Hb). pose proof (typed_in b Hb). pose proof (typed_out b Hb).
  split; [|split].
  - intros off Ho. apply find_loop_typed; unfold u8_fuel; (done || lia).
  - intros n o Hn Ho. unfold aesd_circular_buffer_jmp_entry_offset.
    destruct ((n <? 0) || (LENGTH <=? n)); [by exists (- EINVAL)|].
    pose proof (CB_POINTER_CAST_range (out_offs b + n)) as Hcast. rewrite u8_id by lia.
    destruct (typed_get b _ Hb Hcast) as (e & He & _). rewrite He. cbn [mbind res_bind].
    case_match; [by exists (- EINVAL)|].
    destruct (jmp_loop_typed b u8_fuel (out_offs b) (CB_LOOP_UPPER_BOUNDARY b)
      (CB_POINTER_CAST (out_offs b + n)) 0) as (r & -> & Hr);
      [unfold u8_fuel; (done || lia)..|].
    eexists. split; [done|]. apply s64_range.
  - intros e He Hin. unfold aesd_circular_buffer_add_entry.
    destruct (typed_get b (in_offs b) Hb ltac:(lia)) as (c & Hc & _ & Hct).
    pose proof (typed_len b Hb). pose proof (CB_POINTER_INC_range (in_offs b)).
    pose proof (CB_POINTER_INC_range (out_offs b)). rewrite Hc.
    assert (Forall entry_typed (<[Z.to_nat (in_offs b) := e]> (entry b))) as Hall
      by (apply Forall_insert; [apply Hb|done]).
    destruct (full b); cbn [mbind res_bind mret res_ret]; rewrite arr_set_in by lia;
      cbn [mbind res_bind mret res_ret]; (do 2 eexists); (split; [done|]);
      (split; [by apply Hct || lia|]);
      (split; [split; cbn; rewrite ?length_insert; (done || lia || apply u64_range)|]);
      (split; [cbn; lia|]); cbn; (done || lia).
Qed.

(** A ring in no state the driver reaches: not full, with offsets out of step. *)
Definition odd_ring : aesd_circular_buffer :=
  CircBuf (replicate 10 (Entry 500 (2 ^ 63))) 7 200 false 3.

Lemma odd_ring_typed : ring_typed odd_ring.
Proof. split; cbn; try lia. repeat constructor; cbn; lia. Qed.

Lemma ring_operations_typed_witness :
  ring_typed odd_ring
  ∧ ∃ p b', aesd_circular_buffer_add_entry odd_ring (Entry 1 1) = Ok (p, b') ∧ ring_typed b'.
Proof.
  split; [apply odd_ring_typed|].
  destruct (ring_operations_typed odd_ring odd_ring_typed) as (_ & _ & Ha).
  destruct (Ha (Entry 1 1)) as (p & b' & Hadd & _ & Ht & _); [split; cbn; lia|cbn; lia|].
  exists p, b'. split; [exact Hadd|exact Ht].
Defined.
