(* ===== verification/Memory.v ===== *)
(** * Memory

    A heap is a finite map from the address of a block to the block, in the
    kernel and in a process.  A block knows the size that was requested and the
    bytes that are really there: an allocator may round a request up, and the slack
    holds arbitrary bytes.  An access through the null pointer is [NullDeref], one
    outside of the bytes that are there [OutOfBounds]. *)

From S2P Require Import Prelude.

Record block := Block { blk_size : Z; blk_mem : list Z }.

Abbreviation heap := (gmap Z block).

#[export] Instance block_eq_dec : EqDecision block.
Proof. solve_decision. Defined.

(** ** Access to memory *)

Definition blk_get (h : heap) (p : Z) : res block :=
  if p =? 0 then Err NullDeref
  else match h !! p with Some b => Ok b | None => Err OutOfBounds end.

(** [p[i]] for a [char] pointer [p], as a value and as an assignment. *)
Definition load (h : heap) (p i : Z) : res Z :=
  b ← blk_get h p; arr_get (blk_mem b) i.

Definition store (h : heap) (p i x : Z) : res heap :=
  b ← blk_get h p;
  mem ← arr_set (blk_mem b) i x;
  mret (<[p := Block (blk_size b) mem]> h).

(** [n] bytes from [p + i] on, and a copy of [bs] to [p]. *)
Definition load_bytes (h : heap) (p i n : Z) : res (list Z) :=
  if n =? 0 then mret []
  else
    b ← blk_get h p;
    if (i <? 0) || (n <? 0) || (Z.of_nat (length (blk_mem b)) <? i + n)
    then Err OutOfBounds
    else mret (take (Z.to_nat n) (drop (Z.to_nat i) (blk_mem b))).

Definition store_bytes (h : heap) (p : Z) (bs : list Z) : res heap :=
  if decide (bs = []) then mret h
  else
    b ← blk_get h p;
    if (length (blk_mem b) <? length bs)%nat then Err OutOfBounds
    else mret (<[p := Block (blk_size b) (bs ++ drop (length bs) (blk_mem b))]> h).

(** The first [n] bytes of the block at [p], for specifications. *)
Definition bytes_at (h : heap) (p n : Z) : list Z :=
  match h !! p with Some b => take (Z.to_nat n) (blk_mem b) | None => [] end.

(** ** Facts about memory *)

Lemma blk_get_Some (h : heap) p b : p ≠ 0 → h !! p = Some b → blk_get h p = Ok b.
Proof. intros Hp Hb. unfold blk_get. by rewrite (proj2 (Z.eqb_neq _ _) Hp), Hb. Qed.

Lemma load_in (h : heap) p b i x :
  p ≠ 0 → h !! p = Some b → 0 ≤ i → blk_mem b !! Z.to_nat i = Some x → load h p i = Ok x.
Proof.
  intros Hp Hb Hi Hx. unfold load. rewrite (blk_get_Some h p b) by done.
  by apply arr_get_Some.
Qed.

Lemma load_oob (h : heap) p b i :
  p ≠ 0 → h !! p = Some b → Z.of_nat (length (blk_mem b)) ≤ i →
  load h p i = Err OutOfBounds.
Proof.
  intros Hp Hb Hi. unfold load. rewrite (blk_get_Some h p b) by done.
  by apply arr_get_oob.
Qed.

Lemma store_in (h : heap) p b i x :
  p ≠ 0 → h !! p = Some b → 0 ≤ i < Z.of_nat (length (blk_mem b)) →
  store h p i x = Ok (<[p := Block (blk_size b) (<[Z.to_nat i := x]> (blk_mem b))]> h).
Proof.
  intros Hp Hb Hi. unfold store. rewrite (blk_get_Some h p b) by done.
  cbn [mbind res_bind]. by rewrite arr_set_in.
Qed.

Lemma store_null (h : heap) i x : store h 0 i x = Err NullDeref.
Proof. done. Qed.

Lemma store_bytes_in (h : heap) p b bs :
  p ≠ 0 → h !! p = Some b → (length bs ≤ length (blk_mem b))%nat →
  store_bytes h p bs =
  Ok (<[p := Block (blk_size b) (bs ++ drop (length bs) (blk_mem b))]> h).
Proof.
  intros Hp Hb Hl. unfold store_bytes. case_decide as Hn.
  - subst bs. cbn. rewrite drop_0, insert_id; [done|]. rewrite Hb. by destruct b.
  - rewrite (blk_get_Some h p b) by done. cbn [mbind res_bind].
    by rewrite (proj2 (Nat.ltb_ge _ _) Hl).
Qed.

Lemma load_bytes_in (h : heap) p b i n :
  p ≠ 0 → h !! p = Some b → 0 ≤ i → 0 ≤ n → i + n ≤ Z.of_nat (length (blk_mem b)) →
  load_bytes h p i n = Ok (take (Z.to_nat n) (drop (Z.to_nat i) (blk_mem b))).
Proof.
  intros Hp Hb Hi Hn Hl. unfold load_bytes. destruct (Z.eqb_spec n 0) as [->|].
  - done.
  - rewrite (blk_get_Some h p b) by done. cbn [mbind res_bind].
    by rewrite (proj2 (Z.ltb_ge i 0)), (proj2 (Z.ltb_ge n 0)), (proj2 (Z.ltb_ge _ (i + n)))
      by lia.
Qed.

Lemma bytes_at_insert_ne (h : heap) p q b n :
  p ≠ q → bytes_at (<[q := b]> h) p n = bytes_at h p n.
Proof. intros Hne. unfold bytes_at. by rewrite lookup_insert_ne. Qed.

Lemma bytes_at_delete_ne (h : heap) p q n :
  p ≠ q → bytes_at (delete q h) p n = bytes_at h p n.
Proof. intros Hne. unfold bytes_at. by rewrite lookup_delete_ne. Qed.

Lemma bytes_at_insert_eq (h : heap) p b n :
  bytes_at (<[p := b]> h) p n = take (Z.to_nat n) (blk_mem b).
Proof. unfold bytes_at. by rewrite lookup_insert_eq. Qed.
