(* ===== verification/Kernel.v ===== *)
(** * The kernel services the char driver calls

    The driver runs on Linux, whose code is not part of this repository.  Its
    services are the fields of the class [Kernel]; what the driver relies on,
    as the kernel documents it, is the class [KernelLaws]; the theorems about the
    driver hold for every kernel that satisfies the laws.  [sim_kernel] at the
    end is one such kernel, executable, used to run the driver on concrete
    inputs. *)

From S2P Require Import Prelude.
From S2P Require Import Memory.

(** ** Services *)

Class Kernel := {
  user : Type;                             (* the memory of the calling process *)
  mutex : Type;
  kmalloc : heap → Z → Z * heap;
  krealloc : heap → Z → Z → Z * heap;
  kfree : heap → Z → res heap;
  (* the bytes that end up in the destination, and the count not copied *)
  copy_from_user : user → Z → Z → list Z * Z;
  copy_to_user : user → Z → list Z → user * Z;
  mutex_init : mutex;
  held : mutex → bool;
  mutex_lock_interruptible : mutex → res (Z * mutex);
  mutex_unlock : mutex → res mutex;
  (* f_pos, offset, whence, size to the result and the new f_pos *)
  fixed_size_llseek : Z → Z → Z → Z → Z * Z;
  (* ioctl numbers *)
  IOC_TYPE : Z → Z;
  IOC_NR : Z → Z;
  IOWR : Z → Z → Z → Z;
  (* registration of a device number: the result and the number *)
  alloc_chrdev_region : Z → Z → Z * Z;
  cdev_add : Z → Z → Z;
  MAJOR : Z → Z;
  MKDEV : Z → Z → Z;
  (* the structure a member at an address belongs to *)
  container_of_cdev : Z → Z
}.

Definition SEEK_SET : Z := 0.
Definition SEEK_CUR : Z := 1.
Definition SEEK_END : Z := 2.

(** A block an allocator returns for a request of [n] bytes: at least [n] bytes,
    and less than half of the address space. *)
Definition block_for (n : Z) (b : block) : Prop :=
  blk_size b = n ∧ n ≤ Z.of_nat (length (blk_mem b)) < 2 ^ 63.

Class KernelLaws (K : Kernel) : Prop := {
  kmalloc_null h n h' : 0 ≤ n → kmalloc h n = (0, h') → h' = h;
  (* the result of a request for nothing is no object *)
  kmalloc_zero h p h' : kmalloc h 0 = (p, h') → h' = h ∧ (p = 0 ∨ h !! p = None);
  kmalloc_block h n p h' :
    0 < n → kmalloc h n = (p, h') → p ≠ 0 →
    h !! p = None ∧ ∃ b, block_for n b ∧ h' = <[p := b]> h;
  (* krealloc leaves the block in place when it fails, allocates when there is
     none, and otherwise keeps the contents up to the smaller size *)
  krealloc_null h p n h' : 0 < n → krealloc h p n = (0, h') → h' = h;
  krealloc_new h n q h' :
    0 < n → krealloc h 0 n = (q, h') → q ≠ 0 →
    h !! q = None ∧ ∃ b, block_for n b ∧ h' = <[q := b]> h;
  krealloc_block h p b n q h' :
    0 < n → p ≠ 0 → h !! p = Some b → blk_size b ≤ Z.of_nat (length (blk_mem b)) →
    krealloc h p n = (q, h') → q ≠ 0 →
    (q = p ∨ h !! q = None) ∧
    ∃ b', block_for n b' ∧ h' = <[q := b']> (delete p h) ∧
      take (Z.to_nat (blk_size b `min` n)) (blk_mem b') =
      take (Z.to_nat (blk_size b `min` n)) (blk_mem b);
  kfree_null h : kfree h 0 = Ok h;
  kfree_block h p b : p ≠ 0 → h !! p = Some b → kfree h p = Ok (delete p h);
  copy_from_user_length u a n bs left :
    0 ≤ n → copy_from_user u a n = (bs, left) →
    Z.of_nat (length bs) = n ∧ 0 ≤ left ≤ n;
  copy_to_user_left u a bs u' left :
    copy_to_user u a bs = (u', left) → 0 ≤ left ≤ Z.of_nat (length bs);
  mutex_init_free : held mutex_init = false;
  (* a free lock is taken, or the wait for it is interrupted *)
  mutex_lock_free m :
    held m = false → ∃ rc m', mutex_lock_interruptible m = Ok (rc, m')
      ∧ (rc = 0 ↔ held m' = true);
  mutex_lock_held m : held m = true → mutex_lock_interruptible m = Err Deadlock;
  mutex_unlock_held m :
    held m = true → ∃ m', mutex_unlock m = Ok m' ∧ held m' = false;
  llseek_ok f off whence size target :
    target = (if whence =? SEEK_SET then off
              else if whence =? SEEK_CUR then f + off else size + off) →
    whence = SEEK_SET ∨ whence = SEEK_CUR ∨ whence = SEEK_END →
    0 ≤ target ≤ size → 0 ≤ size < 2 ^ 63 →
    fixed_size_llseek f off whence size = (target, target);
  (* asking for the position moves nothing, wherever it is *)
  llseek_here f size : fixed_size_llseek f 0 SEEK_CUR size = (f, f);
  llseek_bad f off whence size target :
    target = (if whence =? SEEK_SET then off
              else if whence =? SEEK_CUR then f + off else size + off) →
    whence = SEEK_SET ∨ whence = SEEK_CUR ∧ off ≠ 0 ∨ whence = SEEK_END →
    target < 0 ∨ size < target → 0 ≤ size < 2 ^ 63 →
    fixed_size_llseek f off whence size = (-22, f);
  IOC_TYPE_IOWR t n s :
    0 ≤ t < 256 → 0 ≤ n < 256 → 0 ≤ s < 2 ^ 14 → IOC_TYPE (IOWR t n s) = t;
  IOC_NR_IOWR t n s :
    0 ≤ t < 256 → 0 ≤ n < 256 → 0 ≤ s < 2 ^ 14 → IOC_NR (IOWR t n s) = n
}.

(** ** A concrete kernel

    Allocation takes the address above every address in use, fills the block
    with zeros, appends the bytes [slack], and fails for requests above [limit].
    User memory is a list of bytes from address 0 on.  A mutex carries the
    signals that will interrupt the attempts to take it. *)

Record sim_mutex := SimMutex { sm_held : bool; sm_signals : list bool }.

Definition above {A} (h : gmap Z A) : Z := map_fold (λ k _ m, k `max` m) 0 h + 1.

Definition sim_block (slack : list Z) (n : Z) (old : list Z) : block :=
  Block n (take (Z.to_nat n) old
             ++ replicate (Z.to_nat n - length old) 0 ++ slack).

Definition sim_kmalloc (limit : Z) (slack : list Z) (h : heap) (n : Z) : Z * heap :=
  if (limit <? n) || (2 ^ 62 <? n) then (0, h)
  else if n =? 0 then (above h, h)
  else (above h, <[above h := sim_block slack n []]> h).

Definition sim_krealloc (limit : Z) (slack : list Z) (h : heap) (p n : Z) : Z * heap :=
  if p =? 0 then sim_kmalloc limit slack h n
  else match h !! p with
  | Some b =>
      if (limit <? n) || (2 ^ 62 <? n) then (0, h)
      else (above h, <[above h := sim_block slack n
                         (take (Z.to_nat (blk_size b)) (blk_mem b))]> (delete p h))
  | None => sim_kmalloc limit slack h n
  end.

Definition sim_kfree (h : heap) (p : Z) : res heap :=
  if p =? 0 then Ok h
  else match h !! p with Some _ => Ok (delete p h) | None => Err BadFree end.

Definition sim_copy_from_user (u : list Z) (a n : Z) : list Z * Z :=
  let avail := take (Z.to_nat n) (drop (Z.to_nat a) u) in
  (avail ++ replicate (Z.to_nat n - length avail) 0,
   n `max` 0 - Z.of_nat (length avail)).

Definition sim_copy_to_user (u : list Z) (a : Z) (bs : list Z) : list Z * Z :=
  if (Z.to_nat a + length bs <=? length u)%nat
  then (take (Z.to_nat a) u ++ bs ++ drop (Z.to_nat a + length bs) u, 0)
  else (u, Z.of_nat (length bs)).

Definition sim_lock (m : sim_mutex) : res (Z * sim_mutex) :=
  if sm_held m then Err Deadlock
  else match sm_signals m with
       | true :: s => Ok (-4, SimMutex false s)
       | false :: s => Ok (0, SimMutex true s)
       | [] => Ok (0, SimMutex true [])
       end.

Definition sim_unlock (m : sim_mutex) : res sim_mutex :=
  if sm_held m then Ok (SimMutex false (sm_signals m)) else Err Deadlock.

Definition sim_llseek (f off whence size : Z) : Z * Z :=
  if (whence =? SEEK_CUR) && (off =? 0) then (f, f)
  else if (0 <=? whence) && (whence <=? 2) then
    let target := if whence =? SEEK_SET then off
                  else if whence =? SEEK_CUR then f + off else size + off in
    if (0 <=? target) && (target <=? size) then (target, target) else (-22, f)
  else (-22, f).

(** The generic encoding of ioctl numbers: direction, size, type, number. *)
Definition sim_IOWR (t n s : Z) : Z := 3 * 2 ^ 30 + s * 2 ^ 16 + t * 2 ^ 8 + n.

Definition sim_kernel (limit : Z) (slack : list Z) : Kernel := {|
  user := list Z;
  mutex := sim_mutex;
  kmalloc := sim_kmalloc limit slack;
  krealloc := sim_krealloc limit slack;
  kfree := sim_kfree;
  copy_from_user := sim_copy_from_user;
  copy_to_user := sim_copy_to_user;
  mutex_init := SimMutex false [];
  held := sm_held;
  mutex_lock_interruptible := sim_lock;
  mutex_unlock := sim_unlock;
  fixed_size_llseek := sim_llseek;
  IOC_TYPE := λ c, (c / 2 ^ 8) mod 2 ^ 8;
  IOC_NR := λ c, c mod 2 ^ 8;
  IOWR := sim_IOWR;
  alloc_chrdev_region := λ minor _, (0, 240 * 2 ^ 20 + minor);
  cdev_add := λ _ _, 0;
  MAJOR := λ d, d / 2 ^ 20;
  MKDEV := λ ma mi, ma * 2 ^ 20 + mi;
  container_of_cdev := λ p, p
|}.

Lemma above_spec {A} (h : gmap Z A) k b : h !! k = Some b → k < above h.
Proof.
  unfold above. revert k b.
  apply (map_fold_weak_ind (λ m h, ∀ k b, h !! k = Some b → k < m + 1)).
  - done.
  - intros k b h' m Hk IH k' b' H'. destruct (decide (k = k')) as [->|Hne].
    + lia.
    + rewrite lookup_insert_ne in H' by done. specialize (IH k' b' H'). lia.
Qed.

Lemma above_fresh {A} (h : gmap Z A) : h !! above h = None.
Proof.
  destruct (h !! above h) as [b|] eqn:E; [|done]. apply above_spec in E. lia.
Qed.

Lemma above_pos {A} (h : gmap Z A) : 0 < above h.
Proof.
  unfold above. apply (map_fold_weak_ind (λ m _, 0 < m + 1)); [lia|]. intros; lia.
Qed.

Lemma sim_block_for slack n old :
  0 ≤ n ≤ 2 ^ 62 → Z.of_nat (length slack) < 2 ^ 62 → block_for n (sim_block slack n old).
Proof.
  intros Hn Hs. split; [done|]. cbn.
  rewrite !length_app, length_take, length_replicate. lia.
Qed.

Section SimLaws.
Context (limit : Z) (slack : list Z) (Hslack : Z.of_nat (length slack) < 2 ^ 62).

Lemma sim_kmalloc_block h n p h' :
  0 < n → sim_kmalloc limit slack h n = (p, h') → p ≠ 0 →
  h !! p = None ∧ ∃ b, block_for n b ∧ h' = <[p := b]> h.
Proof.
  intros Hn. unfold sim_kmalloc. destruct (Z.ltb_spec limit n); cbn; [congruence|].
  destruct (Z.ltb_spec (2 ^ 62) n); [congruence|].
  rewrite (proj2 (Z.eqb_neq n 0)) by lia. intros [= <- <-] Hp.
  split; [apply above_fresh|]. eexists. split; [apply (sim_block_for slack); [lia|done]|done].
Qed.

Lemma sim_kmalloc_null h n h' :
  sim_kmalloc limit slack h n = (0, h') → h' = h.
Proof.
  unfold sim_kmalloc. destruct (_ || _); [by intros [= <-]|].
  destruct (_ =? 0); intros [= H]; pose proof (above_pos h); lia.
Qed.

Lemma sim_kmalloc_zero h p h' :
  sim_kmalloc limit slack h 0 = (p, h') → h' = h ∧ (p = 0 ∨ h !! p = None).
Proof.
  unfold sim_kmalloc. destruct (_ || _); [intros [= <- <-]; auto|]. intros [= <- <-].
  split; [done|]. right. apply above_fresh.
Qed.

Lemma sim_krealloc_block h p b n q h' :
  0 < n → p ≠ 0 → h !! p = Some b → blk_size b ≤ Z.of_nat (length (blk_mem b)) →
  sim_krealloc limit slack h p n = (q, h') → q ≠ 0 →
  (q = p ∨ h !! q = None) ∧
  ∃ b', block_for n b' ∧ h' = <[q := b']> (delete p h) ∧
    take (Z.to_nat (blk_size b `min` n)) (blk_mem b') =
    take (Z.to_nat (blk_size b `min` n)) (blk_mem b).
Proof.
  intros Hn Hp Hb Hl. unfold sim_krealloc.
  rewrite (proj2 (Z.eqb_neq _ _) Hp), Hb. destruct (_ || _) eqn:E; [congruence|]. intros [= <- <-] Hq.
  apply orb_false_elim in E as [_ E]. apply Z.ltb_ge in E.
  split; [right; apply above_fresh|]. eexists. split; [apply (sim_block_for slack); [lia|done]|].
  split; [done|]. cbn. rewrite take_app_le by (rewrite !length_take; lia).
  rewrite !take_take. f_equal. lia.
Qed.

Lemma sim_copy_from_user_length u a n bs left :
  0 ≤ n → sim_copy_from_user u a n = (bs, left) →
  Z.of_nat (length bs) = n ∧ 0 ≤ left ≤ n.
Proof.
  intros Hn [= <- <-]. rewrite length_app, length_replicate, length_take. lia.
Qed.

Lemma sim_llseek_target f off whence size target :
  target = (if whence =? SEEK_SET then off
            else if whence =? SEEK_CUR then f + off else size + off) →
  whence = SEEK_SET ∨ whence = SEEK_CUR ∧ off ≠ 0 ∨ whence = SEEK_END →
  sim_llseek f off whence size =
  if (0 <=? target) && (target <=? size) then (target, target) else (-22, f).
Proof.
  intros -> [-> | [[-> Hoff] | ->]]; [done| |done]. unfold sim_llseek.
  by rewrite (proj2 (Z.eqb_neq _ _) Hoff), andb_false_r.
Qed.

Lemma sim_IOWR_fields t n s :
  0 ≤ t < 256 → 0 ≤ n < 256 → 0 ≤ s < 2 ^ 14 →
  (sim_IOWR t n s / 2 ^ 8) mod 2 ^ 8 = t ∧ sim_IOWR t n s mod 2 ^ 8 = n.
Proof.
  unfold sim_IOWR. intros Ht Hn Hs.
  replace (3 * 2 ^ 30 + s * 2 ^ 16 + t * 2 ^ 8 + n)
    with (((3 * 2 ^ 14 + s) * 2 ^ 8 + t) * 2 ^ 8 + n) by lia.
  split.
  - rewrite Z.div_add_l, (Z.div_small n) by lia. symmetry.
    apply Z.mod_unique with (3 * 2 ^ 14 + s); lia.
  - symmetry. apply Z.mod_unique with ((3 * 2 ^ 14 + s) * 2 ^ 8 + t); lia.
Qed.

(** The concrete kernel satisfies the laws. *)
Lemma sim_kernel_laws : KernelLaws (sim_kernel limit slack).
Proof.
  split; cbn.
  - intros h n h' _. apply sim_kmalloc_null.
  - apply sim_kmalloc_zero.
  - apply sim_kmalloc_block.
  - intros h p n h' _. unfold sim_krealloc.
    destruct (p =? 0); [apply sim_kmalloc_null|]. destruct (h !! p).
    + destruct (_ || _); [by intros [= <-]|]. intros [= H]. pose proof (above_pos h). lia.
    + apply sim_kmalloc_null.
  - intros h n q h' Hn. by apply sim_kmalloc_block.
  - apply sim_krealloc_block.
  - done.
  - intros h p b Hp Hb. unfold sim_kfree. by rewrite (proj2 (Z.eqb_neq _ _) Hp), Hb.
  - apply sim_copy_from_user_length.
  - intros u a bs u' left. unfold sim_copy_to_user. case_match; intros [= <- <-]; lia.
  - done.
  - intros m Hm. unfold sim_lock. rewrite Hm.
    destruct (sm_signals m) as [|[] s]; do 2 eexists; (split; [done|]); cbn; split; done.
  - intros m Hm. unfold sim_lock. by rewrite Hm.
  - intros m Hm. unfold sim_unlock. rewrite Hm. by eexists.
  - intros f off whence size target Ht Hw Hr _.
    destruct (decide (whence = SEEK_CUR ∧ off = 0)) as [[-> ->]|Hno].
    { rewrite Z.add_0_r in Ht. by rewrite Ht. }
    rewrite (sim_llseek_target _ _ _ _ _ Ht)
      by (destruct Hw as [?|[?|?]]; [by left|right; left; split; [done|]; intros ->; auto|by right; right]).
    rewrite (proj2 (Z.leb_le 0 target)), (proj2 (Z.leb_le target size)) by lia. done.
  - done.
  - intros f off whence size target Ht Hw Hr _.
    rewrite (sim_llseek_target _ _ _ _ _ Ht Hw). bool_cases; done.
  - intros t n s Ht Hn Hs. by apply (sim_IOWR_fields t n s).
  - intros t n s Ht Hn Hs. by apply (sim_IOWR_fields t n s).
Qed.

End SimLaws.
