(* ===== verification/AesdIoctl.v ===== *)
(** * The interface of the driver's ioctl

    Models [aesd-char-driver/aesd_ioctl.h], which the driver and the server
    include: the structure the ioctl passes and its number. *)

From S2P Require Import Prelude.

(** [struct aesd_seekto], two [uint32_t], as it lies in memory. *)
Record aesd_seekto := SeekTo { write_cmd : Z; write_cmd_offset : Z }.

Definition sizeof_aesd_seekto : Z := 8.

(** Little endian, as on the machines the driver is built for. *)
Definition le32 (bs : list Z) : Z :=
  match bs with
  | [a; b; c; d] => u8 a + 2 ^ 8 * u8 b + 2 ^ 16 * u8 c + 2 ^ 24 * u8 d
  | _ => 0
  end.

Definition le32_bytes (x : Z) : list Z :=
  [u8 x; u8 (x / 2 ^ 8); u8 (x / 2 ^ 16); u8 (x / 2 ^ 24)].

Definition seekto_of_bytes (bs : list Z) : aesd_seekto :=
  SeekTo (le32 (take 4 bs)) (le32 (take 4 (drop 4 bs))).

Definition seekto_bytes (s : aesd_seekto) : list Z :=
  le32_bytes (write_cmd s) ++ le32_bytes (write_cmd_offset s).

Definition AESD_IOC_MAGIC : Z := 0x16.
Definition AESDCHAR_IOC_MAXNR : Z := 1.

Lemma le32_range bs : 0 ≤ le32 bs < 2 ^ 32.
Proof using.
  destruct bs as [|a [|b [|c [|d [|]]]]]; cbn [le32]; try lia.
  pose proof (u8_range a). pose proof (u8_range b). pose proof (u8_range c).
  pose proof (u8_range d). lia.
Qed.

Lemma le32_roundtrip x : 0 ≤ x < 2 ^ 32 → le32 (le32_bytes x) = x.
Proof using.
  intros Hx. unfold le32, le32_bytes, u8. rewrite !Z.mod_mod by lia.
  pose proof (Z.div_mod x (2 ^ 8) ltac:(lia)).
  pose proof (Z.div_mod (x / 2 ^ 8) (2 ^ 8) ltac:(lia)) as H1.
  rewrite Z.div_div in H1 by lia. change (2 ^ 8 * 2 ^ 8) with (2 ^ 16) in H1.
  pose proof (Z.div_mod (x / 2 ^ 16) (2 ^ 8) ltac:(lia)) as H2.
  rewrite Z.div_div in H2 by lia. change (2 ^ 16 * 2 ^ 8) with (2 ^ 24) in H2.
  rewrite (Z.mod_small (x / 2 ^ 24)); [lia|]. split.
  - apply Z.div_pos; lia.
  - apply Z.div_lt_upper_bound; lia.
Qed.

Lemma seekto_roundtrip i o :
  0 ≤ i < 2 ^ 32 → 0 ≤ o < 2 ^ 32 →
  seekto_of_bytes (seekto_bytes (SeekTo i o)) = SeekTo i o.
Proof using.
  intros Hi Ho. unfold seekto_of_bytes, seekto_bytes. cbn [write_cmd write_cmd_offset].
  change (take 4 (le32_bytes i ++ le32_bytes o)) with (le32_bytes i).
  change (take 4 (drop 4 (le32_bytes i ++ le32_bytes o))) with (le32_bytes o).
  by rewrite !le32_roundtrip.
Qed.
