(* ===== verification/CharDriver.v ===== *)
(** * The char driver

    Models [aesd-char-driver/main.c], with the structures of [aesdchar.h] and
    [aesd_ioctl.h]: the file operations of [/dev/aesdchar] over the ring of
    [CircularBuffer], and the module's initialisation and cleanup.  An operation
    takes the state [kstate] (the blocks the module owns, the device, the memory
    of the calling process) and its C arguments, and gives its return value, the
    new file position where it has one, and the new state. *)

From S2P Require Import Prelude CircularBuffer Memory Kernel AesdIoctl.

Definition EFAULT : Z := 14.
Definition ENOMEM : Z := 12.
Definition ENOTTY : Z := 25.
Definition ERESTARTSYS : Z := 512.

Definition NEWLINE : Z := 10.
Definition END_OF_STR : Z := 0.

Section Driver.
Context {K : Kernel}.

Definition AESDCHAR_IOCSEEKTO : Z := IOWR AESD_IOC_MAGIC 1 sizeof_aesd_seekto.

(** [struct aesd_dev] without the [struct cdev], which only the kernel uses. *)
Record aesd_dev := Dev {
  circular_buffer : aesd_circular_buffer;
  tmpbuf : Z;
  tmpbuf_size : Z;
  lock : mutex
}.

Record kstate := KState {
  k_heap : heap;
  k_dev : aesd_dev;
  k_user : user
}.

Definition set_lock (d : aesd_dev) (m : mutex) : aesd_dev :=
  Dev (circular_buffer d) (tmpbuf d) (tmpbuf_size d) m.

Definition with_heap (k : kstate) (h : heap) : kstate := KState h (k_dev k) (k_user k).
Definition with_dev (k : kstate) (d : aesd_dev) : kstate := KState (k_heap k) d (k_user k).
Definition with_user (k : kstate) (u : user) : kstate := KState (k_heap k) (k_dev k) u.

Definition dev_lock (k : kstate) : res (Z * kstate) :=
  '(rc, m) ← mutex_lock_interruptible (lock (k_dev k));
  mret (rc, with_dev k (set_lock (k_dev k) m)).

Definition dev_unlock (k : kstate) : res kstate :=
  m ← mutex_unlock (lock (k_dev k));
  mret (with_dev k (set_lock (k_dev k) m)).

(** ** Opening and closing *)

Record file := File { private_data : Z; file_pos : Z }.

Definition aesd_open (i_cdev : Z) (filp : file) : Z * file :=
  (0, File (container_of_cdev i_cdev) (file_pos filp)).

Definition aesd_release (filp : file) : Z * file := (0, filp).

(** ** Reading: the result, the new [*f_pos] and the state *)

Definition aesd_read (buf count f_pos : Z) (k : kstate) : res (Z * Z * kstate) :=
  '(rc, k) ← dev_lock k;
  if negb (rc =? 0) then mret (- ERESTARTSYS, f_pos, k)
  else
    found ← aesd_circular_buffer_find_entry_offset_for_fpos
              (circular_buffer (k_dev k)) (u64 f_pos);
    '(retval, f_pos, k) ←
      match found with
      | Some (ind, data_offset) =>
          e ← arr_get (entry (circular_buffer (k_dev k))) ind;
          let retval := s64 (u64 (e_size e - data_offset)) in
          data ← load_bytes (k_heap k) (buffptr e) data_offset (u64 retval);
          let '(u, missing) := copy_to_user (k_user k) buf data in
          if negb (missing =? 0) then mret (- EFAULT, f_pos, with_user k u)
          else mret (retval, s64 (f_pos + retval), with_user k u)
      | None => mret (0, f_pos, k)
      end;
    k ← dev_unlock k;
    mret (retval, f_pos, k).

(** ** Writing *)

(** The loop of [find_char]: its condition is a disjunction, so past [size] it
    keeps reading until it meets a NUL or [ch].  The result is [pos] at exit. *)
Fixpoint find_char_loop (fuel : nat) (h : heap) (data ch size pos : Z) : res Z :=
  match fuel with
  | O => Err OutOfFuel
  | S fuel =>
    cond ← (if pos <? size then mret true
            else x ← load h data pos; mret (negb (x =? END_OF_STR)));
    if negb cond then mret pos
    else
      x ← load h data pos;
      if x =? ch then mret pos
      else find_char_loop fuel h data ch size (u64 (pos + 1))
  end.

(** Each pass of the two loops reads one more byte of the block [data]. *)
Definition scan_fuel (h : heap) (data : Z) : nat :=
  match h !! data with Some b => S (S (length (blk_mem b))) | None => 1 end.

(** [Some index] for the return value 1, [None] for 0. *)
Definition find_char (h : heap) (data ch size : Z) : res (option Z) :=
  pos ← find_char_loop (scan_fuel h data) h data ch size 0;
  mret (if pos <? size then Some pos else None).

(** [for (i = 0; i <= data_ind; i++) dev->tmpbuf[dev->tmpbuf_size++] = data[i];] *)
Fixpoint copy_loop (fuel : nat) (h : heap) (tmp tmp_size data i data_ind : Z)
    : res (heap * Z) :=
  match fuel with
  | O => Err OutOfFuel
  | S fuel =>
    if i <=? data_ind then
      x ← load h data i;
      h ← store h tmp tmp_size x;
      copy_loop fuel h tmp (u64 (tmp_size + 1)) data (u64 (i + 1)) data_ind
    else mret (h, tmp_size)
  end.

(** The end of [aesd_write]: a [tmpbuf] that ends in a newline becomes an entry
    of the ring, and the entry it replaces is freed. *)
Definition write_push (k : kstate) : res kstate :=
  let d := k_dev k in
  last ← load (k_heap k) (tmpbuf d) (u64 (tmpbuf_size d - 1));
  if last =? NEWLINE then
    '(old_data, cb) ← aesd_circular_buffer_add_entry (circular_buffer d)
                        (Entry (tmpbuf d) (tmpbuf_size d));
    let k := with_dev k (Dev cb 0 0 (lock d)) in
    if negb (old_data =? 0)
    then h ← kfree (k_heap k) old_data; mret (with_heap k h)
    else mret k
  else mret k.

(** The part of [aesd_write] after the data is in the kernel. *)
Definition write_append (data count : Z) (k : kstate) : res (Z * kstate) :=
  found ← find_char (k_heap k) data NEWLINE count;
  let data_ind := match found with Some ind => ind | None => u64 (count - 1) end in
  let d := k_dev k in
  let '(tmp, h) := krealloc (k_heap k) (tmpbuf d) (u64 (tmpbuf_size d + data_ind + 1)) in
  '(h, size) ← copy_loop (scan_fuel h data) h tmp (tmpbuf_size d) data 0 data_ind;
  h ← kfree h data;
  k ← write_push (KState h (Dev (circular_buffer d) tmp size (lock d)) (k_user k));
  mret (s64 (data_ind + 1), k).

Definition aesd_write (buf count f_pos : Z) (k : kstate) : res (Z * Z * kstate) :=
  '(rc, k) ← dev_lock k;
  if negb (rc =? 0) then mret (- ERESTARTSYS, f_pos, k)
  else
    let '(data, h) := kmalloc (k_heap k) count in
    let '(bs, missing) := copy_from_user (k_user k) buf count in
    h ← store_bytes h data bs;
    '(retval, k) ←
      (if negb (missing =? 0)
       then h ← kfree h data; mret (- EFAULT, with_heap k h)
       else write_append data count (with_heap k h));
    k ← dev_unlock k;
    mret (retval, 0, k).

(** ** Seeking *)

Definition aesd_llseek (offset whence f_pos : Z) (k : kstate) : res (Z * Z * kstate) :=
  '(rc, k) ← dev_lock k;
  if negb (rc =? 0) then mret (- ERESTARTSYS, f_pos, k)
  else
    let '(retval, f_pos) := fixed_size_llseek f_pos offset whence
                              (s64 (cb_size (circular_buffer (k_dev k)))) in
    k ← dev_unlock k;
    mret (retval, f_pos, k).

(** [write_cmd] is a [uint32_t], the parameter it is passed to a [uint8_t]. *)
Definition aesd_unlocked_ioctl (cmd arg f_pos : Z) (k : kstate) : res (Z * Z * kstate) :=
  if negb (IOC_TYPE cmd =? AESD_IOC_MAGIC) then mret (- ENOTTY, f_pos, k)
  else if AESDCHAR_IOC_MAXNR <? IOC_NR cmd then mret (- ENOTTY, f_pos, k)
  else if cmd =? AESDCHAR_IOCSEEKTO then
    let '(bs, missing) := copy_from_user (k_user k) arg sizeof_aesd_seekto in
    if negb (missing =? 0) then mret (- EFAULT, f_pos, k)
    else
      let seekto := seekto_of_bytes bs in
      '(rc, k) ← dev_lock k;
      if negb (rc =? 0) then mret (- ERESTARTSYS, f_pos, k)
      else
        pos ← aesd_circular_buffer_jmp_entry_offset (circular_buffer (k_dev k))
                (u8 (write_cmd seekto)) (write_cmd_offset seekto);
        let '(retval, f_pos) := if pos <? 0 then (pos, f_pos) else (0, pos) in
        k ← dev_unlock k;
        mret (retval, f_pos, k)
  else mret (- ENOTTY, f_pos, k).

(** ** The table of operations the kernel calls *)

Record file_operations := Fops {
  fop_read : Z → Z → Z → kstate → res (Z * Z * kstate);
  fop_write : Z → Z → Z → kstate → res (Z * Z * kstate);
  fop_open : Z → file → Z * file;
  fop_release : file → Z * file;
  fop_llseek : Z → Z → Z → kstate → res (Z * Z * kstate);
  fop_unlocked_ioctl : Z → Z → Z → kstate → res (Z * Z * kstate)
}.

Definition aesd_fops : file_operations := {|
  fop_read := aesd_read;
  fop_write := aesd_write;
  fop_open := aesd_open;
  fop_release := aesd_release;
  fop_llseek := aesd_llseek;
  fop_unlocked_ioctl := aesd_unlocked_ioctl
|}.

(** ** The module *)

(** What the kernel holds of the module beside its memory: the device number and
    whether the device answers. *)
Record module_state := Module_ {
  aesd_major : Z;
  region : option Z;
  cdev_live : bool
}.

Definition aesd_minor : Z := 0.

Definition aesd_setup_cdev (ms : module_state) : Z * module_state :=
  let devno := MKDEV (aesd_major ms) aesd_minor in
  let err := cdev_add devno 1 in
  (err, if err =? 0 then Module_ (aesd_major ms) (region ms) true else ms).

Definition aesd_init_module (ms : module_state) (k : kstate)
    : Z * module_state * kstate :=
  let '(result, dev) := alloc_chrdev_region aesd_minor 1 in
  let ms := Module_ (MAJOR dev) (region ms) (cdev_live ms) in
  if result <? 0 then (result, ms, k)
  else
    let ms := Module_ (aesd_major ms) (Some dev) (cdev_live ms) in
    let k := with_dev k (Dev aesd_circular_buffer_init 0 0 mutex_init) in
    let '(result, ms) := aesd_setup_cdev ms in
    if negb (result =? 0) then (result, Module_ (aesd_major ms) None (cdev_live ms), k)
    else (result, ms, k).

Fixpoint free_entries (es : list aesd_buffer_entry) (h : heap) : res heap :=
  match es with
  | [] => mret h
  | e :: es => h ← kfree h (buffptr e); free_entries es h
  end.

Definition aesd_cleanup_module (ms : module_state) (k : kstate)
    : res (module_state * kstate) :=
  h ← free_entries (AESD_CIRCULAR_BUFFER_FOREACH (circular_buffer (k_dev k))) (k_heap k);
  h ← (if negb (tmpbuf (k_dev k) =? 0) then kfree h (tmpbuf (k_dev k)) else mret h);
  mret (Module_ (aesd_major ms) None false, with_heap k h).

End Driver.
