(* ===== verification/DriverSpec.v ===== *)
(** * The char driver against its abstract specification

    The device is a bounded log of lines: [log] keeps the last ten complete
    lines and the bytes of the line being written.  [log_of] reads the log out of
    the concrete state (the ring, the partial buffer and the blocks they point
    to); [drv_inv] is the invariant that makes the reading meaningful, including
    exact ownership of memory.  The lemmas compute each file operation as an
    operation on the log; the properties are at the end. *)

From S2P Require Import Prelude CircularBuffer Memory Kernel AesdIoctl CharDriver.

(** ** The abstract device *)

Record log := Log { lines : list (list Z); partial : list Z }.

(** The bytes one write takes: up to the first newline, or all of them. *)
Fixpoint upto_nl (bs : list Z) : list Z :=
  match bs with
  | [] => []
  | x :: bs => if x =? NEWLINE then [x] else x :: upto_nl bs
  end.

Definition log_write (l : log) (bs : list Z) : log :=
  let p := partial l ++ upto_nl bs in
  if decide (NEWLINE ∈ bs) then Log (push (lines l) p) [] else Log (lines l) p.

(** What a reader sees. *)
Definition contents (l : log) : list Z := concat (lines l).

(** A complete line: its only newline is its last byte. *)
Definition line (l : list Z) : Prop := ∃ l', l = l' ++ [NEWLINE] ∧ NEWLINE ∉ l'.

Lemma upto_nl_length bs : (length (upto_nl bs) ≤ length bs)%nat.
Proof. induction bs as [|x bs IH]; cbn; [done|]. destruct (x =? NEWLINE); cbn; lia. Qed.

Lemma upto_nl_nonempty bs : bs ≠ [] → (0 < length (upto_nl bs))%nat.
Proof. destruct bs as [|x bs]; [done|]. intros _. cbn. destruct (x =? NEWLINE); cbn; lia. Qed.

Lemma upto_nl_take bs : upto_nl bs = take (length (upto_nl bs)) bs.
Proof.
  induction bs as [|x bs IH]; [done|]. cbn. destruct (x =? NEWLINE); [done|].
  cbn. by rewrite <- IH.
Qed.

Lemma upto_nl_no bs : NEWLINE ∉ bs → upto_nl bs = bs.
Proof.
  induction bs as [|x bs IH]; intros H; [done|]. cbn.
  apply not_elem_of_cons in H as [Hx H]. rewrite (proj2 (Z.eqb_neq x NEWLINE)) by done.
  by rewrite IH.
Qed.

Lemma upto_nl_line bs : NEWLINE ∈ bs → line (upto_nl bs).
Proof.
  induction bs as [|x bs IH]; intros H; [by apply not_elem_of_nil in H|]. cbn.
  destruct (Z.eqb_spec x NEWLINE) as [->|Hx].
  - exists []. split; [done|apply not_elem_of_nil].
  - apply elem_of_cons in H as [H|H]; [congruence|].
    destruct (IH H) as (l' & -> & Hl'). exists (x :: l'). split; [done|].
    by apply not_elem_of_cons.
Qed.

Lemma line_app p l : NEWLINE ∉ p → line l → line (p ++ l).
Proof.
  intros Hp (l' & -> & Hl'). exists (p ++ l'). rewrite <- app_assoc. split; [done|].
  rewrite elem_of_app. tauto.
Qed.

Lemma line_last l : line l → last l = Some NEWLINE.
Proof. intros (l' & -> & _). by rewrite last_snoc. Qed.

(** ** The loops of the write *)

(** Where the scan of [find_char] stops: at the first [ch], or, past the first
    [size] bytes, at the first NUL; [None] when it runs off the object. *)
Fixpoint scan_stop (ch : Z) (mem : list Z) (size : nat) : option nat :=
  match mem with
  | [] => None
  | x :: mem =>
    if (size =? 0)%nat && (x =? END_OF_STR) then Some 0%nat
    else if x =? ch then Some 0%nat
    else S <$> scan_stop ch mem (pred size)
  end.

Section Loops.
Context (h : heap) (data : Z) (b : block).
Hypothesis (Hdata : data ≠ 0) (Hb : h !! data = Some b)
  (Hlen : Z.of_nat (length (blk_mem b)) < 2 ^ 63).

Lemma find_char_loop_spec fuel ch size i :
  (i ≤ length (blk_mem b))%nat → (length (blk_mem b) - i + 1 < fuel)%nat →
  0 ≤ size →
  find_char_loop fuel h data ch size (Z.of_nat i) =
  match scan_stop ch (drop i (blk_mem b)) (Z.to_nat size - i) with
  | Some j => Ok (Z.of_nat (i + j))
  | None => Err OutOfBounds
  end.
Proof using All.
  intros Hi Hfuel Hsize. revert i Hi Hfuel.
  induction fuel as [|fuel IH]; intros i Hi Hfuel; [lia|]. cbn [find_char_loop].
  destruct (decide (i = length (blk_mem b))) as [->|Hne].
  - rewrite drop_all. cbn [scan_stop].
    assert (load h data (Z.of_nat (length (blk_mem b))) = Err OutOfBounds) as Hl
      by (by eapply load_oob).
    destruct (_ <? _); cbn [mbind res_bind mret res_ret]; by rewrite Hl.
  - destruct (lookup_lt_is_Some_2 (blk_mem b) i ltac:(lia)) as [x Hx].
    assert (load h data (Z.of_nat i) = Ok x) as Hl
      by (eapply load_in; [done..|lia|by rewrite Nat2Z.id]).
    rewrite (drop_S _ x i Hx). cbn [scan_stop].
    replace (u64 (Z.of_nat i + 1)) with (Z.of_nat (S i)) by (rewrite u64_id; lia).
    rewrite IH by lia. replace (pred (Z.to_nat size - i)) with (Z.to_nat size - S i)%nat by lia.
    assert ((if Z.of_nat i <? size then mret true
             else x ← load h data (Z.of_nat i); mret (negb (x =? END_OF_STR))) =
            Ok (negb ((Z.to_nat size - i =? 0)%nat && (x =? END_OF_STR)))) as Hc.
    { rewrite Hl. destruct (Z.ltb_spec (Z.of_nat i) size).
      - by rewrite (proj2 (Nat.eqb_neq _ _)) by lia.
      - by rewrite (proj2 (Nat.eqb_eq _ _)) by lia. }
    rewrite Hc. cbn [mbind res_bind]. rewrite negb_involutive.
    destruct (_ && _); [f_equal; lia|]. rewrite Hl. cbn [mbind res_bind].
    destruct (x =? ch); [f_equal; lia|].
    destruct (scan_stop _ _ _) as [j|]; [|done]. cbn. f_equal. lia.
Qed.

Lemma find_char_spec ch size :
  0 ≤ size →
  find_char h data ch size =
  match scan_stop ch (blk_mem b) (Z.to_nat size) with
  | Some j => Ok (if Z.of_nat j <? size then Some (Z.of_nat j) else None)
  | None => Err OutOfBounds
  end.
Proof using All.
  intros Hsize. unfold find_char, scan_fuel. rewrite Hb.
  change 0 with (Z.of_nat 0). rewrite find_char_loop_spec by lia.
  rewrite drop_0, Nat.sub_0_r. by destruct (scan_stop _ _ _).
Qed.

End Loops.

Lemma scan_stop_app bs slack :
  scan_stop NEWLINE (bs ++ slack) (length bs) =
  if decide (NEWLINE ∈ bs) then Some (pred (length (upto_nl bs)))
  else Nat.add (length bs) <$> scan_stop NEWLINE slack 0.
Proof.
  induction bs as [|x bs IH].
  - rewrite decide_False by apply not_elem_of_nil. cbn.
    by destruct (scan_stop _ _ _).
  - cbn [app length scan_stop Nat.eqb andb pred upto_nl].
    destruct (Z.eqb_spec x NEWLINE) as [->|Hx].
    + rewrite decide_True by apply list_elem_of_here. done.
    + rewrite IH. destruct (decide (NEWLINE ∈ bs)) as [Hin|Hin].
      * rewrite decide_True by (by apply list_elem_of_further). cbn.
        assert (bs ≠ []) as Hne by (intros ->; by apply not_elem_of_nil in Hin).
        pose proof (upto_nl_nonempty bs Hne). f_equal. lia.
      * rewrite decide_False by (apply not_elem_of_cons; done).
        by destruct (scan_stop _ slack 0).
Qed.

(** The bytes from [i] to [data_ind] land at [s] on. *)
Lemma copy_loop_spec fuel (h : heap) tmp t data b s i data_ind :
  data ≠ 0 → tmp ≠ 0 → data ≠ tmp → h !! data = Some b → h !! tmp = Some t →
  0 ≤ s → 0 ≤ i ≤ data_ind + 1 → data_ind < Z.of_nat (length (blk_mem b)) →
  s + (data_ind + 1 - i) ≤ Z.of_nat (length (blk_mem t)) →
  Z.of_nat (length (blk_mem b)) < 2 ^ 63 → Z.of_nat (length (blk_mem t)) < 2 ^ 63 →
  data_ind + 1 - i < Z.of_nat fuel →
  copy_loop fuel h tmp s data i data_ind =
  Ok (<[tmp := Block (blk_size t)
         (take (Z.to_nat s) (blk_mem t)
          ++ take (Z.to_nat (data_ind + 1 - i)) (drop (Z.to_nat i) (blk_mem b))
          ++ drop (Z.to_nat (s + (data_ind + 1 - i))) (blk_mem t))]> h,
      s + (data_ind + 1 - i)).
Proof.
  intros Hdata Htmp Hne Hb Ht Hs Hi Hind Hroom Hlb Hlt.
  revert h t s i Hb Ht Hs Hi Hroom Hlt.
  induction fuel as [|fuel IH]; intros h t s i Hb Ht Hs Hi Hroom Hlt Hfuel; [lia|].
  cbn [copy_loop]. destruct (Z.leb_spec i data_ind) as [Hle|Hgt].
  - destruct (lookup_lt_is_Some_2 (blk_mem b) (Z.to_nat i) ltac:(lia)) as [x Hx].
    rewrite (load_in h data b i x) by (done || lia). cbn [mbind res_bind].
    rewrite (store_in h tmp t s x) by (done || lia). cbn [mbind res_bind].
    rewrite !u64_id by lia.
    erewrite IH; [|by rewrite lookup_insert_ne|apply lookup_insert_eq|..]; cbn [blk_size blk_mem];
      rewrite ?length_insert; try lia.
    rewrite insert_insert_eq. do 2 f_equal; [|lia]. do 2 f_equal.
    rewrite (drop_S _ x (Z.to_nat i)) by done.
    replace (Z.to_nat (data_ind + 1 - i)) with (S (Z.to_nat (data_ind + 1 - (i + 1)))) by lia.
    cbn [take]. replace (Z.to_nat (i + 1)) with (S (Z.to_nat i)) by lia.
    replace (Z.to_nat (s + 1)) with (S (Z.to_nat s)) by lia.
    rewrite (take_S_r _ _ x) by (apply list_lookup_insert_eq; lia).
    rewrite take_insert_ge by lia. rewrite <- app_assoc. cbn [app]. do 3 f_equal.
    rewrite drop_insert_lt by lia. f_equal. lia.
  - replace (data_ind + 1 - i) with 0 by lia. change (Z.to_nat 0) with 0%nat.
    rewrite take_0, Z.add_0_r. cbn [app]. rewrite take_drop. rewrite insert_id; [done|]. rewrite Ht. by destruct t.
Qed.

(** ** The invariant *)

Section Invariant.
Context {K : Kernel}.

Definition log_in (h : heap) (d : aesd_dev) : log :=
  Log ((λ e, bytes_at h (buffptr e) (e_size e)) <$> cb_entries (circular_buffer d))
      (bytes_at h (tmpbuf d) (tmpbuf_size d)).

Definition log_of (k : kstate) : log := log_in (k_heap k) (k_dev k).

(** The blocks the device points to: the partial buffer and the live entries. *)
Definition owned (d : aesd_dev) : list Z :=
  (if tmpbuf d =? 0 then [] else [tmpbuf d])
    ++ (buffptr <$> cb_entries (circular_buffer d)).

(** A block that holds [n] bytes. *)
Definition holds (h : heap) (p n : Z) : Prop :=
  p ≠ 0 ∧ 0 < n ∧ ∃ b, h !! p = Some b ∧ block_for n b.

(** The memory of the device: a well formed ring whose live entries are complete
    lines, a partial buffer without a newline, and nothing shared, leaked or
    dangling: the allocated blocks are exactly the ones pointed to, once each. *)
Record drv_mem (h : heap) (d : aesd_dev) : Prop := {
  mem_ring : cb_wf (circular_buffer d);
  mem_entries : ∀ e, e ∈ cb_entries (circular_buffer d) →
    holds h (buffptr e) (e_size e) ∧ line (bytes_at h (buffptr e) (e_size e));
  mem_tmp : if tmpbuf d =? 0 then tmpbuf_size d = 0
            else holds h (tmpbuf d) (tmpbuf_size d)
              ∧ NEWLINE ∉ bytes_at h (tmpbuf d) (tmpbuf_size d);
  mem_nodup : NoDup (owned d);
  mem_owned : ∀ p, is_Some (h !! p) ↔ p ∈ owned d
}.

Definition drv_inv (k : kstate) : Prop :=
  drv_mem (k_heap k) (k_dev k) ∧ held (lock (k_dev k)) = false.

Lemma drv_mem_set_lock h d m : drv_mem h d → drv_mem h (set_lock d m).
Proof. by destruct 1; split. Qed.

Lemma log_in_set_lock h d m : log_in h (set_lock d m) = log_in h d.
Proof. done. Qed.

(** Elements and owners. *)
Lemma entry_owned d e : e ∈ cb_entries (circular_buffer d) → buffptr e ∈ owned d.
Proof.
  intros He. unfold owned. apply elem_of_app. right. by apply list_elem_of_fmap_2.
Qed.

Lemma tmp_owned d : tmpbuf d ≠ 0 → tmpbuf d ∈ owned d.
Proof.
  intros H. unfold owned. rewrite (proj2 (Z.eqb_neq _ _) H).
  apply elem_of_app. left. by apply list_elem_of_singleton.
Qed.

Lemma owned_null h d : drv_mem h d → 0 ∉ owned d.
Proof.
  intros Hm H0. unfold owned in H0. apply elem_of_app in H0 as [H0|H0].
  - destruct (Z.eqb_spec (tmpbuf d) 0); [by apply not_elem_of_nil in H0|].
    apply list_elem_of_singleton in H0. congruence.
  - apply list_elem_of_fmap in H0 as (e & H0 & He).
    destruct (mem_entries h d Hm e He) as [[Hp _] _]. congruence.
Qed.

Lemma heap_null h d : drv_mem h d → h !! 0 = None.
Proof.
  intros Hm. apply eq_None_not_Some. intros Hs. apply (mem_owned h d Hm) in Hs.
  by eapply owned_null.
Qed.

(** The partial buffer is not the buffer of an entry. *)
Lemma entry_ne_tmp h d e :
  drv_mem h d → e ∈ cb_entries (circular_buffer d) → buffptr e ≠ tmpbuf d.
Proof.
  intros Hm He Heq. destruct (mem_entries h d Hm e He) as [[Hp _] _].
  pose proof (mem_nodup h d Hm) as Hnd. unfold owned in Hnd.
  rewrite (proj2 (Z.eqb_neq (tmpbuf d) 0)) in Hnd by congruence.
  apply NoDup_app in Hnd as (_ & Hnd & _). apply (Hnd (tmpbuf d)).
  - by apply list_elem_of_singleton.
  - rewrite <- Heq. by apply list_elem_of_fmap_2.
Qed.

(** An address for a new buffer: the partial buffer itself or a fresh one. *)
Definition new_addr (h : heap) (d : aesd_dev) (q : Z) : Prop :=
  q ≠ 0 ∧ (q = tmpbuf d ∨ h !! q = None).

Lemma entry_ne_new h d q e :
  drv_mem h d → new_addr h d q → e ∈ cb_entries (circular_buffer d) → buffptr e ≠ q.
Proof.
  intros Hm [_ [->|Hq]] He; [by eapply entry_ne_tmp|]. intros <-.
  destruct (mem_entries h d Hm e He) as [(_ & _ & b & Hb & _) _]. congruence.
Qed.

Definition retmp (h : heap) (d : aesd_dev) (q : Z) (t : block) : heap :=
  <[q := t]> (delete (tmpbuf d) h).

Lemma retmp_entry h d q t e n :
  drv_mem h d → new_addr h d q → e ∈ cb_entries (circular_buffer d) →
  retmp h d q t !! buffptr e = h !! buffptr e
  ∧ bytes_at (retmp h d q t) (buffptr e) n = bytes_at h (buffptr e) n.
Proof.
  intros Hm Hq He. pose proof (entry_ne_new h d q e Hm Hq He).
  pose proof (entry_ne_tmp h d e Hm He). unfold retmp. split.
  - by rewrite lookup_insert_ne, lookup_delete_ne by done.
  - by rewrite bytes_at_insert_ne, bytes_at_delete_ne.
Qed.

Lemma entries_retmp h d q t :
  drv_mem h d → new_addr h d q → ∀ e, e ∈ cb_entries (circular_buffer d) →
  holds (retmp h d q t) (buffptr e) (e_size e)
  ∧ line (bytes_at (retmp h d q t) (buffptr e) (e_size e)).
Proof.
  intros Hm Hq e He. destruct (retmp_entry h d q t e (e_size e) Hm Hq He) as [Hl Hb].
  rewrite Hb. unfold holds. rewrite Hl. by apply (mem_entries h d Hm).
Qed.

Lemma lines_retmp h d q t :
  drv_mem h d → new_addr h d q →
  (λ e, bytes_at (retmp h d q t) (buffptr e) (e_size e)) <$> cb_entries (circular_buffer d)
  = lines (log_in h d).
Proof.
  intros Hm Hq. apply list_fmap_ext. intros i e He.
  apply retmp_entry; [done..|]. by eapply list_elem_of_lookup_2.
Qed.

Lemma dom_retmp h d q t p :
  drv_mem h d → new_addr h d q →
  is_Some (retmp h d q t !! p) ↔ p = q ∨ p ∈ buffptr <$> cb_entries (circular_buffer d).
Proof.
  intros Hm Hq. unfold retmp. destruct (decide (p = q)) as [->|Hpq].
  { rewrite lookup_insert_eq. split; [by left|by eexists]. }
  rewrite lookup_insert_ne by done. destruct (decide (p = tmpbuf d)) as [->|Hpt].
  - rewrite lookup_delete_eq. split; [by intros [? [=]]|]. intros [?|He]; [done|].
    apply list_elem_of_fmap in He as (e & Heq & He).
    by destruct (entry_ne_tmp h d e Hm He).
  - rewrite lookup_delete_ne, (mem_owned h d Hm) by done. unfold owned.
    rewrite elem_of_app. destruct (Z.eqb_spec (tmpbuf d) 0).
    + rewrite elem_of_nil. tauto.
    + rewrite list_elem_of_singleton. tauto.
Qed.

Lemma nodup_retmp h d q :
  drv_mem h d → new_addr h d q → NoDup (q :: (buffptr <$> cb_entries (circular_buffer d))).
Proof.
  intros Hm Hq. apply NoDup_cons. split.
  - intros He. apply list_elem_of_fmap in He as (e & -> & He).
    by destruct (entry_ne_new h d (buffptr e) e Hm Hq He).
  - pose proof (mem_nodup h d Hm) as Hnd. unfold owned in Hnd.
    by apply NoDup_app in Hnd as (_ & _ & Hnd).
Qed.

(** Replacing the partial buffer by one with more bytes and no newline. *)
Lemma drv_mem_append h d q n t m :
  drv_mem h d → new_addr h d q → 0 < n → block_for n t →
  NEWLINE ∉ take (Z.to_nat n) (blk_mem t) →
  drv_mem (retmp h d q t) (Dev (circular_buffer d) q n m)
  ∧ log_in (retmp h d q t) (Dev (circular_buffer d) q n m)
    = Log (lines (log_in h d)) (take (Z.to_nat n) (blk_mem t)).
Proof.
  intros Hm Hq Hn Ht Hnl. pose proof Hq as [Hq0 _]. split; [split; cbn|].
  - apply Hm.
  - by apply entries_retmp.
  - rewrite (proj2 (Z.eqb_neq _ _) Hq0). split.
    + repeat split; [done|done|]. exists t. split; [apply lookup_insert_eq|done].
    + unfold retmp. by rewrite bytes_at_insert_eq.
  - unfold owned. cbn. rewrite (proj2 (Z.eqb_neq _ _) Hq0). by eapply nodup_retmp.
  - intros p. rewrite dom_retmp by done. unfold owned. cbn.
    rewrite (proj2 (Z.eqb_neq _ _) Hq0). cbn [app]. by rewrite elem_of_cons.
  - unfold log_in. cbn. rewrite lines_retmp by done. f_equal.
    unfold retmp. by rewrite bytes_at_insert_eq.
Qed.

(** Moving the partial buffer into the ring, which pushes the entries [pre] out;
    [h2] is the memory after their buffers are freed. *)
Section Push.
Context (h h2 : heap) (d : aesd_dev) (q n : Z) (t : block) (m : mutex)
  (pre kept : list aesd_buffer_entry) (cb : aesd_circular_buffer).
Hypothesis (Hm : drv_mem h d) (Hq : new_addr h d q) (Hn : 0 < n) (Ht : block_for n t)
  (Hline : line (take (Z.to_nat n) (blk_mem t)))
  (Hes : cb_entries (circular_buffer d) = pre ++ kept)
  (Hwf : cb_wf cb) (Hcb : cb_entries cb = kept ++ [Entry q n])
  (Hh2 : ∀ p, h2 !! p = if decide (p ∈ buffptr <$> pre) then None
                        else retmp h d q t !! p).

Lemma push_nodup : NoDup (q :: (buffptr <$> pre) ++ (buffptr <$> kept)).
Proof using Hm Hq Hes. rewrite <- fmap_app, <- Hes. by eapply nodup_retmp. Qed.

Lemma push_kept_lookup e :
  e ∈ kept → h2 !! buffptr e = h !! buffptr e.
Proof using All.
  intros He. rewrite Hh2, decide_False.
  - apply (retmp_entry h d q t e 0); [done..|]. rewrite Hes. apply elem_of_app. by right.
  - intros Hp. pose proof push_nodup as Hnd. apply NoDup_cons in Hnd as [_ Hnd].
    apply NoDup_app in Hnd as (_ & Hnd & _). apply (Hnd _ Hp).
    by apply list_elem_of_fmap_2.
Qed.

Lemma push_new_lookup : h2 !! q = Some t.
Proof using All.
  rewrite Hh2, decide_False; [apply lookup_insert_eq|]. intros Hp.
  pose proof push_nodup as Hnd. apply NoDup_cons in Hnd as [Hnd _].
  apply Hnd. apply elem_of_app. by left.
Qed.

Lemma push_dom p : is_Some (h2 !! p) ↔ p = q ∨ p ∈ buffptr <$> kept.
Proof using All.
  pose proof push_nodup as Hnd. apply NoDup_cons in Hnd as [Hqn Hnd].
  apply NoDup_app in Hnd as (_ & Hnd & _). rewrite elem_of_app in Hqn.
  rewrite Hh2. case_decide as Hp.
  - split; [by intros [? [=]]|]. intros [->|Hk]; [tauto|]. by destruct (Hnd p Hp).
  - rewrite dom_retmp, Hes, fmap_app, elem_of_app by done. tauto.
Qed.

Lemma drv_mem_push_gen :
  drv_mem h2 (Dev cb 0 0 m)
  ∧ log_in h2 (Dev cb 0 0 m)
    = Log (drop (length pre) (lines (log_in h d)) ++ [take (Z.to_nat n) (blk_mem t)]) [].
Proof using All.
  pose proof push_nodup as Hnd. pose proof Hq as [Hq0 _].
  split; [split; cbn; rewrite ?Hcb|].
  - done.
  - intros e He. apply elem_of_app in He as [He|He].
    + unfold holds, bytes_at. rewrite (push_kept_lookup e He).
      apply (mem_entries h d Hm). rewrite Hes. apply elem_of_app. by right.
    + apply list_elem_of_singleton in He as ->. cbn. unfold bytes_at.
      rewrite push_new_lookup. split; [|done]. repeat split; try done.
      exists t. split; [apply push_new_lookup|done].
  - done.
  - unfold owned. cbn. rewrite ?Hcb, fmap_app. cbn.
    apply NoDup_cons in Hnd as [Hqn Hnd]. apply NoDup_app in Hnd as (_ & _ & Hk).
    apply NoDup_app. split; [done|]. split; [|apply NoDup_singleton].
    intros p Hp Hpq. apply list_elem_of_singleton in Hpq as ->.
    apply Hqn. apply elem_of_app. by right.
  - intros p. rewrite push_dom. unfold owned. cbn.
    rewrite ?Hcb, fmap_app, elem_of_app. cbn. rewrite list_elem_of_singleton. tauto.
  - unfold log_in. cbn. rewrite ?Hcb, fmap_app, Hes, fmap_app. cbn. f_equal.
    + rewrite drop_app_length' by (by rewrite length_fmap). f_equal.
      * apply list_fmap_ext. intros i e He. unfold bytes_at.
        by rewrite push_kept_lookup by (by eapply list_elem_of_lookup_2).
      * unfold bytes_at. by rewrite push_new_lookup.
    + unfold bytes_at. by destruct (h2 !! 0).
Qed.

End Push.

(** The old buffer [aesd_circular_buffer_add_entry] hands back, freed. *)
Lemma drv_mem_push (KL : KernelLaws K) h d q n t m :
  drv_mem h d → new_addr h d q → 0 < n → block_for n t →
  line (take (Z.to_nat n) (blk_mem t)) →
  ∃ old cb h2,
    aesd_circular_buffer_add_entry (circular_buffer d) (Entry q n) = Ok (old, cb)
    ∧ (if negb (old =? 0) then kfree (retmp h d q t) old else mret (retmp h d q t)) = Ok h2
    ∧ drv_mem h2 (Dev cb 0 0 m)
    ∧ log_in h2 (Dev cb 0 0 m)
      = Log (push (lines (log_in h d)) (take (Z.to_nat n) (blk_mem t))) [].
Proof.
  intros Hm Hq Hn Ht Hline. pose proof (mem_ring h d Hm) as Hring.
  pose proof Ht as [_ [Hnl Hlt]].
  pose proof (cb_added_wf _ (Entry q n) Hring ltac:(cbn; lia)) as Hwf.
  pose proof (cb_added_entries _ (Entry q n) Hring) as Hcb.
  pose proof (full_iff_ten _ Hring) as Hfull. rewrite (add_entry_run _ _ Hring).
  assert (length (lines (log_in h d)) = length (cb_entries (circular_buffer d))) as Hlen
    by (cbn; by rewrite length_fmap).
  unfold push in *. rewrite Hlen.
  destruct (full (circular_buffer d)) eqn:Hf; symmetry in Hfull.
  - apply bool_decide_eq_true in Hfull. rewrite decide_False in Hcb by done; rewrite decide_False by done.
    destruct (cb_entries (circular_buffer d)) as [|e0 kept] eqn:Hes; [cbn in *; lia|].
    destruct (mem_entries h d Hm e0) as [(Hp0 & _ & b0 & Hb0 & _) _].
    { rewrite Hes. apply list_elem_of_here. }
    assert (retmp h d q t !! buffptr e0 = Some b0) as Hr.
    { rewrite <- Hb0. apply (retmp_entry h d q t e0 0); [done..|].
      rewrite Hes. apply list_elem_of_here. }
    do 3 eexists. cbn [head from_option tail] in *. split; [done|].
    rewrite (proj2 (Z.eqb_neq _ _) Hp0). split; [by eapply kfree_block|].
    pose proof (drv_mem_push_gen h (delete (buffptr e0) (retmp h d q t)) d q n t m
      [e0] kept _ Hm Hq Hn Ht Hline Hes Hwf Hcb) as [H1 H2].
    { intros p. cbn. case_decide as Hp.
      - apply list_elem_of_singleton in Hp as ->. apply lookup_delete_eq.
      - rewrite list_elem_of_singleton in Hp. by rewrite lookup_delete_ne. }
    split; [done|]. rewrite H2. cbn [length]. by destruct (lines (log_in h d)).
  - apply bool_decide_eq_false in Hfull. apply dec_stable in Hfull.
    rewrite decide_True in Hcb by done; rewrite decide_True by done.
    do 3 eexists. split; [done|]. split; [done|].
    apply (drv_mem_push_gen h _ d q n t m [] _ _ Hm Hq Hn Ht Hline eq_refl Hwf Hcb).
    intros p. cbn. rewrite decide_False by apply not_elem_of_nil. done.
Qed.

End Invariant.
