(* ===== verification/DriverRefine.v ===== *)
(** * The file operations refine the log

    For every kernel that satisfies [KernelLaws], each operation of [CharDriver]
    run from a state that satisfies [drv_inv] is computed as an operation on the
    abstract log, error paths included; the properties of the driver follow. *)

From S2P Require Import Prelude CircularBuffer Memory Kernel AesdIoctl CharDriver DriverSpec.

Section Refine.
Context {K : Kernel} {KL : KernelLaws K}.

(** ** The steps of a write *)

Lemma tmp_size_range h d :
  drv_mem h d → 0 ≤ tmpbuf_size d < 2 ^ 63
  ∧ Z.of_nat (length (bytes_at h (tmpbuf d) (tmpbuf_size d))) = tmpbuf_size d
  ∧ NEWLINE ∉ bytes_at h (tmpbuf d) (tmpbuf_size d).
Proof using.
  intros Hm. pose proof (mem_tmp h d Hm) as Ht. pose proof (heap_null h d Hm) as H0.
  destruct (Z.eqb_spec (tmpbuf d) 0) as [Hz|Hz].
  - rewrite Hz, Ht. unfold bytes_at. rewrite H0. split; [lia|]. split; [done|].
    apply not_elem_of_nil.
  - destruct Ht as [(_ & Hn & b & Hb & Hsz & Hlen) Hnl]. split; [lia|]. split; [|done].
    unfold bytes_at. rewrite Hb, length_take. lia.
Qed.

(** Whether or not there is a newline, the last index copied is the same. *)
Lemma find_data_ind h data b bs slack :
  data ≠ 0 → h !! data = Some b → blk_mem b = bs ++ slack →
  Z.of_nat (length (blk_mem b)) < 2 ^ 63 → bs ≠ [] →
  NEWLINE ∈ bs ∨ scan_stop NEWLINE slack 0 ≠ None →
  ∃ found, find_char h data NEWLINE (Z.of_nat (length bs)) = Ok found
    ∧ match found with Some ind => ind | None => u64 (Z.of_nat (length bs) - 1) end
      = Z.of_nat (length (upto_nl bs)) - 1.
Proof using.
  intros Hd Hb Hmem Hlen Hbs Hstop. rewrite (find_char_spec h data b Hd Hb Hlen) by lia.
  rewrite Hmem, Nat2Z.id, scan_stop_app. rewrite Hmem, length_app in Hlen.
  pose proof (upto_nl_nonempty bs Hbs). pose proof (upto_nl_length bs).
  destruct (decide (NEWLINE ∈ bs)) as [Hin|Hin].
  - rewrite (proj2 (Z.ltb_lt _ _)) by lia. eexists. split; [done|]. cbn. lia.
  - destruct Hstop as [?|Hs]; [done|].
    destruct (scan_stop NEWLINE slack 0) as [j|]; [|done]. cbn [fmap option_fmap option_map].
    rewrite (proj2 (Z.ltb_ge _ _)) by lia. eexists. split; [done|].
    rewrite u64_id by lia. by rewrite upto_nl_no.
Qed.

(** The reallocation of the partial buffer, with or without one to begin with. *)
Lemma krealloc_tmp h d data b n q h' :
  drv_mem h d → data ≠ 0 → h !! data = None → tmpbuf_size d < n →
  krealloc (<[data := b]> h) (tmpbuf d) n = (q, h') → q ≠ 0 →
  ∃ t, block_for n t ∧ h' = retmp (<[data := b]> h) d q t ∧ new_addr h d q ∧ q ≠ data
    ∧ data ≠ tmpbuf d
    ∧ take (Z.to_nat (tmpbuf_size d)) (blk_mem t)
      = bytes_at h (tmpbuf d) (tmpbuf_size d).
Proof using KL.
  intros Hm Hd Hfresh Hn Hk Hq. pose proof (tmp_size_range h d Hm) as (Hts & _ & _).
  pose proof (mem_tmp h d Hm) as Ht. pose proof (heap_null h d Hm) as H0.
  destruct (Z.eqb_spec (tmpbuf d) 0) as [Hz|Hz].
  - rewrite Hz in *. apply krealloc_new in Hk as (Hfr & t & Hbt & ->); [|lia|done].
    destruct (decide (q = data)) as [->|Hqd]; [by rewrite lookup_insert_eq in Hfr|].
    rewrite lookup_insert_ne in Hfr by done.
    exists t. split; [done|]. split; [|split; [split; [done|by right]|split; [done|split; [done|]]]].
    + unfold retmp. rewrite Hz, delete_id; [done|]. by rewrite lookup_insert_ne.
    + rewrite Ht. unfold bytes_at. by rewrite H0.
  - destruct Ht as [(_ & _ & bt & Hbt & Hsz & Hlen) _].
    assert (data ≠ tmpbuf d) as Hdt by congruence.
    apply (krealloc_block _ _ bt) in Hk as (Hqq & t & Ht & -> & Hpre);
      [|lia|done|by rewrite lookup_insert_ne|lia|done].
    destruct (decide (q = data)) as [->|Hqd].
    { rewrite lookup_insert_eq in Hqq. by destruct Hqq as [Hqq|Hqq]. }
    rewrite lookup_insert_ne in Hqq by done.
    exists t. split; [done|]. split; [done|]. split; [done|]. split; [done|]. split; [done|].
    unfold bytes_at. rewrite Hbt, <- Hsz. by rewrite Z.min_l in Hpre by lia.
Qed.

Lemma delete_retmp h d data b q t :
  h !! data = None → q ≠ data → data ≠ tmpbuf d →
  delete data (retmp (<[data := b]> h) d q t) = retmp h d q t.
Proof using.
  intros Hfr Hq Hd. unfold retmp. rewrite delete_insert_ne by done. f_equal.
  rewrite delete_delete, delete_insert_id; done.
Qed.

(** [write_push] on a partial buffer [c] that may be complete. *)
Lemma write_push_spec h d q n t m u :
  drv_mem h d → new_addr h d q → 0 < n → block_for n t →
  (line (take (Z.to_nat n) (blk_mem t)) ∨ NEWLINE ∉ take (Z.to_nat n) (blk_mem t)) →
  ∃ h' d', write_push (KState (retmp h d q t) (Dev (circular_buffer d) q n m) u)
      = Ok (KState h' d' u)
    ∧ drv_mem h' d' ∧ lock d' = m
    ∧ log_in h' d' =
      (if decide (NEWLINE ∈ take (Z.to_nat n) (blk_mem t))
       then Log (push (lines (log_in h d)) (take (Z.to_nat n) (blk_mem t))) []
       else Log (lines (log_in h d)) (take (Z.to_nat n) (blk_mem t))).
Proof using KL.
  intros Hm Hq Hn Hbt Hc. pose proof Hbt as [_ [Hnl Hlt]].
  set (c := take (Z.to_nat n) (blk_mem t)) in *.
  assert (length c = Z.to_nat n) as Hlc by (unfold c; rewrite length_take; lia).
  destruct (lookup_lt_is_Some_2 c (Z.to_nat (n - 1)) ltac:(lia)) as [x Hx].
  assert (load (retmp h d q t) q (u64 (n - 1)) = Ok x) as Hload.
  { rewrite u64_id by lia. eapply load_in; [apply Hq|apply lookup_insert_eq|lia|].
    unfold c in Hx. apply lookup_take_Some in Hx as [Hx _]. done. }
  assert (last c = Some x) as Hlast.
  { rewrite last_lookup, Hlc. rewrite <- Hx. f_equal. lia. }
  unfold write_push. cbn [k_dev k_heap tmpbuf tmpbuf_size circular_buffer lock].
  rewrite Hload. cbn [mbind res_bind]. destruct Hc as [Hl|Hno].
  - rewrite (line_last c Hl) in Hlast. injection Hlast as <-. rewrite Z.eqb_refl.
    rewrite decide_True by (destruct Hl as (l' & -> & _); apply elem_of_app; right;
      apply list_elem_of_here).
    destruct (drv_mem_push KL h d q n t m Hm Hq Hn Hbt Hl)
      as (old & cb & h2 & Hadd & Hfree & Hm2 & Hlog).
    rewrite Hadd. cbn [mbind res_bind with_dev k_heap k_user].
    exists h2, (Dev cb 0 0 m). split; [|done]. destruct (negb (old =? 0)).
    + rewrite Hfree. done.
    + by injection Hfree as ->.
  - assert (x ≠ NEWLINE) as Hne by (intros ->; apply Hno; by apply last_Some_elem_of in Hlast).
    rewrite (proj2 (Z.eqb_neq _ _) Hne), decide_False by done.
    destruct (drv_mem_append h d q n t m Hm Hq Hn Hbt Hno) as [Hm2 Hlog].
    do 2 eexists. by split.
Qed.

(** The partial buffer after the copy: the old bytes and the ones taken. *)
Lemma copied_bytes (old bs mem : list Z) ts n c :
  take ts mem = old → length old = ts → n = (ts + c)%nat → (n ≤ length mem)%nat →
  (c ≤ length bs)%nat →
  take n (take ts mem ++ take c bs ++ drop n mem) = old ++ take c bs
  ∧ length (take ts mem ++ take c bs ++ drop n mem) = length mem.
Proof using.
  intros -> Hold -> Hn Hc. split.
  - rewrite app_assoc, take_app_length' by (rewrite length_app, length_take; lia). done.
  - rewrite !length_app, length_take, length_drop. lia.
Qed.

(** The copy into the reallocated buffer and the release of [data]. *)
Lemma write_copy_spec h d data b bs slack q t n :
  drv_mem h d → data ≠ 0 → h !! data = None → blk_mem b = bs ++ slack →
  Z.of_nat (length (blk_mem b)) < 2 ^ 63 → bs ≠ [] →
  n = tmpbuf_size d + Z.of_nat (length (upto_nl bs)) →
  block_for n t → new_addr h d q → q ≠ data → data ≠ tmpbuf d →
  take (Z.to_nat (tmpbuf_size d)) (blk_mem t) = bytes_at h (tmpbuf d) (tmpbuf_size d) →
  ∃ h3 t', copy_loop (scan_fuel (retmp (<[data := b]> h) d q t) data)
        (retmp (<[data := b]> h) d q t) q (tmpbuf_size d) data 0
        (Z.of_nat (length (upto_nl bs)) - 1) = Ok (h3, n)
    ∧ kfree h3 data = Ok (retmp h d q t')
    ∧ block_for n t'
    ∧ take (Z.to_nat n) (blk_mem t')
      = bytes_at h (tmpbuf d) (tmpbuf_size d) ++ upto_nl bs.
Proof using KL.
  intros Hm Hd Hfr Hmem Hlen Hbs Hn [Hbt [Hnt Htlen]] [Hq Hq'] Hqd Hdt Hpre.
  pose proof (tmp_size_range h d Hm) as (Hts & Htl & _).
  pose proof (upto_nl_nonempty bs Hbs). pose proof (upto_nl_length bs) as Hcl.
  assert (length bs ≤ length (blk_mem b))%nat as Hbl by (rewrite Hmem, length_app; lia).
  assert (∀ t, retmp (<[data := b]> h) d q t !! data = Some b) as Hdl.
  { intros t0. unfold retmp. rewrite lookup_insert_ne, lookup_delete_ne by done.
    apply lookup_insert_eq. }
  destruct (copied_bytes _ bs (blk_mem t) (Z.to_nat (tmpbuf_size d)) (Z.to_nat n)
    (length (upto_nl bs)) Hpre) as [Htake Hlt]; [lia..|].
  do 2 eexists. split; [|split; [|split]].
  - erewrite (copy_loop_spec _ _ q t data b); [|done|done|done|apply Hdl|
      apply lookup_insert_eq|lia..|unfold scan_fuel; rewrite Hdl; lia].
    replace (Z.of_nat (length (upto_nl bs)) - 1 + 1 - 0)
      with (Z.of_nat (length (upto_nl bs))) by lia.
    rewrite <- Hn, Nat2Z.id. change (Z.to_nat 0) with 0%nat.
    rewrite drop_0, Hmem, take_app_le by lia. rewrite <- upto_nl_take. done.
  - unfold retmp. rewrite insert_insert_eq. fold (retmp (<[data := b]> h) d q
      (Block (blk_size t) (take (Z.to_nat (tmpbuf_size d)) (blk_mem t)
                           ++ upto_nl bs ++ drop (Z.to_nat n) (blk_mem t)))).
    rewrite (kfree_block _ data b) by done. by rewrite delete_retmp.
  - rewrite <- upto_nl_take in Hlt. split; cbn; [done|]. rewrite Hlt. lia.
  - rewrite <- upto_nl_take in Htake. done.
Qed.

Lemma elem_of_upto_nl bs : NEWLINE ∈ upto_nl bs ↔ NEWLINE ∈ bs.
Proof using.
  destruct (decide (NEWLINE ∈ bs)) as [Hin|Hin].
  - destruct (upto_nl_line bs Hin) as (l' & -> & _). split; [done|]. intros _.
    apply elem_of_app. right. apply list_elem_of_here.
  - by rewrite upto_nl_no.
Qed.

Lemma write_append_spec h d u data b bs slack q h1 :
  drv_mem h d → data ≠ 0 → h !! data = None → blk_mem b = bs ++ slack →
  Z.of_nat (length (blk_mem b)) < 2 ^ 63 → bs ≠ [] →
  NEWLINE ∈ bs ∨ scan_stop NEWLINE slack 0 ≠ None →
  krealloc (<[data := b]> h) (tmpbuf d)
    (tmpbuf_size d + Z.of_nat (length (upto_nl bs))) = (q, h1) → q ≠ 0 →
  ∃ h' d', write_append data (Z.of_nat (length bs)) (KState (<[data := b]> h) d u)
      = Ok (Z.of_nat (length (upto_nl bs)), KState h' d' u)
    ∧ drv_mem h' d' ∧ lock d' = lock d
    ∧ log_in h' d' = log_write (log_in h d) bs.
Proof using KL.
  intros Hm Hd Hfr Hmem Hlen Hbs Hstop Hk Hq.
  pose proof (tmp_size_range h d Hm) as (Hts & Htl & Htn).
  pose proof (upto_nl_nonempty bs Hbs). pose proof (upto_nl_length bs).
  assert (length bs ≤ length (blk_mem b))%nat by (rewrite Hmem, length_app; lia).
  destruct (find_data_ind (<[data := b]> h) data b bs slack) as (found & Hf & Hind);
    [done|apply lookup_insert_eq|done..|].
  unfold write_append. cbn [k_heap k_dev k_user]. rewrite Hf. cbn [mbind res_bind].
  rewrite Hind. rewrite (u64_id (_ + _)) by lia.
  replace (tmpbuf_size d + (Z.of_nat (length (upto_nl bs)) - 1) + 1)
    with (tmpbuf_size d + Z.of_nat (length (upto_nl bs))) by lia. rewrite Hk.
  assert (tmpbuf_size d < tmpbuf_size d + Z.of_nat (length (upto_nl bs))) as Hgrow by lia.
  destruct (krealloc_tmp h d data b _ q h1 Hm Hd Hfr Hgrow Hk Hq)
    as (t & Hbt & -> & Hnew & Hqd & Hdt & Hpre).
  destruct (write_copy_spec h d data b bs slack q t _ Hm Hd Hfr Hmem Hlen Hbs eq_refl
    Hbt Hnew Hqd Hdt Hpre) as (h3 & t' & Hcopy & Hfree & Hbt' & Htake).
  rewrite Hcopy. cbn [mbind res_bind]. rewrite Hfree. cbn [mbind res_bind].
  destruct (write_push_spec h d q _ t' (lock d) u Hm Hnew (Z.le_lt_trans _ _ _ (proj1 Hts) Hgrow) Hbt')
    as (h' & d' & Hrun & Hm' & Hlk & Hlog).
  { rewrite Htake. destruct (decide (NEWLINE ∈ bs)).
    - left. apply line_app; [done|]. by apply upto_nl_line.
    - right. rewrite upto_nl_no, elem_of_app by done. tauto. }
  rewrite Hrun. cbn [mbind res_bind]. exists h', d'.
  split; [unfold mret, res_ret; do 2 f_equal; rewrite s64_id; lia|].
  split; [done|]. split; [done|]. rewrite Hlog, Htake. unfold log_write.
  apply decide_ext. rewrite elem_of_app, elem_of_upto_nl. tauto.
Qed.

(** Without a place to stop, the scan leaves the block. *)
Lemma find_char_overruns h data b bs slack :
  data ≠ 0 → h !! data = Some b → blk_mem b = bs ++ slack →
  Z.of_nat (length (blk_mem b)) < 2 ^ 63 →
  NEWLINE ∉ bs → scan_stop NEWLINE slack 0 = None →
  find_char h data NEWLINE (Z.of_nat (length bs)) = Err OutOfBounds.
Proof using.
  intros Hd Hb Hmem Hlen Hin Hs. rewrite (find_char_spec h data b Hd Hb Hlen) by lia.
  by rewrite Hmem, Nat2Z.id, scan_stop_app, decide_False, Hs.
Qed.

(** There is nothing to scan at an address that is no object. *)
Lemma find_char_no_object (h : heap) data ch size :
  h !! 0 = None → data = 0 ∨ h !! data = None →
  find_char h data ch size = Err NullDeref ∨ find_char h data ch size = Err OutOfBounds.
Proof using.
  intros H0 Hd. assert (h !! data = None) as Hnone by (destruct Hd as [->|]; done).
  unfold find_char, scan_fuel. rewrite Hnone. cbn [find_char_loop].
  assert (load h data 0 = Err NullDeref ∨ load h data 0 = Err OutOfBounds) as [Hl|Hl]
    by (unfold load, blk_get; rewrite Hnone; destruct (data =? 0); [by left|by right]).
  all: rewrite Hl; destruct (_ <? _); cbn; ((by left) || (by right)).
Qed.

(** A failed reallocation is not checked: the first byte is stored through
    [NULL]. *)
Lemma copy_loop_null h data b fuel s data_ind :
  data ≠ 0 → h !! data = Some b → (0 < length (blk_mem b))%nat → 0 ≤ data_ind →
  copy_loop (S fuel) h 0 s data 0 data_ind = Err NullDeref.
Proof using.
  intros Hd Hb Hlen Hind. cbn [copy_loop]. rewrite (proj2 (Z.leb_le _ _) Hind).
  destruct (lookup_lt_is_Some_2 (blk_mem b) 0 Hlen) as [x Hx].
  by rewrite (load_in h data b 0 x).
Qed.

(** Every outcome of the second half of the write. *)
Lemma write_append_outcomes h d u data b bs slack :
  drv_mem h d → data ≠ 0 → h !! data = None → blk_mem b = bs ++ slack →
  Z.of_nat (length (blk_mem b)) < 2 ^ 63 → bs ≠ [] →
  match write_append data (Z.of_nat (length bs)) (KState (<[data := b]> h) d u) with
  | Ok (rv, k') =>
      rv = Z.of_nat (length (upto_nl bs)) ∧ drv_mem (k_heap k') (k_dev k')
      ∧ lock (k_dev k') = lock d ∧ k_user k' = u
      ∧ log_of k' = log_write (log_in h d) bs
  | Err NullDeref => ∃ h n, n ≤ tmpbuf_size d + Z.of_nat (length bs)
                          ∧ fst (krealloc h (tmpbuf d) n) = 0
  | Err OutOfBounds => (NEWLINE ∉ bs) ∧ scan_stop NEWLINE slack 0 = None
  | Err _ => False
  end.
Proof using KL.
  intros Hm Hd Hfr Hmem Hlen Hbs.
  destruct (decide (NEWLINE ∈ bs ∨ scan_stop NEWLINE slack 0 ≠ None)) as [Hstop|Hno].
  - destruct (krealloc (<[data := b]> h) (tmpbuf d)
      (tmpbuf_size d + Z.of_nat (length (upto_nl bs)))) as [q h1] eqn:Hk.
    destruct (decide (q = 0)) as [->|Hq].
    + pose proof (tmp_size_range h d Hm) as (Hts & _ & _).
      pose proof (upto_nl_nonempty bs Hbs). pose proof (upto_nl_length bs).
      destruct (find_data_ind (<[data := b]> h) data b bs slack) as (found & Hf & Hind);
        [done|apply lookup_insert_eq|done..|].
      assert (length bs ≤ length (blk_mem b))%nat by (rewrite Hmem, length_app; lia).
      unfold write_append. cbn [k_heap k_dev k_user]. rewrite Hf. cbn [mbind res_bind].
      rewrite Hind. rewrite (u64_id (_ + _)) by lia.
      replace (tmpbuf_size d + (Z.of_nat (length (upto_nl bs)) - 1) + 1)
        with (tmpbuf_size d + Z.of_nat (length (upto_nl bs))) by lia. rewrite Hk.
      pose proof Hk as Hk'. apply krealloc_null in Hk' as ->; [|lia].
      unfold scan_fuel. rewrite lookup_insert_eq.
      rewrite (copy_loop_null _ data b) by (done || lia || apply lookup_insert_eq).
      cbn [mbind res_bind]. do 2 eexists.
      split; [|by rewrite Hk]. lia.
    + destruct (write_append_spec h d u data b bs slack q h1)
        as (h' & d' & Hrun & Hm' & Hlk & Hlog); [done..|]. by rewrite Hrun.
  - assert ((NEWLINE ∉ bs) ∧ scan_stop NEWLINE slack 0 = None) as [H1 H2].
    { split; [tauto|]. destruct (scan_stop NEWLINE slack 0); [|done].
      exfalso. apply Hno. by right. }
    unfold write_append. cbn [k_heap].
    rewrite (find_char_overruns _ data b bs slack) by (done || apply lookup_insert_eq).
    done.
Qed.

(** ** Locking *)

Lemma dev_lock_spec k :
  held (lock (k_dev k)) = false →
  ∃ rc m, dev_lock k = Ok (rc, with_dev k (set_lock (k_dev k) m))
    ∧ (rc = 0 ↔ held m = true).
Proof using KL.
  intros Hl. destruct (mutex_lock_free _ Hl) as (rc & m & Hrun & Hm).
  exists rc, m. unfold dev_lock. by rewrite Hrun.
Qed.

Lemma dev_unlock_spec k :
  held (lock (k_dev k)) = true →
  ∃ m, dev_unlock k = Ok (with_dev k (set_lock (k_dev k) m)) ∧ held m = false.
Proof using KL.
  intros Hl. destruct (mutex_unlock_held _ Hl) as (m & Hrun & Hm).
  exists m. unfold dev_unlock. by rewrite Hrun.
Qed.

Lemma drv_inv_lock k m :
  drv_mem (k_heap k) (k_dev k) → held m = false →
  drv_inv (with_dev k (set_lock (k_dev k) m))
  ∧ log_of (with_dev k (set_lock (k_dev k) m)) = log_of k.
Proof using. intros Hm Hl. split; [split; [by apply drv_mem_set_lock|done]|done]. Qed.

Lemma bool_not_held (rc : Z) (m : mutex) :
  (rc = 0 ↔ held m = true) → rc ≠ 0 → held m = false.
Proof using. intros H Hrc. destruct (held m); [|done]. exfalso. apply Hrc. by apply H. Qed.

(** ** The write *)

(** What a call of the write may return from a state with the log [l], when the
    attempt to take the lock gives [rc], on the bytes [bs] that the copy from user space yields with [missing] bytes left. *)
Definition write_result (l : log) (rc : Z) (bs : list Z) (missing f_pos : Z)
    (rv fp : Z) (l' : log) : Prop :=
  (rc ≠ 0 ∧ rv = - ERESTARTSYS ∧ fp = f_pos ∧ l' = l)
  ∨ (rc = 0 ∧ rv = - EFAULT ∧ fp = 0 ∧ l' = l ∧ missing ≠ 0)
  ∨ (rc = 0 ∧ rv = Z.of_nat (length (upto_nl bs)) ∧ fp = 0 ∧ l' = log_write l bs
     ∧ missing = 0).

(** The write between the lock and the unlock. *)
Definition write_locked (buf count : Z) (k : kstate) : res (Z * kstate) :=
  let '(data, h) := kmalloc (k_heap k) count in
  let '(bs, missing) := copy_from_user (k_user k) buf count in
  h ← store_bytes h data bs;
  if negb (missing =? 0)
  then h ← kfree h data; mret (- EFAULT, with_heap k h)
  else write_append data count (with_heap k h).

Lemma aesd_write_unfold buf count f_pos k :
  aesd_write buf count f_pos k =
  '(rc, k) ← dev_lock k;
  if negb (rc =? 0) then mret (- ERESTARTSYS, f_pos, k)
  else
    '(retval, k) ← write_locked buf count k;
    k ← dev_unlock k;
    mret (retval, 0, k).
Proof using.
  unfold aesd_write, write_locked. destruct (dev_lock k) as [[rc k1]|]; [|done].
  cbn [mbind res_bind]. destruct (negb (rc =? 0)); [done|].
  destruct (kmalloc (k_heap k1) count) as [data h].
  destruct (copy_from_user (k_user k1) buf count) as [bs missing].
  destruct (store_bytes h data bs) as [h'|]; [|done]. done.
Qed.

Lemma write_locked_outcomes buf count k bs missing :
  drv_mem (k_heap k) (k_dev k) → 0 < count →
  copy_from_user (k_user k) buf count = (bs, missing) →
  match write_locked buf count k with
  | Ok (rv, k') =>
      drv_mem (k_heap k') (k_dev k') ∧ lock (k_dev k') = lock (k_dev k)
      ∧ k_user k' = k_user k
      ∧ ((rv = - EFAULT ∧ log_of k' = log_of k ∧ missing ≠ 0)
         ∨ (rv = Z.of_nat (length (upto_nl bs))
            ∧ log_of k' = log_write (log_of k) bs ∧ missing = 0))
  | Err NullDeref => fst (kmalloc (k_heap k) count) = 0
                     ∨ ∃ h n, n ≤ tmpbuf_size (k_dev k) + count
                         ∧ fst (krealloc h (tmpbuf (k_dev k)) n) = 0
  | Err OutOfBounds => (NEWLINE ∉ bs) ∧ missing = 0
      ∧ ∀ b, snd (kmalloc (k_heap k) count) !! fst (kmalloc (k_heap k) count) = Some b →
             scan_stop NEWLINE (drop (Z.to_nat count) (blk_mem b)) 0 = None
  | Err _ => False
  end.
Proof using KL.
  intros Hm Hc Hcopy. pose proof (copy_from_user_length _ _ _ _ _ (Z.lt_le_incl _ _ Hc) Hcopy)
    as [Hbl _]. assert (bs ≠ []) as Hbs by (intros ->; cbn in *; lia).
  unfold write_locked. destruct (kmalloc (k_heap k) count) as [data h] eqn:Hk. rewrite Hcopy.
  destruct (decide (data = 0)) as [->|Hd].
  { apply kmalloc_null in Hk as ->; [|lia]. unfold store_bytes.
    rewrite decide_False by done. by left. }
  apply kmalloc_block in Hk as (Hfr & b & [Hb1 [Hb2 Hb3]] & ->); [|done|done].
  rewrite (store_bytes_in _ data b bs) by (done || apply lookup_insert_eq || lia).
  cbn [mbind res_bind]. rewrite insert_insert_eq. set (b' := Block _ _).
  destruct (Z.eqb_spec missing 0) as [->|Hmiss]; cbn [negb].
  - replace count with (Z.of_nat (length bs)).
    unfold with_heap. pose proof (write_append_outcomes (k_heap k) (k_dev k) (k_user k) data b'
      bs (drop (length bs) (blk_mem b)) Hm Hd Hfr eq_refl) as Hout.
    specialize (Hout ltac:(cbn; rewrite length_app, length_drop; lia) Hbs).
    revert Hout. destruct (write_append _ _ _) as [[rv k']|[]]; intros Hout.
    + destruct Hout as (-> & Hm' & Hl & Hu & Hlog). split_and!; try done. right. by split.
    + right. done.
    + destruct Hout as [Hn Hs]. split; [done|]. split; [done|]. cbn.
      intros b0 Hb0. rewrite lookup_insert_eq in Hb0. injection Hb0 as <-.
      by rewrite Nat2Z.id.
    + done.
    + done.
    + done.
    + done.
  - rewrite (kfree_block _ data b') by (done || apply lookup_insert_eq).
    cbn [mbind res_bind]. rewrite delete_insert_id by done. cbn.
    split; [done|]. split; [done|]. split; [done|]. left. by split.
Qed.

(** ** The read *)

Lemma upto_nl_line_suffix l r rest :
  line l → (r < length l)%nat → upto_nl (drop r l ++ rest) = drop r l.
Proof using.
  intros (l' & -> & Hl') Hr. rewrite length_app in Hr. cbn in Hr.
  rewrite drop_app_le by lia.
  assert (NEWLINE ∉ drop r l') as Hno
    by (intros H; apply Hl'; rewrite <- (take_drop r l'); apply elem_of_app; by right).
  revert Hno. generalize (drop r l') as x. induction x as [|a x IH]; intros Hno; [done|].
  apply not_elem_of_cons in Hno as [Ha Hno]. cbn.
  rewrite (proj2 (Z.eqb_neq a NEWLINE)) by done. f_equal. by apply IH.
Qed.

Lemma drop_concat {A} (ls : list (list A)) i l r :
  ls !! i = Some l → (r ≤ length l)%nat →
  drop (length (concat (take i ls)) + r) (concat ls) = drop r l ++ concat (drop (S i) ls).
Proof using.
  revert i. induction ls as [|l' ls IH]; intros [|i] Hi Hr; try done.
  - injection Hi as ->. cbn. rewrite drop_0. by apply drop_app_le.
  - cbn [take concat drop]. rewrite length_app, <- Nat.add_assoc, <- drop_drop.
    rewrite drop_app_length. by apply IH.
Qed.

Lemma lines_ok h d :
  drv_mem h d → Forall line (lines (log_in h d))
  ∧ (λ l, Z.of_nat (length l)) <$> lines (log_in h d)
    = e_size <$> cb_entries (circular_buffer d).
Proof using.
  intros Hm. split.
  - cbn. apply Forall_fmap, Forall_forall. intros e He. by apply (mem_entries h d Hm).
  - cbn. rewrite <- list_fmap_compose. apply list_fmap_ext. intros i e He. cbn.
    destruct (mem_entries h d Hm e) as [(_ & Hn & b & Hb & Hsz & Hlen) _];
      [by eapply list_elem_of_lookup_2|].
    unfold bytes_at. rewrite Hb, length_take. lia.
Qed.

Lemma contents_length h d :
  drv_mem h d →
  Z.of_nat (length (contents (log_in h d))) = cb_total (circular_buffer d).
Proof using.
  intros Hm. destruct (lines_ok h d Hm) as [_ Hs]. unfold cb_total, contents.
  by rewrite <- Hs, zsum_concat.
Qed.

(** The search at a position of the contents, in terms of the log. *)
Lemma find_in_log h d pos :
  drv_mem h d → 0 ≤ pos < 2 ^ 64 →
  match aesd_circular_buffer_find_entry_offset_for_fpos (circular_buffer d) pos with
  | Ok (Some (ind, off)) => ∃ e b,
      arr_get (entry (circular_buffer d)) ind = Ok e ∧ h !! buffptr e = Some b
      ∧ buffptr e ≠ 0 ∧ block_for (e_size e) b ∧ 0 ≤ off < e_size e
      ∧ upto_nl (drop (Z.to_nat pos) (contents (log_in h d)))
        = take (Z.to_nat (e_size e - off)) (drop (Z.to_nat off) (blk_mem b))
  | Ok None => drop (Z.to_nat pos) (contents (log_in h d)) = []
  | Err _ => False
  end.
Proof using.
  intros Hm Hpos. rewrite (find_spec _ _ (mem_ring h d Hm) Hpos).
  pose proof (lines_ok h d Hm) as [Hl Hs].
  pose proof (cb_sizes_nonneg _ (mem_ring h d Hm)) as Hnn.
  destruct (locate _ pos) as [[k r]|] eqn:Hloc; cbn [mbind option_bind].
  - apply locate_Some in Hloc as (s & Hk & Hr & Heq); [|lia].
    apply list_lookup_fmap_Some in Hk as (e & -> & He).
    destruct (mem_entries h d Hm e) as [(Hp & Hn & b & Hb & Hbs & Hlen) Hline];
      [by eapply list_elem_of_lookup_2|].
    exists e, b. split; [apply cb_slot_entry; [apply Hm|done]|]. split; [done|]. split; [done|].
    split; [done|]. split; [done|].
    unfold bytes_at in Hline. rewrite Hb in Hline.
    assert (lines (log_in h d) !! k = Some (take (Z.to_nat (e_size e)) (blk_mem b))) as Hlk
      by (cbn; rewrite list_lookup_fmap, He; cbn; unfold bytes_at; by rewrite Hb).
    rewrite <- Hs, <- fmap_take, zsum_concat in Heq.
    replace (Z.to_nat pos)
      with (length (concat (take k (lines (log_in h d)))) + Z.to_nat r)%nat by lia.
    unfold contents. rewrite (drop_concat _ _ _ _ Hlk) by (rewrite length_take; lia).
    rewrite upto_nl_line_suffix by (done || rewrite length_take; lia).
    rewrite skipn_firstn_comm. f_equal. lia.
  - apply locate_None in Hloc; [|done|lia]. apply drop_ge.
    pose proof (contents_length h d Hm). unfold cb_total in *. lia.
Qed.

(** The read between the lock and the unlock. *)
Definition read_result (l : log) (u : user) (buf f_pos : Z) : Z * Z * user :=
  let rest := upto_nl (drop (Z.to_nat f_pos) (contents l)) in
  if decide (rest = []) then (0, f_pos, u)
  else
    let '(u', missing) := copy_to_user u buf rest in
    if missing =? 0
    then (Z.of_nat (length rest), f_pos + Z.of_nat (length rest), u')
    else (- EFAULT, f_pos, u').

Lemma aesd_read_spec buf count f_pos k m :
  drv_inv k → mutex_lock_interruptible (lock (k_dev k)) = Ok (0, m) →
  0 ≤ f_pos < 2 ^ 62 → Z.of_nat (length (contents (log_of k))) < 2 ^ 62 →
  ∃ m', held m' = false ∧ mutex_unlock m = Ok m' ∧
    aesd_read buf count f_pos k =
    let '(rv, fp, u) := read_result (log_of k) (k_user k) buf f_pos in
    Ok (rv, fp, KState (k_heap k) (set_lock (k_dev k) m') u).
Proof using KL.
  intros [Hm Hl] Hlock Hpos Htot.
  destruct (mutex_lock_free _ Hl) as (rc & m0 & Hrun & Hheld).
  rewrite Hlock in Hrun. injection Hrun as <- <-.
  destruct (mutex_unlock_held m (proj1 Hheld eq_refl)) as (m' & Hun & Hheld').
  exists m'. split; [done|]. split; [done|]. unfold aesd_read, dev_lock. rewrite Hlock.
  cbn [mbind res_bind mret res_ret Z.eqb negb with_dev k_dev k_heap k_user set_lock circular_buffer].
  rewrite u64_id by lia.
  pose proof (find_in_log (k_heap k) (k_dev k) f_pos Hm ltac:(lia)) as Hfind.
  unfold read_result. fold (log_of k) in Hfind.
  destruct (aesd_circular_buffer_find_entry_offset_for_fpos _ f_pos) as [[[ind off]|]|];
    [|by rewrite Hfind; cbn; unfold dev_unlock; cbn; rewrite Hun|done].
  destruct Hfind as (e & b & Hget & Hb & Hp & [Hbs Hlen] & Hoff & Heq).
  cbn [mbind res_bind]. rewrite Hget. cbn [mbind res_bind].
  rewrite (u64_id (e_size e - off)), s64_id, u64_id by lia.
  rewrite (load_bytes_in (k_heap k) (buffptr e) b off) by (done || lia).
  cbn [mbind res_bind]. rewrite Heq.
  assert (length (take (Z.to_nat (e_size e - off)) (drop (Z.to_nat off) (blk_mem b)))
          = Z.to_nat (e_size e - off)) as Hlr by (rewrite length_take, length_drop; lia).
  rewrite decide_False by (intros H0; rewrite H0 in Hlr; cbn in Hlr; lia).
  destruct (copy_to_user _ _ _) as [u' missing]. rewrite Hlr.
  destruct (Z.eqb_spec missing 0); cbn [negb mbind res_bind mret res_ret];
    unfold dev_unlock; cbn; rewrite Hun; cbn; [|done].
  pose proof (upto_nl_length (drop (Z.to_nat f_pos) (contents (log_of k)))) as Hle.
  rewrite Heq, Hlr, length_drop in Hle. rewrite Z2Nat.id, s64_id by lia. done.
Qed.

(** ** The jump *)

(** The position of byte [o] of line [i]. *)
Definition line_pos (l : log) (i o : Z) : Z :=
  Z.of_nat (length (concat (take (Z.to_nat i) (lines l)))) + o.

Definition jmp_result (d : aesd_dev) (l : log) (i o : Z) : Z :=
  match lines l !! Z.to_nat i with
  | Some x =>
      if Z.of_nat (length x) <=? o then - EINVAL
      else if out_offs (circular_buffer d) + i <? 10 then line_pos l i o
      else Z.of_nat (length (contents l)) + o
  | None => - EINVAL
  end.

Lemma jmp_in_log h d i o :
  drv_mem h d → 0 ≤ i → 0 ≤ o → Z.of_nat (length (contents (log_in h d))) < 2 ^ 62 →
  aesd_circular_buffer_jmp_entry_offset (circular_buffer d) i o =
  Ok (jmp_result d (log_in h d) i o).
Proof using.
  intros Hm Hi Ho Htot. pose proof (contents_length h d Hm) as Hc.
  rewrite (jmp_spec _ _ _ (mem_ring h d Hm) Hi Ho) by lia. unfold jmp_result.
  destruct (lines_ok h d Hm) as [_ Hs].
  pose proof (f_equal (.!! Z.to_nat i) Hs) as Hi'. cbn beta in Hi'.
  rewrite !list_lookup_fmap in Hi'.
  destruct (cb_entries (circular_buffer d) !! Z.to_nat i) as [e|] eqn:He;
    destruct (lines (log_in h d) !! Z.to_nat i) as [x|] eqn:Hx; try done.
  cbn in Hi'. injection Hi' as Hlen. rewrite Hlen.
  destruct (mem_entries h d Hm e) as [(Hp & _) _]; [by eapply list_elem_of_lookup_2|].
  rewrite (proj2 (Z.eqb_neq _ _) Hp). cbn [orb]. destruct (e_size e <=? o); [done|].
  unfold jmp_start, line_pos. rewrite Z2Nat.id by done.
  destruct (_ <? 10); [|by rewrite <- Hc].
  by rewrite <- Hs, <- fmap_take, zsum_concat.
Qed.

(** ** Freeing every slot *)

Lemma entry_slots b :
  cb_wf b → entry b ≡ₚ cb_entries b ++ replicate (10 - length (cb_entries b)) zero_entry.
Proof using.
  intros Hwf. pose proof (cb_entries_length b Hwf) as Hn.
  destruct Hwf as [Hlen Hin Hout Hfree _ _]. unfold cb_entries in *. destruct (full b).
  - rewrite length_app, length_take, length_drop. replace (10 - _)%nat with 0%nat by lia.
    cbn. rewrite app_nil_r, Permutation_app_comm. by rewrite take_drop.
  - rewrite length_take.
    assert (replicate (10 - Z.to_nat (in_offs b) `min` length (entry b)) zero_entry
            = drop (Z.to_nat (in_offs b)) (entry b)) as ->; [|by rewrite take_drop].
    apply list_eq. intros i. rewrite lookup_drop.
    destruct (decide (Z.to_nat (in_offs b) + i < 10)%nat).
    + rewrite lookup_replicate_2 by lia.
      specialize (Hfree eq_refl (in_offs b + Z.of_nat i) ltac:(lia)).
      rewrite <- Hfree. f_equal. lia.
    + rewrite (proj2 (lookup_ge_None (entry b) _)) by lia.
      apply lookup_ge_None. rewrite length_replicate. lia.
Qed.

Definition ptrs (es : list aesd_buffer_entry) : list Z :=
  filter (λ p, p ≠ 0) (buffptr <$> es).

Lemma ptrs_cons e es :
  ptrs (e :: es) = if decide (buffptr e ≠ 0) then buffptr e :: ptrs es else ptrs es.
Proof using. unfold ptrs. cbn [fmap list_fmap]. by rewrite filter_cons. Qed.

Lemma free_entries_spec es h :
  NoDup (ptrs es) → (∀ p, p ∈ ptrs es → is_Some (h !! p)) →
  ∃ h', free_entries es h = Ok h'
    ∧ ∀ p, (p ∈ ptrs es → h' !! p = None) ∧ (p ∉ ptrs es → h' !! p = h !! p).
Proof using KL.
  revert h. induction es as [|e es IH]; intros h Hnd Hin.
  - exists h. split; [done|]. intros p. split; [|done]. intros Hp.
    by apply not_elem_of_nil in Hp.
  - rewrite ptrs_cons in *. cbn [free_entries].
    destruct (decide (buffptr e ≠ 0)) as [Hp|Hp].
    + apply NoDup_cons in Hnd as [Hnot Hnd].
      destruct (Hin (buffptr e) ltac:(apply list_elem_of_here)) as [b Hb].
      rewrite (kfree_block h _ b Hp Hb). cbn [mbind res_bind].
      destruct (IH (delete (buffptr e) h) Hnd) as (h' & Hrun & Hh').
      { intros p Hpin. rewrite lookup_delete_ne by congruence.
        apply Hin. by apply list_elem_of_further. }
      exists h'. split; [done|]. intros p. destruct (Hh' p) as [Hh1 Hh2].
      rewrite elem_of_cons. destruct (decide (p = buffptr e)) as [->|Hne].
      * rewrite Hh2, lookup_delete_eq by done. by split; [|tauto].
      * rewrite lookup_delete_ne in Hh2 by done. tauto.
    + assert (buffptr e = 0) as -> by (by apply dec_stable).
      rewrite kfree_null. cbn [mbind res_bind]. by apply IH.
Qed.

Lemma filter_nonzero l : Forall (λ p : Z, p ≠ 0) l → filter (λ p, p ≠ 0) l = l.
Proof using.
  induction 1 as [|p l Hp Hl IH]; [done|]. rewrite filter_cons_True by done. by rewrite IH.
Qed.

Lemma filter_zeros n : filter (λ p : Z, p ≠ 0) (replicate n 0) = [].
Proof using. induction n as [|n IH]; [done|]. cbn. by rewrite decide_False by tauto. Qed.

Lemma ptrs_ring h d :
  drv_mem h d → ptrs (entry (circular_buffer d)) ≡ₚ buffptr <$> cb_entries (circular_buffer d).
Proof using.
  intros Hm. unfold ptrs. rewrite (entry_slots _ (mem_ring h d Hm)), fmap_app, filter_app.
  rewrite fmap_replicate, filter_zeros, app_nil_r, filter_nonzero; [done|].
  apply Forall_fmap, Forall_forall. intros e He. by apply (mem_entries h d Hm).
Qed.

(** ** Init and cleanup *)

Lemma drv_mem_fresh m : drv_mem ∅ (Dev aesd_circular_buffer_init 0 0 m).
Proof using.
  split; cbn.
  - apply cb_init_wf.
  - intros e He. by apply not_elem_of_nil in He.
  - done.
  - apply NoDup_nil_2.
  - intros p. rewrite lookup_empty. split; [by intros [? [=]]|]. intros Hp.
    by apply not_elem_of_nil in Hp.
Qed.

Lemma cleanup_spec ms k :
  drv_mem (k_heap k) (k_dev k) →
  aesd_cleanup_module ms k = Ok (Module_ (aesd_major ms) None false, with_heap k ∅).
Proof using KL.
  intros Hm. pose proof (ptrs_ring _ _ Hm) as Hptrs.
  pose proof (mem_nodup _ _ Hm) as Hnd. pose proof (mem_owned _ _ Hm) as Hown.
  unfold owned in *. apply NoDup_app in Hnd as (_ & Htmp & Hnd).
  assert (AESD_CIRCULAR_BUFFER_FOREACH (circular_buffer (k_dev k))
          = entry (circular_buffer (k_dev k))) as Hall
    by (apply take_ge; by rewrite (wf_len _ (mem_ring _ _ Hm))).
  destruct (free_entries_spec (entry (circular_buffer (k_dev k))) (k_heap k))
    as (h1 & Hrun & Hh1).
  { by rewrite Hptrs. }
  { intros p Hp. apply Hown. rewrite Hptrs in Hp. apply elem_of_app. by right. }
  unfold aesd_cleanup_module. rewrite Hall, Hrun. cbn [mbind res_bind].
  destruct (Z.eqb_spec (tmpbuf (k_dev k)) 0) as [Hz|Hz]; cbn [negb].
  - cbn. unfold with_heap. do 3 f_equal. apply map_eq. intros p. rewrite lookup_empty.
    apply eq_None_not_Some. intros Hs. destruct (decide (p ∈ ptrs (entry (circular_buffer (k_dev k)))))
      as [Hp|Hp]; [by rewrite (proj1 (Hh1 p) Hp) in Hs; destruct Hs|].
    rewrite (proj2 (Hh1 p) Hp) in Hs. apply Hp. rewrite Hptrs. by apply Hown in Hs.
  - assert (tmpbuf (k_dev k) ∉ ptrs (entry (circular_buffer (k_dev k)))) as Hnot.
    { rewrite Hptrs. apply Htmp. by apply list_elem_of_singleton. }
    destruct (proj2 (Hown (tmpbuf (k_dev k)))) as [b Hb].
    { apply elem_of_app. left. by apply list_elem_of_singleton. }
    rewrite (kfree_block h1 _ b) by (done || rewrite (proj2 (Hh1 _) Hnot); done).
    cbn. unfold with_heap. do 3 f_equal. apply map_eq. intros p. rewrite lookup_empty.
    destruct (decide (p = tmpbuf (k_dev k))) as [->|Hne]; [apply lookup_delete_eq|].
    rewrite lookup_delete_ne by done. apply eq_None_not_Some. intros Hs.
    destruct (decide (p ∈ ptrs (entry (circular_buffer (k_dev k))))) as [Hp|Hp];
      [by rewrite (proj1 (Hh1 p) Hp) in Hs; destruct Hs|].
    rewrite (proj2 (Hh1 p) Hp) in Hs. apply Hp. rewrite Hptrs. apply Hown in Hs.
    apply elem_of_app in Hs as [Hs|Hs]; [|done]. by apply list_elem_of_singleton in Hs.
Qed.

(** ** Whole calls *)

Lemma aesd_write_outcomes buf count f_pos k rc m bs missing :
  drv_inv k → 0 < count → mutex_lock_interruptible (lock (k_dev k)) = Ok (rc, m) →
  copy_from_user (k_user k) buf count = (bs, missing) →
  match aesd_write buf count f_pos k with
  | Ok (rv, fp, k') =>
      drv_inv k' ∧ k_user k' = k_user k
      ∧ write_result (log_of k) rc bs missing f_pos rv fp (log_of k')
  | Err NullDeref => fst (kmalloc (k_heap k) count) = 0
                     ∨ ∃ h n, n ≤ tmpbuf_size (k_dev k) + count
                         ∧ fst (krealloc h (tmpbuf (k_dev k)) n) = 0
  | Err OutOfBounds => (NEWLINE ∉ bs) ∧ missing = 0
      ∧ ∀ b, snd (kmalloc (k_heap k) count) !! fst (kmalloc (k_heap k) count) = Some b →
             scan_stop NEWLINE (drop (Z.to_nat count) (blk_mem b)) 0 = None
  | Err _ => False
  end.
Proof using KL.
  intros [Hm Hl] Hc Hlock Hcopy. rewrite aesd_write_unfold.
  destruct (mutex_lock_free _ Hl) as (rc' & m0 & Hrun & Hheld).
  rewrite Hlock in Hrun. injection Hrun as <- <-. unfold dev_lock. rewrite Hlock.
  cbn [mbind res_bind mret res_ret]. destruct (Z.eqb_spec rc 0) as [->|Hrc]; cbn [negb].
  - pose proof (write_locked_outcomes buf count (with_dev k (set_lock (k_dev k) m)) bs missing
      (drv_mem_set_lock _ _ _ Hm) Hc Hcopy) as Hout. revert Hout.
    destruct (write_locked _ _ _) as [[rv k']|[]]; cbn [mbind res_bind]; try done.
    intros (Hm' & Hlk & Hu & Hcases).
    destruct (dev_unlock_spec k') as (m' & Hun & Hheld').
    { rewrite Hlk. by apply Hheld. }
    rewrite Hun. cbn. destruct (drv_inv_lock k' m' Hm' Hheld') as [Hinv Hlog].
    split; [done|]. split; [done|]. rewrite Hlog. unfold write_result.
    destruct Hcases as [(-> & Hk & Hms)|(-> & Hk & Hms)]; rewrite Hk; auto 8.
  - cbn. destruct (drv_inv_lock k m Hm (bool_not_held _ _ Hheld Hrc)) as [Hinv Hlog].
    split; [done|]. split; [done|]. left. done.
Qed.

(** A call that only looks at the ring keeps everything but the lock. *)
Lemma same_device k k' m :
  drv_inv k → k_heap k' = k_heap k → k_dev k' = set_lock (k_dev k) m → held m = false →
  drv_inv k' ∧ log_of k' = log_of k.
Proof using.
  intros [Hm _] Hh Hd Hl. unfold drv_inv, log_of. rewrite Hh, Hd.
  split; [|done]. by split; [apply drv_mem_set_lock|].
Qed.

Lemma aesd_read_outcomes buf count f_pos k :
  drv_inv k →
  ∃ rv fp u m, aesd_read buf count f_pos k
      = Ok (rv, fp, KState (k_heap k) (set_lock (k_dev k) m) u)
    ∧ held m = false.
Proof using KL.
  intros [Hm Hl]. destruct (dev_lock_spec k Hl) as (rc & m & Hrun & Hheld).
  unfold aesd_read. rewrite Hrun. cbn [mbind res_bind].
  destruct (Z.eqb_spec rc 0) as [->|Hrc]; cbn [negb].
  - destruct (mutex_unlock_held m (proj1 Hheld eq_refl)) as (m' & Hun & Hheld').
    pose proof (find_in_log (k_heap k) (k_dev k) (u64 f_pos) Hm (u64_range _)) as Hfind.
    cbn [with_dev k_dev set_lock circular_buffer k_heap k_user].
    destruct (aesd_circular_buffer_find_entry_offset_for_fpos _ _) as [[[ind off]|]|]; [| |done].
    + destruct Hfind as (e & b & Hget & Hb & Hp & [Hbs Hlen] & Hoff & _).
      cbn [mbind res_bind]. rewrite Hget. cbn [mbind res_bind].
      rewrite (u64_id (e_size e - off)), s64_id, u64_id by lia.
      rewrite (load_bytes_in (k_heap k) (buffptr e) b off) by (done || lia).
      cbn [mbind res_bind]. destruct (copy_to_user _ _ _) as [u' missing].
      destruct (negb (missing =? 0)); unfold dev_unlock; cbn; rewrite Hun; cbn;
        do 4 eexists; split; done.
    + cbn. unfold dev_unlock. cbn. rewrite Hun. cbn. do 4 eexists; split; done.
  - destruct k. do 4 eexists. split; [done|]. by eapply bool_not_held.
Qed.

Lemma aesd_llseek_outcomes off whence f_pos k :
  drv_inv k →
  ∃ rv fp m, aesd_llseek off whence f_pos k
      = Ok (rv, fp, KState (k_heap k) (set_lock (k_dev k) m) (k_user k))
    ∧ held m = false.
Proof using KL.
  intros [Hm Hl]. destruct (dev_lock_spec k Hl) as (rc & m & Hrun & Hheld).
  unfold aesd_llseek. rewrite Hrun. cbn [mbind res_bind].
  destruct (Z.eqb_spec rc 0) as [->|Hrc]; cbn [negb].
  - destruct (mutex_unlock_held m (proj1 Hheld eq_refl)) as (m' & Hun & Hheld').
    cbn. destruct (fixed_size_llseek _ _ _ _) as [rv fp].
    unfold dev_unlock. cbn. rewrite Hun. cbn. do 3 eexists; split; done.
  - do 3 eexists. split; [done|]. by eapply bool_not_held.
Qed.

Lemma aesd_ioctl_outcomes cmd arg f_pos k :
  drv_inv k → Z.of_nat (length (contents (log_of k))) < 2 ^ 62 →
  ∃ rv fp m, aesd_unlocked_ioctl cmd arg f_pos k
      = Ok (rv, fp, KState (k_heap k) (set_lock (k_dev k) m) (k_user k))
    ∧ held m = false.
Proof using KL.
  intros [Hm Hl] Htot. unfold aesd_unlocked_ioctl.
  assert (∃ rv fp m, (mret (- ENOTTY, f_pos, k) : res (Z * Z * kstate))
      = Ok (rv, fp, KState (k_heap k) (set_lock (k_dev k) m) (k_user k))
    ∧ held m = false) as Hnotty.
  { destruct k as [h [] u]. do 3 eexists. split; done. }
  destruct (negb (IOC_TYPE cmd =? AESD_IOC_MAGIC)); [done|].
  destruct (AESDCHAR_IOC_MAXNR <? IOC_NR cmd); [done|].
  destruct (cmd =? AESDCHAR_IOCSEEKTO); [|done].
  destruct (copy_from_user _ _ _) as [bs missing] eqn:Hcopy.
  destruct (negb (missing =? 0)).
  { destruct k as [h [] u]. do 3 eexists. split; done. }
  destruct (dev_lock_spec k Hl) as (rc & m & Hrun & Hheld). rewrite Hrun.
  cbn [mbind res_bind]. destruct (Z.eqb_spec rc 0) as [->|Hrc]; cbn [negb].
  - destruct (mutex_unlock_held m (proj1 Hheld eq_refl)) as (m' & Hun & Hheld').
    cbn [with_dev k_dev set_lock circular_buffer].
    rewrite (jmp_in_log (k_heap k) (k_dev k)); [|done|apply u8_range|apply le32_range|done].
    cbn [mbind res_bind]. destruct (jmp_result _ _ _ _ <? 0);
      unfold dev_unlock; cbn; rewrite Hun; cbn; do 3 eexists; split; done.
  - do 3 eexists. split; [done|]. by eapply bool_not_held.
Qed.

(** Whatever an ioctl returns, it only touches the lock. *)
Lemma aesd_ioctl_frame cmd arg f_pos k rv fp k' :
  drv_inv k → aesd_unlocked_ioctl cmd arg f_pos k = Ok (rv, fp, k') →
  drv_inv k' ∧ log_of k' = log_of k.
Proof using KL.
  intros Hinv Hrun. pose proof Hinv as [Hm Hl]. unfold aesd_unlocked_ioctl in Hrun.
  destruct (negb (IOC_TYPE cmd =? AESD_IOC_MAGIC)); [by injection Hrun as <- <- <-|].
  destruct (AESDCHAR_IOC_MAXNR <? IOC_NR cmd); [by injection Hrun as <- <- <-|].
  destruct (cmd =? AESDCHAR_IOCSEEKTO); [|by injection Hrun as <- <- <-].
  destruct (copy_from_user _ _ _) as [bs missing].
  destruct (negb (missing =? 0)); [by injection Hrun as <- <- <-|].
  destruct (dev_lock_spec k Hl) as (rc & m & Hlock & Hheld). rewrite Hlock in Hrun.
  cbn [mbind res_bind] in Hrun. destruct (Z.eqb_spec rc 0) as [->|Hrc]; cbn [negb] in Hrun.
  - destruct (mutex_unlock_held m (proj1 Hheld eq_refl)) as (m' & Hun & Hheld').
    apply res_bind_Ok in Hrun as (pos & _ & Hrun). unfold dev_unlock in Hrun.
    destruct (pos <? 0); cbn in Hrun; rewrite Hun in Hrun; injection Hrun as <- <- <-;
      by apply (same_device k _ m').
  - injection Hrun as <- <- <-. apply (same_device k _ m); try done.
    by eapply bool_not_held.
Qed.

(** One call of a file operation that returns, and the process's own writes to
    its memory; with each call what a successful write took from the process. *)
Inductive drv_call : list (list Z) → kstate → kstate → Prop :=
| call_read buf count f_pos rv fp k k' :
    aesd_read buf count f_pos k = Ok (rv, fp, k') → drv_call [] k k'
| call_write buf count f_pos rv fp k k' :
    0 < count → aesd_write buf count f_pos k = Ok (rv, fp, k') →
    drv_call (if 0 <=? rv then [(copy_from_user (k_user k) buf count).1] else []) k k'
| call_llseek off whence f_pos rv fp k k' :
    aesd_llseek off whence f_pos k = Ok (rv, fp, k') → drv_call [] k k'
| call_ioctl cmd arg f_pos rv fp k k' :
    aesd_unlocked_ioctl cmd arg f_pos k = Ok (rv, fp, k') → drv_call [] k k'
| call_user k u : drv_call [] k (with_user k u).

(** Some calls, one after the other. *)
Inductive drv_calls : list (list Z) → kstate → kstate → Prop :=
| calls_none k : drv_calls [] k k
| calls_more ws1 ws2 k1 k2 k3 :
    drv_call ws1 k1 k2 → drv_calls ws2 k2 k3 → drv_calls (ws1 ++ ws2) k1 k3.

(** A call keeps the invariant, and what it took is all it appends to the log. *)
Lemma drv_call_inv ws k k' :
  drv_inv k → drv_call ws k k' → drv_inv k' ∧ log_of k' = foldl log_write (log_of k) ws.
Proof using KL.
  intros Hinv Hcall. destruct Hcall as [buf count f_pos rv fp k k' Hrun
    |buf count f_pos rv fp k k' Hc Hrun|off whence f_pos rv fp k k' Hrun
    |cmd arg f_pos rv fp k k' Hrun|k u].
  - destruct (aesd_read_outcomes buf count f_pos k Hinv) as (? & ? & u & m & Hr & Hl).
    rewrite Hr in Hrun. injection Hrun as _ _ <-.
    by destruct (same_device k (KState (k_heap k) (set_lock (k_dev k) m) u) m) as [H1 H2].
  - destruct (copy_from_user (k_user k) buf count) as [bs missing] eqn:Hcopy.
    destruct (mutex_lock_free _ (proj2 Hinv)) as (rc & m & Hlock & _).
    pose proof (aesd_write_outcomes buf count f_pos k rc m bs missing Hinv Hc Hlock Hcopy)
      as Hout.
    rewrite Hrun in Hout. destruct Hout as (H1 & _ & H2). split; [done|].
    destruct H2 as [(_ & -> & _ & ->)|[(_ & -> & _ & -> & _)|(_ & -> & _ & -> & _)]];
      [done|done|]. by rewrite (proj2 (Z.leb_le 0 _)) by lia.
  - destruct (aesd_llseek_outcomes off whence f_pos k Hinv) as (? & ? & m & Hr & Hl).
    rewrite Hr in Hrun. injection Hrun as _ _ <-.
    by destruct (same_device k (KState (k_heap k) (set_lock (k_dev k) m) (k_user k)) m)
      as [H1 H2].
  - by apply aesd_ioctl_frame in Hrun as [H1 H2].
  - done.
Qed.

Lemma drv_calls_inv ws k k' :
  drv_inv k → drv_calls ws k k' → drv_inv k' ∧ log_of k' = foldl log_write (log_of k) ws.
Proof using KL.
  intros Hinv H. induction H as [k|ws1 ws2 k1 k2 k3 Hstep _ IH]; [done|].
  destruct (drv_call_inv _ _ _ Hinv Hstep) as [Hinv2 Hlog2].
  destruct (IH Hinv2) as [Hinv3 Hlog3]. split; [done|]. by rewrite foldl_app, Hlog3, Hlog2.
Qed.
End Refine.
