(* ===== verification/DriverProps.v ===== *)
(** * Properties of the char driver

    The theorems about [CharDriver], each followed by a witness that applies it
    to the concrete kernel [demo_kernel] on a concrete state. *)

From S2P Require Import Prelude CircularBuffer Memory Kernel AesdIoctl CharDriver DriverSpec DriverRefine.

(** ** A concrete device *)

(** Requests of up to 4096 bytes succeed, and a block has one zero byte of slack. *)
Definition demo_kernel : Kernel := sim_kernel 4096 [0].

Lemma demo_laws : KernelLaws demo_kernel.
Proof. apply sim_kernel_laws. cbn. lia. Qed.

Section Demo.
#[local] Existing Instance demo_kernel.
#[local] Existing Instance demo_laws.

(** User memory: the text ["ab\ncd\nxy"], then the bytes of a seek command for
    byte 1 of line 1. *)
Definition demo_text : list Z := [97; 98; 10; 99; 100; 10; 120; 121].

Definition demo_user : list Z := demo_text ++ seekto_bytes (SeekTo 1 1) ++ replicate 16 0.

Definition demo0 : kstate :=
  KState ∅ (Dev aesd_circular_buffer_init 0 0 mutex_init) demo_user.

Definition after_write (buf count : Z) (k : kstate) : kstate :=
  match aesd_write buf count 0 k with Ok (_, _, k') => k' | Err _ => k end.

(** Two lines and a partial third. *)
Definition demo : kstate := after_write 6 2 (after_write 3 3 (after_write 0 3 demo0)).

Lemma after_write_inv buf count k : 0 < count → drv_inv k → drv_inv (after_write buf count k).
Proof.
  intros Hc Hk. unfold after_write. destruct (aesd_write buf count 0 k) as [[[rv fp] k']|] eqn:E;
    [|done]. eapply drv_call_inv; [apply Hk|]. by eapply call_write.
Qed.

Lemma demo_inv : drv_inv demo.
Proof.
  repeat (apply after_write_inv; [lia|]). split; [apply drv_mem_fresh|done].
Qed.

Lemma demo_log : log_of demo = Log [[97; 98; 10]; [99; 100; 10]] [120; 121].
Proof. vm_compute. reflexivity. Qed.

(** After twelve more lines the ring has wrapped. *)
Definition demo_wrapped : kstate := Nat.iter 11 (after_write 0 3) demo0.

Lemma demo_wrapped_inv : drv_inv demo_wrapped.
Proof.
  unfold demo_wrapped. generalize 11%nat as n. induction n as [|n IH].
  - split; [apply drv_mem_fresh|done].
  - apply after_write_inv; [lia|done].
Qed.

End Demo.

Section Properties.
Context {K : Kernel} {KL : KernelLaws K}.

(** C8: a write that gets the lock, the bytes and the memory it asks for appends
    to the device exactly the bytes up to the first newline of the request, and
    returns their number; with the newline the pending bytes become the newest
    line and the eleventh line is dropped and freed.  The position is reset and
    the invariant, which includes exact ownership of memory, is kept.  A request
    without a newline needs a NUL or a newline in the bytes that follow it. *)
Theorem write_appends_to_log (k : kstate) (buf count f_pos : Z) (m : mutex) (bs : list Z)
    (Hinv : drv_inv k)
    (Hlock : mutex_lock_interruptible (lock (k_dev k)) = Ok (0, m))
    (Hcount : 0 < count)
    (Hcopy : copy_from_user (k_user k) buf count = (bs, 0))
    (Hkmalloc : fst (kmalloc (k_heap k) count) ≠ 0)
    (Hkrealloc : ∀ h n, n ≤ tmpbuf_size (k_dev k) + count →
       fst (krealloc h (tmpbuf (k_dev k)) n) ≠ 0)
    (Hstop : NEWLINE ∈ bs ∨
       ∃ b, snd (kmalloc (k_heap k) count) !! fst (kmalloc (k_heap k) count) = Some b ∧
            scan_stop NEWLINE (drop (Z.to_nat count) (blk_mem b)) 0 ≠ None) :
  ∃ k', aesd_write buf count f_pos k = Ok (Z.of_nat (length (upto_nl bs)), 0, k')
    ∧ log_of k' = log_write (log_of k) bs
    ∧ drv_inv k' ∧ k_user k' = k_user k.
Proof using KL.
  pose proof (aesd_write_outcomes buf count f_pos k 0 m bs 0 Hinv Hcount Hlock Hcopy) as Hout.
  destruct (aesd_write buf count f_pos k) as [[[rv fp] k']|[]]; try done.
  - destruct Hout as (Hinv' & Hu & [(? & _)|[(_ & _ & _ & _ & ?)|(_ & -> & -> & Hlog & _)]]);
      [done|done|]. by exists k'.
  - destruct Hout as [?|(h & n & Hn & H0)]; [done|]. by apply Hkrealloc in H0.
  - destruct Hout as (Hno & _ & Hscan). destruct Hstop as [?|(b & Hb & Hs)]; [done|].
    by apply Hscan in Hb.
Qed.

(** An empty write never returns once the lock is taken: [kmalloc(0)] is not
    an object, and [find_char] reads its first byte. *)
Theorem empty_write_faults (k : kstate) (buf f_pos : Z) (m : mutex) (bs : list Z)
    (Hinv : drv_inv k)
    (Hlock : mutex_lock_interruptible (lock (k_dev k)) = Ok (0, m))
    (Hcopy : copy_from_user (k_user k) buf 0 = (bs, 0)) :
  aesd_write buf 0 f_pos k = Err NullDeref ∨ aesd_write buf 0 f_pos k = Err OutOfBounds.
Proof using KL.
  apply copy_from_user_length in Hcopy as Hlen; [|lia]. destruct Hlen as [Hlen _].
  assert (bs = []) as -> by (destruct bs; [done|cbn in Hlen; lia]).
  rewrite aesd_write_unfold. unfold dev_lock. rewrite Hlock. cbn [mbind res_bind mret res_ret].
  cbn [Z.eqb negb]. unfold write_locked. cbn [with_dev k_heap k_user].
  destruct (kmalloc (k_heap k) 0) as [data h] eqn:Hk. rewrite Hcopy.
  apply kmalloc_zero in Hk as [-> Hdata].
  change (store_bytes (k_heap k) data []) with (Ok (k_heap k)). cbn [mbind res_bind].
  destruct (find_char_no_object (k_heap k) data NEWLINE 0
    (heap_null _ _ (proj1 Hinv)) Hdata) as [Hf|Hf];
    [left|right]; unfold write_append; cbn [with_heap with_dev k_heap Z.eqb negb];
    by rewrite Hf.
Qed.

(** C19: a read at a position returns the rest of the line there, up to and with
    its newline, and advances the position by its length; at the end of the
    contents it returns 0; a fault of the copy is reported and nothing moves.
    The device is unchanged and the lock released in every case. *)
Theorem read_returns_rest_of_line (k : kstate) (buf count f_pos : Z) (m : mutex)
    (Hinv : drv_inv k)
    (Hlock : mutex_lock_interruptible (lock (k_dev k)) = Ok (0, m))
    (Hpos : 0 ≤ f_pos < 2 ^ 62)
    (Htot : Z.of_nat (length (contents (log_of k))) < 2 ^ 62) :
  let rest := upto_nl (drop (Z.to_nat f_pos) (contents (log_of k))) in
  ∃ rv fp k', aesd_read buf count f_pos k = Ok (rv, fp, k')
    ∧ drv_inv k' ∧ log_of k' = log_of k ∧ k_heap k' = k_heap k
    ∧ ((rest = [] ∧ rv = 0 ∧ fp = f_pos ∧ k_user k' = k_user k)
       ∨ (rest ≠ [] ∧ copy_to_user (k_user k) buf rest = (k_user k', 0)
          ∧ rv = Z.of_nat (length rest) ∧ fp = f_pos + rv)
       ∨ (rest ≠ [] ∧ rv = - EFAULT ∧ fp = f_pos
          ∧ ∃ missing, missing ≠ 0 ∧ copy_to_user (k_user k) buf rest = (k_user k', missing))).
Proof using KL.
  intros rest. destruct (aesd_read_spec buf count f_pos k m Hinv Hlock Hpos Htot)
    as (m' & Hl' & _ & Hrun).
  destruct (read_result (log_of k) (k_user k) buf f_pos) as [[rv fp] u] eqn:Hr.
  rewrite Hrun. do 3 eexists. split; [done|].
  destruct (same_device k (KState (k_heap k) (set_lock (k_dev k) m') u) m')
    as [H1 H2]; try done. split; [done|]. split; [done|]. split; [done|].
  cbn [k_user]. unfold read_result in Hr. fold rest in Hr. case_decide as Hrest.
  - injection Hr as <- <- <-. by left.
  - right. revert Hr. destruct (copy_to_user (k_user k) buf rest) as [u' missing].
    destruct (Z.eqb_spec missing 0) as [Hms|Hms]; intros [= <- <- <-].
    + left. by rewrite Hms.
    + right. split; [done|]. split; [done|]. split; [done|]. by exists missing.
Qed.

(** The size of the user's buffer is not respected: when the rest of the line
    is longer than [count], a read that succeeds has copied more than [count]
    bytes and reports so. *)
Theorem read_overruns_count (k : kstate) (buf count f_pos : Z) (m : mutex) (u' : user)
    (Hinv : drv_inv k)
    (Hlock : mutex_lock_interruptible (lock (k_dev k)) = Ok (0, m))
    (Hpos : 0 ≤ f_pos < 2 ^ 62)
    (Htot : Z.of_nat (length (contents (log_of k))) < 2 ^ 62)
    (Hcopy : copy_to_user (k_user k) buf
       (upto_nl (drop (Z.to_nat f_pos) (contents (log_of k)))) = (u', 0))
    (Hlong : 0 ≤ count
       < Z.of_nat (length (upto_nl (drop (Z.to_nat f_pos) (contents (log_of k)))))) :
  ∃ rv fp k', aesd_read buf count f_pos k = Ok (rv, fp, k')
    ∧ count < rv ∧ k_user k' = u'.
Proof using KL.
  destruct (aesd_read_spec buf count f_pos k m Hinv Hlock Hpos Htot) as (m' & Hl' & _ & Hrun).
  rewrite Hrun. unfold read_result. rewrite Hcopy.
  rewrite decide_False by (intros H; rewrite H in Hlong; cbn in Hlong; lia).
  cbn [Z.eqb]. do 3 eexists. split; [done|]. split; [lia|done].
Qed.

(** C28: seeking is relative to the start, the position or the end of the contents,
    and a target outside them is refused and moves nothing: the [size] the ring
    maintains is the number of bytes a reader sees.  Asking for the position, with offset 0
    from it, always answers it, even when it lies past the end. *)
Theorem llseek_within_contents (k : kstate) (off whence f_pos : Z) (m : mutex)
    (Hinv : drv_inv k)
    (Hlock : mutex_lock_interruptible (lock (k_dev k)) = Ok (0, m))
    (Hw : whence = SEEK_SET ∨ whence = SEEK_CUR ∨ whence = SEEK_END)
    (Htot : Z.of_nat (length (contents (log_of k))) < 2 ^ 62) :
  let size := Z.of_nat (length (contents (log_of k))) in
  let target := if whence =? SEEK_SET then off
                else if whence =? SEEK_CUR then f_pos + off else size + off in
  ∃ k', aesd_llseek off whence f_pos k =
      Ok (if (whence =? SEEK_CUR) && (off =? 0) then (f_pos, f_pos, k')
          else if (0 <=? target) && (target <=? size) then (target, target, k')
          else (- EINVAL, f_pos, k'))
    ∧ drv_inv k' ∧ log_of k' = log_of k.
Proof using KL.
  intros size target. pose proof Hinv as [Hm Hl].
  destruct (mutex_lock_free _ Hl) as (rc & m0 & Hrun & Hheld).
  rewrite Hlock in Hrun. injection Hrun as <- <-.
  destruct (mutex_unlock_held m (proj1 Hheld eq_refl)) as (m' & Hun & Hheld').
  pose proof (contents_length _ _ Hm) as Hc. fold (log_of k) in Hc. fold size in Hc, Htot.
  pose proof (cb_size_live _ (mem_ring _ _ Hm)) as Hs. fold (cb_total (circular_buffer (k_dev k))) in Hs.
  rewrite <- Hc in Hs. assert (0 ≤ size) by lia. rewrite u64_id in Hs by lia.
  exists (KState (k_heap k) (set_lock (k_dev k) m') (k_user k)).
  split; [|by apply (same_device k _ m')].
  unfold aesd_llseek, dev_lock. rewrite Hlock.
  cbn [mbind res_bind mret res_ret Z.eqb negb with_dev k_dev set_lock circular_buffer].
  rewrite Hs, s64_id by lia.
  destruct ((whence =? SEEK_CUR) && (off =? 0)) eqn:Ehere.
  { apply andb_prop in Ehere as [->%Z.eqb_eq ->%Z.eqb_eq]. rewrite llseek_here.
    unfold dev_unlock. cbn. by rewrite Hun. }
  assert (whence = SEEK_SET ∨ whence = SEEK_CUR ∧ off ≠ 0 ∨ whence = SEEK_END) as Hw'.
  { destruct Hw as [?|[?|?]]; auto. right. left. split; [done|]. intros ->. subst. done. }
  destruct ((0 <=? target) && (target <=? size)) eqn:E.
  - apply andb_prop in E as [E1 E2]. apply Z.leb_le in E1, E2.
    rewrite (llseek_ok f_pos off whence size target) by (done || lia).
    unfold dev_unlock. cbn. by rewrite Hun.
  - rewrite (llseek_bad f_pos off whence size target); [|done|done| |lia].
    + unfold dev_unlock. cbn. by rewrite Hun.
    + apply andb_false_iff in E as [E|E]; apply Z.leb_gt in E; lia.
Qed.

(** The state a seek command leaves, and its result on a request for byte [o] of
    line [i]. *)
Lemma ioctl_run (k : kstate) (arg f_pos i o : Z) (m : mutex) :
  drv_inv k → mutex_lock_interruptible (lock (k_dev k)) = Ok (0, m) →
  copy_from_user (k_user k) arg sizeof_aesd_seekto = (seekto_bytes (SeekTo i o), 0) →
  0 ≤ i < 2 ^ 32 → 0 ≤ o < 2 ^ 32 →
  Z.of_nat (length (contents (log_of k))) < 2 ^ 62 →
  ∃ k', drv_inv k' ∧ log_of k' = log_of k ∧ k_dev k' = set_lock (k_dev k) (lock (k_dev k')) ∧
    aesd_unlocked_ioctl AESDCHAR_IOCSEEKTO arg f_pos k =
    let pos := jmp_result (k_dev k) (log_of k) (u8 i) o in
    Ok (if pos <? 0 then (pos, f_pos, k') else (0, pos, k')).
Proof using KL.
  intros Hinv Hlock Hcopy Hi Ho Htot. pose proof Hinv as [Hm Hl].
  destruct (mutex_lock_free _ Hl) as (rc & m0 & Hrun & Hheld).
  rewrite Hlock in Hrun. injection Hrun as <- <-.
  destruct (mutex_unlock_held m (proj1 Hheld eq_refl)) as (m' & Hun & Hheld').
  exists (KState (k_heap k) (set_lock (k_dev k) m') (k_user k)).
  destruct (same_device k (KState (k_heap k) (set_lock (k_dev k) m') (k_user k)) m')
    as [H1 H2]; try done. split; [done|]. split; [done|]. split; [done|].
  unfold aesd_unlocked_ioctl, AESDCHAR_IOCSEEKTO, AESD_IOC_MAGIC, AESDCHAR_IOC_MAXNR.
  rewrite IOC_TYPE_IOWR, IOC_NR_IOWR, !Z.eqb_refl by (unfold sizeof_aesd_seekto; lia).
  cbn [negb]. change (1 <? 1) with false. rewrite Hcopy.
  rewrite seekto_roundtrip by done. cbn [Z.eqb negb write_cmd write_cmd_offset].
  unfold dev_lock. rewrite Hlock.
  cbn [mbind res_bind mret res_ret Z.eqb negb with_dev k_dev set_lock circular_buffer].
  rewrite (jmp_in_log (k_heap k) (k_dev k)) by (done || apply u8_range || lia).
  cbn [mbind res_bind]. fold (log_of k).
  destruct (jmp_result _ _ _ _ <? 0); unfold dev_unlock; cbn; by rewrite Hun.
Qed.

(** C22: while the ring has not wrapped, a seek command for byte [o] of line [i], both
    32-bit fields, moves the position to byte [o] of line [i mod 256] of the contents when
    that line exists and is that long; otherwise it returns -EINVAL and moves nothing.
    The line is [i] itself below 256; the driver passes the field on as eight bits. *)
Theorem ioctl_seeks_to_line (k : kstate) (arg f_pos i o : Z) (m : mutex)
    (Hinv : drv_inv k)
    (Hlock : mutex_lock_interruptible (lock (k_dev k)) = Ok (0, m))
    (Hcopy : copy_from_user (k_user k) arg sizeof_aesd_seekto = (seekto_bytes (SeekTo i o), 0))
    (Hi : 0 ≤ i < 2 ^ 32) (Ho : 0 ≤ o < 2 ^ 32)
    (Htot : Z.of_nat (length (contents (log_of k))) < 2 ^ 62)
    (Hnowrap : out_offs (circular_buffer (k_dev k)) = 0) :
  let i' := i mod 2 ^ 8 in
  ∃ k', drv_inv k' ∧ log_of k' = log_of k ∧
    match lines (log_of k) !! Z.to_nat i' with
    | Some x =>
        if o <? Z.of_nat (length x) then
          aesd_unlocked_ioctl AESDCHAR_IOCSEEKTO arg f_pos k
            = Ok (0, line_pos (log_of k) i' o, k')
          ∧ contents (log_of k) !! Z.to_nat (line_pos (log_of k) i' o) = x !! Z.to_nat o
        else aesd_unlocked_ioctl AESDCHAR_IOCSEEKTO arg f_pos k = Ok (- EINVAL, f_pos, k')
    | None => aesd_unlocked_ioctl AESDCHAR_IOCSEEKTO arg f_pos k = Ok (- EINVAL, f_pos, k')
    end.
Proof using KL.
  intros i'. assert (0 ≤ i' < 2 ^ 8) as Hi' by (apply Z.mod_pos_bound; lia).
  destruct (ioctl_run k arg f_pos i o m) as (k' & Hk & Hlog & _ & Hrun); try done.
  change (u8 i) with i' in Hrun. clearbody i'.
  exists k'. split; [done|]. split; [done|]. rewrite Hrun. unfold jmp_result.
  destruct (lines (log_of k) !! Z.to_nat i') as [x|] eqn:Hx; [|done].
  rewrite Hnowrap. assert (Z.to_nat i' < 10)%nat as Hi10.
  { apply lookup_lt_Some in Hx. cbn in Hx. rewrite length_fmap in Hx.
    pose proof (cb_entries_le _ (mem_ring _ _ (proj1 Hinv))). lia. }
  rewrite (proj2 (Z.ltb_lt (0 + i') 10)) by lia.
  destruct (Z.leb_spec (Z.of_nat (length x)) o), (Z.ltb_spec o (Z.of_nat (length x))); try lia;
    [done|]. unfold line_pos. rewrite (proj2 (Z.ltb_ge _ 0)) by lia. split; [done|].
  rewrite <- (concat_lookup (lines (log_of k)) (Z.to_nat i') x) by (done || lia).
  unfold contents. f_equal. lia.
Qed.

(** The line number of a seek command is a 32-bit field but is passed on as
    eight bits: a command for line [256 + i], far past the last line, succeeds and
    seeks to line [i]. *)
Theorem ioctl_truncates_line (k : kstate) (arg f_pos i o : Z) (m : mutex) (x : list Z)
    (Hinv : drv_inv k)
    (Hlock : mutex_lock_interruptible (lock (k_dev k)) = Ok (0, m))
    (Hcopy : copy_from_user (k_user k) arg sizeof_aesd_seekto
             = (seekto_bytes (SeekTo (256 + i) o), 0))
    (Hi : 0 ≤ i) (Hx : lines (log_of k) !! Z.to_nat i = Some x)
    (Ho : 0 ≤ o < Z.of_nat (length x))
    (Htot : Z.of_nat (length (contents (log_of k))) < 2 ^ 32)
    (Hnowrap : out_offs (circular_buffer (k_dev k)) = 0) :
  lines (log_of k) !! Z.to_nat (256 + i) = None
  ∧ ∃ k', aesd_unlocked_ioctl AESDCHAR_IOCSEEKTO arg f_pos k
      = Ok (0, line_pos (log_of k) i o, k').
Proof using KL.
  assert (Z.to_nat i < 10)%nat as Hi10.
  { apply lookup_lt_Some in Hx. cbn in Hx. rewrite length_fmap in Hx.
    pose proof (cb_entries_le _ (mem_ring _ _ (proj1 Hinv))). lia. }
  split.
  { apply lookup_ge_None. cbn. rewrite length_fmap.
    pose proof (cb_entries_le _ (mem_ring _ _ (proj1 Hinv))). lia. }
  assert (length x ≤ length (contents (log_of k)))%nat.
  { unfold contents. rewrite <- (take_drop_middle _ _ _ Hx), concat_app. cbn.
    rewrite !length_app. lia. }
  destruct (ioctl_run k arg f_pos (256 + i) o m) as (k' & _ & _ & _ & Hrun);
    [done|done|done|lia|lia|lia|].
  exists k'. rewrite Hrun. replace (u8 (256 + i)) with i.
  2:{ unfold u8. apply Z.mod_unique with 1; lia. }
  unfold jmp_result. rewrite Hx, Hnowrap, (proj2 (Z.leb_gt _ _)) by lia.
  rewrite (proj2 (Z.ltb_lt (0 + i) 10)) by lia. unfold line_pos.
  by rewrite (proj2 (Z.ltb_ge _ 0)) by lia.
Qed.

(** C9: from a freshly initialised module, whatever calls the processes make and
    however they end, as long as they return and no write is empty: at most ten lines are
    kept, each complete; the allocated blocks are exactly those of the lines and of the
    partial line, so at most eleven; the lock is free; and the log is what the successful
    writes, [ws], make of the empty one, appended one after the other in their order: no
    read, seek or failed write changed it. *)
Theorem reachable_states_are_sound (k0 k : kstate) (ws : list (list Z))
    (Hinit : k_heap k0 = ∅ ∧ k_dev k0 = Dev aesd_circular_buffer_init 0 0 mutex_init)
    (Hcalls : drv_calls ws k0 k) :
  drv_inv k
  ∧ Forall line (lines (log_of k)) ∧ (length (lines (log_of k)) ≤ 10)%nat
  ∧ (size (k_heap k) ≤ 11)%nat
  ∧ log_of k = foldl log_write (Log [] []) ws.
Proof using KL.
  assert (drv_inv k0 ∧ log_of k0 = Log [] []) as [Hinv0 Hlog0].
  { destruct k0 as [h d u]. cbn in Hinit. destruct Hinit as [-> ->].
    split; [|done]. split; [apply drv_mem_fresh|apply mutex_init_free]. }
  destruct (drv_calls_inv _ _ _ Hinv0 Hcalls) as [Hinv Hlog].
  pose proof Hinv as [Hm _]. split; [done|]. split; [by apply lines_ok|].
  pose proof (cb_entries_le _ (mem_ring _ _ Hm)) as Hten.
  split; [cbn; by rewrite length_fmap|]. split; [|by rewrite Hlog, Hlog0].
  rewrite <- size_dom. assert (dom (k_heap k) = list_to_set (owned (k_dev k))) as ->.
  { apply set_eq. intros p. rewrite elem_of_dom, elem_of_list_to_set.
    by apply (mem_owned _ _ Hm). }
  rewrite size_list_to_set by apply Hm. unfold owned.
  rewrite length_app, length_fmap. destruct (tmpbuf (k_dev k) =? 0); cbn; lia.
Qed.

(** C21: unloading the module frees every block it allocated, each once and none
    that is not allocated, and gives back the device number. *)
Theorem cleanup_frees_everything (ms : module_state) (k : kstate) (Hinv : drv_inv k) :
  aesd_cleanup_module ms k = Ok (Module_ (aesd_major ms) None false, with_heap k ∅).
Proof using KL. by apply cleanup_spec, Hinv. Qed.

(** A failed allocation is not handled: the write dereferences the null
    pointer instead of returning -ENOMEM. *)
Theorem write_allocation_failure_faults (k : kstate) (buf count f_pos : Z) (m : mutex)
    (bs : list Z)
    (Hinv : drv_inv k)
    (Hlock : mutex_lock_interruptible (lock (k_dev k)) = Ok (0, m))
    (Hcount : 0 < count)
    (Hcopy : copy_from_user (k_user k) buf count = (bs, 0))
    (Hkmalloc : fst (kmalloc (k_heap k) count) = 0) :
  aesd_write buf count f_pos k = Err NullDeref.
Proof using KL.
  apply copy_from_user_length in Hcopy as Hlen; [|lia]. destruct Hlen as [Hlen _].
  rewrite aesd_write_unfold. unfold dev_lock. rewrite Hlock. cbn [mbind res_bind mret res_ret].
  cbn [Z.eqb negb]. unfold write_locked. cbn [with_dev k_heap k_user].
  destruct (kmalloc (k_heap k) count) as [data h]. cbn in Hkmalloc. subst data.
  rewrite Hcopy. unfold store_bytes. rewrite decide_False; [done|].
  intros ->. cbn in Hlen. lia.
Qed.

(** A request without a newline makes [find_char] read past its buffer; when
    the memory after the [count] bytes holds neither a NUL nor a newline up to
    the end of the block, as in a block of exactly [count] bytes, the scan leaves
    the block. *)
Theorem write_without_newline_overreads (k : kstate) (buf count f_pos : Z) (m : mutex)
    (bs : list Z) (b : block)
    (Hinv : drv_inv k)
    (Hlock : mutex_lock_interruptible (lock (k_dev k)) = Ok (0, m))
    (Hcount : 0 < count)
    (Hcopy : copy_from_user (k_user k) buf count = (bs, 0))
    (Hkmalloc : fst (kmalloc (k_heap k) count) ≠ 0)
    (Hblock : snd (kmalloc (k_heap k) count) !! fst (kmalloc (k_heap k) count) = Some b)
    (Hno : NEWLINE ∉ bs)
    (Hslack : scan_stop NEWLINE (drop (Z.to_nat count) (blk_mem b)) 0 = None) :
  aesd_write buf count f_pos k = Err OutOfBounds.
Proof using KL.
  apply copy_from_user_length in Hcopy as Hlen; [|lia]. destruct Hlen as [Hlen _].
  rewrite aesd_write_unfold. unfold dev_lock. rewrite Hlock. cbn [mbind res_bind mret res_ret].
  cbn [Z.eqb negb]. unfold write_locked. cbn [with_dev k_heap k_user].
  destruct (kmalloc (k_heap k) count) as [data h] eqn:Hk. cbn in Hkmalloc, Hblock.
  apply kmalloc_block in Hk as (Hfr & b' & [_ [Hl1 Hl2]] & ->); [|done|done].
  rewrite lookup_insert_eq in Hblock. injection Hblock as ->.
  rewrite Hcopy, (store_bytes_in _ data b bs) by (done || apply lookup_insert_eq || lia).
  cbn [mbind res_bind]. rewrite insert_insert_eq. unfold write_append.
  cbn [with_heap k_heap Z.eqb negb]. replace count with (Z.of_nat (length bs)).
  rewrite (find_char_overruns _ data (Block (blk_size b) (bs ++ drop (length bs) (blk_mem b)))
    bs (drop (length bs) (blk_mem b)));
    [done|done|apply lookup_insert_eq|done| |done|by rewrite <- Hlen, Nat2Z.id in Hslack].
  cbn. rewrite length_app, length_drop. lia.
Qed.

(** A process that reads from the start until a read returns 0, as the server's
    [send_response] does; [view] is what the process finds in its buffer. *)
Fixpoint read_to_eof (view : user → list Z) (fuel : nat) (buf count f_pos : Z) (k : kstate)
    : res (list Z * kstate) :=
  match fuel with
  | O => Err OutOfFuel
  | S fuel =>
    '(rv, fp, k) ← aesd_read buf count f_pos k;
    let data := take (Z.to_nat rv) (view (k_user k)) in
    if 0 <? rv then
      '(more, k) ← read_to_eof view fuel buf count fp k;
      mret (data ++ more, k)
    else mret ([], k)
  end.

Lemma read_to_eof_S view fuel buf count f_pos k :
  read_to_eof view (S fuel) buf count f_pos k =
  '(rv, fp, k) ← aesd_read buf count f_pos k;
  let data := take (Z.to_nat rv) (view (k_user k)) in
  if 0 <? rv then
    '(more, k) ← read_to_eof view fuel buf count fp k;
    mret (data ++ more, k)
  else mret ([], k).
Proof using. done. Qed.

Section Reader.
Context (view : user → list Z) (mapped : user → Prop) (calm : mutex → Prop)
  (buf count longest : Z).
Hypothesis (Hcalm : ∀ m, calm m → ∃ m' m'',
    mutex_lock_interruptible m = Ok (0, m') ∧ mutex_unlock m' = Ok m'' ∧ calm m'').
Hypothesis (Hmapped : ∀ u bs, mapped u → Z.of_nat (length bs) ≤ longest →
    ∃ u', copy_to_user u buf bs = (u', 0) ∧ mapped u' ∧ take (length bs) (view u') = bs).

Lemma read_to_eof_from (k : kstate) i :
  drv_inv k → calm (lock (k_dev k)) → mapped (k_user k) →
  Forall (λ l, Z.of_nat (length l) ≤ longest) (lines (log_of k)) →
  Z.of_nat (length (contents (log_of k))) < 2 ^ 62 →
  (i ≤ length (lines (log_of k)))%nat →
  ∃ k', read_to_eof view (S (length (lines (log_of k)) - i)) buf count
          (Z.of_nat (length (concat (take i (lines (log_of k)))))) k
        = Ok (concat (drop i (lines (log_of k))), k')
    ∧ drv_inv k' ∧ log_of k' = log_of k.
Proof using KL Hcalm Hmapped.
  remember (length (lines (log_of k)) - i)%nat as n eqn:Hn. revert k i Hn.
  induction n as [|n IH]; intros k i Hn Hinv Hc Hu Hlong Htot Hi.
  all: destruct (Hcalm _ Hc) as (m & m1 & Hlock & Hunlock & Hc').
  all: assert (length (concat (take i (lines (log_of k)))) ≤ length (contents (log_of k)))%nat
    by (unfold contents; rewrite <- (take_drop i (lines (log_of k))) at 2;
        rewrite concat_app, length_app; lia).
  all: destruct (aesd_read_spec buf count
    (Z.of_nat (length (concat (take i (lines (log_of k)))))) k m Hinv Hlock) as
    (m' & Hl' & Hun & Hrun); [lia|done|].
  all: rewrite Hunlock in Hun; injection Hun as ->.
  all: rewrite read_to_eof_S, Hrun; unfold read_result; rewrite Nat2Z.id.
  - assert (i = length (lines (log_of k))) as -> by lia.
    rewrite firstn_all, !drop_ge by (unfold contents; lia). rewrite decide_True by done.
    cbn. eexists. split; [done|]. by apply (same_device k _ m').
  - destruct (lookup_lt_is_Some_2 (lines (log_of k)) i ltac:(lia)) as [x Hx].
    pose proof (lines_ok _ _ (proj1 Hinv)) as [Hlines _]. fold (log_of k) in Hlines.
    pose proof (Forall_lookup_1 _ _ _ _ Hlines Hx) as Hline.
    pose proof (Forall_lookup_1 _ _ _ _ Hlong Hx) as Hxl.
    assert (0 < length x)%nat as Hpos
      by (destruct Hline as (l' & -> & _); rewrite length_app; cbn; lia).
    assert (upto_nl (drop (length (concat (take i (lines (log_of k))))) (contents (log_of k)))
            = x) as Hrest.
    { pose proof (drop_concat _ i x 0 Hx ltac:(lia)) as Hd.
      rewrite Nat.add_0_r in Hd. unfold contents. rewrite Hd.
      by rewrite (upto_nl_line_suffix x 0) by done. }
    rewrite Hrest, decide_False by (intros ->; cbn in Hpos; lia).
    destruct (Hmapped (k_user k) x Hu Hxl) as (u' & Hcopy & Hu' & Hview).
    rewrite Hcopy. cbn [Z.eqb mbind res_bind].
    set (k1 := KState (k_heap k) (set_lock (k_dev k) m') u').
    destruct (same_device k k1 m') as [Hinv1 Hlog1]; try done.
    rewrite (proj2 (Z.ltb_lt 0 _)) by lia.
    destruct (IH k1 (S i)) as (k' & Hloop & Hinv' & Hlog'); rewrite ?Hlog1; try done; [lia|lia|].
    rewrite Hlog1 in Hloop. rewrite (take_S_r _ _ x Hx), concat_app, length_app in Hloop.
    cbn [concat] in Hloop. rewrite app_nil_r in Hloop.
    replace (Z.of_nat (length (concat (take i (lines (log_of k))))) + Z.of_nat (length x))
      with (Z.of_nat (length (concat (take i (lines (log_of k)))) + length x)) by lia.
    rewrite Hloop. cbn [mbind res_bind]. exists k'.
    split; [|by rewrite Hlog', Hlog1].
    rewrite Nat2Z.id. cbn [k_user k1]. rewrite Hview, (drop_S _ x i Hx). done.
Qed.

(** C20: a process that reads from the start until a read returns 0 terminates
    after one read per line and one more, and finds exactly the contents of the
    device, when its waits for the lock are not interrupted and the longest line
    fits its buffer. *)
Theorem read_to_eof_delivers_contents (k : kstate)
    (Hinv : drv_inv k) (Hlock : calm (lock (k_dev k))) (Huser : mapped (k_user k))
    (Hlong : Forall (λ l, Z.of_nat (length l) ≤ longest) (lines (log_of k)))
    (Htot : Z.of_nat (length (contents (log_of k))) < 2 ^ 62) :
  ∃ k', read_to_eof view (S (length (lines (log_of k)))) buf count 0 k
        = Ok (contents (log_of k), k')
    ∧ drv_inv k' ∧ log_of k' = log_of k.
Proof using KL Hcalm Hmapped.
  destruct (read_to_eof_from k 0) as (k' & Hrun & H); try done; [lia|].
  rewrite Nat.sub_0_r, drop_0 in Hrun. by exists k'.
Qed.

End Reader.
End Properties.

(** ** Witnesses: the theorems at concrete states of the concrete kernel *)

Section Witnesses.
#[local] Existing Instance demo_kernel.
#[local] Existing Instance demo_laws.

Definition locked : sim_mutex := SimMutex true [].

Lemma demo_krealloc (h : heap) p n :
  n ≤ 4096 → fst (krealloc h p n) ≠ 0.
Proof.
  intros Hn. pose proof (above_pos h). cbn. unfold sim_krealloc, sim_kmalloc.
  rewrite (proj2 (Z.ltb_ge 4096 n)), (proj2 (Z.ltb_ge (2 ^ 62) n)) by lia. cbn [orb].
  destruct (p =? 0); [destruct (n =? 0); cbn; lia|].
  destruct (h !! p); [cbn; lia|destruct (n =? 0); cbn; lia].
Qed.

(** Writing ["xy"], without a newline, to the device of [demo]. *)
Lemma write_appends_to_log_witness :
  ∃ k', aesd_write 6 2 5 demo = Ok (Z.of_nat (length (upto_nl [120; 121])), 0, k')
    ∧ log_of k' = log_write (log_of demo) [120; 121]
    ∧ drv_inv k' ∧ k_user k' = k_user demo.
Proof.
  apply (write_appends_to_log demo 6 2 5 locked [120; 121]).
  - apply demo_inv.
  - vm_compute. reflexivity.
  - lia.
  - vm_compute. reflexivity.
  - vm_compute. discriminate.
  - intros h n Hn. apply demo_krealloc. etransitivity; [apply Hn|]. vm_compute. discriminate.
  - right. exists (Block 2 [0; 0; 0]). split; [vm_compute; reflexivity|discriminate].
Defined.

Lemma empty_write_faults_witness :
  aesd_write 0 0 5 demo = Err NullDeref ∨ aesd_write 0 0 5 demo = Err OutOfBounds.
Proof.
  apply (empty_write_faults demo 0 5 locked []).
  - apply demo_inv.
  - vm_compute. reflexivity.
  - vm_compute. reflexivity.
Defined.

Lemma read_returns_rest_of_line_witness :
  let rest := upto_nl (drop (Z.to_nat 1) (contents (log_of demo))) in
  ∃ rv fp k', aesd_read 16 1 1 demo = Ok (rv, fp, k')
    ∧ drv_inv k' ∧ log_of k' = log_of demo ∧ k_heap k' = k_heap demo
    ∧ ((rest = [] ∧ rv = 0 ∧ fp = 1 ∧ k_user k' = k_user demo)
       ∨ (rest ≠ [] ∧ copy_to_user (k_user demo) 16 rest = (k_user k', 0)
          ∧ rv = Z.of_nat (length rest) ∧ fp = 1 + rv)
       ∨ (rest ≠ [] ∧ rv = - EFAULT ∧ fp = 1
          ∧ ∃ missing, missing ≠ 0 ∧ copy_to_user (k_user demo) 16 rest = (k_user k', missing))).
Proof.
  apply (read_returns_rest_of_line demo 16 1 1 locked).
  - apply demo_inv.
  - vm_compute. reflexivity.
  - lia.
  - rewrite demo_log. cbn. lia.
Defined.

Lemma read_overruns_count_witness :
  ∃ rv fp k', aesd_read 16 1 1 demo = Ok (rv, fp, k')
    ∧ 1 < rv ∧ k_user k' = fst (copy_to_user (k_user demo) 16 [98; 10]).
Proof.
  apply (read_overruns_count demo 16 1 1 locked).
  - apply demo_inv.
  - vm_compute. reflexivity.
  - lia.
  - rewrite demo_log. cbn. lia.
  - vm_compute. reflexivity.
  - split; vm_compute; [discriminate|reflexivity].
Defined.

Lemma llseek_within_contents_witness :
  let size := Z.of_nat (length (contents (log_of demo))) in
  let target := if SEEK_END =? SEEK_SET then -2
                else if SEEK_END =? SEEK_CUR then 0 + -2 else size + -2 in
  ∃ k', aesd_llseek (-2) SEEK_END 0 demo =
      Ok (if (SEEK_END =? SEEK_CUR) && (-2 =? 0) then (0, 0, k')
          else if (0 <=? target) && (target <=? size) then (target, target, k')
          else (- EINVAL, 0, k'))
    ∧ drv_inv k' ∧ log_of k' = log_of demo.
Proof.
  apply (llseek_within_contents demo (-2) SEEK_END 0 locked).
  - apply demo_inv.
  - vm_compute. reflexivity.
  - right; right; reflexivity.
  - rewrite demo_log. cbn. lia.
Defined.

(** [demo] with a seek command for line 257 in the process's memory. *)
Definition demo257 : kstate := with_user demo (seekto_bytes (SeekTo 257 1)).

Lemma ioctl_seeks_to_line_witness :
  let i' := 257 mod 2 ^ 8 in
  ∃ k', drv_inv k' ∧ log_of k' = log_of demo257 ∧
    match lines (log_of demo257) !! Z.to_nat i' with
    | Some x =>
        if 1 <? Z.of_nat (length x) then
          aesd_unlocked_ioctl AESDCHAR_IOCSEEKTO 0 0 demo257
            = Ok (0, line_pos (log_of demo257) i' 1, k')
          ∧ contents (log_of demo257) !! Z.to_nat (line_pos (log_of demo257) i' 1) = x !! Z.to_nat 1
        else aesd_unlocked_ioctl AESDCHAR_IOCSEEKTO 0 0 demo257 = Ok (- EINVAL, 0, k')
    | None => aesd_unlocked_ioctl AESDCHAR_IOCSEEKTO 0 0 demo257 = Ok (- EINVAL, 0, k')
    end.
Proof.
  apply (ioctl_seeks_to_line demo257 0 0 257 1 locked).
  - apply demo_inv.
  - vm_compute. reflexivity.
  - vm_compute. reflexivity.
  - lia.
  - lia.
  - change (log_of demo257) with (log_of demo). rewrite demo_log. cbn. lia.
  - vm_compute. reflexivity.
Defined.

Lemma ioctl_truncates_line_witness :
  lines (log_of demo257) !! Z.to_nat (256 + 1) = None
  ∧ ∃ k', aesd_unlocked_ioctl AESDCHAR_IOCSEEKTO 0 0 demo257
      = Ok (0, line_pos (log_of demo257) 1 1, k').
Proof.
  apply (ioctl_truncates_line demo257 0 0 1 1 locked [99; 100; 10]).
  - apply demo_inv.
  - vm_compute. reflexivity.
  - vm_compute. reflexivity.
  - lia.
  - vm_compute. reflexivity.
  - cbn. lia.
  - change (log_of demo257) with (log_of demo). rewrite demo_log. cbn. lia.
  - vm_compute. reflexivity.
Defined.

(** A write of ["ab\n"] and a read. *)
Definition after_read (k : kstate) : kstate :=
  match aesd_read 16 4 0 k with Ok (_, _, k') => k' | Err _ => k end.

Lemma after_write_call buf count k :
  0 < count → match aesd_write buf count 0 k with Ok (rv, _, _) => 0 <=? rv | Err _ => false end = true →
  drv_call [(copy_from_user (k_user k) buf count).1] k (after_write buf count k).
Proof.
  intros Hc. unfold after_write.
  destruct (aesd_write buf count 0 k) as [[[rv fp] k']|] eqn:E; [|done]. intros Hrv.
  pose proof (call_write _ _ _ _ _ _ _ Hc E) as H. by rewrite Hrv in H.
Qed.

Lemma after_read_call k : drv_calls [] k (after_read k).
Proof.
  unfold after_read. destruct (aesd_read 16 4 0 k) as [[[rv fp] k']|] eqn:E; [|constructor].
  apply (calls_more [] [] _ k'); [by eapply call_read|constructor].
Qed.

Lemma demo_calls : drv_calls [[97; 98; 10]] demo0 (after_read (after_write 0 3 demo0)).
Proof.
  apply (calls_more [[97; 98; 10]] [] _ (after_write 0 3 demo0)); [|apply after_read_call].
  change [[97; 98; 10]] with [(copy_from_user (k_user demo0) 0 3).1].
  apply after_write_call; [lia|]. vm_compute. reflexivity.
Qed.

Lemma reachable_states_are_sound_witness :
  let k := after_read (after_write 0 3 demo0) in
  drv_inv k
  ∧ Forall line (lines (log_of k)) ∧ (length (lines (log_of k)) ≤ 10)%nat
  ∧ (size (k_heap k) ≤ 11)%nat
  ∧ log_of k = foldl log_write (Log [] []) [[97; 98; 10]].
Proof.
  apply (reachable_states_are_sound demo0 (after_read (after_write 0 3 demo0)) [[97; 98; 10]]).
  - split; reflexivity.
  - apply demo_calls.
Defined.

Lemma cleanup_frees_everything_witness :
  aesd_cleanup_module (Module_ 240 (Some 0) true) demo
  = Ok (Module_ 240 None false, with_heap demo ∅).
Proof.
  apply (cleanup_frees_everything (Module_ 240 (Some 0) true) demo). apply demo_inv.
Defined.

(** A kernel whose allocations all fail. *)
Lemma write_allocation_failure_faults_witness :
  @aesd_write (sim_kernel 0 []) 0 3 0
    (@KState (sim_kernel 0 []) ∅
       (@Dev (sim_kernel 0 []) aesd_circular_buffer_init 0 0 (SimMutex false [])) demo_text)
  = Err NullDeref.
Proof.
  apply (@write_allocation_failure_faults (sim_kernel 0 [])
    ltac:(apply sim_kernel_laws; cbn; lia) _ 0 3 0 locked [97; 98; 10]).
  - split; [apply drv_mem_fresh|reflexivity].
  - vm_compute. reflexivity.
  - lia.
  - vm_compute. reflexivity.
  - vm_compute. reflexivity.
Defined.

(** A kernel whose blocks have exactly the requested size. *)
Lemma write_without_newline_overreads_witness :
  @aesd_write (sim_kernel 64 []) 0 2 0
    (@KState (sim_kernel 64 []) ∅
       (@Dev (sim_kernel 64 []) aesd_circular_buffer_init 0 0 (SimMutex false [])) demo_text)
  = Err OutOfBounds.
Proof.
  apply (@write_without_newline_overreads (sim_kernel 64 [])
    ltac:(apply sim_kernel_laws; cbn; lia) _ 0 2 0 locked [97; 98] (Block 2 [0; 0])).
  - split; [apply drv_mem_fresh|reflexivity].
  - vm_compute. reflexivity.
  - lia.
  - vm_compute. reflexivity.
  - vm_compute. discriminate.
  - vm_compute. reflexivity.
  - intros H. repeat (apply elem_of_cons in H as [H|H]; [discriminate H|]).
    by apply not_elem_of_nil in H.
  - vm_compute. reflexivity.
Defined.

(** The buffer of the reader of [demo] is the end of its memory, from byte 16. *)
Definition demo_view (u : list Z) : list Z := drop 16 u.

Definition demo_mapped (u : list Z) : Prop := length u = 32%nat.

Lemma demo_copy_to_user (u : list Z) (bs : list Z) :
  demo_mapped u → Z.of_nat (length bs) ≤ 16 →
  ∃ u', sim_copy_to_user u 16 bs = (u', 0) ∧ demo_mapped u' ∧ take (length bs) (demo_view u') = bs.
Proof.
  intros Hu Hbs. unfold demo_mapped, demo_view, sim_copy_to_user in *.
  rewrite (proj2 (Nat.leb_le _ _)) by lia. eexists. split; [done|].
  change (Z.to_nat 16) with 16%nat. split.
  - rewrite !length_app, length_take, length_drop. lia.
  - rewrite drop_app_length' by (rewrite length_take; lia). by rewrite take_app_length.
Qed.

Lemma read_to_eof_delivers_contents_witness :
  ∃ k', read_to_eof (K := demo_kernel) demo_view (S (length (lines (log_of demo)))) 16 4 0 demo
        = Ok (contents (log_of demo), k')
    ∧ drv_inv k' ∧ log_of k' = log_of demo.
Proof.
  apply (read_to_eof_delivers_contents (K := demo_kernel) demo_view demo_mapped
    (λ m : sim_mutex, m = SimMutex false []) 16 4 16).
  - intros m ->. exists (SimMutex true []), (SimMutex false []). repeat split.
  - apply demo_copy_to_user.
  - apply demo_inv.
  - vm_compute. reflexivity.
  - vm_compute. reflexivity.
  - rewrite demo_log. cbn. forall_lia.
  - rewrite demo_log. cbn. lia.
Defined.

End Witnesses.
