(* ===== verification/CString.v ===== *)
(** * The C string functions the server uses

    [strlen], [strstr], [strncat] and [strtoul] of the C standard library, on
    the bytes of an object from the pointer to the object's end: reading past the
    end is [OutOfBounds].  [cstr s] is the object contents of the string [s]. *)

From S2P Require Import Prelude.

(** ** Definitions *)

Definition NUL : Z := 0.

Fixpoint strlen (mem : list Z) : res Z :=
  match mem with
  | [] => Err OutOfBounds
  | x :: mem => if x =? NUL then mret 0 else n ← strlen mem; mret (n + 1)
  end.

Fixpoint starts_with (needle mem : list Z) : bool :=
  match needle, mem with
  | [], _ => true
  | a :: needle, b :: mem => (a =? b) && starts_with needle mem
  | _ :: _, [] => false
  end.

(** The offset of the first occurrence, [None] for [NULL]. *)
Fixpoint strstr (mem needle : list Z) : res (option Z) :=
  if starts_with needle mem then mret (Some 0)
  else match mem with
       | [] => Err OutOfBounds
       | x :: mem =>
         if x =? NUL then mret None
         else r ← strstr mem needle; Ok (option_map (λ i, i + 1) r)
       end.

(** The bytes [strncat] takes from its source. *)
Fixpoint strn_bytes (src : list Z) (n : nat) {struct n} : res (list Z) :=
  match n with
  | O => mret []
  | S n =>
    match src with
    | [] => Err OutOfBounds
    | x :: src => if x =? NUL then mret [] else r ← strn_bytes src n; mret (x :: r)
    end
  end.

(** [strncat(dst, src, n)]: the new contents of the destination object. *)
Definition strncat (dst src : list Z) (n : Z) : res (list Z) :=
  len ← strlen dst;
  bs ← strn_bytes src (Z.to_nat n);
  let k := (Z.to_nat len + length bs)%nat in
  if (k <? length dst)%nat
  then mret (take (Z.to_nat len) dst ++ bs ++ [NUL] ++ drop (S k) dst)
  else Err OutOfBounds.

Definition isspace (c : Z) : bool := (c =? 32) || ((9 <=? c) && (c <=? 13)).
Definition isdigit (c : Z) : bool := (48 <=? c) && (c <=? 57).

Fixpoint skip_space (mem : list Z) : list Z :=
  match mem with
  | x :: mem' => if isspace x then skip_space mem' else mem
  | [] => []
  end.

Fixpoint digits_value (mem : list Z) (acc : Z) : res Z :=
  match mem with
  | [] => Err OutOfBounds
  | x :: mem => if isdigit x then digits_value mem (10 * acc + (x - 48)) else mret acc
  end.

Definition ULONG_MAX : Z := 2 ^ 64 - 1.

(** [strtoul(s, NULL, 10)]: the value, and whether [errno] is set to [ERANGE]. *)
Definition strtoul (mem : list Z) : res (Z * bool) :=
  let s := skip_space mem in
  let '(neg, s) := match s with
                   | x :: s' => if x =? 45 then (true, s')
                                else if x =? 43 then (false, s') else (false, s)
                   | [] => (false, s)
                   end in
  v ← digits_value s 0;
  mret (if ULONG_MAX <? v then (ULONG_MAX, true)
        else (if neg then u64 (- v) else v, false)).

(** ** Facts *)

Definition nonul (s : list Z) : Prop := Forall (λ x, x ≠ NUL) s.

Ltac forall_neq := repeat (apply Forall_cons; split; [done|]); apply Forall_nil; done.

(** An object that starts with the string [s]. *)
Definition holds_str (mem s : list Z) : Prop :=
  nonul s ∧ ∃ rest, mem = s ++ NUL :: rest.

Lemma strlen_spec mem s : holds_str mem s → strlen mem = Ok (Z.of_nat (length s)).
Proof.
  intros [Hs [rest ->]]. induction Hs as [|x s Hx Hs IH]; [done|].
  cbn [app strlen]. rewrite (proj2 (Z.eqb_neq x NUL) Hx), IH. cbn. f_equal. lia.
Qed.

(** The bytes of a list up to its first NUL. *)
Fixpoint upto_nul (l : list Z) : list Z :=
  match l with
  | [] => []
  | x :: l => if x =? NUL then [] else x :: upto_nul l
  end.

Lemma upto_nul_nonul l : nonul (upto_nul l).
Proof.
  induction l as [|x l IH]; [apply Forall_nil; done|]. cbn.
  destruct (Z.eqb_spec x NUL); [apply Forall_nil; done|]. by apply Forall_cons.
Qed.

Lemma upto_nul_length l : (length (upto_nul l) ≤ length l)%nat.
Proof. induction l as [|x l IH]; [done|]. cbn. destruct (x =? NUL); cbn; lia. Qed.

Lemma upto_nul_id s : nonul s → upto_nul s = s.
Proof.
  induction 1 as [|x s Hx Hs IH]; [done|]. cbn. by rewrite (proj2 (Z.eqb_neq x NUL) Hx), IH.
Qed.

Lemma upto_nul_str s rest : nonul s → upto_nul (s ++ NUL :: rest) = s.
Proof.
  induction 1 as [|x s Hx Hs IH]; [done|]. cbn. by rewrite (proj2 (Z.eqb_neq x NUL) Hx), IH.
Qed.

Lemma strn_bytes_spec src n :
  (n ≤ length src)%nat → strn_bytes src n = Ok (upto_nul (take n src)).
Proof.
  revert src. induction n as [|n IH]; intros src Hn; [done|].
  destruct src as [|x src]; [cbn in Hn; lia|]. cbn in *.
  destruct (x =? NUL); [done|]. by rewrite IH by lia.
Qed.

Lemma strncat_spec dst s src n :
  holds_str dst s → 0 ≤ n → (Z.to_nat n ≤ length src)%nat →
  (length s + Z.to_nat n < length dst)%nat →
  ∃ dst', strncat dst src n = Ok dst'
    ∧ holds_str dst' (s ++ upto_nul (take (Z.to_nat n) src)) ∧ length dst' = length dst.
Proof.
  intros Hd Hn Hsrc Hroom. unfold strncat. rewrite (strlen_spec dst s Hd).
  cbn [mbind res_bind]. rewrite strn_bytes_spec by done. cbn [mbind res_bind].
  pose proof (upto_nul_length (take (Z.to_nat n) src)) as Hl. rewrite length_take in Hl.
  rewrite Nat2Z.id, (proj2 (Nat.ltb_lt _ _)) by lia. eexists. split; [done|].
  destruct Hd as [Hs [rest ->]]. rewrite take_app_length. split.
  - split; [apply Forall_app_2; [done|apply upto_nul_nonul]|].
    eexists. rewrite <- app_assoc. done.
  - rewrite !length_app in *. rewrite length_drop, length_app. cbn in *. lia.
Qed.

(** ** Decimal numbers *)

(** The digits of [n], most significant first, with enough fuel. *)
Fixpoint dec_digits (fuel : nat) (n : Z) (acc : list Z) : list Z :=
  match fuel with
  | O => acc
  | S fuel =>
    let acc := 48 + n mod 10 :: acc in
    if n <? 10 then acc else dec_digits fuel (n / 10) acc
  end.

(** [printf("%lu")]: twenty digits are enough for 64 bits. *)
Definition print_dec (n : Z) : list Z := dec_digits 20 n [].

Lemma digits_value_app ds rest acc :
  Forall (λ c, isdigit c = true) ds →
  digits_value (ds ++ rest) acc =
  digits_value rest (foldl (λ a c, 10 * a + (c - 48)) acc ds).
Proof.
  intros H. revert acc. induction H as [|c ds Hc Hds IH]; intros acc; [done|].
  cbn [app digits_value foldl]. by rewrite Hc, IH.
Qed.

Lemma dec_digit_isdigit n : isdigit (48 + n mod 10) = true.
Proof.
  unfold isdigit. pose proof (Z.mod_pos_bound n 10 ltac:(lia)). bool_cases.
Qed.

Lemma dec_digits_spec fuel n acc :
  0 ≤ n < 10 ^ Z.of_nat fuel → fuel ≠ 0%nat →
  Forall (λ c, isdigit c = true) acc →
  Forall (λ c, isdigit c = true) (dec_digits fuel n acc)
  ∧ foldl (λ a c, 10 * a + (c - 48)) 0 (dec_digits fuel n acc)
    = foldl (λ a c, 10 * a + (c - 48)) n acc.
Proof.
  revert n acc. induction fuel as [|fuel IH]; intros n acc Hn Hf Hacc; [done|].
  cbn [dec_digits]. pose proof (dec_digit_isdigit n) as Hd.
  destruct (Z.ltb_spec n 10) as [Hlt|Hge].
  - split; [by apply Forall_cons|]. cbn [foldl]. rewrite Z.mod_small by lia. f_equal. lia.
  - assert (fuel ≠ 0%nat) as Hf' by (intros ->; cbn in Hn; lia).
    assert (0 ≤ n / 10 < 10 ^ Z.of_nat fuel) as Hn'.
    { split; [apply Z.div_pos; lia|]. apply Z.div_lt_upper_bound; [lia|].
      replace (Z.of_nat (S fuel)) with (1 + Z.of_nat fuel) in Hn by lia.
      rewrite Z.pow_add_r in Hn by lia. lia. }
    destruct (IH (n / 10) (48 + n mod 10 :: acc) Hn' Hf') as [H1 H2]; [by apply Forall_cons|].
    split; [done|]. rewrite H2. cbn [foldl]. f_equal.
    pose proof (Z.div_mod n 10 ltac:(lia)). lia.
Qed.

Lemma dec_digits_length fuel n acc :
  (length acc < length (dec_digits (S fuel) n acc) ≤ length acc + S fuel)%nat.
Proof.
  revert n acc. induction fuel as [|fuel IH]; intros n acc.
  - cbn. destruct (n <? 10); cbn; lia.
  - cbn [dec_digits]. destruct (n <? 10); [cbn; lia|].
    specialize (IH (n / 10) (48 + n mod 10 :: acc)). cbn in IH |- *. lia.
Qed.

Lemma print_dec_facts n :
  0 ≤ n < 2 ^ 64 →
  Forall (λ c, isdigit c = true) (print_dec n)
  ∧ foldl (λ a c, 10 * a + (c - 48)) 0 (print_dec n) = n
  ∧ (0 < length (print_dec n) ≤ 20)%nat.
Proof.
  intros Hn. destruct (dec_digits_spec 20 n []) as [H1 H2]; [lia|done|by apply Forall_nil|].
  split; [done|]. split; [done|]. apply (dec_digits_length 19 n []).
Qed.

Lemma isdigit_not c d : isdigit c = true → isdigit d = false → c ≠ d.
Proof. intros H1 H2 ->. congruence. Qed.

(** [strtoul] reads back what [printf] writes, up to the first byte that is not a
    digit. *)
Lemma strtoul_print n c rest :
  0 ≤ n < 2 ^ 64 → isdigit c = false → strtoul (print_dec n ++ c :: rest) = Ok (n, false).
Proof.
  intros Hn Hc. destruct (print_dec_facts n Hn) as (Hd & Hv & Hl).
  destruct (print_dec n) as [|d ds] eqn:E; [cbn in Hl; lia|].
  pose proof Hd as Hd0. apply Forall_cons in Hd0 as [Hdd _].
  assert (skip_space ((d :: ds) ++ c :: rest) = (d :: ds) ++ c :: rest) as Hs.
  { cbn. unfold isspace. unfold isdigit in Hdd. revert Hdd. bool_cases; done. }
  unfold strtoul. rewrite Hs. cbn [app].
  rewrite (proj2 (Z.eqb_neq d 45)) by (by eapply isdigit_not).
  rewrite (proj2 (Z.eqb_neq d 43)) by (by eapply isdigit_not).
  change (d :: ds ++ c :: rest) with ((d :: ds) ++ c :: rest).
  rewrite digits_value_app, Hv by done. cbn [digits_value]. rewrite Hc. cbn [mbind res_bind mret res_ret].
  destruct (Z.ltb_spec ULONG_MAX n) as [H|H]; [unfold ULONG_MAX in H; lia|done].
Qed.

(** ** Searching *)

(** The string [s] contains [needle]. *)
Fixpoint contains (needle s : list Z) : bool :=
  starts_with needle s || match s with [] => false | _ :: s => contains needle s end.

Lemma starts_with_app needle rest : starts_with needle (needle ++ rest) = true.
Proof. induction needle as [|a needle IH]; [done|]. cbn. by rewrite Z.eqb_refl. Qed.

Lemma contains_start needle rest : contains needle (needle ++ rest) = true.
Proof.
  pose proof (starts_with_app needle rest) as H.
  destruct (needle ++ rest); cbn; by rewrite H.
Qed.

Lemma starts_with_end needle s rest :
  nonul needle → starts_with needle (s ++ NUL :: rest) = starts_with needle s.
Proof.
  intros Hn. revert s. induction Hn as [|a needle Ha Hn IH]; intros [|b s]; try done; cbn.
  - by rewrite (proj2 (Z.eqb_neq a NUL) Ha).
  - by rewrite IH.
Qed.

Lemma strstr_start needle rest : strstr (needle ++ rest) needle = Ok (Some 0).
Proof.
  destruct (needle ++ rest) as [|x l] eqn:E; cbn [strstr].
  - destruct needle; [done|discriminate].
  - by rewrite <- E, starts_with_app.
Qed.

Lemma strstr_none needle s rest :
  nonul needle → nonul s → needle ≠ [] → contains needle s = false →
  strstr (s ++ NUL :: rest) needle = Ok None.
Proof.
  intros Hn Hs Hne. induction Hs as [|x s Hx Hs IH]; intros Hc.
  - cbn [app strstr]. change (NUL :: rest) with ([] ++ NUL :: rest).
    rewrite starts_with_end by done. by destruct needle.
  - cbn [contains] in Hc. apply orb_false_elim in Hc as [H1 H2].
    cbn [app strstr]. change (x :: s ++ NUL :: rest) with ((x :: s) ++ NUL :: rest).
    rewrite starts_with_end, H1, IH by done.
    by rewrite (proj2 (Z.eqb_neq x NUL) Hx).
Qed.
