(* ===== verification/Posix.v ===== *)
(** * A process of the operating system

    The user-space programs of the repository run on a POSIX system that is not
    part of it.  A process owns a heap and some variables and makes system
    calls; the class [OS] gives the answer of every call, [OSLaws] what the
    programs rely on, as the POSIX pages document it, and [sim_os] is one
    executable system that satisfies the laws.

    A program is a function [prog] on the state of the process.  The state keeps
    the trace of the calls with their answers, so that a theorem can say what a
    program did.  A program returns a value, exits, is replaced by [execv], or is the
    program of a thread that acts on a request to cancel it, which it does at a
    cancellation point and instead of the call.
    Logging ([syslog], [printf], [perror]) changes no state a program reads and is
    left out. *)

From Stdlib Require Import Ascii String.
From S2P Require Import Prelude Memory Kernel.

(** The bytes of a string literal, without the terminating NUL. *)
Definition str (s : string) : list Z :=
  (λ c, Z.of_nat (nat_of_ascii c)) <$> list_ascii_of_string s.

(** ** System calls *)

Inductive call : Type :=
(* files *)
| Copen (path : list Z) (flags mode : Z)
| Cclose (fd : Z)
| Clseek (fd offset whence : Z)
| Cread (fd count : Z)
| Cwrite (fd : Z) (bs : list Z)
| Cioctl (fd cmd : Z) (arg : list Z)
| Cremove (path : list Z)
| Cdup2 (fd fd' : Z)
(* sockets *)
| Csocket
| Csetsockopt (fd : Z)
| Cgetaddrinfo (port : list Z)
| Cbind (fd : Z)
| Clisten (fd backlog : Z)
| Caccept (fd : Z)
| Crecv (fd count : Z)
| Csend (fd : Z) (bs : list Z)
| Cshutdown (fd : Z)
(* threads *)
| Cmutex_init (m : Z)
| Cmutex_destroy (m : Z)
| Cmutex_lock (m : Z)
| Cmutex_unlock (m : Z)
| Cthread_create (arg : Z)
| Cthread_join (tid : Z)
| Cthread_tryjoin (tid : Z)
| Cthread_cancel (tid : Z)
(* processes, signals and time *)
| Cfork
| Cexecv (path : Z) (args : list Z)
| Cwait
| Csystem (cmd : Z)
| Csetsid
| Cumask (mask : Z)
| Cchdir (path : list Z)
| Csigaction (signum : Z)
| Cusleep (usec : Z)
| Cclock_gettime
| Cstrftime (max : Z)
| Ctimer_create
| Ctimer_settime (id sec : Z)
| Ctimer_delete (id : Z).

#[export] Instance call_eq_dec : EqDecision call.
Proof. solve_decision. Defined.

(** The return value, and what the call stores through its pointers. *)
Record answer := Ans { rc : Z; out : list Z }.

(** A call on the stream of a socket, and on a mutex. *)
Definition on_stream (fd : Z) (c : call) : bool :=
  match c with
  | Crecv fd' _ | Cclose fd' | Cshutdown fd' => fd =? fd'
  | Caccept _ => true
  | _ => false
  end.

Definition on_mutex (m : Z) (c : call) : bool :=
  match c with
  | Cmutex_lock m' | Cmutex_unlock m' | Cmutex_init m' | Cmutex_destroy m' => m =? m'
  | _ => false
  end.

(** The calls at which POSIX lets a thread act on a request to cancel it. *)
Definition cancellation_point (c : call) : bool :=
  match c with
  | Copen _ _ _ | Cclose _ | Clseek _ _ _ | Cread _ _ | Cwrite _ _ | Cioctl _ _ _ | Cremove _
  | Cgetaddrinfo _ | Caccept _ | Crecv _ _ | Csend _ _ | Cthread_join _ | Cwait | Csystem _
  | Cusleep _ => true
  | _ => false
  end.

Class OS := {
  world : Type;
  sys : world → call → answer * world;
  (* a request to cancel the thread is acted on at this call; and the system while the
     thread runs its cleanup handlers, when no request is *)
  cancels : world → call → bool;
  uncancel : world → world;
  malloc : heap → Z → Z * heap;
  realloc : heap → Z → Z → Z * heap;
  free : heap → Z → res heap;
  os_IOWR : Z → Z → Z → Z;
  (* what the laws speak about: the chunks the peer of a socket still delivers,
     the bytes of a file still to be read, and the mutexes the thread holds *)
  incoming : world → Z → list (list Z);
  unread : world → Z → list Z;
  owns : world → Z → bool
}.

(** User-space objects are smaller than any address space in use. *)
Definition object_max : Z := 2 ^ 57.

Definition block_of (n : Z) (b : block) : Prop :=
  blk_size b = n ∧ Z.of_nat (length (blk_mem b)) = n ∧ n < object_max.

(** Whatever the thread does from here on, no request to cancel it is acted on. *)
Definition not_cancelled {O : OS} (w : world) : Prop :=
  ∀ cs c, cancels (foldl (λ w c, (sys w c).2) w cs) c = false.

Lemma not_cancelled_here {O : OS} w c : not_cancelled w → cancels w c = false.
Proof. intros H. apply (H []). Qed.

Lemma not_cancelled_step {O : OS} w c a w' :
  not_cancelled w → sys w c = (a, w') → not_cancelled w'.
Proof. intros H Hs cs. specialize (H (c :: cs)). cbn in H. by rewrite Hs in H. Qed.

Class OSLaws (O : OS) : Prop := {
  malloc_null h n h' : malloc h n = (0, h') → h' = h;
  malloc_block h n p h' :
    0 < n → malloc h n = (p, h') → p ≠ 0 →
    h !! p = None ∧ ∃ b, block_of n b ∧ h' = <[p := b]> h;
  realloc_block h p b n q h' :
    0 < n → p ≠ 0 → h !! p = Some b → Z.of_nat (length (blk_mem b)) = blk_size b →
    realloc h p n = (q, h') → q ≠ 0 →
    (q = p ∨ h !! q = None) ∧
    ∃ b', block_of n b' ∧ h' = <[q := b']> (delete p h) ∧
      take (Z.to_nat (blk_size b `min` n)) (blk_mem b') =
      take (Z.to_nat (blk_size b `min` n)) (blk_mem b);
  realloc_null h p n h' : 0 < n → realloc h p n = (0, h') → h' = h;
  free_null h : free h 0 = Ok h;
  free_block h p b : p ≠ 0 → h !! p = Some b → free h p = Ok (delete p h);
  recv_chunk w fd n c cs a w' :
    incoming w fd = c :: cs → c ≠ [] → Z.of_nat (length c) ≤ n →
    sys w (Crecv fd n) = (a, w') →
    a = Ans (Z.of_nat (length c)) c ∧ incoming w' fd = cs;
  recv_end w fd n a w' : incoming w fd = [] → sys w (Crecv fd n) = (a, w') →
    rc a = 0 ∨ rc a = -1;
  incoming_frame w fd c a w' :
    on_stream fd c = false → sys w c = (a, w') → incoming w' fd = incoming w fd;
  read_some w fd n a w' :
    0 < n → sys w (Cread fd n) = (a, w') → 0 < rc a →
    rc a ≤ n ∧ Z.of_nat (length (out a)) = rc a ∧ unread w fd = out a ++ unread w' fd;
  read_range w fd n a w' : 0 < n → sys w (Cread fd n) = (a, w') → -1 ≤ rc a;
  read_end w fd n a w' :
    0 < n → sys w (Cread fd n) = (a, w') → rc a = 0 → unread w fd = [];
  send_frame w fd fd' bs a w' :
    sys w (Csend fd bs) = (a, w') → unread w' fd' = unread w fd';
  (* mutexes are of the error-checking kind *)
  lock_ok w m a w' : sys w (Cmutex_lock m) = (a, w') → rc a = 0 →
    owns w m = false ∧ owns w' m = true;
  lock_bad w m a w' : sys w (Cmutex_lock m) = (a, w') → rc a ≠ 0 → owns w' m = owns w m;
  unlock_held w m a w' : owns w m = true → sys w (Cmutex_unlock m) = (a, w') →
    rc a = 0 ∧ owns w' m = false;
  unlock_free w m a w' : owns w m = false → sys w (Cmutex_unlock m) = (a, w') →
    rc a ≠ 0 ∧ owns w' m = false;
  destroy_free w m a w' : owns w m = false → sys w (Cmutex_destroy m) = (a, w') →
    owns w' m = false;
  init_free w m a w' : owns w m = false → sys w (Cmutex_init m) = (a, w') →
    owns w' m = false;
  owns_frame w m c a w' :
    on_mutex m c = false → sys w c = (a, w') → owns w' m = owns w m;
  uncancel_off w : not_cancelled (uncancel w);
  uncancel_owns w m : owns (uncancel w) m = owns w m
}.

(** The system of a thread that nobody cancels. *)
Class Uncancelled (O : OS) : Prop := never_cancels w c : cancels w c = false.

(** The requests below the size of the address space are met. *)
Definition allocs_succeed (O : OS) : Prop :=
  (∀ h n h', 0 < n < object_max → malloc h n ≠ (0, h'))
  ∧ ∀ h p n h', 0 < n < object_max → realloc h p n ≠ (0, h').

(** ** Programs *)

Inductive outcome (A : Type) : Type :=
| Returned (a : A)
| Exited (code : Z)                       (* [exit] *)
| Cancelled                               (* by [pthread_cancel] *)
| Replaced (path : Z) (args : list Z).    (* a successful [execv] *)

Arguments Returned {_} _.
Arguments Exited {_} _.
Arguments Cancelled {_}.
Arguments Replaced {_} _ _.

Section Programs.
Context {O : OS} {V : Type}.

Record pstate := PState {
  p_heap : heap;
  p_world : world;
  p_trace : list (call * answer);
  p_vars : V
}.

Definition prog (A : Type) : Type := pstate → res (outcome A * pstate).

#[export] Instance prog_ret : MRet prog := λ _ a s, Ok (Returned a, s).

#[export] Instance prog_bind : MBind prog := λ _ _ f p s,
  match p s with
  | Ok (Returned a, s') => f a s'
  | Ok (Exited code, s') => Ok (Exited code, s')
  | Ok (Cancelled, s') => Ok (Cancelled, s')
  | Ok (Replaced path args, s') => Ok (Replaced path args, s')
  | Err e => Err e
  end.

Definition lift {A} (r : res A) : prog A := λ s,
  match r with Ok a => Ok (Returned a, s) | Err e => Err e end.

Definition exit {A} (code : Z) : prog A := λ s, Ok (Exited code, s).

(** The state after a call. *)
Definition after (s : pstate) (c : call) (a : answer) (w : world) : pstate :=
  PState (p_heap s) w (p_trace s ++ [(c, a)]) (p_vars s).

Definition syscall (c : call) : prog answer := λ s,
  if cancellation_point c && cancels (p_world s) c then Ok (Cancelled, s)
  else let '(a, w) := sys (p_world s) c in Ok (Returned a, after s c a w).

(** A call of which only the return value is used. *)
Definition do_call (c : call) : prog Z := a ← syscall c; mret (rc a).

(** [execv] returns only when it fails. *)
Definition execv (path : Z) (args : list Z) : prog Z := λ s,
  let '(a, w) := sys (p_world s) (Cexecv path args) in
  if rc a =? -1 then Ok (Returned (-1), after s (Cexecv path args) a w)
  else Ok (Replaced path args, after s (Cexecv path args) a w).

Definition get_vars : prog V := λ s, Ok (Returned (p_vars s), s).
Definition set_vars (v : V) : prog unit := λ s,
  Ok (Returned (), PState (p_heap s) (p_world s) (p_trace s) v).

Definition get_heap : prog heap := λ s, Ok (Returned (p_heap s), s).
Definition set_heap (h : heap) : prog unit := λ s,
  Ok (Returned (), PState h (p_world s) (p_trace s) (p_vars s)).

(** [pthread_cleanup_push(h)], [p], [pthread_cleanup_pop(1)]: [h] runs when [p] is done,
    or when the thread is cancelled in [p]. *)
Definition with_cleanup {A} (p : prog A) (h : prog unit) : prog A := λ s,
  match p s with
  | Ok (Returned a, s') => (_ ← h; mret a) s'
  | Ok (Cancelled, s') =>
      match h (PState (p_heap s') (uncancel (p_world s')) (p_trace s') (p_vars s')) with
      | Ok (_, s'') => Ok (Cancelled, s'')
      | Err e => Err e
      end
  | r => r
  end.

(** A program whose fuel depends on the system it runs on. *)
Definition with_world {A} (f : world → prog A) : prog A := λ s, f (p_world s) s.

Definition p_malloc (n : Z) : prog Z :=
  h ← get_heap; let '(p, h') := malloc h n in _ ← set_heap h'; mret p.

Definition p_realloc (p n : Z) : prog Z :=
  h ← get_heap; let '(q, h') := realloc h p n in _ ← set_heap h'; mret q.

Definition p_free (p : Z) : prog unit :=
  h ← get_heap; h' ← lift (free h p); set_heap h'.

(** [p] runs from [s] to its end without a fault, returns, and [Q] holds of the
    result and the final state. *)
Definition returns {A} (p : prog A) (s : pstate) (Q : A → pstate → Prop) : Prop :=
  ∃ a s', p s = Ok (Returned a, s') ∧ Q a s'.

Lemma returns_ret {A} (a : A) s (Q : A → pstate → Prop) : Q a s → returns (mret a) s Q.
Proof. intros H. by exists a, s. Qed.

Lemma returns_bind {A B} (p : prog A) (f : A → prog B) s Q :
  returns p s (λ a s', returns (f a) s' Q) → returns (p ≫= f) s Q.
Proof.
  intros (a & s' & H & b & s'' & Hf & HQ). exists b, s''. split; [|done].
  unfold mbind, prog_bind. by rewrite H.
Qed.

Lemma returns_weaken {A} (p : prog A) s (Q R : A → pstate → Prop) :
  returns p s Q → (∀ a s', Q a s' → R a s') → returns p s R.
Proof. intros (a & s' & H & HQ) HR. exists a, s'. auto. Qed.

Lemma returns_lift {A} (r : res A) a s (Q : A → pstate → Prop) :
  r = Ok a → Q a s → returns (lift r) s Q.
Proof. intros -> HQ. by exists a, s. Qed.

Lemma run_syscall `{!Uncancelled O} c s :
  syscall c s = Ok (Returned (sys (p_world s) c).1, after s c (sys (p_world s) c).1 (sys (p_world s) c).2).
Proof.
  unfold syscall. rewrite never_cancels, andb_false_r. by destruct (sys (p_world s) c).
Qed.

Lemma returns_syscall `{!Uncancelled O} c s (Q : answer → pstate → Prop) :
  (∀ a w, sys (p_world s) c = (a, w) → Q a (after s c a w)) → returns (syscall c) s Q.
Proof.
  intros H. destruct (sys (p_world s) c) as [a w] eqn:E. exists a, (after s c a w).
  split; [|by apply H]. rewrite run_syscall. by rewrite E.
Qed.

Lemma returns_call `{!Uncancelled O} c s (Q : Z → pstate → Prop) :
  (∀ a w, sys (p_world s) c = (a, w) → Q (rc a) (after s c a w)) → returns (do_call c) s Q.
Proof.
  intros H. apply returns_bind, returns_syscall. intros a w E. by apply returns_ret, H.
Qed.

(** A call, then the rest of the program, as an equation. *)
Lemma run_call `{!Uncancelled O} {A} c (f : Z → prog A) s :
  (do_call c ≫= f) s
  = f (rc (sys (p_world s) c).1) (after s c (sys (p_world s) c).1 (sys (p_world s) c).2).
Proof.
  unfold do_call, mbind, prog_bind, mret, prog_ret. by rewrite run_syscall.
Qed.

Lemma run_ret {A B} (a : A) (f : A → prog B) s : (mret a ≫= f) s = f a s.
Proof. done. Qed.

Lemma run_lift {A B} (a : A) (f : A → prog B) s : (lift (Ok a) ≫= f) s = f a s.
Proof. done. Qed.

Lemma run_bind {A B} (p : prog A) (f : A → prog B) s a s' :
  p s = Ok (Returned a, s') → (p ≫= f) s = f a s'.
Proof. intros H. unfold mbind, prog_bind. by rewrite H. Qed.

Lemma returns_get_vars s (Q : V → pstate → Prop) : Q (p_vars s) s → returns get_vars s Q.
Proof. intros H. by exists (p_vars s), s. Qed.

Lemma returns_set_vars v s (Q : unit → pstate → Prop) :
  Q () (PState (p_heap s) (p_world s) (p_trace s) v) → returns (set_vars v) s Q.
Proof. intros H. by eexists _, _. Qed.

Lemma returns_get_heap s (Q : heap → pstate → Prop) : Q (p_heap s) s → returns get_heap s Q.
Proof. intros H. by exists (p_heap s), s. Qed.

Lemma returns_set_heap h s (Q : unit → pstate → Prop) :
  Q () (PState h (p_world s) (p_trace s) (p_vars s)) → returns (set_heap h) s Q.
Proof. intros H. by eexists _, _. Qed.

Lemma returns_with_world {A} (f : world → prog A) s Q :
  returns (f (p_world s)) s Q → returns (with_world f) s Q.
Proof. done. Qed.

Lemma returns_free {L : OSLaws O} p b s (Q : unit → pstate → Prop) :
  p ≠ 0 → p_heap s !! p = Some b →
  Q () (PState (delete p (p_heap s)) (p_world s) (p_trace s) (p_vars s)) →
  returns (p_free p) s Q.
Proof.
  intros Hp Hb HQ. apply returns_bind, returns_get_heap, returns_bind.
  eapply returns_lift; [by eapply free_block|]. by apply returns_set_heap.
Qed.

Lemma returns_malloc {L : OSLaws O} n s (Q : Z → pstate → Prop) :
  allocs_succeed O → 0 < n < object_max →
  (∀ p b, p ≠ 0 → p_heap s !! p = None → block_of n b →
     Q p (PState (<[p := b]> (p_heap s)) (p_world s) (p_trace s) (p_vars s))) →
  returns (p_malloc n) s Q.
Proof.
  intros [Hm _] Hn HQ. apply returns_bind, returns_get_heap.
  destruct (malloc (p_heap s) n) as [p h'] eqn:E.
  assert (p ≠ 0) as Hp by (intros ->; by eapply Hm).
  destruct (malloc_block _ _ _ _ (proj1 Hn) E Hp) as (Hf & b & Hb & ->).
  apply returns_bind, returns_set_heap, returns_ret. by apply HQ.
Qed.

(** ** Programs of threads that may be cancelled *)

(** [p] runs from [s] without a fault; it returns and [Q] holds, or the thread is
    cancelled in it, in a state where [C] holds. *)
Definition runs_to (C : pstate → Prop) {A} (p : prog A) (s : pstate) (Q : A → pstate → Prop)
    : Prop :=
  ∃ o s', p s = Ok (o, s')
    ∧ match o with Returned a => Q a s' | Cancelled => C s' | _ => False end.

Lemma runs_to_ret C {A} (a : A) s (Q : A → pstate → Prop) : Q a s → runs_to C (mret a) s Q.
Proof. intros H. by exists (Returned a), s. Qed.

Lemma runs_to_bind C {A B} (p : prog A) (f : A → prog B) s Q :
  runs_to C p s (λ a s', runs_to C (f a) s' Q) → runs_to C (p ≫= f) s Q.
Proof.
  intros (o & s' & H & Ho). unfold runs_to, mbind, prog_bind in *. rewrite H.
  destruct o; try done. by exists Cancelled, s'.
Qed.

Lemma runs_to_weaken C {A} (p : prog A) s (Q R : A → pstate → Prop) :
  runs_to C p s Q → (∀ a s', Q a s' → R a s') → runs_to C p s R.
Proof. intros (o & s' & H & Ho) HR. exists o, s'. split; [done|]. destruct o; auto. Qed.

Lemma runs_to_cancelled (C D : pstate → Prop) {A} (p : prog A) s (Q : A → pstate → Prop) :
  runs_to C p s Q → (∀ s', C s' → D s') → runs_to D p s Q.
Proof. intros (o & s' & H & Ho) HR. exists o, s'. split; [done|]. destruct o; auto. Qed.

Lemma runs_to_run C {A} (p : prog A) s (Q : A → pstate → Prop) :
  runs_to C p s Q → runs_to (λ s', C s' ∧ p s = Ok (Cancelled, s')) p s Q.
Proof. intros (o & s' & H & Ho). exists o, s'. split; [done|]. destruct o; auto. Qed.

(** A program that makes no call is not cancelled. *)
Lemma returns_runs_to C {A} (p : prog A) s Q : returns p s Q → runs_to C p s Q.
Proof. intros (a & s' & H & HQ). by exists (Returned a), s'. Qed.

Lemma runs_to_returns {A} (p : prog A) s Q : runs_to (λ _, False) p s Q → returns p s Q.
Proof. intros ([] & s' & H & HQ); try done. by eexists _, _. Qed.

Lemma runs_to_lift C {A} (r : res A) a s (Q : A → pstate → Prop) :
  r = Ok a → Q a s → runs_to C (lift r) s Q.
Proof. intros H HQ. by eapply returns_runs_to, returns_lift. Qed.

Lemma runs_to_syscall (C : pstate → Prop) c s (Q : answer → pstate → Prop) :
  (cancellation_point c = true → cancels (p_world s) c = true → C s) →
  (∀ a w, sys (p_world s) c = (a, w) → Q a (after s c a w)) → runs_to C (syscall c) s Q.
Proof.
  intros HC HQ. unfold runs_to, syscall.
  destruct (cancellation_point c && cancels (p_world s) c) eqn:E.
  - apply andb_true_iff in E as [E1 E2]. exists Cancelled, s. auto.
  - destruct (sys (p_world s) c) as [a w] eqn:Hs. exists (Returned a), (after s c a w). auto.
Qed.

Lemma runs_to_call (C : pstate → Prop) c s (Q : Z → pstate → Prop) :
  (cancellation_point c = true → cancels (p_world s) c = true → C s) →
  (∀ a w, sys (p_world s) c = (a, w) → Q (rc a) (after s c a w)) → runs_to C (do_call c) s Q.
Proof.
  intros HC HQ. apply runs_to_bind, runs_to_syscall; [done|]. intros a w E.
  by apply runs_to_ret, HQ.
Qed.

Lemma runs_to_with_world C {A} (f : world → prog A) s Q :
  runs_to C (f (p_world s)) s Q → runs_to C (with_world f) s Q.
Proof. done. Qed.

Lemma runs_to_with_cleanup C {A} (p : prog A) (h : prog unit) s (Q : A → pstate → Prop) :
  runs_to (λ s', ∃ o s'', h (PState (p_heap s') (uncancel (p_world s')) (p_trace s') (p_vars s'))
                   = Ok (o, s'') ∧ C s'') p s
    (λ a s', runs_to C h s' (λ _ s'', Q a s'')) →
  runs_to C (with_cleanup p h) s Q.
Proof.
  intros (o & s' & H & Ho). unfold with_cleanup, runs_to at 1. rewrite H. destruct o; try done.
  - apply runs_to_bind. eapply runs_to_weaken; [exact Ho|]. intros [] s2 HQ. by apply runs_to_ret.
  - destruct Ho as (o & s2 & -> & HC). by exists Cancelled, s2.
Qed.

End Programs.

Arguments pstate {_} _.
Arguments prog {_} _ _.

(** A cancellation of a thread that nobody cancels. *)
Ltac never_cancelled :=
  solve [ auto
        | match goal with H : cancels _ _ = true |- _ => by rewrite never_cancels in H end ].

(** [prog_step] runs the first statement of a program. *)
Ltac prog_step :=
  lazymatch goal with
  | |- returns (mret _) _ _ => apply returns_ret
  | |- returns (_ ≫= _) _ _ => apply returns_bind
  | |- returns (do_call _) _ _ => apply returns_call; intros ? ? ?
  | |- returns (syscall _) _ _ => apply returns_syscall; intros ? ? ?
  | |- returns (with_world _) _ _ => apply returns_with_world
  | |- returns get_vars _ _ => apply returns_get_vars
  | |- returns (set_vars _) _ _ => apply returns_set_vars
  | |- returns get_heap _ _ => apply returns_get_heap
  | |- returns (set_heap _) _ _ => apply returns_set_heap
  | |- runs_to _ (mret _) _ _ => apply runs_to_ret
  | |- runs_to _ (_ ≫= _) _ _ => apply runs_to_bind
  | |- runs_to _ (do_call _) _ _ =>
      apply runs_to_call; [first [discriminate | intros _ ?; try never_cancelled]|intros ? ? ?]
  | |- runs_to _ (with_world _) _ _ => apply runs_to_with_world
  | |- runs_to _ _ _ _ => apply returns_runs_to; prog_step
  end.
