(* ===== verification/SimOS.v ===== *)
(** * An executable operating system

    [sim_os limit default] satisfies [OSLaws].  It has one data file, shared by
    every descriptor, the incoming streams of the sockets, and the mutexes its
    thread holds.  Memory requests above [limit] fail; every call that touches
    neither the file, a stream nor a mutex is answered by [default], which is how
    a run chooses its failures. *)

From S2P Require Import Prelude Memory Kernel Posix.

Record sim_world := SimWorld {
  sw_streams : gmap Z (list (list Z));
  sw_file : list Z;
  sw_pos : nat;
  sw_owned : list Z
}.

Definition sim_stream (w : sim_world) (fd : Z) : list (list Z) :=
  match sw_streams w !! fd with Some cs => cs | None => [] end.

Definition sim_recv (w : sim_world) (fd n : Z) : answer * sim_world :=
  match sim_stream w fd with
  | c :: cs =>
    if Z.of_nat (length c) <=? n
    then (Ans (Z.of_nat (length c)) c,
          SimWorld (<[fd := cs]> (sw_streams w)) (sw_file w) (sw_pos w) (sw_owned w))
    else (Ans (-1) [], w)
  | [] => (Ans 0 [], w)
  end.

Definition sim_unread (w : sim_world) : list Z := drop (sw_pos w) (sw_file w).

Definition sim_read (w : sim_world) (n : Z) : answer * sim_world :=
  let bs := take (Z.to_nat n) (sim_unread w) in
  (Ans (Z.of_nat (length bs)) bs,
   SimWorld (sw_streams w) (sw_file w) (sw_pos w + length bs) (sw_owned w)).

Definition sim_write (w : sim_world) (bs : list Z) : answer * sim_world :=
  (Ans (Z.of_nat (length bs)) [],
   SimWorld (sw_streams w) (sw_file w ++ bs) (length (sw_file w ++ bs)) (sw_owned w)).

Definition sim_lseek (w : sim_world) (offset whence : Z) : answer * sim_world :=
  let pos := if whence =? SEEK_SET then Z.to_nat offset else length (sw_file w) in
  (Ans (Z.of_nat pos) [], SimWorld (sw_streams w) (sw_file w) pos (sw_owned w)).

Definition sim_owns (w : sim_world) (m : Z) : bool := bool_decide (m ∈ sw_owned w).

Definition sim_mutex_lock (w : sim_world) (m : Z) : answer * sim_world :=
  if sim_owns w m then (Ans 35 [], w)
  else (Ans 0 [], SimWorld (sw_streams w) (sw_file w) (sw_pos w) (m :: sw_owned w)).

Definition sim_mutex_unlock (w : sim_world) (m : Z) : answer * sim_world :=
  if sim_owns w m
  then (Ans 0 [], SimWorld (sw_streams w) (sw_file w) (sw_pos w)
                           (filter (λ x, x ≠ m) (sw_owned w)))
  else (Ans 1 [], w).

Definition sim_sys (default : call → answer) (w : sim_world) (c : call) : answer * sim_world :=
  match c with
  | Crecv fd n => sim_recv w fd n
  | Cread _ n => sim_read w n
  | Cwrite _ bs => sim_write w bs
  | Clseek _ offset whence => sim_lseek w offset whence
  | Cmutex_lock m => sim_mutex_lock w m
  | Cmutex_unlock m => sim_mutex_unlock w m
  | _ => (default c, w)
  end.

Definition sim_os (limit : Z) (default : call → answer) : OS := {|
  world := sim_world;
  sys := sim_sys default;
  cancels := λ _ _, false;
  uncancel := id;
  malloc := sim_kmalloc limit [];
  realloc := sim_krealloc limit [];
  free := sim_kfree;
  os_IOWR := sim_IOWR;
  incoming := sim_stream;
  unread := λ w _, sim_unread w;
  owns := sim_owns
|}.

Lemma sim_block_exact n old :
  0 ≤ n < object_max → block_of n (sim_block [] n old).
Proof.
  intros Hn. split; [done|]. cbn.
  rewrite !length_app, length_take, length_replicate. cbn. lia.
Qed.

Section SimOSLaws.
Context (limit : Z) (default : call → answer) (Hlimit : limit < object_max).

Lemma sim_malloc_block h n p h' :
  0 < n → sim_kmalloc limit [] h n = (p, h') → p ≠ 0 →
  h !! p = None ∧ ∃ b, block_of n b ∧ h' = <[p := b]> h.
Proof.
  intros Hn. unfold sim_kmalloc. destruct (Z.ltb_spec limit n); cbn [orb]; [congruence|].
  destruct (_ <? n); [congruence|]. rewrite (proj2 (Z.eqb_neq n 0)) by lia.
  intros [= <- <-] Hp. split; [apply above_fresh|]. eexists.
  split; [apply sim_block_exact; lia|done].
Qed.

Lemma sim_realloc_block h p b n q h' :
  0 < n → p ≠ 0 → h !! p = Some b → Z.of_nat (length (blk_mem b)) = blk_size b →
  sim_krealloc limit [] h p n = (q, h') → q ≠ 0 →
  (q = p ∨ h !! q = None) ∧
  ∃ b', block_of n b' ∧ h' = <[q := b']> (delete p h) ∧
    take (Z.to_nat (blk_size b `min` n)) (blk_mem b') =
    take (Z.to_nat (blk_size b `min` n)) (blk_mem b).
Proof.
  intros Hn Hp Hb Hl. unfold sim_krealloc. rewrite (proj2 (Z.eqb_neq _ _) Hp), Hb.
  destruct (Z.ltb_spec limit n); cbn [orb]; [congruence|]. destruct (_ <? n); [congruence|].
  intros [= <- <-] Hq. split; [right; apply above_fresh|]. eexists.
  split; [apply sim_block_exact; lia|]. split; [done|]. cbn.
  rewrite take_app_le by (rewrite !length_take; lia). rewrite !take_take. f_equal. lia.
Qed.

Lemma sim_stream_insert w fd fd' cs :
  fd ≠ fd' →
  sim_stream (SimWorld (<[fd' := cs]> (sw_streams w)) (sw_file w) (sw_pos w) (sw_owned w)) fd
  = sim_stream w fd.
Proof. intros H. unfold sim_stream. cbn. by rewrite lookup_insert_ne. Qed.

Lemma sim_recv_frame w fd fd' n :
  fd ≠ fd' → sim_stream (sim_recv w fd' n).2 fd = sim_stream w fd.
Proof.
  intros H. unfold sim_recv. destruct (sim_stream w fd') as [|x xs]; [done|].
  destruct (_ <=? n); [|done]. by apply sim_stream_insert.
Qed.

Lemma sim_recv_chunk w fd n c cs :
  sim_stream w fd = c :: cs → Z.of_nat (length c) ≤ n →
  (sim_recv w fd n).1 = Ans (Z.of_nat (length c)) c ∧ sim_stream (sim_recv w fd n).2 fd = cs.
Proof.
  intros H Hn. unfold sim_recv. rewrite H, (proj2 (Z.leb_le _ _)) by done.
  split; [done|]. unfold sim_stream. cbn. by rewrite lookup_insert_eq.
Qed.

Lemma sim_recv_owned w fd n : sw_owned (sim_recv w fd n).2 = sw_owned w.
Proof. unfold sim_recv. destruct (sim_stream w fd); [done|]. by destruct (_ <=? n). Qed.

Lemma sim_incoming_frame w fd c :
  on_stream fd c = false → sim_stream (sim_sys default w c).2 fd = sim_stream w fd.
Proof.
  destruct c; cbn [on_stream sim_sys]; intros Hc; try done.
  - apply sim_recv_frame. by apply Z.eqb_neq.
  - unfold sim_mutex_lock. by destruct (sim_owns _ _).
  - unfold sim_mutex_unlock. by destruct (sim_owns _ _).
Qed.

Lemma sim_owns_filter (l : list Z) m m' :
  bool_decide (m ∈ filter (λ x, x ≠ m') l) = negb (m =? m') && bool_decide (m ∈ l).
Proof.
  rewrite (bool_decide_ext _ _ (list_elem_of_filter _ _ _)), bool_decide_and. f_equal.
  case_bool_decide; destruct (Z.eqb_spec m m'); naive_solver.
Qed.

Lemma sim_owns_frame w m c :
  on_mutex m c = false → sim_owns (sim_sys default w c).2 m = sim_owns w m.
Proof.
  destruct c; cbn [on_mutex sim_sys]; intros Hc; try done.
  - unfold sim_owns. by rewrite sim_recv_owned.
  - apply Z.eqb_neq in Hc. unfold sim_mutex_lock. destruct (sim_owns w m0); [done|].
    unfold sim_owns. cbn. apply bool_decide_ext. set_solver.
  - apply Z.eqb_neq in Hc. unfold sim_mutex_unlock. destruct (sim_owns w m0); [|done].
    unfold sim_owns. cbn [snd sw_owned]. rewrite sim_owns_filter.
    by rewrite (proj2 (Z.eqb_neq _ _) Hc).
Qed.

Lemma sim_read_some w n :
  let a := (sim_read w n).1 in
  0 < rc a → rc a ≤ n ∧ Z.of_nat (length (out a)) = rc a
    ∧ sim_unread w = out a ++ sim_unread (sim_read w n).2.
Proof.
  cbn. set (l := sim_unread w). intros H. rewrite length_take in H |- *.
  split_and!; [lia|lia|]. unfold sim_unread. cbn [sw_pos sw_file].
  rewrite <- drop_drop. change (drop (sw_pos w) (sw_file w)) with l.
  destruct (decide (Z.to_nat n ≤ length l)%nat) as [Hl|Hl].
  - rewrite Nat.min_l by done. by rewrite take_drop.
  - rewrite Nat.min_r, take_ge, drop_all, app_nil_r by lia. done.
Qed.

Lemma sim_lock_facts w m :
  let '(a, w') := sim_mutex_lock w m in
  (rc a = 0 → sim_owns w m = false ∧ sim_owns w' m = true)
  ∧ (rc a ≠ 0 → sim_owns w' m = sim_owns w m).
Proof.
  unfold sim_mutex_lock. destruct (sim_owns w m) eqn:E; cbn; [done|].
  split; [|done]. intros _. split; [done|]. apply bool_decide_true, list_elem_of_here.
Qed.

Lemma sim_unlock_facts w m :
  let '(a, w') := sim_mutex_unlock w m in
  (sim_owns w m = true → rc a = 0 ∧ sim_owns w' m = false)
  ∧ (sim_owns w m = false → rc a ≠ 0 ∧ sim_owns w' m = false).
Proof.
  unfold sim_mutex_unlock. destruct (sim_owns w m) eqn:E; cbn; (split; [|done]); [|done].
  intros _. split; [done|]. unfold sim_owns. cbn. rewrite sim_owns_filter.
  by rewrite Z.eqb_refl.
Qed.

(** The concrete system satisfies the laws. *)
Lemma sim_os_laws : OSLaws (sim_os limit default).
Proof.
  split; cbn.
  - intros h n h'. by apply sim_kmalloc_null.
  - apply sim_malloc_block.
  - apply sim_realloc_block.
  - intros h p n h' _. unfold sim_krealloc.
    destruct (p =? 0); [apply sim_kmalloc_null|]. destruct (h !! p).
    + destruct (_ || _); [by intros [= <-]|]. intros [= H]. pose proof (above_pos h). lia.
    + apply sim_kmalloc_null.
  - done.
  - intros h p b Hp Hb. unfold sim_kfree. by rewrite (proj2 (Z.eqb_neq _ _) Hp), Hb.
  - intros w fd n c cs a w' H _ Hn E. pose proof (sim_recv_chunk w fd n c cs H Hn) as Hr.
    by rewrite E in Hr.
  - intros w fd n a w' H. unfold sim_recv. rewrite H.
    intros [= <- <-]. by left.
  - intros w fd c a w' Hc E. pose proof (sim_incoming_frame w fd c Hc) as Hr. by rewrite E in Hr.
  - intros w _ n a w' _ E H. pose proof (sim_read_some w n) as Hr. rewrite E in Hr. by apply Hr.
  - intros w _ n a w' _ [= <- <-]. cbn. lia.
  - intros w _ n a w' Hn [= <- <-]. cbn. rewrite length_take. intros H.
    apply length_zero_iff_nil. lia.
  - by intros w _ _ bs a w' [= <- <-].
  - intros w m a w' E. pose proof (sim_lock_facts w m) as H. rewrite E in H. apply H.
  - intros w m a w' E. pose proof (sim_lock_facts w m) as H. rewrite E in H. apply H.
  - intros w m a w' Ho E. pose proof (sim_unlock_facts w m) as H. rewrite E in H. by apply H.
  - intros w m a w' Ho E. pose proof (sim_unlock_facts w m) as H. rewrite E in H. by apply H.
  - by intros w m a w' Ho [= <- <-].
  - by intros w m a w' Ho [= <- <-].
  - intros w m c a w' Hc E. pose proof (sim_owns_frame w m c Hc) as Hr. by rewrite E in Hr.
  - done.
  - done.
Qed.

End SimOSLaws.

#[export] Instance sim_uncancelled limit default : Uncancelled (sim_os limit default).
Proof. done. Qed.

Lemma sim_allocs_succeed default : allocs_succeed (sim_os (object_max - 1) default).
Proof.
  assert (∀ h n h', 0 < n < object_max →
            sim_kmalloc (object_max - 1) [] h n ≠ (0, h')) as Hm.
  { intros h n h' Hn. unfold sim_kmalloc.
    rewrite (proj2 (Z.ltb_ge _ n)), (proj2 (Z.ltb_ge (2 ^ 62) n)), (proj2 (Z.eqb_neq n 0))
      by (unfold object_max in *; lia).
    intros [= H]. pose proof (above_pos h). cbn in *. lia. }
  split; [done|]. intros h p n h' Hn. cbn. unfold sim_krealloc.
  destruct (p =? 0); [by apply Hm|]. destruct (h !! p); [|by apply Hm].
  rewrite (proj2 (Z.ltb_ge _ n)), (proj2 (Z.ltb_ge (2 ^ 62) n)) by (unfold object_max in *; lia).
  intros [= H]. pose proof (above_pos h). lia.
Qed.
