(* ===== verification/DataFile.v ===== *)
(** * The data file

    Models [server/datafile.c]: opening, positioning and closing the data file,
    recognising the seek command in a message, appending a message, and growing the
    buffer a message is collected in.  [USE_AESD_CHAR_DEVICE] is the build flag that
    chooses between the char device and a plain file; the seek command exists with
    the device only. *)

From Stdlib Require Import String.
From S2P Require Import Prelude Memory Kernel AesdIoctl CString Posix SimOS.

(** [O_CREAT | O_RDWR] and [S_IRUSR | S_IWUSR | S_IRGRP | S_IWGRP | S_IROTH]. *)
Definition open_flags : Z := Z.lor 0x40 2.
Definition open_mode : Z := 0x1B4.

Definition digits_size : nat := 1024.

Definition match_cmd : list Z := str "AESDCHAR_IOCSEEKTO:".

Definition COMMA : Z := 44.
Definition NEWLINE : Z := 10.

(** The loop of [parse_seekto_cmd]: [n] iterations are left, [cmd] is the memory
    from the match on, [x] the variable of that name.  [None] is [return -1]. *)
Fixpoint parse_loop (n : nat) (cmd : list Z) (i j : Z) (seen_comma : bool)
    (digits : list Z) (x : Z) : res (option (list Z * Z)) :=
  match n with
  | O => mret (Some (digits, x))
  | S n =>
    c ← arr_get cmd i;
    if negb seen_comma && (c =? COMMA) then
      '(v, erange) ← strtoul digits;
      if (erange : bool) then mret None
      else parse_loop n cmd (i + 1) 0 true (replicate digits_size 0) (u32 v)
    else
      digits ← arr_set digits j c;
      parse_loop n cmd (i + 1) (j + 1) seen_comma digits x
  end.

(** The code after the loop; [y0] is what the uninitialised [y] holds. *)
Definition parse_end (digits : list Z) (x y0 : Z) : res (option aesd_seekto) :=
  len ← strlen digits;
  if 0 <? len then
    '(v, erange) ← strtoul digits;
    if (erange : bool) then mret None else mret (Some (SeekTo x (u32 v)))
  else mret (Some (SeekTo x y0)).

(** [buf] is the memory from the pointer on; [x0] and [y0] are what the
    uninitialised variables [x] and [y] happen to hold.  [None] is -1. *)
Definition parse_seekto_cmd (x0 y0 : Z) (buf : list Z) (size : Z) : res (option aesd_seekto) :=
  m ← strstr buf match_cmd;
  match m with
  | Some off =>
    let cmd := drop (Z.to_nat off) buf in
    let start := Z.of_nat (length match_cmd) in
    r ← parse_loop (Z.to_nat (size - start)) cmd start 0 false (replicate digits_size 0) x0;
    match r with
    | Some (digits, x) => parse_end digits x y0
    | None => mret None
    end
  | None => mret None
  end.

Section DataFile.
Context {O : OS} {V : Type}.
Variable USE_AESD_CHAR_DEVICE : bool.

Definition DATA_FILE_PATH : list Z :=
  if USE_AESD_CHAR_DEVICE then str "/dev/aesdchar" else str "/var/tmp/aesdsocketdata".

Definition seek_ioctl : Z := os_IOWR AESD_IOC_MAGIC 1 sizeof_aesd_seekto.

Definition open_datafile : prog V Z := do_call (Copen DATA_FILE_PATH open_flags open_mode).

Definition close_datafile (fd : Z) : prog V unit :=
  if 0 <? fd then _ ← do_call (Cclose fd); mret () else mret ().

Definition destroy_datafile : prog V unit :=
  if negb USE_AESD_CHAR_DEVICE then _ ← do_call (Cremove DATA_FILE_PATH); mret () else mret ().

(** The [off_t] that [lseek] returns is assigned to an [int]. *)
Definition adjust_datafile_pos (fd offset pos_kind : Z) : prog V Z :=
  if negb USE_AESD_CHAR_DEVICE
  then r ← do_call (Clseek fd offset pos_kind); mret (s32 r)
  else mret 0.

(** [write(fd, buf, size)] for the memory [buf] from the pointer on. *)
Definition write_mem (fd : Z) (buf : list Z) (size : Z) : prog V unit :=
  if Z.of_nat (length buf) <? size then lift (Err OutOfBounds)
  else _ ← do_call (Cwrite fd (take (Z.to_nat size) buf)); mret ().

Definition append_datafile (x0 y0 fd : Z) (buf : list Z) (size : Z) : prog V unit :=
  if USE_AESD_CHAR_DEVICE then
    r ← lift (parse_seekto_cmd x0 y0 buf size);
    match r with
    | Some seekto => _ ← do_call (Cioctl fd seek_ioctl (seekto_bytes seekto)); mret ()
    | None => write_mem fd buf size
    end
  else write_mem fd buf size.

(** The new values of [*buf] and [*maxbuflen]; [in_buf] is the memory from the
    pointer on. *)
Definition append_string (buf maxbuflen buflen : Z) (in_buf : list Z) (n : Z)
    : prog V (Z * Z) :=
  '(buf, maxbuflen) ←
    (if maxbuflen <? u64 (buflen + n + 1) then
       let maxbuflen := u64 (maxbuflen + (buflen + s32 (2 * n))) in
       buf ← p_realloc buf maxbuflen; mret (buf, maxbuflen)
     else mret (buf, maxbuflen));
  h ← get_heap;
  b ← lift (blk_get h buf);
  mem ← lift (strncat (blk_mem b) in_buf (u64 n));
  _ ← set_heap (<[buf := Block (blk_size b) mem]> h);
  mret (buf, maxbuflen).

End DataFile.

(** ** The seek command *)

Lemma match_cmd_nonul : nonul match_cmd.
Proof. unfold match_cmd. repeat (apply Forall_cons; split; [done|]). by apply Forall_nil. Qed.

(** The loop copies bytes that are not the first comma to [digits]. *)
Lemma parse_loop_copies n ds pre post i seen done_ x :
  Forall (λ c, seen = true ∨ c ≠ COMMA) ds →
  i = Z.of_nat (length pre) → (length done_ + length ds ≤ digits_size)%nat →
  parse_loop (length ds + n) (pre ++ ds ++ post) i (Z.of_nat (length done_)) seen
    (done_ ++ replicate (digits_size - length done_) 0) x =
  parse_loop n (pre ++ ds ++ post) (i + Z.of_nat (length ds))
    (Z.of_nat (length (done_ ++ ds))) seen
    ((done_ ++ ds) ++ replicate (digits_size - length (done_ ++ ds)) 0) x.
Proof.
  intros Hds. revert pre i done_. induction Hds as [|c ds Hc Hds IH]; intros pre i done_ Hi Hl.
  - rewrite app_nil_r. cbn [length]. by rewrite Z.add_0_r.
  - cbn [length] in *. cbn [Nat.add parse_loop].
    rewrite (arr_get_Some _ i c); [|lia|cbn [app]; by rewrite Hi, Nat2Z.id, list_lookup_middle].
    cbn [mbind res_bind]. assert (negb seen && (c =? COMMA) = false) as ->.
    { destruct Hc as [->|Hc]; [done|]. apply Z.eqb_neq in Hc. rewrite Hc. apply andb_false_r. }
    rewrite arr_set_in by (rewrite length_app, length_replicate; lia). cbn [mbind res_bind].
    rewrite Nat2Z.id, insert_app_r_alt, Nat.sub_diag by lia.
    replace (digits_size - length done_)%nat with (S (digits_size - S (length done_))) by lia.
    cbn [replicate]. change (<[0%nat:=c]> (0 :: replicate (digits_size - S (length done_)) 0))
      with ([c] ++ replicate (digits_size - S (length done_)) 0).
    specialize (IH (pre ++ [c]) (i + 1) (done_ ++ [c])).
    rewrite !length_app in IH. cbn [length] in IH.
    rewrite <- !app_assoc in IH. cbn [app] in IH.
    replace (length done_ + 1)%nat with (S (length done_)) in IH by lia.
    replace (Z.of_nat (S (length done_))) with (Z.of_nat (length done_) + 1) in IH by lia.
    cbn [app]. rewrite IH by lia. f_equal; [lia|rewrite length_app; cbn; lia|].
    rewrite length_app. cbn [length]. rewrite <- app_assoc. cbn [app].
    by replace (S (length done_) + length ds)%nat with (length done_ + S (length ds))%nat by lia.
Qed.

(** The same with [digits] empty at first, up to the end of the count. *)
Lemma parse_loop_start n ds pre post i seen x :
  Forall (λ c, seen = true ∨ c ≠ COMMA) ds →
  i = Z.of_nat (length pre) → (length ds ≤ digits_size)%nat →
  parse_loop (length ds + n) (pre ++ ds ++ post) i 0 seen (replicate digits_size 0) x =
  parse_loop n (pre ++ ds ++ post) (i + Z.of_nat (length ds)) (Z.of_nat (length ds)) seen
    (ds ++ replicate (digits_size - length ds) 0) x.
Proof. intros Hds Hi Hl. apply (parse_loop_copies n ds pre post i seen [] x Hds Hi Hl). Qed.

Lemma print_dec_not_comma n c :
  0 ≤ n < 2 ^ 64 → c ∈ print_dec n → c ≠ COMMA ∧ c ≠ NUL.
Proof.
  intros Hn Hc. destruct (print_dec_facts n Hn) as (Hd & _ & _).
  rewrite Forall_forall in Hd. specialize (Hd c Hc).
  split; intros ->; discriminate Hd.
Qed.

Lemma print_dec_length n : 0 ≤ n < 2 ^ 64 → (0 < length (print_dec n) ≤ 20)%nat.
Proof. intros Hn. apply (print_dec_facts n Hn). Qed.

(** The memory of [digits] after some bytes were copied to it. *)
Lemma strtoul_digits n c ds :
  0 ≤ n < 2 ^ 64 → isdigit c = false → (length ds < 1000)%nat →
  strtoul ((print_dec n ++ c :: ds) ++ replicate (digits_size - length (print_dec n ++ c :: ds)) 0)
  = Ok (n, false).
Proof. intros Hn Hc Hl. rewrite <- app_assoc. cbn [app]. by apply strtoul_print. Qed.

Lemma strtoul_digits_0 n :
  0 ≤ n < 2 ^ 64 →
  strtoul (print_dec n ++ replicate (digits_size - length (print_dec n)) 0) = Ok (n, false).
Proof.
  intros Hn. pose proof (print_dec_length n Hn) as Hl.
  destruct (digits_size - length (print_dec n))%nat as [|k] eqn:E; [unfold digits_size in E; lia|].
  cbn [replicate]. by apply strtoul_print.
Qed.

(** What follows the last comma: a number and a newline. *)
Lemma strlen_digits y :
  0 ≤ y < 2 ^ 64 →
  strlen ((print_dec y ++ [NEWLINE]) ++ replicate (digits_size - length (print_dec y ++ [NEWLINE])) 0)
  = Ok (Z.of_nat (length (print_dec y ++ [NEWLINE]))).
Proof.
  intros Hy. pose proof (print_dec_length y Hy) as Hl. apply strlen_spec. split.
  - apply Forall_app. split; [|by apply Forall_cons].
    apply Forall_forall. intros c Hc. by apply (print_dec_not_comma y).
  - rewrite length_app. cbn [length].
    destruct (digits_size - (length (print_dec y) + 1))%nat as [|k] eqn:E;
      [unfold digits_size in E; lia|].
    by exists (replicate k 0).
Qed.

Lemma parse_end_number y x y0 :
  0 ≤ y < 2 ^ 64 →
  parse_end ((print_dec y ++ [NEWLINE])
    ++ replicate (digits_size - length (print_dec y ++ [NEWLINE])) 0) x y0
  = Ok (Some (SeekTo x (u32 y))).
Proof.
  intros Hy. unfold parse_end. rewrite strlen_digits by done. cbn [mbind res_bind].
  destruct (Z.ltb_spec 0 (Z.of_nat (length (print_dec y ++ [NEWLINE])))) as [_|H];
    [|rewrite length_app in H; cbn in H; lia].
  by rewrite strtoul_digits by (done || cbn; lia).
Qed.

(** The command the driver's seek is requested with. *)
Definition seek_text (x y : Z) : list Z :=
  match_cmd ++ print_dec x ++ [COMMA] ++ print_dec y ++ [NEWLINE].

(** A command at the start of the memory. *)
Lemma parse_at_start x0 y0 args rest :
  parse_seekto_cmd x0 y0 (match_cmd ++ args ++ rest) (Z.of_nat (length (match_cmd ++ args))) =
  (r ← parse_loop (length args) (match_cmd ++ args ++ rest) (Z.of_nat (length match_cmd)) 0 false
         (replicate digits_size 0) x0;
   match r with
   | Some (digits, x) => parse_end digits x y0
   | None => mret None
   end).
Proof.
  unfold parse_seekto_cmd. rewrite strstr_start. cbn [mbind res_bind].
  rewrite drop_0, length_app.
  by replace (Z.to_nat _) with (length args) by lia.
Qed.

(** The loop on a number, a comma, a number and a newline. *)
Lemma parse_loop_numbers x y x0 rest :
  0 ≤ x < 2 ^ 64 → 0 ≤ y < 2 ^ 64 →
  let args := print_dec x ++ [COMMA] ++ print_dec y ++ [NEWLINE] in
  parse_loop (length args) (match_cmd ++ args ++ rest) (Z.of_nat (length match_cmd)) 0 false
    (replicate digits_size 0) x0 =
  Ok (Some ((print_dec y ++ [NEWLINE])
            ++ replicate (digits_size - length (print_dec y ++ [NEWLINE])) 0, u32 x)).
Proof.
  intros Hx Hy args. pose proof (print_dec_length x Hx) as Hlx.
  pose proof (print_dec_length y Hy) as Hly. set (ys := print_dec y ++ [NEWLINE]) in *.
  assert (length ys = S (length (print_dec y))) as Hys
    by (unfold ys; rewrite length_app; cbn; lia).
  replace (length args) with (length (print_dec x) + S (length ys + 0))%nat
    by (unfold args; rewrite !length_app; fold ys; cbn [length]; lia).
  unfold args. rewrite <- !app_assoc. cbn [app].
  rewrite parse_loop_start;
    [|apply Forall_forall; intros c Hc; right; by apply (print_dec_not_comma x)
     |done|unfold digits_size; lia].
  cbn [parse_loop]. rewrite (arr_get_Some _ _ COMMA); [|lia|].
  2: { rewrite app_assoc. replace (Z.to_nat _) with (length (match_cmd ++ print_dec x))
         by (rewrite length_app; lia). by apply list_lookup_middle. }
  cbn [mbind res_bind negb andb]. rewrite Z.eqb_refl, strtoul_digits_0 by done.
  cbn [mbind res_bind]. rewrite app_assoc.
  replace ((match_cmd ++ print_dec x) ++ COMMA :: ys ++ rest)
    with (((match_cmd ++ print_dec x) ++ [COMMA]) ++ ys ++ rest) by by rewrite <- app_assoc.
  rewrite parse_loop_start; [done|apply Forall_forall; by left| |unfold digits_size; lia].
  rewrite !length_app. cbn [length]. lia.
Qed.

Lemma parse_seek_text x y x0 y0 rest :
  0 ≤ x < 2 ^ 64 → 0 ≤ y < 2 ^ 64 →
  parse_seekto_cmd x0 y0 (seek_text x y ++ NUL :: rest) (Z.of_nat (length (seek_text x y)))
  = Ok (Some (SeekTo (u32 x) (u32 y))).
Proof.
  intros Hx Hy. unfold seek_text.
  rewrite <- app_assoc, parse_at_start, parse_loop_numbers by done.
  cbn [mbind res_bind]. by apply parse_end_number.
Qed.

(** C31: round trip of the seek command: a message that is the text of the
    command for [x] and [y], whatever follows its NUL, is recognised and gives
    the structure with [x] and [y] converted to the width of its fields. *)
Theorem seek_command_is_parsed x y x0 y0 rest
    (Hx : 0 ≤ x < 2 ^ 64) (Hy : 0 ≤ y < 2 ^ 64) :
  parse_seekto_cmd x0 y0 (seek_text x y ++ NUL :: rest) (Z.of_nat (length (seek_text x y)))
  = Ok (Some (SeekTo (u32 x) (u32 y))).
Proof. by apply parse_seek_text. Qed.

Lemma seek_command_is_parsed_witness :
  (0 ≤ 3 < 2 ^ 64 ∧ 0 ≤ 2 ^ 32 + 7 < 2 ^ 64)
  ∧ parse_seekto_cmd 91 92 (seek_text 3 (2 ^ 32 + 7) ++ NUL :: [1])
      (Z.of_nat (length (seek_text 3 (2 ^ 32 + 7)))) = Ok (Some (SeekTo 3 7)).
Proof.
  split; [done|]. apply (seek_command_is_parsed 3 (2 ^ 32 + 7) 91 92 [1]); done.
Defined.

(** A seek command without a comma is accepted, and the write command of the
    result is whatever the uninitialised local variable held. *)
Theorem seek_without_comma_is_indeterminate y x0 y0 rest (Hy : 0 ≤ y < 2 ^ 64) :
  parse_seekto_cmd x0 y0 (match_cmd ++ (print_dec y ++ [NEWLINE]) ++ NUL :: rest)
    (Z.of_nat (length (match_cmd ++ print_dec y ++ [NEWLINE])))
  = Ok (Some (SeekTo x0 (u32 y))).
Proof.
  pose proof (print_dec_length y Hy) as Hl. rewrite parse_at_start.
  set (ys := print_dec y ++ [NEWLINE]).
  assert (length ys = S (length (print_dec y))) as Hys
    by (unfold ys; rewrite length_app; cbn; lia).
  replace (length ys) with (length ys + 0)%nat at 1 by lia.
  rewrite parse_loop_start; [|apply Forall_app; split|done|unfold digits_size; lia].
  - cbn [parse_loop mret res_ret mbind res_bind]. by apply parse_end_number.
  - apply Forall_forall. intros c Hc. right. by apply (print_dec_not_comma y).
  - apply Forall_cons. split; [by right|by apply Forall_nil].
Qed.

Lemma seek_without_comma_is_indeterminate_witness :
  0 ≤ 12 < 2 ^ 64
  ∧ parse_seekto_cmd 91 92 (match_cmd ++ (print_dec 12 ++ [NEWLINE]) ++ NUL :: [])
      (Z.of_nat (length (match_cmd ++ print_dec 12 ++ [NEWLINE]))) = Ok (Some (SeekTo 91 12)).
Proof. split; [done|]. by apply (seek_without_comma_is_indeterminate 12 91 92 []). Defined.

(** A message that starts like the seek command and goes on for more than
    1024 bytes without a comma makes [parse_seekto_cmd] write past [digits]. *)
Theorem long_seek_command_overflows ds c args rest x0 y0
    (Hlen : length ds = digits_size) (Hds : Forall (λ c, c ≠ COMMA) ds) (Hc : c ≠ COMMA) :
  parse_seekto_cmd x0 y0 (match_cmd ++ (ds ++ c :: args) ++ rest)
    (Z.of_nat (length (match_cmd ++ ds ++ c :: args))) = Err OutOfBounds.
Proof.
  rewrite parse_at_start.
  replace (length (ds ++ c :: args)) with (length ds + S (length args))%nat
    by (rewrite length_app; done).
  rewrite <- app_assoc, parse_loop_start; [| |done|lia].
  2: { eapply Forall_impl; [done|]. cbn. by right. }
  cbn [parse_loop]. rewrite (arr_get_Some _ _ c); [|lia|].
  2: { rewrite app_assoc. replace (Z.to_nat _) with (length (match_cmd ++ ds))
         by (rewrite length_app; lia). by apply list_lookup_middle. }
  cbn [mbind res_bind negb andb]. rewrite (proj2 (Z.eqb_neq c COMMA) Hc).
  unfold arr_set. rewrite length_app, length_replicate, Hlen, Nat.sub_diag, Nat.add_0_r.
  by rewrite Z.leb_refl, orb_true_r.
Qed.

Lemma long_seek_command_overflows_witness :
  length (replicate digits_size 49) = digits_size
  ∧ parse_seekto_cmd 0 0 (match_cmd ++ (replicate digits_size 49 ++ 50 :: [10]) ++ [NUL])
      (Z.of_nat (length (match_cmd ++ replicate digits_size 49 ++ 50 :: [10]))) = Err OutOfBounds.
Proof.
  split; [done|].
  apply (long_seek_command_overflows (replicate digits_size 49) 50 [10] [NUL] 0 0);
    [done| |done]. by apply Forall_replicate.
Defined.

(** ** Appending to the file *)

(** The system calls a program made, and that it left the memory alone. *)
Definition did {O : OS} {V} (s s' : pstate V) (calls : list call) : Prop :=
  (∃ answers, length answers = length calls
     ∧ p_trace s' = p_trace s ++ zip calls answers)
  ∧ p_heap s' = p_heap s ∧ p_vars s' = p_vars s.

Section Append.
Context {O : OS} {V : Type}.
Implicit Types s : pstate V.

Lemma did_one s c a w : did s (after s c a w) [c].
Proof. split; [by exists [a]|done]. Qed.

Lemma write_mem_spec C fd buf size s (Q : unit → pstate V → Prop) :
  0 ≤ size ≤ Z.of_nat (length buf) →
  (∀ c, cancels (p_world s) c = true → C s) →
  (∀ a w, sys (p_world s) (Cwrite fd (take (Z.to_nat size) buf)) = (a, w) →
     Q () (after s (Cwrite fd (take (Z.to_nat size) buf)) a w)) →
  runs_to C (write_mem fd buf size) s Q.
Proof.
  intros Hl HC HQ. unfold write_mem. rewrite (proj2 (Z.ltb_ge _ size)) by lia.
  prog_step. prog_step; [by eapply HC|]. prog_step. by apply HQ.
Qed.

(** What [append_datafile] does with a message that is not a seek command. *)
Lemma append_text C dev x0 y0 fd text rest s (Q : unit → pstate V → Prop) :
  nonul text → contains match_cmd text = false →
  (∀ c, cancels (p_world s) c = true → C s) →
  (∀ a w, sys (p_world s) (Cwrite fd text) = (a, w) → Q () (after s (Cwrite fd text) a w)) →
  runs_to C (append_datafile dev x0 y0 fd (text ++ NUL :: rest) (Z.of_nat (length text))) s Q.
Proof.
  intros Ht Hc HC HQ.
  assert (runs_to C (write_mem fd (text ++ NUL :: rest) (Z.of_nat (length text))) s Q) as Hw.
  { apply write_mem_spec; [|done|]; [rewrite length_app; lia|].
    rewrite Nat2Z.id, take_app_length. done. }
  destruct dev; [|done]. unfold append_datafile, parse_seekto_cmd.
  rewrite strstr_none by (done || apply match_cmd_nonul). cbn [mbind res_bind mret res_ret].
  apply runs_to_bind. by eapply runs_to_lift.
Qed.

(** A plain file takes every message. *)
Lemma append_plain C x0 y0 fd text rest s (Q : unit → pstate V → Prop) :
  (∀ c, cancels (p_world s) c = true → C s) →
  (∀ a w, sys (p_world s) (Cwrite fd text) = (a, w) → Q () (after s (Cwrite fd text) a w)) →
  runs_to C (append_datafile false x0 y0 fd (text ++ NUL :: rest) (Z.of_nat (length text))) s Q.
Proof.
  intros HC HQ. apply write_mem_spec; [rewrite length_app; lia|done|].
  rewrite Nat2Z.id, take_app_length. done.
Qed.

(** A message without the seek command in it is appended to the data file as
    it is: one [write] of its bytes up to the NUL, and nothing else. *)
Theorem append_datafile_writes_text `{!Uncancelled O} dev x0 y0 fd text rest s
    (Ht : nonul text) (Hc : contains match_cmd text = false) :
  returns (append_datafile dev x0 y0 fd (text ++ NUL :: rest) (Z.of_nat (length text))) s
    (λ _ s', did s s' [Cwrite fd text]).
Proof.
  apply runs_to_returns, append_text; [done|done|intros; never_cancelled|].
  intros a w _. apply did_one.
Qed.

(** With the char device, the seek command is not written to the device but
    becomes one ioctl that carries the two numbers as the driver expects them. *)
Theorem append_datafile_seeks `{!Uncancelled O} x y x0 y0 fd rest s (Hx : 0 ≤ x < 2 ^ 32) (Hy : 0 ≤ y < 2 ^ 32) :
  returns (append_datafile true x0 y0 fd (seek_text x y ++ NUL :: rest)
             (Z.of_nat (length (seek_text x y)))) s
    (λ _ s', did s s' [Cioctl fd seek_ioctl (le32_bytes x ++ le32_bytes y)]).
Proof.
  unfold append_datafile. apply returns_bind. eapply returns_lift.
  { apply (parse_seek_text x y x0 y0 rest); lia. }
  cbn [mbind]. prog_step. prog_step. prog_step. rewrite !u32_id by lia. apply did_one.
Qed.

(** ** The message buffer *)

(** The block at [p] is a buffer of [max] bytes that holds the string [str]. *)
Definition buffer (h : heap) (p max : Z) (str : list Z) : Prop :=
  p ≠ 0 ∧ ∃ b, h !! p = Some b ∧ blk_size b = max ∧ Z.of_nat (length (blk_mem b)) = max
    ∧ holds_str (blk_mem b) str.

Lemma buffer_strncat h p max str in_buf n (Hb : buffer h p max str) :
  0 ≤ n → (Z.to_nat n ≤ length in_buf)%nat → Z.of_nat (length str) + n < max →
  ∃ b mem, h !! p = Some b ∧ blk_get h p = Ok b ∧ strncat (blk_mem b) in_buf n = Ok mem
    ∧ buffer (<[p := Block (blk_size b) mem]> h) p max (str ++ upto_nul (take (Z.to_nat n) in_buf)).
Proof.
  destruct Hb as (Hp & b & Hb & Hs & Hl & Hstr). intros Hn Hin Hroom.
  destruct (strncat_spec _ _ _ _ Hstr Hn Hin ltac:(lia)) as (mem & Hcat & Hh & Hlm).
  exists b, mem. split_and!; [done|by apply blk_get_Some|done|].
  split; [done|]. eexists. rewrite lookup_insert_eq. split_and!; [done|done|cbn; lia|done].
Qed.

Lemma buffer_realloc {L : OSLaws O} h p max str n q h' :
  buffer h p max str → max ≤ n < object_max → realloc h p n = (q, h') → q ≠ 0 → 0 < max →
  buffer h' q n str ∧ (q = p ∨ h !! q = None) ∧ ∃ b', h' = <[q := b']> (delete p h).
Proof.
  intros (Hp & b & Hb & Hs & Hl & Hstr) Hn E Hq Hmax.
  destruct (realloc_block h p b n q h') as (Hfr & b' & [Hs' [Hl' _]] & -> & Htake);
    [lia|done|done|lia|done|done|].
  split; [|split; [done|by exists b']].
  split; [done|]. exists b'. rewrite lookup_insert_eq. split_and!; [done|done|lia|].
  destruct Hstr as [Hnn [rest Hmem]]. split; [done|].
  rewrite Z.min_l, Hs, <- Hl, Nat2Z.id, firstn_all, Hmem in Htake by lia.
  exists (rest ++ drop (Z.to_nat max) (blk_mem b')).
  rewrite <- (take_drop (Z.to_nat max) (blk_mem b')) at 1.
  replace (take (Z.to_nat max) (blk_mem b')) with (str ++ NUL :: rest); [by rewrite <- app_assoc|].
  rewrite <- Htake. f_equal. rewrite <- Hl, Hmem. lia.
Qed.
(** The block at [p] was replaced by the one at [q], all others are as before. *)
Definition regrown (h h' : heap) (p q : Z) : Prop :=
  (q = p ∨ h !! q = None) ∧ ∃ b, h' = <[q := b]> (delete p h).

(** The effect of [append_string] on the buffer that holds [str]. *)
Definition appended s (p max buflen n : Z) (str bs : list Z) (r : Z * Z) (s' : pstate V) : Prop :=
  buffer (p_heap s') r.1 r.2 (str ++ upto_nul bs)
  ∧ regrown (p_heap s) (p_heap s') p r.1
  ∧ buflen + n < r.2
  ∧ (r.2 = max ∨ max ≤ buflen + n ∧ r.2 = max + buflen + 2 * n)
  ∧ s' = PState (p_heap s') (p_world s) (p_trace s) (p_vars s).

Lemma append_string_fits s p max buflen in_buf n str :
  buffer (p_heap s) p max str → Z.of_nat (length str) ≤ buflen → 0 ≤ buflen →
  0 ≤ n → (Z.to_nat n ≤ length in_buf)%nat → buflen + n < max → max < object_max →
  returns (append_string p max buflen in_buf n) s
    (appended s p max buflen n str (take (Z.to_nat n) in_buf)).
Proof.
  intros Hb Hstr Hbl Hn Hin Hroom Hmax. unfold append_string.
  unfold object_max in Hmax.
  rewrite (u64_id (buflen + n + 1)), (u64_id n), (proj2 (Z.ltb_ge max _)) by lia.
  destruct (buffer_strncat (p_heap s) p max str in_buf n Hb) as (b & mem & Hp & Hg & Hc & Hb');
    [lia|done|lia|].
  prog_step. prog_step. prog_step. prog_step. prog_step.
  eapply returns_lift; [done|]. prog_step. eapply returns_lift; [done|].
  prog_step. prog_step. prog_step. split; [done|]. cbn.
  split_and!; [|lia|by left|done]. split; [by left|]. eexists. by rewrite insert_delete_eq.
Qed.

Lemma append_string_spec {L : OSLaws O} s p max buflen in_buf n str :
  allocs_succeed O →
  buffer (p_heap s) p max str → Z.of_nat (length str) ≤ buflen → 0 ≤ buflen →
  0 ≤ n < 2 ^ 30 → (Z.to_nat n ≤ length in_buf)%nat →
  max + buflen + 2 * n < object_max → 0 < max → buflen ≤ max →
  returns (append_string p max buflen in_buf n) s
    (appended s p max buflen n str (take (Z.to_nat n) in_buf)).
Proof.
  intros [_ Hre] Hb Hstr Hbl Hn Hin Hlim Hmax Hbm.
  destruct (Z.lt_ge_cases (buflen + n) max) as [Hfit|Hgrow].
  { apply append_string_fits; try done; lia. }
  unfold append_string. unfold object_max in Hlim.
  rewrite (s32_id (2 * n)) by lia. rewrite !u64_id by lia.
  rewrite (proj2 (Z.ltb_lt max _)) by lia. set (max' := max + (buflen + 2 * n)).
  prog_step. prog_step. unfold p_realloc. prog_step. prog_step.
  destruct (realloc (p_heap s) p max') as [q h'] eqn:E.
  assert (q ≠ 0) as Hq by (intros ->; eapply Hre; [|exact E]; unfold max', object_max; lia).
  destruct (buffer_realloc _ p max str max' q h' Hb) as (Hb1 & Hfr & b' & ->);
    [unfold max', object_max; lia|done|done|done|].
  destruct (buffer_strncat _ q max' str in_buf n Hb1) as (b & mem & Hp & Hg & Hc & Hb');
    [lia|done|unfold max'; lia|].
  do 6 prog_step. cbn [p_heap]. prog_step.
  eapply returns_lift; [done|]. prog_step. eapply returns_lift; [done|].
  prog_step. prog_step. prog_step. split; [done|]. cbn.
  split_and!; [|unfold max'; lia|right; unfold max'; lia|done].
  split; [done|]. eexists. by rewrite insert_insert_eq.
Qed.

(** C30: appending to the message buffer never leaves it: for a string that fits
    its recorded length, the bytes of [in_buf] up to a NUL are appended, in place
    or in a larger block that holds the same string; the new capacity has room for
    the new length and the NUL, and every other block is untouched.  [realloc] succeeds. *)
Theorem append_string_appends {L : OSLaws O} s p max buflen in_buf n str
    (Halloc : allocs_succeed O) (Hb : buffer (p_heap s) p max str)
    (Hstr : Z.of_nat (length str) ≤ buflen) (Hbm : buflen ≤ max) (Hmax : 0 < max)
    (Hn : 0 ≤ n < 2 ^ 30) (Hin : (Z.to_nat n ≤ length in_buf)%nat)
    (Hlim : max + buflen + 2 * n < object_max) :
  returns (append_string p max buflen in_buf n) s
    (appended s p max buflen n str (take (Z.to_nat n) in_buf)).
Proof. apply append_string_spec; try done. lia. Qed.

(** When the buffer must grow and [realloc] fails, the null pointer it returns
    is used. *)
Theorem append_string_realloc_failure s p max buflen in_buf n h'
    (Hfull : max < buflen + n + 1) (Hmax : 0 < max < 2 ^ 62)
    (Hr : 0 ≤ buflen < 2 ^ 62 ∧ 0 ≤ n < 2 ^ 30)
    (Hfail : ∀ m, 0 < m → realloc (p_heap s) p m = (0, h')) :
  append_string p max buflen in_buf n s = Err NullDeref.
Proof.
  assert (0 < u64 (max + (buflen + s32 (2 * n)))) as Hpos
    by (rewrite s32_id, u64_id; lia).
  unfold append_string, p_realloc. rewrite (u64_id (buflen + n + 1)) by lia.
  rewrite (proj2 (Z.ltb_lt max _)) by lia.
  cbv beta iota delta [mbind prog_bind get_heap set_heap mret prog_ret lift].
  by rewrite Hfail.
Qed.

End Append.

(** ** A run *)

(** A system that meets every request and answers 0 to every other call. *)
Definition demo_os : OS := sim_os (object_max - 1) (λ _, Ans 0 []).

Definition demo_heap : heap := {[ 16 := Block 4 [104; 105; 0; 0] ]}.

Definition demo_process : @pstate demo_os unit :=
  @PState demo_os unit demo_heap (SimWorld ∅ [] 0 []) [] ().

Lemma demo_buffer : buffer demo_heap 16 4 [104; 105].
Proof.
  split; [done|]. exists (Block 4 [104; 105; 0; 0]). split_and!; [done|done|done|].
  split; [forall_neq|by exists [0]].
Qed.

Lemma append_datafile_writes_text_witness :
  nonul [104; 105; 10] ∧ contains match_cmd [104; 105; 10] = false
  ∧ returns (append_datafile true 0 0 5 ([104; 105; 10] ++ NUL :: []) 3) demo_process
      (λ _ s', did demo_process s' [Cwrite 5 [104; 105; 10]]).
Proof.
  split; [forall_neq|]. split; [done|].
  apply (append_datafile_writes_text true 0 0 5 [104; 105; 10] [] demo_process);
    [forall_neq|done].
Defined.

Lemma append_datafile_seeks_witness :
  (0 ≤ 2 < 2 ^ 32 ∧ 0 ≤ 300 < 2 ^ 32)
  ∧ returns (append_datafile true 0 0 5 (seek_text 2 300 ++ NUL :: [])
               (Z.of_nat (length (seek_text 2 300)))) demo_process
      (λ _ s', did demo_process s' [Cioctl 5 (@seek_ioctl demo_os) [2; 0; 0; 0; 44; 1; 0; 0]]).
Proof. split; [done|]. by apply (append_datafile_seeks 2 300 0 0 5 [] demo_process). Defined.

Lemma append_string_appends_witness :
  buffer demo_heap 16 4 [104; 105]
  ∧ returns (append_string 16 4 2 [10; 65] 2) demo_process
      (appended demo_process 16 4 2 2 [104; 105] [10; 65]).
Proof.
  split; [apply demo_buffer|].
  refine (append_string_appends (L := sim_os_laws _ _ _) demo_process 16 4 2 [10; 65] 2
            [104; 105] _ _ _ _ _ _ _ _);
    [done|apply sim_allocs_succeed|apply demo_buffer|done|done|done|done|cbn; lia|done].
Defined.

(** A system on which every memory request fails. *)
Definition poor_os : OS := sim_os 0 (λ _, Ans 0 []).

Definition poor_process : @pstate poor_os unit :=
  @PState poor_os unit demo_heap (SimWorld ∅ [] 0 []) [] ().

Lemma poor_realloc m : 0 < m → @realloc poor_os demo_heap 16 m = (0, demo_heap).
Proof.
  intros Hm. cbn -[demo_heap]. unfold sim_krealloc.
  change (demo_heap !! 16) with (Some (Block 4 [104; 105; 0; 0])).
  cbn [Z.eqb]. by rewrite (proj2 (Z.ltb_lt 0 m) Hm).
Qed.

Lemma append_string_realloc_failure_witness :
  (∀ m, 0 < m → @realloc poor_os (p_heap poor_process) 16 m = (0, demo_heap))
  ∧ append_string 16 4 2 [10; 65] 2 poor_process = Err NullDeref.
Proof.
  split; [apply poor_realloc|].
  apply (append_string_realloc_failure poor_process 16 4 2 [10; 65] 2 demo_heap);
    [lia|lia|lia|apply poor_realloc].
Defined.
