(* ===== verification/SList.v ===== *)
(** * Singly linked lists

    Models the [SLIST] macros of [server/queue.h] that the server uses, with their
    pointers: a list is the address of its first element, and the [sle_next] field
    of every element is kept in a store.  [sl_rep l items]: the pointers of [l]
    run through [items] and end in the null pointer. *)

From S2P Require Import Prelude.

(** [SLIST_HEAD] and the [SLIST_ENTRY] fields of the live elements. *)
Record slist := SL { slh_first : Z; sle_next : gmap Z Z }.

Definition SLIST_NEXT (l : slist) (elm : Z) : res Z :=
  if elm =? 0 then Err NullDeref
  else match sle_next l !! elm with Some q => Ok q | None => Err OutOfBounds end.

Definition set_next (l : slist) (elm q : Z) : res slist :=
  _ ← SLIST_NEXT l elm; mret (SL (slh_first l) (<[elm := q]> (sle_next l))).

Definition SLIST_FIRST (l : slist) : Z := slh_first l.

Definition SLIST_INIT (l : slist) : slist := SL 0 (sle_next l).

Definition SLIST_EMPTY (l : slist) : bool := slh_first l =? 0.

Definition SLIST_INSERT_HEAD (l : slist) (elm : Z) : res slist :=
  l ← set_next l elm (SLIST_FIRST l);
  mret (SL elm (sle_next l)).

Definition SLIST_INSERT_AFTER (l : slist) (slistelm elm : Z) : res slist :=
  q ← SLIST_NEXT l slistelm;
  l ← set_next l elm q;
  set_next l slistelm elm.

Definition SLIST_REMOVE_HEAD (l : slist) : res slist :=
  q ← SLIST_NEXT l (SLIST_FIRST l); mret (SL q (sle_next l)).

Definition SLIST_REMOVE_AFTER (l : slist) (elm : Z) : res slist :=
  q ← SLIST_NEXT l elm;
  q' ← SLIST_NEXT l q;
  set_next l elm q'.

(** The loop of [SLIST_REMOVE]: the element before [elm]. *)
Fixpoint find_prev (fuel : nat) (l : slist) (curelm elm : Z) : res Z :=
  match fuel with
  | O => Err OutOfFuel
  | S fuel =>
    q ← SLIST_NEXT l curelm;
    if q =? elm then mret curelm else find_prev fuel l q elm
  end.

(** An element is at most as far away as there are elements. *)
Definition SLIST_REMOVE (l : slist) (elm : Z) : res slist :=
  if SLIST_FIRST l =? elm then SLIST_REMOVE_HEAD l
  else
    curelm ← find_prev (size (sle_next l)) l (SLIST_FIRST l) elm;
    SLIST_REMOVE_AFTER l curelm.

(** The elements from [p] on, as [SLIST_FOREACH] visits them. *)
Fixpoint SLIST_FOREACH (fuel : nat) (l : slist) (p : Z) : res (list Z) :=
  match fuel with
  | O => Err OutOfFuel
  | S fuel =>
    if p =? 0 then mret []
    else q ← SLIST_NEXT l p; r ← SLIST_FOREACH fuel l q; mret (p :: r)
  end.

(** ** Representation *)

(** The pointers from [p] to [q] run through [items]. *)
Fixpoint seg (next : gmap Z Z) (p : Z) (items : list Z) (q : Z) : Prop :=
  match items with
  | [] => p = q
  | x :: items => p = x ∧ x ≠ 0 ∧ ∃ r, next !! x = Some r ∧ seg next r items q
  end.

Definition sl_rep (l : slist) (items : list Z) : Prop :=
  seg (sle_next l) (slh_first l) items 0 ∧ NoDup items.

Lemma SLIST_NEXT_Some l x q : x ≠ 0 → sle_next l !! x = Some q → SLIST_NEXT l x = Ok q.
Proof. intros Hx Hq. unfold SLIST_NEXT. by rewrite (proj2 (Z.eqb_neq _ _) Hx), Hq. Qed.

Lemma set_next_live l x q : x ≠ 0 → is_Some (sle_next l !! x) →
  set_next l x q = Ok (SL (slh_first l) (<[x := q]> (sle_next l))).
Proof.
  intros Hx [r Hr]. unfold set_next. by rewrite (SLIST_NEXT_Some _ _ r).
Qed.

Lemma seg_app next p l1 l2 q :
  seg next p (l1 ++ l2) q ↔ ∃ r, seg next p l1 r ∧ seg next r l2 q.
Proof.
  revert p. induction l1 as [|x l1 IH]; intros p; cbn [app seg].
  - split; [intros H; by exists p|by intros (r & -> & H)].
  - split.
    + intros (-> & Hx & r & Hr & Hs). apply IH in Hs as (r' & H1 & H2). eauto 8.
    + intros (r' & (-> & Hx & r & Hr & H1) & H2). split; [done|]. split; [done|].
      exists r. split; [done|]. apply IH. eauto.
Qed.

Lemma seg_insert_ne next p items q x r :
  x ∉ items → seg next p items q → seg (<[x := r]> next) p items q.
Proof.
  revert p. induction items as [|y items IH]; intros p Hx; [done|].
  apply not_elem_of_cons in Hx as [Hne Hx]. cbn. intros (-> & Hy & r' & Hr & Hs).
  split; [done|]. split; [done|]. exists r'. split; [by rewrite lookup_insert_ne|].
  by apply IH.
Qed.

Lemma seg_delete_ne next p items q x :
  x ∉ items → seg next p items q → seg (delete x next) p items q.
Proof.
  revert p. induction items as [|y items IH]; intros p Hx; [done|].
  apply not_elem_of_cons in Hx as [Hne Hx]. cbn. intros (-> & Hy & r' & Hr & Hs).
  split; [done|]. split; [done|]. exists r'. split; [by rewrite lookup_delete_ne|].
  by apply IH.
Qed.

Lemma seg_live next p items q x : x ∈ items → seg next p items q → x ≠ 0 ∧ is_Some (next !! x).
Proof.
  revert p. induction items as [|y items IH]; intros p Hx; [by apply elem_of_nil in Hx|].
  cbn. intros (-> & Hy & r & Hr & Hs). apply elem_of_cons in Hx as [->|Hx]; [done|by eapply IH].
Qed.

(** A list has no more elements than there are fields. *)
Lemma seg_size next p items q : NoDup items → seg next p items q → (length items ≤ size next)%nat.
Proof.
  intros Hnd Hs. rewrite <- (size_list_to_set (C := gset Z)) by done. rewrite <- size_dom.
  apply subseteq_size. intros x Hx. apply elem_of_list_to_set in Hx.
  apply elem_of_dom. by eapply seg_live.
Qed.

(** ** Operations *)

Lemma insert_head_rep l items x :
  sl_rep l items → x ≠ 0 → x ∉ items → is_Some (sle_next l !! x) →
  ∃ l', SLIST_INSERT_HEAD l x = Ok l' ∧ sl_rep l' (x :: items)
    ∧ l' = SL x (<[x := slh_first l]> (sle_next l)).
Proof.
  intros [Hs Hnd] Hx Hni Hlive. unfold SLIST_INSERT_HEAD.
  rewrite set_next_live by done. eexists. split; [done|]. split; [|done]. split.
  - cbn. split; [done|]. split; [done|]. exists (slh_first l).
    rewrite lookup_insert_eq. split; [done|]. by apply seg_insert_ne.
  - by apply NoDup_cons.
Qed.

Lemma find_prev_spec l p pre y x suf fuel :
  seg (sle_next l) p (pre ++ y :: x :: suf) 0 → x ∉ pre ++ [y] →
  (length pre < fuel)%nat → find_prev fuel l p x = Ok y.
Proof.
  revert p fuel. induction pre as [|z pre IH]; intros p fuel Hs Hx Hf;
    (destruct fuel as [|fuel]; [cbn in Hf; lia|]); cbn [app seg] in Hs.
  - destruct Hs as (-> & Hy & r & Hr & -> & _). cbn [find_prev].
    rewrite (SLIST_NEXT_Some _ _ x) by done. cbn [mbind res_bind].
    by rewrite Z.eqb_refl.
  - destruct Hs as (-> & Hz & r & Hr & Hs). cbn [find_prev].
    rewrite (SLIST_NEXT_Some _ _ r) by done. cbn [mbind res_bind].
    assert (r ≠ x) as Hne.
    { destruct pre as [|z' pre]; cbn in Hs; destruct Hs as (-> & _); set_solver. }
    rewrite (proj2 (Z.eqb_neq _ _) Hne). apply IH; [done|set_solver|cbn in Hf; lia].
Qed.

(** [SLIST_REMOVE] takes one element out and keeps the order of the others. *)
Lemma remove_rep l pre x suf :
  sl_rep l (pre ++ x :: suf) →
  ∃ l', SLIST_REMOVE l x = Ok l' ∧ sl_rep l' (pre ++ suf)
    ∧ dom (sle_next l') = dom (sle_next l).
Proof.
  intros [Hs Hnd]. pose proof (seg_size _ _ _ _ Hnd Hs) as Hsize.
  pose proof Hnd as Hnd'. apply NoDup_app in Hnd' as (Hnd1 & Hdis & Hnd2).
  apply NoDup_cons in Hnd2 as [Hx2 Hnd2].
  assert (NoDup (pre ++ suf)) as Hnd3.
  { apply NoDup_app. split; [done|]. split; [|done]. intros z Hz Hz'.
    apply (Hdis z Hz). by apply list_elem_of_further. }
  assert (x ∈ pre ++ x :: suf) as Hin by set_solver.
  destruct (seg_live _ _ _ _ x Hin Hs) as [Hx0 Hxl].
  unfold SLIST_REMOVE, SLIST_FIRST. destruct pre as [|y pre _] using rev_ind.
  - cbn in Hs. destruct Hs as (Hf & _ & r & Hr & Hs). rewrite Hf, Z.eqb_refl.
    unfold SLIST_REMOVE_HEAD, SLIST_FIRST. rewrite Hf, (SLIST_NEXT_Some _ _ r) by done.
    by eexists.
  - assert (x ∉ pre ++ [y]) as Hxp by (intros H; apply (Hdis x H), list_elem_of_here).
    assert (slh_first l ≠ x) as Hne.
    { destruct pre as [|z pre]; cbn in Hs; destruct Hs as (-> & _); set_solver. }
    rewrite (proj2 (Z.eqb_neq _ _) Hne). rewrite <- app_assoc in Hs. cbn [app] in Hs.
    rewrite (find_prev_spec l _ pre y x suf);
      [|done|done|rewrite !length_app in Hsize; cbn in Hsize; lia].
    cbn [mbind res_bind]. unfold SLIST_REMOVE_AFTER.
    apply seg_app in Hs as (r & Hs1 & (-> & Hy & r' & Hr' & -> & _ & r2 & Hr2 & Hs2)).
    rewrite (SLIST_NEXT_Some _ y x) by done. cbn [mbind res_bind].
    rewrite (SLIST_NEXT_Some _ x r2) by done. cbn [mbind res_bind].
    rewrite set_next_live by done. eexists. split; [done|]. split; [split; [|done]|].
    + cbn. rewrite <- app_assoc. apply seg_app. exists y. split.
      * apply seg_insert_ne; [|done]. apply NoDup_app in Hnd1 as (_ & H & _).
        intros Hys. apply (H y Hys), list_elem_of_here.
      * cbn. split; [done|]. split; [done|]. exists r2. rewrite lookup_insert_eq.
        split; [done|]. apply seg_insert_ne; [|done]. intros Hys.
        apply (Hdis y); [set_solver|]. by apply list_elem_of_further.
    + cbn. apply dom_insert_lookup_L. by eexists.
Qed.

(** Releasing an element that is not in the list leaves the list as it is. *)
Lemma release_rep l items x :
  sl_rep l items → x ∉ items → sl_rep (SL (slh_first l) (delete x (sle_next l))) items.
Proof. intros [Hs Hnd] Hx. split; [by apply seg_delete_ne|done]. Qed.

Lemma foreach_rep l p items fuel :
  seg (sle_next l) p items 0 → (length items < fuel)%nat →
  SLIST_FOREACH fuel l p = Ok items.
Proof.
  revert p fuel. induction items as [|x items IH]; intros p fuel Hs Hf;
    (destruct fuel as [|fuel]; [cbn in Hf; lia|]); cbn in Hs.
  - by subst p.
  - destruct Hs as (-> & Hx & r & Hr & Hs). cbn [SLIST_FOREACH].
    rewrite (proj2 (Z.eqb_neq _ _) Hx), (SLIST_NEXT_Some _ _ r) by done. cbn [mbind res_bind].
    by rewrite IH by (done || cbn in Hf; lia).
Qed.
