(* ===== verification/Queue.v ===== *)
(** * Links and chains

    The memory the macros of [server/queue.h] work on.  A head and the link in an
    element have the same layout: a pointer to an element ([first] or [next]) and,
    where the structure has one, the address of such a pointer ([last] or [prev]).
    A [loc] is the address of the first word, so [&TAILQ_NEXT(elm, field)] and
    [&TAILQ_FIRST(head)] are locations, and reading a link through a pointer to a
    head, as [TAILQ_LAST] does, is reading the second word after a location.

    [chain]: the pointers from a location on run through a list of elements. *)

From S2P Require Import Prelude.

Inductive loc : Type :=
| Head (h : Z)
| Elem (e : Z).

#[export] Instance loc_eq_dec : EqDecision loc.
Proof. solve_decision. Defined.

#[export] Instance loc_countable : Countable loc.
Proof.
  refine (inj_countable' (λ l, match l with Head h => inl h | Elem e => inr e end)
    (λ s, match s with inl h => Head h | inr e => Elem e end) _).
  by intros [].
Defined.

(** The first and the second word at a location. *)
Record qmem := QMem { fwd : gmap loc Z; bwd : gmap loc loc }.

(** Reading and writing; the element 0 is the null pointer. *)
Definition get {A} (m : gmap loc A) (l : loc) : res A :=
  if decide (l = Elem 0) then Err NullDeref
  else match m !! l with Some x => Ok x | None => Err OutOfBounds end.

Definition get_fwd (m : qmem) (l : loc) : res Z := get (fwd m) l.
Definition get_bwd (m : qmem) (l : loc) : res loc := get (bwd m) l.

Definition set_fwd (m : qmem) (l : loc) (x : Z) : res qmem :=
  _ ← get_fwd m l; mret (QMem (<[l := x]> (fwd m)) (bwd m)).
Definition set_bwd (m : qmem) (l l' : loc) : res qmem :=
  _ ← get_bwd m l; mret (QMem (fwd m) (<[l := l']> (bwd m))).

(** [__containerof]: the element a pointer to its link belongs to. *)
Definition containerof (l : loc) : res Z :=
  match l with Elem x => Ok x | Head _ => Err OutOfBounds end.

(** The loop of the [FOREACH] macros, [step] the increment; the body may change the
    memory and a state of its own. *)
Fixpoint foreach {A} (fuel : nat) (step : qmem → Z → res Z)
    (body : Z → qmem * A → res (qmem * A)) (var : Z) (s : qmem * A) : res (qmem * A) :=
  match fuel with
  | O => Err OutOfFuel
  | S fuel =>
    if var =? 0 then mret s
    else
      s ← body var s;
      var ← step s.1 var;
      foreach fuel step body var s
  end.

(** The loop of the [FOREACH_SAFE] macros: the next element is read first. *)
Fixpoint foreach_safe {A} (fuel : nat) (step : qmem → Z → res Z)
    (body : Z → qmem * A → res (qmem * A)) (var : Z) (s : qmem * A) : res (qmem * A) :=
  match fuel with
  | O => Err OutOfFuel
  | S fuel =>
    if var =? 0 then mret s
    else
      tvar ← step s.1 var;
      s ← body var s;
      foreach_safe fuel step body tvar s
  end.

(** A body that only notes the elements it visits. *)
Definition visit (var : Z) (s : qmem * list Z) : res (qmem * list Z) :=
  mret (s.1, s.2 ++ [var]).

(** ** Chains *)

(** The location of the null pointer at the end. *)
Fixpoint end_cell (l : loc) (items : list Z) : loc :=
  match items with [] => l | x :: items => end_cell (Elem x) items end.

(** The pointers from [l] on run through [items]; with [dbl] every element points
    back to the pointer that leads to it. *)
Fixpoint chain (dbl : bool) (m : qmem) (l : loc) (items : list Z) : Prop :=
  match items with
  | [] => True
  | x :: items =>
      x ≠ 0 ∧ fwd m !! l = Some x ∧ (if dbl then bwd m !! Elem x = Some l else True)
      ∧ chain dbl m (Elem x) items
  end.

(** The locations whose pointers a chain runs through. *)
Fixpoint cells (l : loc) (items : list Z) : list loc :=
  match items with [] => [] | x :: items => l :: cells (Elem x) items end.

Section Chains.
Implicit Types (m : qmem) (l : loc) (items : list Z) (dbl : bool).

Lemma get_Some {A} (m : gmap loc A) l x : l ≠ Elem 0 → m !! l = Some x → get m l = Ok x.
Proof. intros Hl Hx. unfold get. by rewrite decide_False, Hx. Qed.

Lemma set_fwd_live m l x : l ≠ Elem 0 → is_Some (fwd m !! l) →
  set_fwd m l x = Ok (QMem (<[l := x]> (fwd m)) (bwd m)).
Proof. intros Hl [y Hy]. unfold set_fwd, get_fwd. by rewrite (get_Some _ _ y). Qed.

Lemma set_bwd_live m l l' : l ≠ Elem 0 → is_Some (bwd m !! l) →
  set_bwd m l l' = Ok (QMem (fwd m) (<[l := l']> (bwd m))).
Proof. intros Hl [y Hy]. unfold set_bwd, get_bwd. by rewrite (get_Some _ _ y). Qed.

Lemma end_cell_app l xs ys : end_cell l (xs ++ ys) = end_cell (end_cell l xs) ys.
Proof. revert l. induction xs as [|x xs IH]; intros l; cbn; [done|]. apply IH. Qed.

Lemma end_cell_snoc l xs x : end_cell l (xs ++ [x]) = Elem x.
Proof. by rewrite end_cell_app. Qed.

Lemma end_cell_cases l items : end_cell l items = l ∧ items = []
  ∨ ∃ x, end_cell l items = Elem x ∧ x ∈ items.
Proof.
  induction items as [|x items _] using rev_ind; [by left|]. right. exists x.
  rewrite end_cell_snoc. split; [done|]. apply elem_of_app. right. by apply list_elem_of_singleton.
Qed.

Lemma cells_app l xs ys : cells l (xs ++ ys) = cells l xs ++ cells (end_cell l xs) ys.
Proof. revert l. induction xs as [|x xs IH]; intros l; cbn; [done|]. by rewrite IH. Qed.

Lemma cells_in l items c : c ∈ cells l items → c = l ∨ ∃ x, c = Elem x ∧ x ∈ items.
Proof.
  revert l. induction items as [|x items IH]; intros l; cbn; [by intros ?%not_elem_of_nil|].
  intros [->|H]%elem_of_cons; [by left|]. right. apply IH in H as [->|(y & -> & Hy)].
  - exists x. split; [done|apply list_elem_of_here].
  - exists y. split; [done|by apply list_elem_of_further].
Qed.

Lemma chain_app dbl m l xs ys :
  chain dbl m l (xs ++ ys) ↔ chain dbl m l xs ∧ chain dbl m (end_cell l xs) ys.
Proof.
  revert l. induction xs as [|x xs IH]; intros l; cbn; [tauto|]. rewrite IH. tauto.
Qed.

(** A chain depends on its own cells only. *)
Lemma chain_frame dbl m m' l items :
  (∀ c, c ∈ cells l items → fwd m' !! c = fwd m !! c) →
  (∀ x, x ∈ items → bwd m' !! Elem x = bwd m !! Elem x) →
  chain dbl m l items → chain dbl m' l items.
Proof.
  revert l. induction items as [|x items IH]; intros l Hf Hb; cbn; [done|].
  intros (Hx & Hl & Hp & Hc). split; [done|].
  split; [rewrite Hf; [done|by apply list_elem_of_here]|].
  split; [destruct dbl; [rewrite Hb; [done|by apply list_elem_of_here]|done]|].
  apply IH; [| |done].
  - intros c Hc'. apply Hf. by apply list_elem_of_further.
  - intros y Hy. apply Hb. by apply list_elem_of_further.
Qed.

Lemma chain_nonzero dbl m l items x : chain dbl m l items → x ∈ items → x ≠ 0.
Proof.
  revert l. induction items as [|y items IH]; intros l; [by intros _ ?%not_elem_of_nil|].
  cbn. intros (Hy & _ & _ & Hc) [->|Hx]%elem_of_cons; [done|by eapply IH].
Qed.

(** The elements of a chain are its cells but for the start. *)
Lemma cells_live dbl m l items c :
  chain dbl m l items → c ∈ cells l items → is_Some (fwd m !! c).
Proof.
  revert l. induction items as [|x items IH]; intros l; cbn; [by intros _ ?%not_elem_of_nil|].
  intros (_ & Hl & _ & Hc) [->|Hin]%elem_of_cons; [by eexists|by eapply IH].
Qed.

End Chains.
