(* ===== verification/QueueMacros.v ===== *)
(** * The macros of queue.h

    The [STAILQ], [LIST] and [TAILQ] macros of [server/queue.h], and those [SLIST]
    macros the server does not use, over the memory of [Queue]; [SList] has the
    [SLIST] macros the server uses.  A queue is given by the number of its head.
    The two compile-time switches are a class: [QUEUE_MACRO_DEBUG], with which the
    links of a removed element are overwritten by -1, and the [INVARIANTS]
    of a kernel, with which the macros check the links next to the place they
    change.  The line numbers [QUEUE_MACRO_DEBUG] keeps, which nothing reads, are
    left out. *)

From S2P Require Import Prelude Queue.

Class Config := { queue_macro_debug : bool; invariants : bool }.

(** The pointer -1, as an element and as the address of a link. *)
Definition trash : Z := -1.
Definition trash_loc : loc := Elem trash.

(** The body of a traversal: it may change the memory and a state of its own. *)
Abbreviation body_of A := (Z → qmem * A → res (qmem * A)).

Section Macros.
Context {cf : Config}.
Implicit Types (m : qmem) (h elm : Z).

(** [TRASHIT(oldnext)] and [TRASHIT(oldprev)]. *)
Definition TRASHIT_next m elm : res qmem :=
  if queue_macro_debug then set_fwd m (Elem elm) trash else mret m.
Definition TRASHIT_prev m elm : res qmem :=
  if queue_macro_debug then set_bwd m (Elem elm) trash_loc else mret m.

(** The loops of [REMOVE] and [CONCAT]; no list is longer than the memory is large. *)
Fixpoint prev_elm (fuel : nat) m (curelm elm : Z) : res Z :=
  match fuel with
  | O => Err OutOfFuel
  | S fuel =>
    q ← get_fwd m (Elem curelm);
    if q =? elm then mret curelm else prev_elm fuel m q elm
  end.

Fixpoint last_elm (fuel : nat) m (curelm : Z) : res Z :=
  match fuel with
  | O => Err OutOfFuel
  | S fuel =>
    q ← get_fwd m (Elem curelm);
    if q =? 0 then mret curelm else last_elm fuel m q
  end.

Definition fuel_of m : nat := S (size (fwd m)).

(** ** Singly linked lists *)

Definition SLIST_FIRST m h : res Z := get_fwd m (Head h).
Definition SLIST_NEXT m elm : res Z := get_fwd m (Elem elm).
Definition SLIST_EMPTY m h : res bool := x ← SLIST_FIRST m h; mret (x =? 0).
Definition SLIST_INIT m h : res qmem := set_fwd m (Head h) 0.

Definition SLIST_INSERT_HEAD m h elm : res qmem :=
  x ← SLIST_FIRST m h;
  m ← set_fwd m (Elem elm) x;
  set_fwd m (Head h) elm.

Definition SLIST_INSERT_AFTER m slistelm elm : res qmem :=
  x ← SLIST_NEXT m slistelm;
  m ← set_fwd m (Elem elm) x;
  set_fwd m (Elem slistelm) elm.

Definition SLIST_REMOVE_AFTER m elm : res qmem :=
  x ← SLIST_NEXT m elm;
  x ← SLIST_NEXT m x;
  set_fwd m (Elem elm) x.

Definition SLIST_REMOVE_HEAD m h : res qmem :=
  x ← SLIST_FIRST m h;
  x ← SLIST_NEXT m x;
  set_fwd m (Head h) x.

Definition SLIST_REMOVE m h elm : res qmem :=
  x ← SLIST_FIRST m h;
  m ← (if x =? elm then SLIST_REMOVE_HEAD m h
       else
         curelm ← prev_elm (fuel_of m) m x elm;
         SLIST_REMOVE_AFTER m curelm);
  TRASHIT_next m elm.

Definition SLIST_CONCAT m head1 head2 : res qmem :=
  curelm ← SLIST_FIRST m head1;
  if curelm =? 0 then
    x ← SLIST_FIRST m head2;
    m ← set_fwd m (Head head1) x;
    if x =? 0 then mret m else SLIST_INIT m head2
  else
    x ← SLIST_FIRST m head2;
    if x =? 0 then mret m
    else
      curelm ← last_elm (fuel_of m) m curelm;
      m ← set_fwd m (Elem curelm) x;
      SLIST_INIT m head2.

Definition SLIST_SWAP m head1 head2 : res qmem :=
  swap_first ← SLIST_FIRST m head1;
  x ← SLIST_FIRST m head2;
  m ← set_fwd m (Head head1) x;
  set_fwd m (Head head2) swap_first.

Definition SLIST_FOREACH {A} m h (body : body_of A) (a : A) : res (qmem * A) :=
  var ← SLIST_FIRST m h;
  foreach (fuel_of m) SLIST_NEXT body var (m, a).

Definition SLIST_FOREACH_FROM {A} m h (var : Z) (body : body_of A) (a : A) : res (qmem * A) :=
  var ← (if var =? 0 then SLIST_FIRST m h else mret var);
  foreach (fuel_of m) SLIST_NEXT body var (m, a).

Definition SLIST_FOREACH_SAFE {A} m h (body : body_of A) (a : A) : res (qmem * A) :=
  var ← SLIST_FIRST m h;
  foreach_safe (fuel_of m) SLIST_NEXT body var (m, a).

Definition SLIST_FOREACH_FROM_SAFE {A} m h (var : Z) (body : body_of A) (a : A)
  : res (qmem * A) :=
  var ← (if var =? 0 then SLIST_FIRST m h else mret var);
  foreach_safe (fuel_of m) SLIST_NEXT body var (m, a).

(** [SLIST_FOREACH_PREVPTR]: each element with the address of the pointer to it. *)
Fixpoint foreach_prevptr (fuel : nat) m (varp : loc) (acc : list (Z * loc))
  : res (list (Z * loc)) :=
  match fuel with
  | O => Err OutOfFuel
  | S fuel =>
    var ← get_fwd m varp;
    if var =? 0 then mret acc
    else foreach_prevptr fuel m (Elem var) (acc ++ [(var, varp)])
  end.

Definition SLIST_FOREACH_PREVPTR m h : res (list (Z * loc)) :=
  foreach_prevptr (fuel_of m) m (Head h) [].

(** ** Singly linked tail queues *)

Definition STAILQ_FIRST m h : res Z := get_fwd m (Head h).
Definition STAILQ_NEXT m elm : res Z := get_fwd m (Elem elm).
Definition STAILQ_EMPTY m h : res bool := x ← STAILQ_FIRST m h; mret (x =? 0).

Definition STAILQ_INIT m h : res qmem :=
  m ← set_fwd m (Head h) 0;
  set_bwd m (Head h) (Head h).

Definition STAILQ_INSERT_HEAD m h elm : res qmem :=
  x ← STAILQ_FIRST m h;
  m ← set_fwd m (Elem elm) x;
  m ← (if x =? 0 then set_bwd m (Head h) (Elem elm) else mret m);
  set_fwd m (Head h) elm.

Definition STAILQ_INSERT_TAIL m h elm : res qmem :=
  m ← set_fwd m (Elem elm) 0;
  stqh_last ← get_bwd m (Head h);
  m ← set_fwd m stqh_last elm;
  set_bwd m (Head h) (Elem elm).

Definition STAILQ_INSERT_AFTER m h tqelm elm : res qmem :=
  x ← STAILQ_NEXT m tqelm;
  m ← set_fwd m (Elem elm) x;
  m ← (if x =? 0 then set_bwd m (Head h) (Elem elm) else mret m);
  set_fwd m (Elem tqelm) elm.

Definition STAILQ_LAST m h : res Z :=
  empty ← STAILQ_EMPTY m h;
  if empty : bool then mret 0
  else stqh_last ← get_bwd m (Head h); containerof stqh_last.

Definition STAILQ_REMOVE_AFTER m h elm : res qmem :=
  x ← STAILQ_NEXT m elm;
  x ← STAILQ_NEXT m x;
  m ← set_fwd m (Elem elm) x;
  if x =? 0 then set_bwd m (Head h) (Elem elm) else mret m.

Definition STAILQ_REMOVE_HEAD m h : res qmem :=
  x ← STAILQ_FIRST m h;
  x ← STAILQ_NEXT m x;
  m ← set_fwd m (Head h) x;
  if x =? 0 then set_bwd m (Head h) (Head h) else mret m.

Definition STAILQ_REMOVE m h elm : res qmem :=
  x ← STAILQ_FIRST m h;
  m ← (if x =? elm then STAILQ_REMOVE_HEAD m h
       else
         curelm ← prev_elm (fuel_of m) m x elm;
         STAILQ_REMOVE_AFTER m h curelm);
  TRASHIT_next m elm.

Definition STAILQ_CONCAT m head1 head2 : res qmem :=
  empty ← STAILQ_EMPTY m head2;
  if empty : bool then mret m
  else
    stqh_last ← get_bwd m (Head head1);
    x ← get_fwd m (Head head2);
    m ← set_fwd m stqh_last x;
    stqh_last ← get_bwd m (Head head2);
    m ← set_bwd m (Head head1) stqh_last;
    STAILQ_INIT m head2.

Definition STAILQ_SWAP m head1 head2 : res qmem :=
  swap_first ← STAILQ_FIRST m head1;
  swap_last ← get_bwd m (Head head1);
  x ← STAILQ_FIRST m head2;
  m ← set_fwd m (Head head1) x;
  l ← get_bwd m (Head head2);
  m ← set_bwd m (Head head1) l;
  m ← set_fwd m (Head head2) swap_first;
  m ← set_bwd m (Head head2) swap_last;
  empty ← STAILQ_EMPTY m head1;
  m ← (if empty : bool then set_bwd m (Head head1) (Head head1) else mret m);
  empty ← STAILQ_EMPTY m head2;
  if empty : bool then set_bwd m (Head head2) (Head head2) else mret m.

Definition STAILQ_FOREACH {A} m h (body : body_of A) (a : A) : res (qmem * A) :=
  var ← STAILQ_FIRST m h;
  foreach (fuel_of m) STAILQ_NEXT body var (m, a).

Definition STAILQ_FOREACH_FROM {A} m h (var : Z) (body : body_of A) (a : A) : res (qmem * A) :=
  var ← (if var =? 0 then STAILQ_FIRST m h else mret var);
  foreach (fuel_of m) STAILQ_NEXT body var (m, a).

Definition STAILQ_FOREACH_SAFE {A} m h (body : body_of A) (a : A) : res (qmem * A) :=
  var ← STAILQ_FIRST m h;
  foreach_safe (fuel_of m) STAILQ_NEXT body var (m, a).

Definition STAILQ_FOREACH_FROM_SAFE {A} m h (var : Z) (body : body_of A) (a : A)
  : res (qmem * A) :=
  var ← (if var =? 0 then STAILQ_FIRST m h else mret var);
  foreach_safe (fuel_of m) STAILQ_NEXT body var (m, a).

(** ** The checks of [INVARIANTS] *)

Definition check (b : bool) : res unit := if b then mret tt else Err Panic.

Definition QMD_LIST_CHECK_HEAD m h : res unit :=
  if invariants then
    x ← get_fwd m (Head h);
    if x =? 0 then mret tt
    else l ← get_bwd m (Elem x); check (bool_decide (l = Head h))
  else mret tt.

Definition QMD_LIST_CHECK_NEXT m elm : res unit :=
  if invariants then
    x ← get_fwd m (Elem elm);
    if x =? 0 then mret tt
    else l ← get_bwd m (Elem x); check (bool_decide (l = Elem elm))
  else mret tt.

Definition QMD_LIST_CHECK_PREV m elm : res unit :=
  if invariants then
    l ← get_bwd m (Elem elm);
    x ← get_fwd m l; check (x =? elm)
  else mret tt.

(** ** Lists *)

Definition LIST_FIRST m h : res Z := get_fwd m (Head h).
Definition LIST_NEXT m elm : res Z := get_fwd m (Elem elm).
Definition LIST_EMPTY m h : res bool := x ← LIST_FIRST m h; mret (x =? 0).
Definition LIST_INIT m h : res qmem := set_fwd m (Head h) 0.

Definition LIST_INSERT_HEAD m h elm : res qmem :=
  _ ← QMD_LIST_CHECK_HEAD m h;
  x ← LIST_FIRST m h;
  m ← set_fwd m (Elem elm) x;
  m ← (if x =? 0 then mret m
       else first ← LIST_FIRST m h; set_bwd m (Elem first) (Elem elm));
  m ← set_fwd m (Head h) elm;
  set_bwd m (Elem elm) (Head h).

Definition LIST_INSERT_AFTER m listelm elm : res qmem :=
  _ ← QMD_LIST_CHECK_NEXT m listelm;
  x ← LIST_NEXT m listelm;
  m ← set_fwd m (Elem elm) x;
  m ← (if x =? 0 then mret m
       else next ← LIST_NEXT m listelm; set_bwd m (Elem next) (Elem elm));
  m ← set_fwd m (Elem listelm) elm;
  set_bwd m (Elem elm) (Elem listelm).

Definition LIST_INSERT_BEFORE m listelm elm : res qmem :=
  _ ← QMD_LIST_CHECK_PREV m listelm;
  le_prev ← get_bwd m (Elem listelm);
  m ← set_bwd m (Elem elm) le_prev;
  m ← set_fwd m (Elem elm) listelm;
  le_prev ← get_bwd m (Elem listelm);
  m ← set_fwd m le_prev elm;
  set_bwd m (Elem listelm) (Elem elm).

Definition LIST_PREV m elm h : res Z :=
  le_prev ← get_bwd m (Elem elm);
  if decide (le_prev = Head h) then mret 0 else containerof le_prev.

Definition LIST_REMOVE m elm : res qmem :=
  _ ← QMD_LIST_CHECK_NEXT m elm;
  _ ← QMD_LIST_CHECK_PREV m elm;
  x ← LIST_NEXT m elm;
  m ← (if x =? 0 then mret m
       else le_prev ← get_bwd m (Elem elm); set_bwd m (Elem x) le_prev);
  le_prev ← get_bwd m (Elem elm);
  x ← LIST_NEXT m elm;
  m ← set_fwd m le_prev x;
  m ← TRASHIT_next m elm;
  TRASHIT_prev m elm.

Definition LIST_CONCAT m head1 head2 : res qmem :=
  curelm ← LIST_FIRST m head1;
  if curelm =? 0 then
    x ← LIST_FIRST m head2;
    m ← set_fwd m (Head head1) x;
    if x =? 0 then mret m
    else
      first ← LIST_FIRST m head2;
      m ← set_bwd m (Elem first) (Head head1);
      LIST_INIT m head2
  else
    x ← LIST_FIRST m head2;
    if x =? 0 then mret m
    else
      curelm ← last_elm (fuel_of m) m curelm;
      x ← LIST_FIRST m head2;
      m ← set_fwd m (Elem curelm) x;
      first ← LIST_FIRST m head2;
      m ← set_bwd m (Elem first) (Elem curelm);
      LIST_INIT m head2.

Definition LIST_SWAP m head1 head2 : res qmem :=
  swap_tmp ← LIST_FIRST m head1;
  x ← LIST_FIRST m head2;
  m ← set_fwd m (Head head1) x;
  m ← set_fwd m (Head head2) swap_tmp;
  swap_tmp ← LIST_FIRST m head1;
  m ← (if swap_tmp =? 0 then mret m else set_bwd m (Elem swap_tmp) (Head head1));
  swap_tmp ← LIST_FIRST m head2;
  if swap_tmp =? 0 then mret m else set_bwd m (Elem swap_tmp) (Head head2).

Definition LIST_FOREACH {A} m h (body : body_of A) (a : A) : res (qmem * A) :=
  var ← LIST_FIRST m h;
  foreach (fuel_of m) LIST_NEXT body var (m, a).

Definition LIST_FOREACH_FROM {A} m h (var : Z) (body : body_of A) (a : A) : res (qmem * A) :=
  var ← (if var =? 0 then LIST_FIRST m h else mret var);
  foreach (fuel_of m) LIST_NEXT body var (m, a).

Definition LIST_FOREACH_SAFE {A} m h (body : body_of A) (a : A) : res (qmem * A) :=
  var ← LIST_FIRST m h;
  foreach_safe (fuel_of m) LIST_NEXT body var (m, a).

Definition LIST_FOREACH_FROM_SAFE {A} m h (var : Z) (body : body_of A) (a : A)
  : res (qmem * A) :=
  var ← (if var =? 0 then LIST_FIRST m h else mret var);
  foreach_safe (fuel_of m) LIST_NEXT body var (m, a).

(** ** Tail queues *)

Definition QMD_TAILQ_CHECK_HEAD m h : res unit :=
  if invariants then
    x ← get_fwd m (Head h);
    if x =? 0 then mret tt
    else l ← get_bwd m (Elem x); check (bool_decide (l = Head h))
  else mret tt.

Definition QMD_TAILQ_CHECK_TAIL m h : res unit :=
  if invariants then
    l ← get_bwd m (Head h);
    x ← get_fwd m l; check (x =? 0)
  else mret tt.

Definition QMD_TAILQ_CHECK_NEXT m elm : res unit :=
  if invariants then
    x ← get_fwd m (Elem elm);
    if x =? 0 then mret tt
    else l ← get_bwd m (Elem x); check (bool_decide (l = Elem elm))
  else mret tt.

Definition QMD_TAILQ_CHECK_PREV m elm : res unit :=
  if invariants then
    l ← get_bwd m (Elem elm);
    x ← get_fwd m l; check (x =? elm)
  else mret tt.

Definition TAILQ_FIRST m h : res Z := get_fwd m (Head h).
Definition TAILQ_NEXT m elm : res Z := get_fwd m (Elem elm).
Definition TAILQ_EMPTY m h : res bool := x ← TAILQ_FIRST m h; mret (x =? 0).

Definition TAILQ_INIT m h : res qmem :=
  m ← set_fwd m (Head h) 0;
  set_bwd m (Head h) (Head h).

Definition TAILQ_INSERT_HEAD m h elm : res qmem :=
  _ ← QMD_TAILQ_CHECK_HEAD m h;
  x ← TAILQ_FIRST m h;
  m ← set_fwd m (Elem elm) x;
  m ← (if x =? 0 then set_bwd m (Head h) (Elem elm)
       else first ← TAILQ_FIRST m h; set_bwd m (Elem first) (Elem elm));
  m ← set_fwd m (Head h) elm;
  set_bwd m (Elem elm) (Head h).

Definition TAILQ_INSERT_TAIL m h elm : res qmem :=
  _ ← QMD_TAILQ_CHECK_TAIL m h;
  m ← set_fwd m (Elem elm) 0;
  tqh_last ← get_bwd m (Head h);
  m ← set_bwd m (Elem elm) tqh_last;
  tqh_last ← get_bwd m (Head h);
  m ← set_fwd m tqh_last elm;
  set_bwd m (Head h) (Elem elm).

Definition TAILQ_INSERT_AFTER m h listelm elm : res qmem :=
  _ ← QMD_TAILQ_CHECK_NEXT m listelm;
  x ← TAILQ_NEXT m listelm;
  m ← set_fwd m (Elem elm) x;
  m ← (if x =? 0 then set_bwd m (Head h) (Elem elm)
       else next ← TAILQ_NEXT m elm; set_bwd m (Elem next) (Elem elm));
  m ← set_fwd m (Elem listelm) elm;
  set_bwd m (Elem elm) (Elem listelm).

Definition TAILQ_INSERT_BEFORE m listelm elm : res qmem :=
  _ ← QMD_TAILQ_CHECK_PREV m listelm;
  tqe_prev ← get_bwd m (Elem listelm);
  m ← set_bwd m (Elem elm) tqe_prev;
  m ← set_fwd m (Elem elm) listelm;
  tqe_prev ← get_bwd m (Elem listelm);
  m ← set_fwd m tqe_prev elm;
  set_bwd m (Elem listelm) (Elem elm).

(** The pointer to the link of the last element is read as a pointer to a head: its
    second word is the address of the pointer to that element. *)
Definition TAILQ_LAST m h : res Z :=
  tqh_last ← get_bwd m (Head h);
  l ← get_bwd m tqh_last;
  get_fwd m l.

Definition TAILQ_PREV m elm : res Z :=
  tqe_prev ← get_bwd m (Elem elm);
  l ← get_bwd m tqe_prev;
  get_fwd m l.

Definition TAILQ_REMOVE m h elm : res qmem :=
  _ ← QMD_TAILQ_CHECK_NEXT m elm;
  _ ← QMD_TAILQ_CHECK_PREV m elm;
  x ← TAILQ_NEXT m elm;
  tqe_prev ← get_bwd m (Elem elm);
  m ← (if x =? 0 then set_bwd m (Head h) tqe_prev
       else next ← TAILQ_NEXT m elm; set_bwd m (Elem next) tqe_prev);
  tqe_prev ← get_bwd m (Elem elm);
  x ← TAILQ_NEXT m elm;
  m ← set_fwd m tqe_prev x;
  m ← TRASHIT_next m elm;
  TRASHIT_prev m elm.

Definition TAILQ_CONCAT m head1 head2 : res qmem :=
  empty ← TAILQ_EMPTY m head2;
  if empty : bool then mret m
  else
    tqh_last ← get_bwd m (Head head1);
    first ← get_fwd m (Head head2);
    m ← set_fwd m tqh_last first;
    first ← get_fwd m (Head head2);
    tqh_last ← get_bwd m (Head head1);
    m ← set_bwd m (Elem first) tqh_last;
    tqh_last ← get_bwd m (Head head2);
    m ← set_bwd m (Head head1) tqh_last;
    TAILQ_INIT m head2.

Definition TAILQ_SWAP m head1 head2 : res qmem :=
  swap_first ← get_fwd m (Head head1);
  swap_last ← get_bwd m (Head head1);
  x ← get_fwd m (Head head2);
  m ← set_fwd m (Head head1) x;
  l ← get_bwd m (Head head2);
  m ← set_bwd m (Head head1) l;
  m ← set_fwd m (Head head2) swap_first;
  m ← set_bwd m (Head head2) swap_last;
  swap_first ← get_fwd m (Head head1);
  m ← (if swap_first =? 0 then set_bwd m (Head head1) (Head head1)
       else set_bwd m (Elem swap_first) (Head head1));
  swap_first ← get_fwd m (Head head2);
  if swap_first =? 0 then set_bwd m (Head head2) (Head head2)
  else set_bwd m (Elem swap_first) (Head head2).

Definition TAILQ_FOREACH {A} m h (body : body_of A) (a : A) : res (qmem * A) :=
  var ← TAILQ_FIRST m h;
  foreach (fuel_of m) TAILQ_NEXT body var (m, a).

Definition TAILQ_FOREACH_FROM {A} m h (var : Z) (body : body_of A) (a : A) : res (qmem * A) :=
  var ← (if var =? 0 then TAILQ_FIRST m h else mret var);
  foreach (fuel_of m) TAILQ_NEXT body var (m, a).

Definition TAILQ_FOREACH_SAFE {A} m h (body : body_of A) (a : A) : res (qmem * A) :=
  var ← TAILQ_FIRST m h;
  foreach_safe (fuel_of m) TAILQ_NEXT body var (m, a).

Definition TAILQ_FOREACH_FROM_SAFE {A} m h (var : Z) (body : body_of A) (a : A)
  : res (qmem * A) :=
  var ← (if var =? 0 then TAILQ_FIRST m h else mret var);
  foreach_safe (fuel_of m) TAILQ_NEXT body var (m, a).

Definition TAILQ_FOREACH_REVERSE {A} m h (body : body_of A) (a : A) : res (qmem * A) :=
  var ← TAILQ_LAST m h;
  foreach (fuel_of m) TAILQ_PREV body var (m, a).

Definition TAILQ_FOREACH_REVERSE_FROM {A} m h (var : Z) (body : body_of A) (a : A)
  : res (qmem * A) :=
  var ← (if var =? 0 then TAILQ_LAST m h else mret var);
  foreach (fuel_of m) TAILQ_PREV body var (m, a).

Definition TAILQ_FOREACH_REVERSE_SAFE {A} m h (body : body_of A) (a : A) : res (qmem * A) :=
  var ← TAILQ_LAST m h;
  foreach_safe (fuel_of m) TAILQ_PREV body var (m, a).

Definition TAILQ_FOREACH_REVERSE_FROM_SAFE {A} m h (var : Z) (body : body_of A) (a : A)
  : res (qmem * A) :=
  var ← (if var =? 0 then TAILQ_LAST m h else mret var);
  foreach_safe (fuel_of m) TAILQ_PREV body var (m, a).

End Macros.
