(* ===== verification/QueueSpec.v ===== *)
(** * Queues as lists

    The reference for the macros of [server/queue.h]: queues are lists of elements,
    held apart by the number of their head.  [queue_at m h items] says the pointers
    of the memory [m] describe the list [items], for the four structures: [dbl]
    says the elements have a pointer back, [tail] that the head has a pointer to the
    end.  [rep] is the invariant of all queues in a memory together, and the lemmas
    named [rep_*] say which changes of the pointers make which change of the lists. *)

From S2P Require Import Prelude Queue.

(** The queues, the elements in none of them and the heads nothing initialised yet. *)
Record qstate := QState {
  queues : gmap Z (list Z);
  spare : gset Z;
  raw : gset Z
}.

Ltac frame_ne := first [done | intros ? ? [= ->]; done].

Section Rep.
Context (dbl tail : bool).
Implicit Types (m : qmem) (l p : loc) (h x y : Z) (items pre suf xs ys : list Z).

(** The pointers from [l] on run through [items] and end in the null pointer. *)
Fixpoint run m l items : Prop :=
  match items with
  | [] => fwd m !! l = Some 0
  | x :: items =>
      x ≠ 0 ∧ fwd m !! l = Some x ∧ (dbl = true → bwd m !! Elem x = Some l)
      ∧ run m (Elem x) items
  end.

Definition queue_at m h items : Prop :=
  NoDup items ∧ run m (Head h) items
  ∧ (tail = true → bwd m !! Head h = Some (end_cell (Head h) items)).

(** An element with allocated links. *)
Definition live m x : Prop :=
  x ≠ 0 ∧ is_Some (fwd m !! Elem x) ∧ (dbl = true → is_Some (bwd m !! Elem x)).

Record rep m (σ : qstate) : Prop := {
  rep_queue : ∀ h items, queues σ !! h = Some items → queue_at m h items;
  rep_once : ∀ h1 h2 xs ys x, queues σ !! h1 = Some xs → queues σ !! h2 = Some ys →
    x ∈ xs → x ∈ ys → h1 = h2;
  rep_spare : ∀ x, x ∈ spare σ →
    live m x ∧ ∀ h items, queues σ !! h = Some items → x ∉ items;
  rep_raw : ∀ h, h ∈ raw σ →
    is_Some (fwd m !! Head h) ∧ (tail = true → is_Some (bwd m !! Head h))
    ∧ queues σ !! h = None
}.

(** ** Runs *)

Lemma run_first m l items : run m l items → fwd m !! l = Some (hd 0 items).
Proof. destruct items; cbn; tauto. Qed.

Lemma run_app m l xs ys :
  run m l (xs ++ ys) ↔ chain dbl m l xs ∧ run m (end_cell l xs) ys.
Proof.
  revert l. induction xs as [|x xs IH]; intros l; cbn; [tauto|]. rewrite IH.
  destruct dbl; intuition congruence.
Qed.

(** A run may start at another pointer. *)
Lemma run_move m m' l l' items :
  run m l items → fwd m' !! l' = Some (hd 0 items) →
  (dbl = true → ∀ y, head items = Some y → bwd m' !! Elem y = Some l') →
  (∀ x, x ∈ items → fwd m' !! Elem x = fwd m !! Elem x) →
  (∀ x, x ∈ tl items → bwd m' !! Elem x = bwd m !! Elem x) →
  run m' l' items.
Proof.
  revert l l'. induction items as [|x items IH]; intros l l'; cbn; [done|].
  intros (Hx & _ & _ & Hr) Hf Hb Hfs Hbs. split; [done|]. split; [done|].
  split; [intros H; by apply Hb|]. apply (IH (Elem x)); [done|..].
  - rewrite Hfs by apply list_elem_of_here. by apply run_first.
  - intros H y Hy. destruct items as [|y' items]; [done|]. injection Hy as <-.
    rewrite Hbs by apply list_elem_of_here. cbn in Hr. by apply Hr.
  - intros y Hy. apply Hfs. by apply list_elem_of_further.
  - intros y Hy. apply Hbs. destruct items; [done|]. by apply list_elem_of_further.
Qed.

Lemma run_nonzero m l items x : run m l items → x ∈ items → x ≠ 0.
Proof.
  revert l. induction items as [|y items IH]; intros l; [by intros _ ?%not_elem_of_nil|].
  cbn. intros (Hy & _ & _ & Hr) [->|Hx]%elem_of_cons; [done|by eapply IH].
Qed.

Lemma run_live m l items x : run m l items → x ∈ items → live m x.
Proof.
  revert l. induction items as [|y items IH]; intros l; [by intros _ ?%not_elem_of_nil|].
  cbn. intros (Hy & _ & Hb & Hr) [->|Hx]%elem_of_cons; [|by eapply IH].
  split; [done|]. split; [|intros H; eexists; by apply Hb].
  eexists. by apply run_first.
Qed.

Lemma end_cell_fresh l items : (∀ x, x ∈ items → l ≠ Elem x) → NoDup items →
  end_cell l items ∉ cells l items.
Proof.
  intros Hl Hnd. induction items as [|x items _] using rev_ind; [by apply not_elem_of_nil|].
  rewrite end_cell_snoc, cells_app. apply NoDup_app in Hnd as (_ & Hd & _).
  intros [Hc|Hc]%elem_of_app.
  - apply cells_in in Hc as [<-|(y & [= <-] & Hy)].
    + by apply (Hl x), eq_refl; set_solver.
    + apply (Hd _ Hy), list_elem_of_here.
  - cbn in Hc. apply list_elem_of_singleton in Hc.
    destruct (end_cell_cases l items) as [[He ->]|(y & He & Hy)]; rewrite He in Hc.
    + by apply (Hl x); [apply list_elem_of_here|].
    + injection Hc as <-. apply (Hd _ Hy), list_elem_of_here.
Qed.

(** The start of a run stays as it is when only its end and the elements behind
    change. *)
Lemma chain_keep m m' h pre :
  NoDup pre →
  (∀ c, c ≠ end_cell (Head h) pre → (c = Head h ∨ ∃ y, c = Elem y ∧ y ∈ pre) →
    fwd m' !! c = fwd m !! c) →
  (∀ y, y ∈ pre → bwd m' !! Elem y = bwd m !! Elem y) →
  chain dbl m (Head h) pre → chain dbl m' (Head h) pre.
Proof.
  intros Hnd Hf Hb. apply chain_frame; [|done]. intros c Hc. apply Hf.
  - intros ->. by apply (end_cell_fresh (Head h) pre).
  - by apply cells_in.
Qed.

(** ** One queue changes *)

Lemma end_cell_ne h pre x : x ∉ pre → end_cell (Head h) pre ≠ Elem x.
Proof.
  intros Hx. destruct (end_cell_cases (Head h) pre) as [[-> _]|(y & -> & Hy)]; [done|].
  by intros [= ->].
Qed.

Lemma end_cell_cons_ne l l' y suf : end_cell l (y :: suf) = end_cell l' (y :: suf).
Proof. done. Qed.

(** A new element between [pre] and [suf]. *)
Lemma queue_insert m m' h pre x suf :
  queue_at m h (pre ++ suf) → x ≠ 0 → x ∉ pre ++ suf →
  fwd m' !! end_cell (Head h) pre = Some x →
  fwd m' !! Elem x = Some (hd 0 suf) →
  (∀ l, l ≠ end_cell (Head h) pre → l ≠ Elem x → fwd m' !! l = fwd m !! l) →
  (dbl = true → bwd m' !! Elem x = Some (end_cell (Head h) pre)) →
  (dbl = true → ∀ y, head suf = Some y → bwd m' !! Elem y = Some (Elem x)) →
  (∀ y, y ∈ pre ++ tl suf → bwd m' !! Elem y = bwd m !! Elem y) →
  (tail = true → bwd m' !! Head h = Some (end_cell (Head h) (pre ++ x :: suf))) →
  queue_at m' h (pre ++ x :: suf).
Proof.
  intros (Hnd & Hr & _) Hx0 Hx Hp Hfx Hf Hbx Hby Hb Ht.
  pose proof Hnd as (Hnd1 & Hd & Hnd2)%NoDup_app. apply run_app in Hr as [Hc Hr].
  split; [|split; [|done]].
  - apply NoDup_app. split; [done|]. split; [|apply NoDup_cons; set_solver].
    intros y Hy. apply not_elem_of_cons. split; [set_solver|by apply Hd].
  - apply run_app. split.
    + apply (chain_keep m); [done| |set_solver|done].
      intros c Hc1 Hc2. apply Hf; [done|]. destruct Hc2 as [->|(y & -> & Hy)]; [done|].
      intros [= ->]. set_solver.
    + cbn. split; [done|]. split; [done|]. split; [done|].
      apply (run_move m m' (end_cell (Head h) pre)); [done|done|done| |set_solver].
      intros y Hy. apply Hf; [|set_solver]. apply not_eq_sym, end_cell_ne.
      intros Hp'. by apply (Hd y).
Qed.

(** The element between [pre] and [suf] is taken out. *)
Lemma queue_remove m m' h pre x suf :
  queue_at m h (pre ++ x :: suf) →
  fwd m' !! end_cell (Head h) pre = Some (hd 0 suf) →
  (∀ l, l ≠ end_cell (Head h) pre → l ≠ Elem x → fwd m' !! l = fwd m !! l) →
  (dbl = true → ∀ y, head suf = Some y → bwd m' !! Elem y = Some (end_cell (Head h) pre)) →
  (∀ y, y ∈ pre ++ tl suf → bwd m' !! Elem y = bwd m !! Elem y) →
  (tail = true → bwd m' !! Head h = Some (end_cell (Head h) (pre ++ suf))) →
  queue_at m' h (pre ++ suf).
Proof.
  intros (Hnd & Hr & _) Hp Hf Hby Hb Ht.
  pose proof Hnd as (Hnd1 & Hd & Hnd2)%NoDup_app. apply NoDup_cons in Hnd2 as [Hx Hnd2].
  apply run_app in Hr as [Hc (Hx0 & _ & _ & Hr)].
  split; [|split; [|done]].
  - apply NoDup_app. split; [done|]. split; [|done]. intros y Hy Hy'.
    by apply (Hd y Hy), list_elem_of_further.
  - apply run_app. split.
    + apply (chain_keep m); [done| |set_solver|done].
      intros c Hc1 Hc2. apply Hf; [done|]. destruct Hc2 as [->|(y & -> & Hy)]; [done|].
      intros [= ->]. apply (Hd x Hy), list_elem_of_here.
    + apply (run_move m m' (Elem x)); [done|done|done| |set_solver].
      intros y Hy. apply Hf; [|set_solver]. apply not_eq_sym, end_cell_ne.
      intros Hp'. by apply (Hd y), list_elem_of_further.
Qed.

(** ** All queues together *)

(** The heads in [H] and the elements in [X] change, and nothing else in the memory. *)
Lemma rep_update m m' σ σ' (H X : gset Z) :
  rep m σ →
  (∀ h, h ∉ H → queues σ' !! h = queues σ !! h) →
  (∀ h items x, h ∉ H → queues σ !! h = Some items → x ∈ items → x ∉ X) →
  (∀ l, (∀ h, h ∈ H → l ≠ Head h) → (∀ x, x ∈ X → l ≠ Elem x) →
    fwd m' !! l = fwd m !! l ∧ bwd m' !! l = bwd m !! l) →
  (∀ h items, h ∈ H → queues σ' !! h = Some items →
    queue_at m' h items ∧ ∀ x, x ∈ items → x ∈ X) →
  (∀ h1 h2 xs ys x, h1 ∈ H → h2 ∈ H → queues σ' !! h1 = Some xs →
    queues σ' !! h2 = Some ys → x ∈ xs → x ∈ ys → h1 = h2) →
  (∀ x, x ∈ spare σ' → x ∈ spare σ ∧ x ∉ X
    ∨ x ∈ X ∧ live m' x ∧ ∀ h items, h ∈ H → queues σ' !! h = Some items → x ∉ items) →
  (∀ h, h ∈ raw σ' → h ∈ raw σ ∧ h ∉ H) →
  rep m' σ'.
Proof.
  intros Hrep Hq HX Hm Hat Hon Hsp Hraw.
  assert (∀ l, (∀ h, h ∈ H → l ≠ Head h) → (∀ x, x ∈ X → l ≠ Elem x) →
    fwd m' !! l = fwd m !! l) as Hmf by (intros; by apply Hm).
  assert (∀ l, (∀ h, h ∈ H → l ≠ Head h) → (∀ x, x ∈ X → l ≠ Elem x) →
    bwd m' !! l = bwd m !! l) as Hmb by (intros; by apply Hm).
  split.
  - intros h items Hh. destruct (decide (h ∈ H)) as [Hin|Hin]; [by apply Hat|].
    rewrite Hq in Hh by done. destruct (rep_queue _ _ Hrep _ _ Hh) as (Hnd & Hr & Ht).
    assert (∀ x, x ∈ items → ∀ y, y ∈ X → Elem x ≠ Elem y) as Hne
      by (intros x Hx y Hy [= ->]; by eapply HX).
    split; [done|]. split.
    + apply (run_move m m' (Head h)); [done|..].
      * rewrite Hmf; [by apply run_first|frame_ne|frame_ne].
      * intros Hd y Hy. destruct items as [|y' items]; [done|]. injection Hy as <-.
        rewrite Hmb; [by apply Hr|done|apply Hne, list_elem_of_here].
      * intros y Hy. apply Hmf; [done|by apply Hne].
      * intros y Hy. apply Hmb; [done|]. apply Hne. destruct items; [done|].
        by apply list_elem_of_further.
    + intros Htl. rewrite Hmb; [by apply Ht|frame_ne|frame_ne].
  - intros h1 h2 xs ys x H1 H2 Hx Hy.
    destruct (decide (h1 ∈ H)) as [Hi1|Hi1], (decide (h2 ∈ H)) as [Hi2|Hi2].
    + by eapply Hon.
    + rewrite Hq in H2 by done. destruct (Hat _ _ Hi1 H1) as [_ Hs].
      by destruct (HX _ _ _ Hi2 H2 Hy (Hs _ Hx)).
    + rewrite Hq in H1 by done. destruct (Hat _ _ Hi2 H2) as [_ Hs].
      by destruct (HX _ _ _ Hi1 H1 Hx (Hs _ Hy)).
    + rewrite Hq in H1, H2 by done. by eapply (rep_once _ _ Hrep).
  - intros x [[Hx Hn]|(Hx & Hl & Hno)]%Hsp.
    + destruct (rep_spare _ _ Hrep _ Hx) as [(Hx0 & Hxf & Hxb) Hno].
      assert (∀ y, y ∈ X → Elem x ≠ Elem y) as Hne by (intros y Hy [= ->]; done).
      split; [split; [done|]; split|].
      * by rewrite Hmf.
      * intros Hd. rewrite Hmb by done. by apply Hxb.
      * intros h items Hh Hin. destruct (decide (h ∈ H)) as [Hi|Hi].
        -- destruct (Hat _ _ Hi Hh) as [_ Hs]. by apply Hn, Hs.
        -- rewrite Hq in Hh by done. by eapply Hno.
    + split; [done|]. intros h items Hh Hin. destruct (decide (h ∈ H)) as [Hi|Hi].
      * by eapply Hno.
      * rewrite Hq in Hh by done. by eapply HX.
  - intros h [Hh Hn]%Hraw. destruct (rep_raw _ _ Hrep _ Hh) as (Hf & Hb & Hno).
    rewrite Hmf, Hq by frame_ne. split; [done|]. split; [|done].
    intros Ht. rewrite Hmb by frame_ne. by apply Hb.
Qed.

(** One queue changes, and the elements of [X], which no other queue has. *)
Lemma rep_update_one m m' σ h items items' (X S' : gset Z) :
  rep m σ → queues σ !! h = Some items →
  (∀ x, x ∈ items' → x ∈ X) →
  (∀ x, x ∈ X → x ∈ items ∨ x ∈ spare σ) →
  (∀ l, l ≠ Head h → (∀ x, x ∈ X → l ≠ Elem x) →
    fwd m' !! l = fwd m !! l ∧ bwd m' !! l = bwd m !! l) →
  queue_at m' h items' →
  (∀ x, x ∈ S' → x ∈ spare σ ∧ x ∉ X ∨ x ∈ X ∧ live m' x ∧ x ∉ items') →
  rep m' (QState (<[h := items']> (queues σ)) S' (raw σ)).
Proof.
  intros Hrep Hh HX HXs Hm Hat HS.
  apply (rep_update m m' σ _ {[h]} X); cbn [queues spare raw].
  - done.
  - intros h' Hne. rewrite lookup_insert_ne by set_solver. done.
  - intros h' xs x Hne Hh' Hx [Hin|Hin]%HXs.
    + pose proof (rep_once _ _ Hrep _ _ _ _ _ Hh' Hh Hx Hin). set_solver.
    + destruct (rep_spare _ _ Hrep _ Hin) as [_ Hno]. by eapply Hno.
  - intros l Hlh Hlx. apply Hm; [apply Hlh; set_solver|done].
  - intros h' xs ->%elem_of_singleton Hh'. rewrite lookup_insert_eq in Hh'.
    by injection Hh' as <-.
  - intros h1 h2 xs ys y ->%elem_of_singleton ->%elem_of_singleton. done.
  - intros x [Hx|(Hx & Hl & Hn)]%HS; [by left|]. right. split; [done|]. split; [done|].
    intros h' xs ->%elem_of_singleton Hh'. rewrite lookup_insert_eq in Hh'.
    by injection Hh' as <-.
  - intros h' Hh'. split; [done|]. intros ->%elem_of_singleton.
    destruct (rep_raw _ _ Hrep _ Hh') as (_ & _ & Hn). congruence.
Qed.

(** An element of no queue enters the queue [h] between [pre] and [suf]. *)
Lemma rep_insert m m' σ h pre x suf :
  rep m σ → queues σ !! h = Some (pre ++ suf) → x ∈ spare σ →
  fwd m' !! end_cell (Head h) pre = Some x →
  fwd m' !! Elem x = Some (hd 0 suf) →
  (∀ l, l ≠ end_cell (Head h) pre → l ≠ Elem x → fwd m' !! l = fwd m !! l) →
  (dbl = true → bwd m' !! Elem x = Some (end_cell (Head h) pre)) →
  (dbl = true → ∀ y, head suf = Some y → bwd m' !! Elem y = Some (Elem x)) →
  (tail = true → bwd m' !! Head h = Some (end_cell (Head h) (pre ++ x :: suf))) →
  (∀ l, l ≠ Head h → l ≠ Elem x → (∀ y, head suf = Some y → l ≠ Elem y) →
    bwd m' !! l = bwd m !! l) →
  rep m' (QState (<[h := pre ++ x :: suf]> (queues σ)) (spare σ ∖ {[x]}) (raw σ)).
Proof.
  intros Hrep Hh Hx Hp Hfx Hf Hbx Hby Ht Hb.
  destruct (rep_spare _ _ Hrep _ Hx) as [(Hx0 & _ & _) Hno].
  pose proof (rep_queue _ _ Hrep _ _ Hh) as Hat.
  pose proof Hat as ((_ & Hd & Hnd2)%NoDup_app & Hr & _).
  assert (∀ y, y ∈ pre ++ suf → y ≠ 0) as Hnz by (intros y; by eapply run_nonzero).
  assert (x ∉ pre ++ suf) as Hxn by by eapply Hno.
  apply (rep_update_one m m' σ h (pre ++ suf) _ (list_to_set (pre ++ x :: suf))); [done..| | | | |].
  - intros y. apply elem_of_list_to_set.
  - intros y Hy%elem_of_list_to_set. set_solver.
  - intros l Hlh Hlx. assert (∀ y, y ∈ pre ++ x :: suf → l ≠ Elem y)
      as Hle by (intros y Hy; apply Hlx, elem_of_list_to_set, Hy).
    split; [apply Hf|]; [|by apply Hle; set_solver|].
    + destruct (end_cell_cases (Head h) pre) as [[-> _]|(y & -> & Hy)]; [done|].
      apply Hle. set_solver.
    + apply Hb; [done|apply Hle; set_solver|]. intros y Hy. apply Hle.
      destruct suf; [done|]. injection Hy as <-. set_solver.
  - apply (queue_insert m); try done. intros y Hy. apply Hb; [done| |].
    + intros [= ->]. apply Hxn. destruct suf; set_solver.
    + intros z Hz [= ->]. destruct suf as [|z' suf]; [done|]. injection Hz as ->.
      apply NoDup_cons in Hnd2 as [Hz _]. cbn in Hy. apply elem_of_app in Hy as [Hy|Hy]; [|done].
      apply (Hd z Hy), list_elem_of_here.
  - intros y [Hy Hyx]%elem_of_difference. left. split; [done|].
    intros Hin%elem_of_list_to_set. destruct (rep_spare _ _ Hrep _ Hy) as [_ Hno'].
    apply (Hno' _ _ Hh). set_solver.
Qed.

(** The element between [pre] and [suf] leaves the queue [h]. *)
Lemma rep_remove m m' σ h pre x suf :
  rep m σ → queues σ !! h = Some (pre ++ x :: suf) →
  fwd m' !! end_cell (Head h) pre = Some (hd 0 suf) →
  is_Some (fwd m' !! Elem x) →
  (∀ l, l ≠ end_cell (Head h) pre → l ≠ Elem x → fwd m' !! l = fwd m !! l) →
  (dbl = true → is_Some (bwd m' !! Elem x)) →
  (dbl = true → ∀ y, head suf = Some y → bwd m' !! Elem y = Some (end_cell (Head h) pre)) →
  (tail = true → bwd m' !! Head h = Some (end_cell (Head h) (pre ++ suf))) →
  (∀ l, l ≠ Head h → l ≠ Elem x → (∀ y, head suf = Some y → l ≠ Elem y) →
    bwd m' !! l = bwd m !! l) →
  rep m' (QState (<[h := pre ++ suf]> (queues σ)) (spare σ ∪ {[x]}) (raw σ)).
Proof.
  intros Hrep Hh Hp Hfx Hf Hbx Hby Ht Hb.
  pose proof (rep_queue _ _ Hrep _ _ Hh) as Hat.
  pose proof Hat as ((_ & Hd & [Hxs Hnd2]%NoDup_cons)%NoDup_app & Hr & _).
  assert (x ∉ pre ++ suf) as Hxn.
  { intros [Hx|Hx]%elem_of_app; [|done]. apply (Hd _ Hx), list_elem_of_here. }
  apply (rep_update_one m m' σ h (pre ++ x :: suf) _ (list_to_set (pre ++ x :: suf)));
    [done..| | | | |].
  - intros y Hy. apply elem_of_list_to_set. set_solver.
  - intros y Hy%elem_of_list_to_set. by left.
  - intros l Hlh Hlx. assert (∀ y, y ∈ pre ++ x :: suf → l ≠ Elem y)
      as Hle by (intros y Hy; apply Hlx, elem_of_list_to_set, Hy).
    split; [apply Hf|]; [|by apply Hle; set_solver|].
    + destruct (end_cell_cases (Head h) pre) as [[-> _]|(y & -> & Hy)]; [done|].
      apply Hle. set_solver.
    + apply Hb; [done|apply Hle; set_solver|]. intros y Hy. apply Hle.
      destruct suf; [done|]. injection Hy as <-. set_solver.
  - apply (queue_remove m m' h pre x suf); try done. intros y Hy. apply Hb; [done| |].
    + intros [= ->]. apply Hxn. destruct suf; set_solver.
    + intros z Hz [= ->]. destruct suf as [|z' suf]; [done|]. injection Hz as ->.
      apply NoDup_cons in Hnd2 as [Hz _]. cbn in Hy. apply elem_of_app in Hy as [Hy|Hy]; [|done].
      apply (Hd z Hy), list_elem_of_further, list_elem_of_here.
  - intros y [Hy|Hy]%elem_of_union; [|apply elem_of_singleton in Hy as ->].
    + left. split; [done|]. intros Hin%elem_of_list_to_set.
      destruct (rep_spare _ _ Hrep _ Hy) as [_ Hno']. by apply (Hno' _ _ Hh).
    + right. split; [set_solver|]. split; [split; [|done]|done].
      eapply run_nonzero; [done|]. set_solver.
Qed.

(** The queue of [h] becomes empty, or comes into being. *)
Lemma rep_init m m' σ h :
  rep m σ → h ∈ raw σ ∨ is_Some (queues σ !! h) →
  fwd m' !! Head h = Some 0 →
  (tail = true → bwd m' !! Head h = Some (Head h)) →
  (∀ l, l ≠ Head h → fwd m' !! l = fwd m !! l ∧ bwd m' !! l = bwd m !! l) →
  rep m' (QState (<[h := []]> (queues σ))
    (spare σ ∪ list_to_set (default [] (queues σ !! h))) (raw σ ∖ {[h]})).
Proof.
  intros Hrep Hh Hf Hb Hm.
  apply (rep_update m m' σ _ {[h]} (list_to_set (default [] (queues σ !! h))));
    cbn [queues spare raw].
  - done.
  - intros h' Hne. rewrite lookup_insert_ne by set_solver. done.
  - intros h' xs x Hne Hh' Hx Hin%elem_of_list_to_set.
    destruct (queues σ !! h) as [items|] eqn:Hq; [|by apply elem_of_nil in Hin].
    pose proof (rep_once _ _ Hrep _ _ _ _ _ Hh' Hq Hx Hin). set_solver.
  - intros l Hl _. apply Hm. apply Hl. set_solver.
  - intros h' xs ->%elem_of_singleton Hh'. rewrite lookup_insert_eq in Hh'. injection Hh' as <-.
    split; [|by intros x ?%elem_of_nil]. split; [apply NoDup_nil_2|]. by split.
  - intros h1 h2 xs ys y ->%elem_of_singleton ->%elem_of_singleton. done.
  - intros x [Hx|Hx]%elem_of_union.
    + left. split; [done|]. destruct (rep_spare _ _ Hrep _ Hx) as [_ Hno].
      intros Hin%elem_of_list_to_set. destruct (queues σ !! h) as [items|] eqn:Hq;
        [by eapply Hno|by apply elem_of_nil in Hin].
    + right. split; [done|]. apply elem_of_list_to_set in Hx. split.
      * destruct (queues σ !! h) as [items|] eqn:Hq; [|by apply elem_of_nil in Hx].
        destruct (rep_queue _ _ Hrep _ _ Hq) as (_ & Hr & _).
        destruct (run_live _ _ _ _ Hr Hx) as (Hx0 & Hxf & Hxb).
        split; [done|]. destruct (Hm (Elem x)) as [-> ->]; done.
      * intros h' xs ->%elem_of_singleton Hh'. rewrite lookup_insert_eq in Hh'.
        injection Hh' as <-. apply not_elem_of_nil.
  - intros h'. set_solver.
Qed.

(** Two queues change, between themselves. *)
Lemma rep_update_two m m' σ h1 h2 xs ys xs' ys' :
  rep m σ → h1 ≠ h2 → queues σ !! h1 = Some xs → queues σ !! h2 = Some ys →
  (∀ x, x ∈ xs' ∨ x ∈ ys' → x ∈ xs ∨ x ∈ ys) →
  (∀ x, x ∈ xs' → x ∈ ys' → False) →
  (∀ l, l ≠ Head h1 → l ≠ Head h2 → (∀ x, x ∈ xs ∨ x ∈ ys → l ≠ Elem x) →
    fwd m' !! l = fwd m !! l ∧ bwd m' !! l = bwd m !! l) →
  queue_at m' h1 xs' → queue_at m' h2 ys' →
  rep m' (QState (<[h1 := xs']> (<[h2 := ys']> (queues σ))) (spare σ) (raw σ)).
Proof.
  intros Hrep Hne H1 H2 HX Hd Hm Hat1 Hat2.
  assert (∀ h' zs, h' ∈ ({[h1; h2]} : gset Z) →
    <[h1 := xs']> (<[h2 := ys']> (queues σ)) !! h' = Some zs →
    h' = h1 ∧ zs = xs' ∨ h' = h2 ∧ zs = ys') as Hcase.
  { intros h' zs [->%elem_of_singleton| ->%elem_of_singleton]%elem_of_union.
    - rewrite lookup_insert_eq. intros [= <-]. by left.
    - rewrite lookup_insert_ne, lookup_insert_eq by done. intros [= <-]. by right. }
  apply (rep_update m m' σ _ {[h1; h2]} (list_to_set (xs ++ ys))); cbn [queues spare raw].
  - done.
  - intros h' Hn. rewrite !lookup_insert_ne by set_solver. done.
  - intros h' zs x Hn Hh' Hx [Hin|Hin]%elem_of_list_to_set%elem_of_app.
    + pose proof (rep_once _ _ Hrep _ _ _ _ _ Hh' H1 Hx Hin). set_solver.
    + pose proof (rep_once _ _ Hrep _ _ _ _ _ Hh' H2 Hx Hin). set_solver.
  - intros l Hl Hlx. apply Hm; [apply Hl; set_solver..|].
    intros x Hx. apply Hlx, elem_of_list_to_set, elem_of_app, Hx.
  - intros h' zs Hh' Hz. destruct (Hcase _ _ Hh' Hz) as [[-> ->]|[-> ->]];
      (split; [done|]); intros x Hx; apply elem_of_list_to_set, elem_of_app, HX; auto.
  - intros k1 k2 zs1 zs2 x Hk1 Hk2 Hz1 Hz2 Hx1 Hx2.
    destruct (Hcase _ _ Hk1 Hz1) as [[-> ->]|[-> ->]],
      (Hcase _ _ Hk2 Hz2) as [[-> ->]|[-> ->]]; try done; by destruct (Hd x).
  - intros x Hx. left. split; [done|]. destruct (rep_spare _ _ Hrep _ Hx) as [_ Hno].
    intros [Hin|Hin]%elem_of_list_to_set%elem_of_app;
      [by apply (Hno _ _ H1)|by apply (Hno _ _ H2)].
  - intros h' Hh'. split; [done|]. destruct (rep_raw _ _ Hrep _ Hh') as (_ & _ & Hn).
    intros [->%elem_of_singleton| ->%elem_of_singleton]%elem_of_union; congruence.
Qed.

(** The elements of [h2] go to the end of [h1]. *)
Lemma rep_concat m m' σ h1 h2 xs ys :
  rep m σ → h1 ≠ h2 → queues σ !! h1 = Some xs → queues σ !! h2 = Some ys →
  fwd m' !! end_cell (Head h1) xs = Some (hd 0 ys) →
  fwd m' !! Head h2 = Some 0 →
  (∀ l, l ≠ end_cell (Head h1) xs → l ≠ Head h2 → fwd m' !! l = fwd m !! l) →
  (dbl = true → ∀ y, head ys = Some y → bwd m' !! Elem y = Some (end_cell (Head h1) xs)) →
  (tail = true → bwd m' !! Head h1 = Some (end_cell (Head h1) (xs ++ ys))
    ∧ bwd m' !! Head h2 = Some (Head h2)) →
  (∀ l, l ≠ Head h1 → l ≠ Head h2 → (∀ y, head ys = Some y → l ≠ Elem y) →
    bwd m' !! l = bwd m !! l) →
  rep m' (QState (<[h1 := xs ++ ys]> (<[h2 := []]> (queues σ))) (spare σ) (raw σ)).
Proof.
  intros Hrep Hne H1 H2 Hp H0 Hf Hby Ht Hb.
  destruct (rep_queue _ _ Hrep _ _ H1) as (Hnd1 & Hr1 & _).
  rewrite <- (app_nil_r xs) in Hr1. apply run_app in Hr1 as [Hc1 _].
  destruct (rep_queue _ _ Hrep _ _ H2) as (Hnd2 & Hr2 & _).
  assert (∀ x, x ∈ xs → x ∈ ys → False) as Hd.
  { intros x Hx Hy. by pose proof (rep_once _ _ Hrep _ _ _ _ _ H1 H2 Hx Hy). }
  assert (∀ x y, x ∈ xs → head ys = Some y → Elem x ≠ Elem y) as Hhd.
  { intros x y Hx Hy [= ->]. apply (Hd y Hx). destruct ys; [done|]. injection Hy as ->.
    apply list_elem_of_here. }
  apply (rep_update_two m m' σ h1 h2 xs ys); [done..|set_solver|set_solver| | |].
  - intros l Hl1 Hl2 Hlx. split.
    + apply Hf; [|done]. destruct (end_cell_cases (Head h1) xs) as [[-> _]|(y & -> & Hy)];
        [done|]. apply Hlx. by left.
    + apply Hb; [done|done|]. intros y Hy. apply Hlx. right. destruct ys; [done|].
      injection Hy as ->. apply list_elem_of_here.
  - split; [|split; [|by intros; apply Ht]].
    + apply NoDup_app. split; [done|]. split; [|done]. intros x Hx Hy. by apply (Hd x).
    + apply run_app. split.
      * apply (chain_keep m); [done| | |done].
        -- intros c Hc [->|(y & -> & Hy)]; apply Hf; congruence.
        -- intros y Hy. apply Hb; [done|done|]. intros z. by apply Hhd.
      * apply (run_move m m' (Head h2)); [done..| |].
        -- intros y Hy. apply Hf; [|done]. apply not_eq_sym, end_cell_ne.
           intros Hx. by apply (Hd y).
        -- intros y Hy. apply Hb; [done|done|]. intros z Hz [= <-]. destruct ys; [done|].
           injection Hz as ->. by apply NoDup_cons in Hnd2 as [? _].
  - split; [apply NoDup_nil_2|]. split; [done|]. intros; by apply Ht.
Qed.

Lemma queue_move m m' h h' items :
  queue_at m h items →
  fwd m' !! Head h' = Some (hd 0 items) →
  (dbl = true → ∀ y, head items = Some y → bwd m' !! Elem y = Some (Head h')) →
  (∀ x, x ∈ items → fwd m' !! Elem x = fwd m !! Elem x) →
  (∀ x, x ∈ tl items → bwd m' !! Elem x = bwd m !! Elem x) →
  (tail = true → bwd m' !! Head h' = Some (end_cell (Head h') items)) →
  queue_at m' h' items.
Proof.
  intros (Hnd & Hr & _) Hf Hb Hfs Hbs Ht. split; [done|]. split; [|done].
  by apply (run_move m m' (Head h)).
Qed.

(** The two queues change places. *)
Lemma rep_swap m m' σ h1 h2 xs ys :
  rep m σ → h1 ≠ h2 → queues σ !! h1 = Some xs → queues σ !! h2 = Some ys →
  fwd m' !! Head h1 = Some (hd 0 ys) →
  fwd m' !! Head h2 = Some (hd 0 xs) →
  (∀ l, l ≠ Head h1 → l ≠ Head h2 → fwd m' !! l = fwd m !! l) →
  (dbl = true → ∀ y, head ys = Some y → bwd m' !! Elem y = Some (Head h1)) →
  (dbl = true → ∀ x, head xs = Some x → bwd m' !! Elem x = Some (Head h2)) →
  (tail = true → bwd m' !! Head h1 = Some (end_cell (Head h1) ys)
    ∧ bwd m' !! Head h2 = Some (end_cell (Head h2) xs)) →
  (∀ l, l ≠ Head h1 → l ≠ Head h2 → (∀ y, head ys = Some y → l ≠ Elem y) →
    (∀ x, head xs = Some x → l ≠ Elem x) → bwd m' !! l = bwd m !! l) →
  rep m' (QState (<[h1 := ys]> (<[h2 := xs]> (queues σ))) (spare σ) (raw σ)).
Proof.
  intros Hrep Hne H1 H2 Hf1 Hf2 Hf Hb1 Hb2 Ht Hb.
  pose proof (rep_queue _ _ Hrep _ _ H1) as Hat1.
  pose proof (rep_queue _ _ Hrep _ _ H2) as Hat2.
  assert (∀ x, x ∈ xs → x ∈ ys → False) as Hd.
  { intros x Hx Hy. by pose proof (rep_once _ _ Hrep _ _ _ _ _ H1 H2 Hx Hy). }
  assert (∀ zs z, head zs = Some z → z ∈ (zs : list Z)) as Hhd.
  { intros [|z' zs] z; [done|]. intros [= ->]. apply list_elem_of_here. }
  assert (∀ zs z, z ∈ tl zs → z ∈ (zs : list Z)) as Htl.
  { intros [|z' zs] z; [done|]. apply list_elem_of_further. }
  assert (∀ zs z, NoDup zs → z ∈ tl zs → head zs = Some (z : Z) → False) as Hht.
  { intros [|z' zs] z Hnd Hin; [done|]. apply NoDup_cons in Hnd as [Hz _].
    by intros [= ->]. }
  apply (rep_update_two m m' σ h1 h2 xs ys); [done..|set_solver|set_solver| | |].
  - intros l Hl1 Hl2 Hlx. split; [by apply Hf|]. apply Hb; [done|done|..];
      intros z Hz; apply Hlx; auto.
  - apply (queue_move m m' h2); [done..| | |by intros; apply Ht].
    + intros x Hx. by apply Hf.
    + intros x Hx. apply Hb; [done|done|..]; intros z Hz [= <-];
        [by eapply Hht; [apply Hat2| |]|apply (Hd x); auto].
  - apply (queue_move m m' h1); [done..| | |by intros; apply Ht].
    + intros x Hx. by apply Hf.
    + intros x Hx. apply Hb; [done|done|..]; intros z Hz [= <-];
        [apply (Hd x); auto|by eapply Hht; [apply Hat1| |]].
Qed.

End Rep.
