(* ===== verification/QueueOps.v ===== *)
(** * What the macros of queue.h do to lists

    The operations of the four structures with their reference on lists, [ref], and
    the proof, macro by macro, that the pointers do what the lists say
    ([macro_ref]).  The table in [queue.h] says which structure has which macro;
    [macro] is this table. *)

From S2P Require Import Prelude Queue QueueMacros QueueSpec.

(** ** Operations *)

Inductive op : Type :=
| Init (h : Z)
| InsertHead (h x : Z)
| InsertTail (h x : Z)
| InsertAfter (h y x : Z)
| InsertBefore (h y x : Z)
| Remove (h x : Z)
| RemoveHead (h : Z)
| RemoveAfter (h y : Z)
| Concat (h1 h2 : Z)
| Swap (h1 h2 : Z).

(** The elements before and behind [y]. *)
Fixpoint split_at (y : Z) (items : list Z) : option (list Z * list Z) :=
  match items with
  | [] => None
  | x :: items =>
      if x =? y then Some ([], items)
      else '(pre, suf) ← split_at y items; Some (x :: pre, suf)
  end.

(** The element [x], so far in no queue, joins the queue [h], which becomes [items]. *)
Definition join (σ : qstate) (h x : Z) (items : list Z) : option qstate :=
  if decide (x ∈ spare σ)
  then Some (QState (<[h := items]> (queues σ)) (spare σ ∖ {[x]}) (raw σ))
  else None.

Definition leave (σ : qstate) (h x : Z) (items : list Z) : option qstate :=
  Some (QState (<[h := items]> (queues σ)) (spare σ ∪ {[x]}) (raw σ)).

Definition change_two (σ : qstate) (h1 h2 : Z) (xs ys : list Z) : option qstate :=
  if h1 =? h2 then None
  else Some (QState (<[h1 := xs]> (<[h2 := ys]> (queues σ))) (spare σ) (raw σ)).

(** What an operation does to the lists; [None] where its caller is wrong: a head
    nobody initialised, an element that is in a queue already or in none. *)
Definition ref (o : op) (σ : qstate) : option qstate :=
  match o with
  | Init h =>
      if decide (h ∈ raw σ ∨ is_Some (queues σ !! h))
      then Some (QState (<[h := []]> (queues σ))
                   (spare σ ∪ list_to_set (default [] (queues σ !! h))) (raw σ ∖ {[h]}))
      else None
  | InsertHead h x => items ← queues σ !! h; join σ h x (x :: items)
  | InsertTail h x => items ← queues σ !! h; join σ h x (items ++ [x])
  | InsertAfter h y x =>
      items ← queues σ !! h; '(pre, suf) ← split_at y items;
      join σ h x (pre ++ y :: x :: suf)
  | InsertBefore h y x =>
      items ← queues σ !! h; '(pre, suf) ← split_at y items;
      join σ h x (pre ++ x :: y :: suf)
  | Remove h x =>
      items ← queues σ !! h; '(pre, suf) ← split_at x items; leave σ h x (pre ++ suf)
  | RemoveHead h =>
      items ← queues σ !! h;
      match items with x :: items => leave σ h x items | [] => None end
  | RemoveAfter h y =>
      items ← queues σ !! h; '(pre, suf) ← split_at y items;
      match suf with x :: suf => leave σ h x (pre ++ y :: suf) | [] => None end
  | Concat h1 h2 =>
      xs ← queues σ !! h1; ys ← queues σ !! h2; change_two σ h1 h2 (xs ++ ys) []
  | Swap h1 h2 =>
      xs ← queues σ !! h1; ys ← queues σ !! h2; change_two σ h1 h2 ys xs
  end.

(** ** Structures *)

Inductive structure : Type := SLIST | STAILQ | LIST | TAILQ.

Definition is_dbl (s : structure) : bool :=
  match s with LIST | TAILQ => true | _ => false end.
Definition has_tail (s : structure) : bool :=
  match s with STAILQ | TAILQ => true | _ => false end.

Section Macro.
Context {cf : Config}.

Definition macro (s : structure) (o : op) : option (qmem → res qmem) :=
  match s, o with
  | SLIST, Init h => Some (λ m, SLIST_INIT m h)
  | SLIST, InsertHead h x => Some (λ m, SLIST_INSERT_HEAD m h x)
  | SLIST, InsertAfter h y x => Some (λ m, SLIST_INSERT_AFTER m y x)
  | SLIST, Remove h x => Some (λ m, SLIST_REMOVE m h x)
  | SLIST, RemoveHead h => Some (λ m, SLIST_REMOVE_HEAD m h)
  | SLIST, RemoveAfter h y => Some (λ m, SLIST_REMOVE_AFTER m y)
  | SLIST, Concat h1 h2 => Some (λ m, SLIST_CONCAT m h1 h2)
  | SLIST, Swap h1 h2 => Some (λ m, SLIST_SWAP m h1 h2)
  | STAILQ, Init h => Some (λ m, STAILQ_INIT m h)
  | STAILQ, InsertHead h x => Some (λ m, STAILQ_INSERT_HEAD m h x)
  | STAILQ, InsertTail h x => Some (λ m, STAILQ_INSERT_TAIL m h x)
  | STAILQ, InsertAfter h y x => Some (λ m, STAILQ_INSERT_AFTER m h y x)
  | STAILQ, Remove h x => Some (λ m, STAILQ_REMOVE m h x)
  | STAILQ, RemoveHead h => Some (λ m, STAILQ_REMOVE_HEAD m h)
  | STAILQ, RemoveAfter h y => Some (λ m, STAILQ_REMOVE_AFTER m h y)
  | STAILQ, Concat h1 h2 => Some (λ m, STAILQ_CONCAT m h1 h2)
  | STAILQ, Swap h1 h2 => Some (λ m, STAILQ_SWAP m h1 h2)
  | LIST, Init h => Some (λ m, LIST_INIT m h)
  | LIST, InsertHead h x => Some (λ m, LIST_INSERT_HEAD m h x)
  | LIST, InsertAfter h y x => Some (λ m, LIST_INSERT_AFTER m y x)
  | LIST, InsertBefore h y x => Some (λ m, LIST_INSERT_BEFORE m y x)
  | LIST, Remove h x => Some (λ m, LIST_REMOVE m x)
  | LIST, Concat h1 h2 => Some (λ m, LIST_CONCAT m h1 h2)
  | LIST, Swap h1 h2 => Some (λ m, LIST_SWAP m h1 h2)
  | TAILQ, Init h => Some (λ m, TAILQ_INIT m h)
  | TAILQ, InsertHead h x => Some (λ m, TAILQ_INSERT_HEAD m h x)
  | TAILQ, InsertTail h x => Some (λ m, TAILQ_INSERT_TAIL m h x)
  | TAILQ, InsertAfter h y x => Some (λ m, TAILQ_INSERT_AFTER m h y x)
  | TAILQ, InsertBefore h y x => Some (λ m, TAILQ_INSERT_BEFORE m y x)
  | TAILQ, Remove h x => Some (λ m, TAILQ_REMOVE m h x)
  | TAILQ, Concat h1 h2 => Some (λ m, TAILQ_CONCAT m h1 h2)
  | TAILQ, Swap h1 h2 => Some (λ m, TAILQ_SWAP m h1 h2)
  | _, _ => None
  end.

(** ** Executing macros *)

Lemma bind_get_fwd {B} m l x (k : Z → res B) :
  l ≠ Elem 0 → fwd m !! l = Some x → (get_fwd m l ≫= k) = k x.
Proof. intros Hl Hx. unfold get_fwd. by rewrite (get_Some _ _ x). Qed.

Lemma bind_get_bwd {B} m l x (k : loc → res B) :
  l ≠ Elem 0 → bwd m !! l = Some x → (get_bwd m l ≫= k) = k x.
Proof. intros Hl Hx. unfold get_bwd. by rewrite (get_Some _ _ x). Qed.

Lemma bind_set_fwd {B} m l x (k : qmem → res B) :
  l ≠ Elem 0 → is_Some (fwd m !! l) →
  (set_fwd m l x ≫= k) = k (QMem (<[l := x]> (fwd m)) (bwd m)).
Proof. intros Hl Hx. by rewrite set_fwd_live. Qed.

Lemma bind_set_bwd {B} m l x (k : qmem → res B) :
  l ≠ Elem 0 → is_Some (bwd m !! l) →
  (set_bwd m l x ≫= k) = k (QMem (fwd m) (<[l := x]> (bwd m))).
Proof. intros Hl Hx. by rewrite set_bwd_live. Qed.

Lemma split_at_Some y items pre suf : split_at y items = Some (pre, suf) → items = pre ++ y :: suf.
Proof.
  revert pre. induction items as [|x items IH]; intros pre; cbn; [done|].
  case_match eqn:E; [apply Z.eqb_eq in E as ->; by intros [= <- <-]|].
  destruct (split_at y items) as [[pre' suf']|]; [|done]. cbn. intros [= <- <-].
  cbn. f_equal. by apply IH.
Qed.

(** ** What is known next to a place in a queue *)

Lemma place_facts dbl tail m σ h pre suf :
  rep dbl tail m σ → queues σ !! h = Some (pre ++ suf) →
  end_cell (Head h) pre ≠ Elem 0
  ∧ fwd m !! end_cell (Head h) pre = Some (hd 0 suf)
  ∧ (tail = true → bwd m !! Head h = Some (end_cell (end_cell (Head h) pre) suf))
  ∧ (∀ y, head suf = Some y → y ≠ 0 ∧ end_cell (Head h) pre ≠ Elem y
      ∧ is_Some (fwd m !! Elem y) ∧ (dbl = true → bwd m !! Elem y = Some (end_cell (Head h) pre))).
Proof.
  intros Hrep Hh. destruct (rep_queue _ _ _ _ Hrep _ _ Hh) as (Hnd & Hr & Ht).
  rewrite end_cell_app in Ht. apply NoDup_app in Hnd as (_ & Hd & Hnd).
  pose proof Hr as [Hc Hr']%run_app.
  split; [|split; [by eapply run_first|split; [done|]]].
  - destruct (end_cell_cases (Head h) pre) as [[-> _]|(y & -> & Hy)]; [done|].
    intros [= ->]. eapply (run_nonzero _ _ _ _ 0 Hr); [|done]. apply elem_of_app. by left.
  - intros y Hy. destruct suf as [|z suf]; [done|]. injection Hy as ->. cbn in Hr'.
    destruct Hr' as (Hy & _ & Hb & Hr'). split; [done|]. split; [|split; [|done]].
    + apply end_cell_ne. intros Hin. apply (Hd y Hin), list_elem_of_here.
    + eexists. by eapply run_first.
Qed.

Lemma spare_facts dbl tail m σ h pre suf x :
  rep dbl tail m σ → queues σ !! h = Some (pre ++ suf) → x ∈ spare σ →
  x ≠ 0 ∧ is_Some (fwd m !! Elem x) ∧ (dbl = true → is_Some (bwd m !! Elem x))
  ∧ end_cell (Head h) pre ≠ Elem x ∧ (∀ y, head suf = Some y → y ≠ x).
Proof.
  intros Hrep Hh Hx. destruct (rep_spare _ _ _ _ Hrep _ Hx) as [(Hx0 & Hf & Hb) Hno].
  specialize (Hno _ _ Hh). split; [done|]. split; [done|]. split; [done|].
  split; [apply end_cell_ne; set_solver|]. intros y Hy ->. apply Hno.
  destruct suf; [done|]. injection Hy as ->. set_solver.
Qed.

End Macro.

(** The facts of a place, and of an element that comes there. *)
Ltac place_case :=
  repeat match goal with
  | H : true = true → _ |- _ => specialize (H eq_refl)
  | H : false = true → _ |- _ => clear H
  | H : ∀ y, Some ?z = Some y → _ |- _ => specialize (H z eq_refl)
  | H : ∀ y, None = Some y → _ |- _ => clear H
  | H : _ ∧ _ |- _ => destruct H
  | H1 : ?m !! ?l = Some ?x, H2 : ?m !! ?l = Some ?y |- _ =>
      first [constr_eq x y; clear H2 | rewrite H1 in H2; injection H2 as H2]
  | H1 : ?a = Some _, H2 : is_Some ?a |- _ => clear H2
  | H : is_Some _ |- _ => destruct H
  end.

Ltac place Hrep Hh := pose proof (place_facts _ _ _ _ _ _ _ Hrep Hh).

Ltac newcomer Hrep Hh Hx := pose proof (spare_facts _ _ _ _ _ _ _ _ Hrep Hh Hx).

(** A lookup in an updated memory. *)
Ltac look :=
  cbn [fwd bwd];
  repeat first [ rewrite lookup_insert_eq | rewrite lookup_insert_ne by congruence ];
  first [ eassumption | reflexivity ].

Ltac qstep :=
  first
    [ erewrite bind_get_fwd; [ | congruence | look ]
    | erewrite bind_get_bwd; [ | congruence | look ]
    | rewrite bind_set_fwd; [ | congruence | eexists; look ]
    | rewrite bind_set_bwd; [ | congruence | eexists; look ]
    | rewrite set_fwd_live; [ | congruence | eexists; look ]
    | rewrite set_bwd_live; [ | congruence | eexists; look ]
    | rewrite Z.eqb_refl
    | rewrite (proj2 (Z.eqb_neq _ _)) by congruence
    | progress cbn [mbind res_bind mret res_ret] ].

(** What is left to show of the memory an operation leaves. *)
Ltac post :=
  intros; rewrite ?end_cell_app; cbn [end_cell hd head] in *;
  place_case; simplify_eq;
  match goal with
  | |- is_Some _ => eexists; look
  | |- _ ∧ _ => split; look
  | _ => look
  end.

Ltac exec := repeat qstep; eexists; split; [reflexivity|].

Section Correct.
Context {cf : Config}.

Lemma check_head_ok m h x : fwd m !! Head h = Some x →
  (x ≠ 0 → bwd m !! Elem x = Some (Head h)) → QMD_LIST_CHECK_HEAD m h = Ok tt.
Proof.
  intros Hx Hb. unfold QMD_LIST_CHECK_HEAD. destruct invariants; [|done]. qstep.
  case_match eqn:E; [done|]. apply Z.eqb_neq in E. specialize (Hb E). qstep.
  by rewrite bool_decide_true.
Qed.

Lemma check_next_ok m e x : e ≠ 0 → fwd m !! Elem e = Some x →
  (x ≠ 0 → bwd m !! Elem x = Some (Elem e)) → QMD_LIST_CHECK_NEXT m e = Ok tt.
Proof.
  intros He Hx Hb. unfold QMD_LIST_CHECK_NEXT. destruct invariants; [|done]. qstep.
  case_match eqn:E; [done|]. apply Z.eqb_neq in E. specialize (Hb E). qstep.
  by rewrite bool_decide_true.
Qed.

Lemma check_prev_ok m e p : bwd m !! Elem e = Some p → fwd m !! p = Some e →
  e ≠ 0 → p ≠ Elem 0 → QMD_LIST_CHECK_PREV m e = Ok tt.
Proof.
  intros Hb Hf He Hp. unfold QMD_LIST_CHECK_PREV. destruct invariants; [|done]. by repeat qstep.
Qed.

(** The checks of [TAILQ] are those of [LIST], on the fields of the tail queue. *)
Lemma tailq_check_head m h : QMD_TAILQ_CHECK_HEAD m h = QMD_LIST_CHECK_HEAD m h.
Proof. reflexivity. Qed.

Lemma tailq_check_next m e : QMD_TAILQ_CHECK_NEXT m e = QMD_LIST_CHECK_NEXT m e.
Proof. reflexivity. Qed.

Lemma tailq_check_prev m e : QMD_TAILQ_CHECK_PREV m e = QMD_LIST_CHECK_PREV m e.
Proof. reflexivity. Qed.

Lemma check_tail_ok m h p : p ≠ Elem 0 → bwd m !! Head h = Some p →
  fwd m !! p = Some 0 → QMD_TAILQ_CHECK_TAIL m h = Ok tt.
Proof.
  intros Hp Hb Hf. unfold QMD_TAILQ_CHECK_TAIL. destruct invariants; [|done]. by repeat qstep.
Qed.

(** *** A new first element *)

Lemma insert_head_correct s f m σ h x items :
  rep (is_dbl s) (has_tail s) m σ → queues σ !! h = Some items → x ∈ spare σ →
  macro s (InsertHead h x) = Some f →
  ∃ m', f m = Ok m' ∧ rep (is_dbl s) (has_tail s) m'
    (QState (<[h := x :: items]> (queues σ)) (spare σ ∖ {[x]}) (raw σ)).
Proof.
  intros Hrep Hh Hx Hf. change items with ([] ++ items) in Hh.
  place Hrep Hh. newcomer Hrep Hh Hx.
  destruct s; injection Hf as <-; cbn [end_cell is_dbl has_tail] in *;
    (destruct items as [|z items]; cbn [hd head end_cell app] in *; place_case);
    unfold SLIST_INSERT_HEAD, STAILQ_INSERT_HEAD, LIST_INSERT_HEAD, TAILQ_INSERT_HEAD,
      SLIST_FIRST, STAILQ_FIRST, LIST_FIRST, TAILQ_FIRST;
    rewrite ?tailq_check_head;
    try (erewrite check_head_ok by (done || eassumption));
    exec; (apply (rep_insert _ _ m _ σ h []); [done..| | | | | | |]; post).
Qed.
(** *** A new last element *)

Lemma insert_tail_correct s f m σ h x items :
  rep (is_dbl s) (has_tail s) m σ → queues σ !! h = Some items → x ∈ spare σ →
  macro s (InsertTail h x) = Some f →
  ∃ m', f m = Ok m' ∧ rep (is_dbl s) (has_tail s) m'
    (QState (<[h := items ++ [x]]> (queues σ)) (spare σ ∖ {[x]}) (raw σ)).
Proof.
  intros Hrep Hh Hx Hf. rewrite <- (app_nil_r items) in Hh.
  place Hrep Hh. newcomer Hrep Hh Hx.
  destruct s; try discriminate Hf; injection Hf as <-;
    cbn [end_cell is_dbl has_tail hd head] in *; place_case;
    unfold STAILQ_INSERT_TAIL, TAILQ_INSERT_TAIL;
    try (erewrite check_tail_ok by (done || eassumption));
    exec; (apply (rep_insert _ _ m _ σ h items _ []); [done..| | | | | | |]; post).
Qed.

(** *** Behind and before an element *)

Lemma insert_after_correct s f m σ h y x pre suf :
  rep (is_dbl s) (has_tail s) m σ → queues σ !! h = Some (pre ++ y :: suf) → x ∈ spare σ →
  macro s (InsertAfter h y x) = Some f →
  ∃ m', f m = Ok m' ∧ rep (is_dbl s) (has_tail s) m'
    (QState (<[h := pre ++ y :: x :: suf]> (queues σ)) (spare σ ∖ {[x]}) (raw σ)).
Proof.
  intros Hrep Hh Hx Hf. rewrite cons_middle, app_assoc in Hh.
  replace (pre ++ y :: x :: suf) with ((pre ++ [y]) ++ x :: suf) by by rewrite <- app_assoc.
  place Hrep Hh. newcomer Hrep Hh Hx. rewrite !end_cell_snoc in *.
  destruct s; injection Hf as <-; cbn [is_dbl has_tail] in *;
    (destruct suf as [|z suf]; cbn [hd head end_cell app] in *; place_case);
    unfold SLIST_INSERT_AFTER, STAILQ_INSERT_AFTER, LIST_INSERT_AFTER, TAILQ_INSERT_AFTER,
      SLIST_NEXT, STAILQ_NEXT, LIST_NEXT, TAILQ_NEXT;
    rewrite ?tailq_check_next; try (erewrite check_next_ok by (congruence || eassumption || done));
    exec; (apply (rep_insert _ _ m _ σ h (pre ++ [y]));
      [done..| | | | | | |]; rewrite ?end_cell_snoc; post).
Qed.

Lemma insert_before_correct s f m σ h y x pre suf :
  rep (is_dbl s) (has_tail s) m σ → queues σ !! h = Some (pre ++ y :: suf) → x ∈ spare σ →
  macro s (InsertBefore h y x) = Some f →
  ∃ m', f m = Ok m' ∧ rep (is_dbl s) (has_tail s) m'
    (QState (<[h := pre ++ x :: y :: suf]> (queues σ)) (spare σ ∖ {[x]}) (raw σ)).
Proof.
  intros Hrep Hh Hx Hf. place Hrep Hh. newcomer Hrep Hh Hx.
  destruct s; try discriminate Hf; injection Hf as <-;
    cbn [is_dbl has_tail hd head end_cell] in *; place_case;
    unfold LIST_INSERT_BEFORE, TAILQ_INSERT_BEFORE;
    rewrite ?tailq_check_prev; (erewrite check_prev_ok by eassumption);
    exec; (apply (rep_insert _ _ m _ σ h pre); [done..| | | | | | |]; post).
Qed.

(** *** Removal *)

Lemma prev_elm_ok m dbl l pre y x suf fuel :
  run dbl m l (pre ++ y :: x :: suf) → x ∉ pre → y ≠ x → (length pre < fuel)%nat →
  prev_elm fuel m (hd 0 (pre ++ [y])) x = Ok y.
Proof.
  revert l fuel. induction pre as [|z pre IH]; intros l fuel Hr Hx Hy Hf;
    (destruct fuel as [|fuel]; [cbn in Hf; lia|]); cbn in Hr.
  - destruct Hr as (Hy0 & _ & _ & Hx0 & Hn & _). cbn. by repeat qstep.
  - destruct Hr as (Hz & _ & _ & Hr). apply not_elem_of_cons in Hx as [Hxz Hx].
    pose proof (run_first _ _ _ _ Hr) as Hn. cbn. qstep.
    assert (hd 0 (pre ++ y :: x :: suf) = hd 0 (pre ++ [y])) as -> by by destruct pre.
    assert (hd 0 (pre ++ [y]) ≠ x) by (destruct pre; cbn; set_solver).
    repeat qstep. eapply IH; [done..|]. cbn in Hf. lia.
Qed.

(** A queue has fewer elements than there are locations. *)
Lemma run_size dbl m l items : NoDup items → run dbl m l items →
  (length items ≤ size (fwd m))%nat.
Proof.
  intros Hnd Hr. rewrite <- (length_fmap Elem), <- size_dom.
  assert (Inj (=) (=) Elem) by by intros ?? [=].
  rewrite <- (size_list_to_set (C := gset loc)) by by apply NoDup_fmap_2.
  apply subseteq_size. intros c (x & -> & Hx)%elem_of_list_to_set%list_elem_of_fmap.
  apply elem_of_dom. by eapply run_live.
Qed.

(** The first element of a queue. *)
Lemma remove_head_correct s f m σ h x suf :
  rep (is_dbl s) (has_tail s) m σ → queues σ !! h = Some (x :: suf) →
  macro s (RemoveHead h) = Some f →
  ∃ m', f m = Ok m' ∧ rep (is_dbl s) (has_tail s) m'
    (QState (<[h := suf]> (queues σ)) (spare σ ∪ {[x]}) (raw σ)).
Proof.
  intros Hrep Hh Hf. pose proof (place_facts _ _ _ _ _ [] _ Hrep Hh).
  pose proof (place_facts _ _ _ _ _ [x] _ Hrep Hh).
  destruct s; try discriminate Hf; injection Hf as <-;
    (destruct suf as [|z suf]; cbn [hd head end_cell is_dbl has_tail app] in *; place_case);
    unfold SLIST_REMOVE_HEAD, STAILQ_REMOVE_HEAD, SLIST_FIRST, STAILQ_FIRST, SLIST_NEXT,
      STAILQ_NEXT;
    exec; (apply (rep_remove _ _ m _ σ h []); [done..| | | | | | |]; post).
Qed.

(** The element behind another. *)
Lemma remove_after_correct s f m σ h y x pre suf :
  rep (is_dbl s) (has_tail s) m σ → queues σ !! h = Some (pre ++ y :: x :: suf) →
  macro s (RemoveAfter h y) = Some f →
  ∃ m', f m = Ok m' ∧ rep (is_dbl s) (has_tail s) m'
    (QState (<[h := pre ++ y :: suf]> (queues σ)) (spare σ ∪ {[x]}) (raw σ)).
Proof.
  intros Hrep Hh Hf. rewrite cons_middle, app_assoc in Hh.
  replace (pre ++ y :: suf) with ((pre ++ [y]) ++ suf) by by rewrite <- app_assoc.
  pose proof (place_facts _ _ _ _ _ _ _ Hrep Hh). pose proof Hh as Hh'.
  rewrite cons_middle, app_assoc in Hh'.
  pose proof (place_facts _ _ _ _ _ _ _ Hrep Hh'). rewrite !end_cell_snoc in *.
  destruct s; try discriminate Hf; injection Hf as <-;
    (destruct suf as [|z suf]; cbn [hd head end_cell is_dbl has_tail app] in *; place_case);
    unfold SLIST_REMOVE_AFTER, STAILQ_REMOVE_AFTER, SLIST_NEXT, STAILQ_NEXT;
    exec; (apply (rep_remove _ _ m _ σ h (pre ++ [y]) x);
      [done..| | | | | | |]; rewrite ?end_cell_snoc; post).
Qed.

(** The loop of [REMOVE] finds the element before [x]. *)
Lemma prev_elm_place dbl tail m σ h pre y x suf :
  rep dbl tail m σ → queues σ !! h = Some (pre ++ y :: x :: suf) →
  fwd m !! Head h = Some (hd 0 (pre ++ [y])) ∧ hd 0 (pre ++ [y]) ≠ x
  ∧ prev_elm (fuel_of m) m (hd 0 (pre ++ [y])) x = Ok y.
Proof.
  intros Hrep Hh. destruct (rep_queue _ _ _ _ Hrep _ _ Hh) as (Hnd & Hr & _).
  pose proof (run_size _ _ _ _ Hnd Hr) as Hsz. rewrite length_app in Hsz.
  apply NoDup_app in Hnd as (_ & Hd & Hnd). apply NoDup_cons in Hnd as [Hy _].
  assert (x ∉ pre) as Hx.
  { intros Hx. apply (Hd x Hx), list_elem_of_further, list_elem_of_here. }
  assert (y ≠ x) as Hyx by (intros ->; apply Hy, list_elem_of_here).
  split; [|split].
  - rewrite (run_first _ _ _ _ Hr). by destruct pre.
  - destruct pre; cbn; set_solver.
  - eapply prev_elm_ok; [done..|]. unfold fuel_of. lia.
Qed.

Lemma remove_single_correct s f m σ h x pre suf :
  is_dbl s = false → rep (is_dbl s) (has_tail s) m σ → queues σ !! h = Some (pre ++ x :: suf) →
  macro s (Remove h x) = Some f →
  ∃ m', f m = Ok m' ∧ rep (is_dbl s) (has_tail s) m'
    (QState (<[h := pre ++ suf]> (queues σ)) (spare σ ∪ {[x]}) (raw σ)).
Proof.
  intros Hs Hrep Hh Hf.
  destruct pre as [|y pre _] using rev_ind.
  - pose proof (place_facts _ _ _ _ _ [] _ Hrep Hh).
    pose proof (place_facts _ _ _ _ _ [x] _ Hrep Hh).
    destruct s; try discriminate Hs; injection Hf as <-;
      (destruct suf as [|z suf]; cbn [hd head end_cell is_dbl has_tail app] in *; place_case);
      unfold SLIST_REMOVE, STAILQ_REMOVE, SLIST_REMOVE_HEAD, STAILQ_REMOVE_HEAD, SLIST_FIRST,
        STAILQ_FIRST, SLIST_NEXT, STAILQ_NEXT, TRASHIT_next; destruct queue_macro_debug;
      exec; (apply (rep_remove _ _ m _ σ h [] x); [done..| | | | | | |]; post).
  - pose proof Hh as Hh2. pose proof Hh as Hh3. rewrite cons_middle, app_assoc in Hh3.
    rewrite <- app_assoc in Hh2. cbn [app] in Hh2.
    destruct (prev_elm_place _ _ _ _ _ _ _ _ _ Hrep Hh2) as (Hhd & Hne & Hprev).
    pose proof (place_facts _ _ _ _ _ _ _ Hrep Hh).
    pose proof (place_facts _ _ _ _ _ _ _ Hrep Hh2).
    pose proof (place_facts _ _ _ _ _ _ _ Hrep Hh3).
    rewrite !end_cell_snoc in *.
    destruct s; try discriminate Hs; injection Hf as <-;
      (destruct suf as [|z suf]; cbn [hd head end_cell is_dbl has_tail app] in *; place_case);
      unfold SLIST_REMOVE, STAILQ_REMOVE, SLIST_REMOVE_AFTER, STAILQ_REMOVE_AFTER,
        SLIST_FIRST, STAILQ_FIRST, SLIST_NEXT, STAILQ_NEXT, TRASHIT_next;
      repeat qstep; rewrite Hprev; destruct queue_macro_debug;
      exec; (apply (rep_remove _ _ m _ σ h (pre ++ [y]) x);
        [done..| | | | | | |]; rewrite ?end_cell_snoc; post).
Qed.

Lemma remove_double_correct s f m σ h x pre suf :
  is_dbl s = true → rep (is_dbl s) (has_tail s) m σ → queues σ !! h = Some (pre ++ x :: suf) →
  macro s (Remove h x) = Some f →
  ∃ m', f m = Ok m' ∧ rep (is_dbl s) (has_tail s) m'
    (QState (<[h := pre ++ suf]> (queues σ)) (spare σ ∪ {[x]}) (raw σ)).
Proof.
  intros Hs Hrep Hh Hf. pose proof Hh as Hh3. rewrite cons_middle, app_assoc in Hh3.
  pose proof (place_facts _ _ _ _ _ _ _ Hrep Hh).
  pose proof (place_facts _ _ _ _ _ _ _ Hrep Hh3). rewrite !end_cell_snoc in *.
  destruct (rep_queue _ _ _ _ Hrep _ _ Hh) as (Hnd & _). apply NoDup_app in Hnd as (_ & Hd & Hnd).
  apply NoDup_cons in Hnd as [Hxn _].
  assert (∀ y, head suf = Some y → end_cell (Head h) pre ≠ Elem y) as Hpn.
  { intros y Hy. apply end_cell_ne. intros Hin. apply (Hd y Hin), list_elem_of_further.
    destruct suf; [done|]. injection Hy as ->. apply list_elem_of_here. }
  destruct s; try discriminate Hs; injection Hf as <-;
    (destruct suf as [|z suf]; cbn [hd head end_cell is_dbl has_tail app] in *; place_case);
    unfold LIST_REMOVE, TAILQ_REMOVE, LIST_NEXT, TAILQ_NEXT, TRASHIT_next, TRASHIT_prev;
    rewrite ?tailq_check_next; (erewrite check_next_ok by (congruence || eassumption || done));
    rewrite ?tailq_check_prev; (erewrite check_prev_ok by eassumption); destruct queue_macro_debug;
    exec; (apply (rep_remove _ _ m _ σ h pre x); [done..| | | | | | |]; post).
Qed.

(** *** Two queues *)

(** The loop of [CONCAT] finds the last element. *)
Lemma last_elm_ok m dbl l pre x fuel :
  run dbl m l (pre ++ [x]) → (length pre < fuel)%nat →
  last_elm fuel m (hd 0 (pre ++ [x])) = Ok x.
Proof.
  revert l fuel. induction pre as [|z pre IH]; intros l fuel Hr Hf;
    (destruct fuel as [|fuel]; [cbn in Hf; lia|]); cbn in Hr.
  - destruct Hr as (Hx0 & _ & _ & Hn). cbn. by repeat qstep.
  - destruct Hr as (Hz & _ & _ & Hr). pose proof (run_first _ _ _ _ Hr) as Hn. cbn. qstep.
    assert (hd 0 (pre ++ [x]) ≠ 0).
    { eapply run_nonzero; [done|]. destruct pre; apply list_elem_of_here. }
    repeat qstep. eapply IH; [done|]. cbn in Hf. lia.
Qed.

Lemma last_elm_place dbl tail m σ h pre x :
  rep dbl tail m σ → queues σ !! h = Some (pre ++ [x]) →
  fwd m !! Head h = Some (hd 0 (pre ++ [x])) ∧ hd 0 (pre ++ [x]) ≠ 0
  ∧ last_elm (fuel_of m) m (hd 0 (pre ++ [x])) = Ok x.
Proof.
  intros Hrep Hh. destruct (rep_queue _ _ _ _ Hrep _ _ Hh) as (Hnd & Hr & _).
  pose proof (run_size _ _ _ _ Hnd Hr) as Hsz. rewrite length_app in Hsz.
  split; [by apply (run_first _ _ _ _ Hr)|]. split.
  - eapply run_nonzero; [done|]. destruct pre; apply list_elem_of_here.
  - eapply last_elm_ok; [done|]. unfold fuel_of. lia.
Qed.

Lemma two_facts dbl tail m σ h1 h2 xs ys :
  rep dbl tail m σ → queues σ !! h1 = Some xs → queues σ !! h2 = Some ys → h1 ≠ h2 →
  end_cell (Head h1) xs ≠ Head h2
  ∧ (∀ y, head ys = Some y → end_cell (Head h1) xs ≠ Elem y)
  ∧ (∀ y, head ys = Some y → ∀ x, head xs = Some x → x ≠ y).
Proof.
  intros Hrep H1 H2 Hne.
  assert (∀ y, head ys = Some y → y ∉ xs) as Hn.
  { intros y Hy Hin. destruct ys as [|y' ys]; [done|]. injection Hy as ->.
    eapply Hne, (rep_once _ _ _ _ Hrep); [done|done|done|apply list_elem_of_here]. }
  split; [|split].
  - destruct (end_cell_cases (Head h1) xs) as [[-> _]|(x & -> & _)]; congruence.
  - intros y Hy. by apply end_cell_ne, Hn.
  - intros y Hy x Hx ->. apply (Hn y Hy). destruct xs; [done|]. injection Hx as ->.
    apply list_elem_of_here.
Qed.

Lemma concat_correct s f m σ h1 h2 xs ys :
  rep (is_dbl s) (has_tail s) m σ → queues σ !! h1 = Some xs → queues σ !! h2 = Some ys →
  h1 ≠ h2 → macro s (Concat h1 h2) = Some f →
  ∃ m', f m = Ok m' ∧ rep (is_dbl s) (has_tail s) m'
    (QState (<[h1 := xs ++ ys]> (<[h2 := []]> (queues σ))) (spare σ) (raw σ)).
Proof.
  intros Hrep H1 H2 Hne Hf.
  pose proof (two_facts _ _ _ _ _ _ _ _ Hrep H1 H2 Hne).
  assert (queues σ !! h1 = Some (xs ++ [])) as H1' by by rewrite app_nil_r.
  pose proof (place_facts _ _ _ _ _ _ _ Hrep H1').
  pose proof (place_facts _ _ _ _ _ [] _ Hrep H1).
  pose proof (place_facts _ _ _ _ _ [] _ Hrep H2).
  destruct xs as [|x xs _] using rev_ind.
  - destruct s; injection Hf as <-;
      (destruct ys as [|y ys]; cbn [hd head end_cell is_dbl has_tail app] in *; place_case);
      unfold SLIST_CONCAT, STAILQ_CONCAT, LIST_CONCAT, TAILQ_CONCAT, STAILQ_EMPTY, TAILQ_EMPTY,
        SLIST_INIT, STAILQ_INIT, LIST_INIT, TAILQ_INIT, SLIST_FIRST, STAILQ_FIRST, LIST_FIRST,
        TAILQ_FIRST;
      exec; (eapply (rep_concat _ _ m _ σ h1 h2 []); [done..| | | | | |]; post).
  - pose proof (last_elm_place _ _ _ _ _ _ _ Hrep H1) as (Hhd & Hhd0 & Hlast).
    rewrite !end_cell_snoc in *.
    destruct s; injection Hf as <-;
      (destruct ys as [|y ys]; cbn [hd head end_cell is_dbl has_tail app] in *; place_case);
      unfold SLIST_CONCAT, STAILQ_CONCAT, LIST_CONCAT, TAILQ_CONCAT, STAILQ_EMPTY, TAILQ_EMPTY,
        SLIST_INIT, STAILQ_INIT, LIST_INIT, TAILQ_INIT, SLIST_FIRST, STAILQ_FIRST, LIST_FIRST,
        TAILQ_FIRST;
      repeat qstep; rewrite ?Hlast;
      exec; (eapply (rep_concat _ _ m _ σ h1 h2 (xs ++ [x]));
        [done..| | | | | |]; rewrite ?end_cell_snoc; post).
Qed.

Lemma swap_correct s f m σ h1 h2 xs ys :
  rep (is_dbl s) (has_tail s) m σ → queues σ !! h1 = Some xs → queues σ !! h2 = Some ys →
  h1 ≠ h2 → macro s (Swap h1 h2) = Some f →
  ∃ m', f m = Ok m' ∧ rep (is_dbl s) (has_tail s) m'
    (QState (<[h1 := ys]> (<[h2 := xs]> (queues σ))) (spare σ) (raw σ)).
Proof.
  intros Hrep H1 H2 Hne Hf.
  pose proof (two_facts _ _ _ _ _ _ _ _ Hrep H1 H2 Hne).
  pose proof (place_facts _ _ _ _ _ [] _ Hrep H1).
  pose proof (place_facts _ _ _ _ _ [] _ Hrep H2).
  destruct s; injection Hf as <-;
    (destruct xs as [|x xs], ys as [|y ys]; cbn [hd head end_cell is_dbl has_tail app] in *;
      place_case);
    unfold SLIST_SWAP, STAILQ_SWAP, LIST_SWAP, TAILQ_SWAP, STAILQ_EMPTY, SLIST_FIRST,
      STAILQ_FIRST, LIST_FIRST;
    exec; (eapply (rep_swap _ _ m _ σ h1 h2); [done..| | | | | | |]; post).
Qed.

Lemma init_correct s f m σ h :
  rep (is_dbl s) (has_tail s) m σ → h ∈ raw σ ∨ is_Some (queues σ !! h) →
  macro s (Init h) = Some f →
  ∃ m', f m = Ok m' ∧ rep (is_dbl s) (has_tail s) m'
    (QState (<[h := []]> (queues σ))
       (spare σ ∪ list_to_set (default [] (queues σ !! h))) (raw σ ∖ {[h]})).
Proof.
  intros Hrep Hh Hf.
  assert (is_Some (fwd m !! Head h) ∧ (has_tail s = true → is_Some (bwd m !! Head h))).
  { destruct Hh as [Hh|[items Hh]].
    - destruct (rep_raw _ _ _ _ Hrep _ Hh) as (? & ? & _). done.
    - destruct (rep_queue _ _ _ _ Hrep _ _ Hh) as (_ & Hr & Ht). split.
      + eexists. by eapply run_first.
      + intros Hs. eexists. by apply Ht. }
  destruct s; injection Hf as <-; cbn [is_dbl has_tail] in *; place_case;
    unfold SLIST_INIT, STAILQ_INIT, LIST_INIT, TAILQ_INIT;
    exec; (apply (rep_init _ _ m); [done..| | |]; post).
Qed.

(** *** Every macro does what its reference says *)

Theorem macro_ref s o f m σ σ' :
  macro s o = Some f → rep (is_dbl s) (has_tail s) m σ → ref o σ = Some σ' →
  ∃ m', f m = Ok m' ∧ rep (is_dbl s) (has_tail s) m' σ'.
Proof.
  intros Hf Hrep Href.
  destruct o as [h|h x|h x|h y x|h y x|h x|h|h y|h1 h2|h1 h2]; cbn [ref] in Href.
  - case_decide as Hh; [|done]. injection Href as <-. by eapply init_correct.
  - apply bind_Some in Href as (items & Hq & Href). unfold join in Href.
    case_decide as Hx; [|done]. injection Href as <-. by eapply insert_head_correct.
  - apply bind_Some in Href as (items & Hq & Href). unfold join in Href.
    case_decide as Hx; [|done]. injection Href as <-. by eapply insert_tail_correct.
  - apply bind_Some in Href as (items & Hq & Href).
    apply bind_Some in Href as ([pre suf] & ->%split_at_Some & Href). unfold join in Href.
    case_decide as Hx; [|done]. injection Href as <-. by eapply insert_after_correct.
  - apply bind_Some in Href as (items & Hq & Href).
    apply bind_Some in Href as ([pre suf] & ->%split_at_Some & Href). unfold join in Href.
    case_decide as Hx; [|done]. injection Href as <-. by eapply insert_before_correct.
  - apply bind_Some in Href as (items & Hq & Href).
    apply bind_Some in Href as ([pre suf] & ->%split_at_Some & Href). injection Href as <-.
    destruct (is_dbl s) eqn:Hs; rewrite <- Hs in Hrep |- *;
      [by eapply remove_double_correct|by eapply remove_single_correct].
  - apply bind_Some in Href as ([|x items] & Hq & Href); [done|]. injection Href as <-.
    by eapply remove_head_correct.
  - apply bind_Some in Href as (items & Hq & Href).
    apply bind_Some in Href as ([pre [|x suf]] & ->%split_at_Some & Href); [done|].
    injection Href as <-. by eapply remove_after_correct.
  - apply bind_Some in Href as (xs & H1 & Href). apply bind_Some in Href as (ys & H2 & Href).
    unfold change_two in Href. case_match eqn:E; [done|]. apply Z.eqb_neq in E.
    injection Href as <-. by eapply concat_correct.
  - apply bind_Some in Href as (xs & H1 & Href). apply bind_Some in Href as (ys & H2 & Href).
    unfold change_two in Href. case_match eqn:E; [done|]. apply Z.eqb_neq in E.
    injection Href as <-. by eapply swap_correct.
Qed.

End Correct.
