(* ===== verification/QueueProps.v ===== *)
(** * What the macros of queue.h keep

    A program that declares heads and elements and then calls macros of one structure
    ([exec_all]), next to the same calls on lists ([ref_all]): the macros never fail
    and always agree with the lists, whether [QUEUE_MACRO_DEBUG] or [INVARIANTS] is
    set or not ([queue_macros_keep_lists]); the traversals visit the elements in
    order, from any element and backwards ([traversals_follow_list],
    [reverse_traversals_follow_list]); and the [SAFE] traversals allow the element
    visited to be removed ([safe_traversal_empties_queue]). *)

From S2P Require Import Prelude Queue QueueMacros QueueSpec QueueOps.

Section Histories.
Context {cf : Config}.
Implicit Types (s : structure) (m : qmem) (ops : list op).

Fixpoint exec_all s ops m : res qmem :=
  match ops with
  | [] => Ok m
  | o :: ops =>
      match macro s o with
      | None => Err OutOfBounds
      | Some f => m ← f m; exec_all s ops m
      end
  end.

Fixpoint ref_all ops (σ : qstate) : option qstate :=
  match ops with [] => Some σ | o :: ops => σ ← ref o σ; ref_all ops σ end.

Definition available s (o : op) : bool := bool_decide (is_Some (macro s o)).

(** The heads [hs] and the links of the elements [es] are allocated and hold any
    values. *)
Definition start s m (hs es : list Z) : Prop :=
  Forall (λ h, is_Some (fwd m !! Head h)
    ∧ (has_tail s = true → is_Some (bwd m !! Head h))) hs
  ∧ Forall (live (is_dbl s) m) es.

Definition unused (hs es : list Z) : qstate :=
  QState ∅ (list_to_set es) (list_to_set hs).

(** [m] and [σ] come from the same operations. *)
Definition reached s ops m0 (hs es : list Z) m (σ : qstate) : Prop :=
  start s m0 hs es ∧ ref_all ops (unused hs es) = Some σ ∧ exec_all s ops m0 = Ok m.

Lemma start_rep s m hs es : start s m hs es → rep (is_dbl s) (has_tail s) m (unused hs es).
Proof.
  intros [Hhs Hes]. split; cbn [queues spare raw unused].
  - intros h items. by rewrite lookup_empty.
  - intros h1 h2 xs ys x. by rewrite lookup_empty.
  - intros x Hx%elem_of_list_to_set. split; [|intros h items; by rewrite lookup_empty].
    by apply (proj1 (Forall_forall _ _) Hes).
  - intros h Hh%elem_of_list_to_set.
    destruct (proj1 (Forall_forall _ _) Hhs _ Hh) as [Hf Hb]. by rewrite lookup_empty.
Qed.

Lemma exec_all_rep s ops m σ σ' :
  Forall (available s) ops → rep (is_dbl s) (has_tail s) m σ → ref_all ops σ = Some σ' →
  ∃ m', exec_all s ops m = Ok m' ∧ rep (is_dbl s) (has_tail s) m' σ'.
Proof.
  intros Hav. revert m σ. induction Hav as [|o ops Ho Hav IH]; intros m σ Hrep Href;
    cbn [ref_all exec_all] in *; [injection Href as <-; eauto|].
  apply bind_Some in Href as (σ1 & H1 & H2). unfold available in Ho.
  apply bool_decide_unpack in Ho as [f Hf]. rewrite Hf.
  destruct (macro_ref _ _ _ _ _ _ Hf Hrep H1) as (m1 & -> & Hrep1).
  cbn [mbind res_bind]. by eapply IH.
Qed.

Lemma exec_all_available s ops m m' : exec_all s ops m = Ok m' → Forall (available s) ops.
Proof.
  revert m. induction ops as [|o ops IH]; intros m H; [constructor|].
  cbn [exec_all] in H. destruct (macro s o) as [f|] eqn:Hf; [|done].
  apply res_bind_Ok in H as (m1 & _ & H). constructor; [|by eapply IH].
  apply bool_decide_pack. by rewrite Hf.
Qed.

Lemma reached_rep s ops m0 hs es m σ :
  reached s ops m0 hs es m σ → rep (is_dbl s) (has_tail s) m σ.
Proof.
  intros (Hs & Href & Hex). apply start_rep in Hs.
  destruct (exec_all_rep _ _ _ _ _ (exec_all_available _ _ _ _ Hex) Hs Href)
    as (m' & Hex' & Hrep). congruence.
Qed.

(** ** The readers of the four structures *)

Definition first_of s : qmem → Z → res Z :=
  match s with
  | SLIST => SLIST_FIRST | STAILQ => STAILQ_FIRST | LIST => LIST_FIRST | TAILQ => TAILQ_FIRST
  end.

Definition empty_of s : qmem → Z → res bool :=
  match s with
  | SLIST => SLIST_EMPTY | STAILQ => STAILQ_EMPTY | LIST => LIST_EMPTY | TAILQ => TAILQ_EMPTY
  end.

Definition next_of s : qmem → Z → res Z :=
  match s with
  | SLIST => SLIST_NEXT | STAILQ => STAILQ_NEXT | LIST => LIST_NEXT | TAILQ => TAILQ_NEXT
  end.

Definition foreach_of {A} s : qmem → Z → body_of A → A → res (qmem * A) :=
  match s with
  | SLIST => SLIST_FOREACH | STAILQ => STAILQ_FOREACH | LIST => LIST_FOREACH
  | TAILQ => TAILQ_FOREACH
  end.

Definition foreach_from_of {A} s : qmem → Z → Z → body_of A → A → res (qmem * A) :=
  match s with
  | SLIST => SLIST_FOREACH_FROM | STAILQ => STAILQ_FOREACH_FROM | LIST => LIST_FOREACH_FROM
  | TAILQ => TAILQ_FOREACH_FROM
  end.

Definition foreach_safe_of {A} s : qmem → Z → body_of A → A → res (qmem * A) :=
  match s with
  | SLIST => SLIST_FOREACH_SAFE | STAILQ => STAILQ_FOREACH_SAFE | LIST => LIST_FOREACH_SAFE
  | TAILQ => TAILQ_FOREACH_SAFE
  end.

Definition foreach_from_safe_of {A} s : qmem → Z → Z → body_of A → A → res (qmem * A) :=
  match s with
  | SLIST => SLIST_FOREACH_FROM_SAFE | STAILQ => STAILQ_FOREACH_FROM_SAFE
  | LIST => LIST_FOREACH_FROM_SAFE | TAILQ => TAILQ_FOREACH_FROM_SAFE
  end.

(** ** Traversals of runs *)

(** Both loops visit the elements a step function leads through. *)
Fixpoint leads (step : qmem → Z → res Z) m (items : list Z) : Prop :=
  match items with
  | [] => True
  | x :: items => x ≠ 0 ∧ step m x = Ok (hd 0 items) ∧ leads step m items
  end.

Lemma foreach_leads step m items fuel acc :
  leads step m items → (length items < fuel)%nat →
  foreach fuel step visit (hd 0 items) (m, acc) = Ok (m, acc ++ items)
  ∧ foreach_safe fuel step visit (hd 0 items) (m, acc) = Ok (m, acc ++ items).
Proof.
  revert fuel acc. induction items as [|x items IH]; intros fuel acc Hl Hf;
    (destruct fuel as [|fuel]; [cbn in Hf; lia|]); cbn [leads] in Hl.
  - cbn. by rewrite app_nil_r.
  - destruct Hl as (Hx & Hs & Hl). cbn [hd foreach foreach_safe].
    rewrite (proj2 (Z.eqb_neq _ _) Hx). cbn [visit mbind res_bind mret res_ret fst snd].
    rewrite Hs. cbn [mbind res_bind mret res_ret].
    destruct (IH fuel (acc ++ [x]) Hl) as [-> ->]; [cbn in Hf; lia|].
    by rewrite <- app_assoc.
Qed.

Lemma run_leads dbl m l items : run dbl m l items → leads SLIST_NEXT m items.
Proof.
  revert l. induction items as [|x items IH]; intros l; [done|]. cbn.
  intros (Hx & _ & _ & Hr). split; [done|]. split; [|by eapply IH].
  unfold SLIST_NEXT, get_fwd. apply get_Some; [congruence|]. by eapply run_first.
Qed.

(** A queue fits into the fuel of the loops. *)
Lemma queue_fuel dbl tail m σ h pre suf :
  rep dbl tail m σ → queues σ !! h = Some (pre ++ suf) →
  (length pre < fuel_of m)%nat ∧ (length suf < fuel_of m)%nat.
Proof.
  intros Hrep Hh. destruct (rep_queue _ _ _ _ Hrep _ _ Hh) as (Hnd & Hr & _).
  pose proof (run_size _ _ _ _ Hnd Hr) as Hsz. rewrite length_app in Hsz.
  unfold fuel_of. lia.
Qed.

(** Both loops over the rest of a queue. *)
Lemma loops_visit dbl tail m σ h pre suf :
  rep dbl tail m σ → queues σ !! h = Some (pre ++ suf) →
  foreach (fuel_of m) SLIST_NEXT visit (hd 0 suf) (m, []) = Ok (m, suf)
  ∧ foreach_safe (fuel_of m) SLIST_NEXT visit (hd 0 suf) (m, []) = Ok (m, suf).
Proof.
  intros Hrep Hh. destruct (queue_fuel _ _ _ _ _ _ _ Hrep Hh) as [_ Hf].
  destruct (rep_queue _ _ _ _ Hrep _ _ Hh) as (_ & [_ Hr]%run_app & _).
  by apply foreach_leads; [eapply run_leads|].
Qed.

Lemma get_first dbl tail m σ h items :
  rep dbl tail m σ → queues σ !! h = Some items → get_fwd m (Head h) = Ok (hd 0 items).
Proof.
  intros Hrep Hh. destruct (rep_queue _ _ _ _ Hrep _ _ Hh) as (_ & Hr & _).
  apply get_Some; [done|]. by eapply run_first.
Qed.

Lemma first_of_correct s m σ h items :
  rep (is_dbl s) (has_tail s) m σ → queues σ !! h = Some items →
  first_of s m h = Ok (hd 0 items).
Proof. intros Hrep Hh. pose proof (get_first _ _ _ _ _ _ Hrep Hh). by destruct s. Qed.

Lemma foreach_of_correct s m σ h items :
  rep (is_dbl s) (has_tail s) m σ → queues σ !! h = Some items →
  foreach_of s m h visit [] = Ok (m, items).
Proof.
  intros Hrep Hh. pose proof (first_of_correct _ _ _ _ _ Hrep Hh) as Hf.
  destruct (loops_visit _ _ _ _ _ [] _ Hrep Hh) as [Hv _].
  destruct s; cbn [foreach_of first_of] in *;
    unfold SLIST_FOREACH, STAILQ_FOREACH, LIST_FOREACH, TAILQ_FOREACH; rewrite Hf; apply Hv.
Qed.

Lemma empty_of_correct s m σ h items :
  rep (is_dbl s) (has_tail s) m σ → queues σ !! h = Some items →
  empty_of s m h = Ok (bool_decide (items = [])).
Proof.
  intros Hrep Hh. pose proof (first_of_correct _ _ _ _ _ Hrep Hh) as Hf.
  destruct (rep_queue _ _ _ _ Hrep _ _ Hh) as (_ & Hr & _).
  assert ((hd 0 items =? 0) = bool_decide (items = [])) as Hb.
  { destruct items as [|x items]; [done|]. destruct Hr as (Hx & _). cbn [hd].
    by rewrite bool_decide_false, (proj2 (Z.eqb_neq _ _) Hx). }
  destruct s; cbn [empty_of first_of] in *;
    unfold SLIST_EMPTY, STAILQ_EMPTY, LIST_EMPTY, TAILQ_EMPTY; rewrite Hf;
    cbn [mbind res_bind mret res_ret]; by rewrite Hb.
Qed.

(** ** The properties *)

(** C17: Whatever program of macro calls that is right about its lists is run on
    allocated heads and elements with arbitrary contents, the macros of all four
    structures end without a fault or a panic, and then the first element, the test for
    emptiness and a traversal of every queue are those of the list it stands for. *)
Theorem queue_macros_keep_lists s ops m hs es σ :
  start s m hs es → Forall (available s) ops → ref_all ops (unused hs es) = Some σ →
  ∃ m', exec_all s ops m = Ok m' ∧
    ∀ h items, queues σ !! h = Some items →
      first_of s m' h = Ok (hd 0 items)
      ∧ empty_of s m' h = Ok (bool_decide (items = []))
      ∧ foreach_of s m' h visit [] = Ok (m', items).
Proof.
  intros Hs Hav Href. apply start_rep in Hs.
  destruct (exec_all_rep _ _ _ _ _ Hav Hs Href) as (m' & Hex & Hrep).
  exists m'. split; [done|]. intros h items Hh.
  split; [by eapply first_of_correct|]. split; [by eapply empty_of_correct|].
  by eapply foreach_of_correct.
Qed.

Lemma prevptr_run dbl m l items fuel acc :
  l ≠ Elem 0 → run dbl m l items → (length items < fuel)%nat →
  foreach_prevptr fuel m l acc = Ok (acc ++ zip items (cells l items)).
Proof.
  revert l fuel acc. induction items as [|x items IH]; intros l fuel acc Hl Hr Hf;
    (destruct fuel as [|fuel]; [cbn in Hf; lia|]); cbn in Hr; cbn [foreach_prevptr].
  - rewrite (bind_get_fwd _ _ 0) by done. cbn. by rewrite app_nil_r.
  - destruct Hr as (Hx & Hn & _ & Hr). rewrite (bind_get_fwd _ _ x) by done.
    rewrite (proj2 (Z.eqb_neq _ _) Hx).
    rewrite IH; [|congruence|done|cbn in Hf; lia]. by rewrite <- app_assoc.
Qed.

(** C26: After any such program, the traversals of a queue follow its list: from the
    first element or from any given one, with or without reading the next element
    ahead, and [SLIST_FOREACH_PREVPTR] gives with each element the address of the
    pointer to it. *)
Theorem traversals_follow_list s ops m0 hs es m σ h pre x suf :
  reached s ops m0 hs es m σ → queues σ !! h = Some (pre ++ x :: suf) →
  next_of s m x = Ok (hd 0 suf)
  ∧ foreach_safe_of s m h visit [] = Ok (m, pre ++ x :: suf)
  ∧ foreach_from_of s m h 0 visit [] = Ok (m, pre ++ x :: suf)
  ∧ foreach_from_safe_of s m h 0 visit [] = Ok (m, pre ++ x :: suf)
  ∧ foreach_from_of s m h x visit [] = Ok (m, x :: suf)
  ∧ foreach_from_safe_of s m h x visit [] = Ok (m, x :: suf)
  ∧ (s = SLIST → SLIST_FOREACH_PREVPTR m h
      = Ok (zip (pre ++ x :: suf) (cells (Head h) (pre ++ x :: suf)))).
Proof.
  intros Hre%reached_rep Hh. rename Hre into Hrep.
  pose proof (first_of_correct _ _ _ _ _ Hrep Hh) as Hf.
  destruct (rep_queue _ _ _ _ Hrep _ _ Hh) as (_ & Hr & _).
  pose proof Hr as [_ (Hx & _ & _ & Hr2)]%run_app.
  destruct (loops_visit _ _ _ _ _ [] _ Hrep Hh) as [Hv Hvs].
  destruct (loops_visit _ _ _ _ _ pre _ Hrep Hh) as [Hu Hus]. cbn [hd] in Hu, Hus.
  assert (get_fwd m (Elem x) = Ok (hd 0 suf)) as Hn.
  { apply get_Some; [congruence|]. by eapply run_first. }
  destruct s; cbn [next_of foreach_safe_of foreach_from_of foreach_from_safe_of first_of] in *;
    unfold SLIST_FOREACH_SAFE, STAILQ_FOREACH_SAFE, LIST_FOREACH_SAFE, TAILQ_FOREACH_SAFE,
      SLIST_FOREACH_FROM, STAILQ_FOREACH_FROM, LIST_FOREACH_FROM, TAILQ_FOREACH_FROM,
      SLIST_FOREACH_FROM_SAFE, STAILQ_FOREACH_FROM_SAFE, LIST_FOREACH_FROM_SAFE,
      TAILQ_FOREACH_FROM_SAFE;
    rewrite (proj2 (Z.eqb_neq x 0) Hx), Z.eqb_refl, Hf; (do 6 (split; [done|]));
    intros Hs; try discriminate Hs.
  apply (prevptr_run false _ _ _ _ []); [done|exact Hr|].
  by apply (queue_fuel _ _ _ _ _ [] _ Hrep Hh).
Qed.

(** ** Backwards *)

(** Reading a link as a head gives the pointer that leads to the element before. *)
Lemma back_step m σ h pre suf :
  rep true true m σ → queues σ !! h = Some (pre ++ suf) →
  ∃ l, bwd m !! end_cell (Head h) pre = Some l ∧ l ≠ Elem 0
    ∧ fwd m !! l = Some (default 0 (last pre)).
Proof.
  intros Hrep Hh. destruct pre as [|y pre _] using rev_ind.
  - destruct (place_facts _ _ _ _ _ [] _ Hrep Hh) as (_ & _ & Ht & _).
    assert (queues σ !! h = Some (suf ++ [])) as Hh' by by rewrite app_nil_r.
    destruct (place_facts _ _ _ _ _ _ _ Hrep Hh') as (Hne & Hf & _).
    exists (end_cell (Head h) suf). split; [by apply Ht|done].
  - rewrite <- app_assoc in Hh. cbn [app] in Hh.
    destruct (place_facts _ _ _ _ _ _ _ Hrep Hh) as (Hne & Hf & _ & Hn).
    destruct (Hn y eq_refl) as (_ & _ & _ & Hb).
    rewrite end_cell_snoc, last_snoc. eexists. split; [by apply Hb|done].
Qed.

Lemma tailq_last m σ h items :
  rep true true m σ → queues σ !! h = Some items →
  TAILQ_LAST m h = Ok (default 0 (last items)).
Proof.
  intros Hrep Hh. destruct (place_facts _ _ _ _ _ [] _ Hrep Hh) as (_ & _ & Ht & _).
  assert (queues σ !! h = Some (items ++ [])) as Hh' by by rewrite app_nil_r.
  destruct (back_step _ _ _ _ _ Hrep Hh') as (l & Hl & Hl0 & Hf).
  destruct (place_facts _ _ _ _ _ _ _ Hrep Hh') as (Hne & _).
  unfold TAILQ_LAST. erewrite bind_get_bwd; [|done|by apply Ht].
  rewrite (bind_get_bwd _ _ _ _ Hne Hl). unfold get_fwd. by apply get_Some.
Qed.

Lemma tailq_prev m σ h pre x suf :
  rep true true m σ → queues σ !! h = Some (pre ++ x :: suf) →
  TAILQ_PREV m x = Ok (default 0 (last pre)).
Proof.
  intros Hrep Hh. destruct (place_facts _ _ _ _ _ _ _ Hrep Hh) as (Hne & _ & _ & Hn).
  destruct (Hn x eq_refl) as (Hx & _ & _ & Hb).
  destruct (back_step _ _ _ _ _ Hrep Hh) as (l & Hl & Hl0 & Hf).
  unfold TAILQ_PREV. erewrite bind_get_bwd; [|congruence|by apply Hb].
  rewrite (bind_get_bwd _ _ _ _ Hne Hl). unfold get_fwd. by apply get_Some.
Qed.

Lemma hd_reverse (items : list Z) : hd 0 (reverse items) = default 0 (last items).
Proof. rewrite <- head_reverse. by destruct (reverse items). Qed.

(** Both loops over a queue backwards, from behind [pre]. *)
Lemma loops_reverse m σ h pre suf :
  rep true true m σ → queues σ !! h = Some (pre ++ suf) →
  foreach (fuel_of m) TAILQ_PREV visit (default 0 (last pre)) (m, []) = Ok (m, reverse pre)
  ∧ foreach_safe (fuel_of m) TAILQ_PREV visit (default 0 (last pre)) (m, [])
    = Ok (m, reverse pre).
Proof.
  intros Hrep Hh. rewrite <- hd_reverse. apply foreach_leads.
  - revert suf Hh. induction pre as [|x pre IH] using rev_ind; intros suf Hh; [done|].
    rewrite <- app_assoc in Hh. cbn [app] in Hh. rewrite reverse_snoc.
    destruct (place_facts _ _ _ _ _ _ _ Hrep Hh) as (_ & _ & _ & Hn).
    destruct (Hn x eq_refl) as (Hx & _). split; [done|]. split; [|by eapply IH].
    rewrite hd_reverse. by eapply tailq_prev.
  - rewrite length_reverse. by apply (queue_fuel _ _ _ _ _ _ _ Hrep Hh).
Qed.

Lemma end_cell_last l items x : last items = Some x → end_cell l items = Elem x.
Proof.
  destruct items as [|y items _] using rev_ind; [done|].
  rewrite last_snoc, end_cell_snoc. by intros [= ->].
Qed.

(** After any such program the macros that look backwards agree with the list:
    [LIST_PREV], [STAILQ_LAST] and, reading the links of elements through pointers to
    heads, [TAILQ_LAST], [TAILQ_PREV] and the reverse traversals, which visit the
    elements before a given one, or all, in reverse order. *)
Theorem reverse_traversals_follow_list s ops m0 hs es m σ h pre x suf :
  reached s ops m0 hs es m σ → queues σ !! h = Some (pre ++ x :: suf) →
  match s with
  | SLIST => True
  | STAILQ => STAILQ_LAST m h = Ok (default 0 (last (x :: suf)))
  | LIST => LIST_PREV m x h = Ok (default 0 (last pre))
  | TAILQ =>
      TAILQ_LAST m h = Ok (default 0 (last (x :: suf)))
      ∧ TAILQ_PREV m x = Ok (default 0 (last pre))
      ∧ TAILQ_FOREACH_REVERSE m h visit [] = Ok (m, reverse (pre ++ x :: suf))
      ∧ TAILQ_FOREACH_REVERSE_SAFE m h visit [] = Ok (m, reverse (pre ++ x :: suf))
      ∧ TAILQ_FOREACH_REVERSE_FROM m h x visit [] = Ok (m, reverse (pre ++ [x]))
      ∧ TAILQ_FOREACH_REVERSE_FROM_SAFE m h x visit [] = Ok (m, reverse (pre ++ [x]))
  end.
Proof.
  intros Hrep%reached_rep Hh. destruct s; cbn [is_dbl has_tail] in Hrep; [done|..].
  - destruct (place_facts _ _ _ _ _ [] _ Hrep Hh) as (_ & Hf & Ht & _).
    destruct (place_facts _ _ _ _ _ _ _ Hrep Hh) as (_ & _ & _ & Hn).
    assert (hd 0 (pre ++ x :: suf) ≠ 0) as Hne.
    { destruct (rep_queue _ _ _ _ Hrep _ _ Hh) as (_ & Hr & _).
      eapply run_nonzero; [done|]. destruct pre; apply list_elem_of_here. }
    unfold STAILQ_LAST, STAILQ_EMPTY, STAILQ_FIRST. repeat qstep.
    erewrite bind_get_bwd; [|done|by apply Ht].
    rewrite <- (last_app_cons pre). destruct (last (pre ++ x :: suf)) as [y|] eqn:Hy.
    + by rewrite (end_cell_last _ _ y).
    + apply last_None in Hy. by destruct pre.
  - destruct (place_facts _ _ _ _ _ _ _ Hrep Hh) as (_ & _ & _ & Hn).
    destruct (Hn x eq_refl) as (Hx & _ & _ & Hb). specialize (Hb eq_refl).
    unfold LIST_PREV. qstep. destruct pre as [|y pre _] using rev_ind; [by rewrite decide_True|].
    rewrite end_cell_snoc, last_snoc. by rewrite decide_False.
  - assert (last (pre ++ x :: suf) = last (x :: suf)) as Hl by apply last_app_cons.
    rewrite <- Hl.
    assert (queues σ !! h = Some ((pre ++ x :: suf) ++ [])) as Hh' by by rewrite app_nil_r.
    assert (queues σ !! h = Some ((pre ++ [x]) ++ suf)) as Hh2 by by rewrite <- app_assoc.
    destruct (loops_reverse _ _ _ _ _ Hrep Hh') as [Hr Hrs].
    destruct (loops_reverse _ _ _ _ _ Hrep Hh2) as [Hu Hus]. rewrite last_snoc in Hu, Hus.
    destruct (place_facts _ _ _ _ _ _ _ Hrep Hh) as (_ & _ & _ & Hn).
    destruct (Hn x eq_refl) as (Hx & _).
    pose proof (tailq_last _ _ _ _ Hrep Hh) as Hla.
    unfold TAILQ_FOREACH_REVERSE, TAILQ_FOREACH_REVERSE_SAFE, TAILQ_FOREACH_REVERSE_FROM,
      TAILQ_FOREACH_REVERSE_FROM_SAFE. rewrite (proj2 (Z.eqb_neq x 0) Hx), Hla.
    split; [done|]. split; [by eapply tailq_prev|]. done.
Qed.

(** ** Removal while traversing *)

(** A body that takes the element it visits out of the queue [h]. *)
Definition remove_visited s h : body_of (list Z) := λ var st,
  match macro s (Remove h var) with
  | Some f => m ← f st.1; mret (m, st.2 ++ [var])
  | None => Err OutOfBounds
  end.

(** The lists when a whole queue has been taken out. *)
Definition emptied (σ : qstate) h items : qstate :=
  QState (<[h := []]> (queues σ)) (spare σ ∪ list_to_set items) (raw σ).

Lemma remove_visited_ref s m σ h x items acc :
  rep (is_dbl s) (has_tail s) m σ → queues σ !! h = Some (x :: items) →
  ∃ m', remove_visited s h x (m, acc) = Ok (m', acc ++ [x])
    ∧ rep (is_dbl s) (has_tail s) m'
        (QState (<[h := items]> (queues σ)) (spare σ ∪ {[x]}) (raw σ)).
Proof.
  intros Hrep Hh. unfold remove_visited.
  assert (is_Some (macro s (Remove h x))) as [f Hf] by by destruct s; eexists.
  rewrite Hf. destruct (macro_ref _ _ _ _ _
    (QState (<[h := items]> (queues σ)) (spare σ ∪ {[x]}) (raw σ)) Hf Hrep)
    as (m' & Hm & Hrep').
  { cbn [ref]. rewrite Hh. cbn [mbind option_bind split_at]. by rewrite Z.eqb_refl. }
  exists m'. cbn [fst snd]. by rewrite Hm.
Qed.

Lemma safe_removes s m σ h items fuel acc :
  rep (is_dbl s) (has_tail s) m σ → queues σ !! h = Some items → (length items < fuel)%nat →
  ∃ m', foreach_safe fuel SLIST_NEXT (remove_visited s h) (hd 0 items) (m, acc)
      = Ok (m', acc ++ items)
    ∧ rep (is_dbl s) (has_tail s) m' (emptied σ h items).
Proof.
  revert m σ fuel acc. induction items as [|x items IH]; intros m σ fuel acc Hrep Hh Hf;
    (destruct fuel as [|fuel]; [cbn in Hf; lia|]).
  - exists m. rewrite app_nil_r. split; [done|]. unfold emptied.
    rewrite insert_id by done. rewrite list_to_set_nil, (right_id_L ∅ (∪)).
    by destruct σ.
  - destruct (rep_queue _ _ _ _ Hrep _ _ Hh) as (_ & (Hx & _ & _ & Hr) & _).
    apply run_leads in Hr as Hl. cbn [hd foreach_safe].
    rewrite (proj2 (Z.eqb_neq _ _) Hx).
    assert (SLIST_NEXT m x = Ok (hd 0 items)) as Hn.
    { unfold SLIST_NEXT, get_fwd. apply get_Some; [congruence|]. by eapply run_first. }
    cbn [fst]. rewrite Hn. cbn [mbind res_bind].
    destruct (remove_visited_ref _ _ _ _ _ _ acc Hrep Hh) as (m1 & -> & Hrep1).
    cbn [mbind res_bind].
    destruct (IH _ _ fuel (acc ++ [x]) Hrep1) as (m2 & -> & Hrep2);
      [apply lookup_insert_eq|cbn in Hf; lia|].
    exists m2. rewrite <- app_assoc. split; [done|]. revert Hrep2. unfold emptied.
    cbn [queues spare raw]. rewrite insert_insert_eq, list_to_set_cons, (assoc_L (∪)). done.
Qed.

(** C27: A [SAFE] traversal of any of the four structures whose body removes the element
    it visits, which with [QUEUE_MACRO_DEBUG] destroys the links of that element, visits
    every element once and leaves this queue empty and the others as they were. *)
Theorem safe_traversal_empties_queue s ops m0 hs es m σ h items :
  reached s ops m0 hs es m σ → queues σ !! h = Some items →
  ∃ m', foreach_safe_of s m h (remove_visited s h) [] = Ok (m', items)
    ∧ empty_of s m' h = Ok true
    ∧ ∀ h' items', h' ≠ h → queues σ !! h' = Some items' →
        foreach_of s m' h' visit [] = Ok (m', items').
Proof.
  intros Hrep%reached_rep Hh.
  pose proof (first_of_correct _ _ _ _ _ Hrep Hh) as Hf.
  destruct (queue_fuel _ _ _ _ _ [] _ Hrep Hh) as [_ Hfuel].
  destruct (safe_removes _ _ _ _ _ _ [] Hrep Hh Hfuel) as (m' & Hs & Hrep').
  exists m'. split; [|split].
  - destruct s; cbn [foreach_safe_of first_of] in *;
      unfold SLIST_FOREACH_SAFE, STAILQ_FOREACH_SAFE, LIST_FOREACH_SAFE, TAILQ_FOREACH_SAFE;
      rewrite Hf; exact Hs.
  - rewrite (empty_of_correct _ _ _ h [] Hrep'); [done|apply lookup_insert_eq].
  - intros h' items' Hne Hh'. eapply foreach_of_correct; [done|].
    cbn [emptied queues]. by rewrite lookup_insert_ne.
Qed.

End Histories.

(** ** Witnesses *)

Module Demo.

(** Everything switched on. *)
#[local] Instance full : Config := {| queue_macro_debug := true; invariants := true |}.

(** Two heads and four elements with garbage in their links. *)
Definition cells0 : list loc := [Head 1; Head 2; Elem 10; Elem 11; Elem 12; Elem 13].
Definition m0 : qmem :=
  QMem (list_to_map ((λ l, (l, 99)) <$> cells0)) (list_to_map ((λ l, (l, Elem 77)) <$> cells0)).

Definition ops : list op :=
  [Init 1; Init 2; InsertHead 1 10; InsertTail 1 11; InsertAfter 1 10 12; InsertBefore 1 10 13;
   Remove 1 12; InsertHead 2 12; Concat 1 2; Swap 1 2; Remove 2 10; InsertTail 1 10].

(** The same without [InsertTail] and [InsertBefore], which not all have. *)
Definition ops_all : list op :=
  [Init 1; Init 2; InsertHead 1 10; InsertAfter 1 10 11; InsertAfter 1 10 12; InsertHead 2 13;
   Remove 1 11; Concat 1 2; Swap 1 2; InsertHead 1 11].

Definition hs : list Z := [1; 2].
Definition es : list Z := [10; 11; 12; 13].
Definition σ1 (ops : list op) : qstate := default (unused [] []) (ref_all ops (unused hs es)).
Definition m1 (s : structure) (ops : list op) : qmem :=
  match exec_all s ops m0 with Ok m => m | Err _ => m0 end.

Lemma start_m0 s : start s m0 hs es.
Proof.
  destruct s; (split; repeat apply Forall_cons_2; try apply Forall_nil_2;
    (split; [try done|]); try (split; [|]); try done; intros; by eexists).
Qed.

Lemma reached_m1 s ops :
  bool_decide (is_Some (ref_all ops (unused hs es))) = true →
  match exec_all s ops m0 with Ok _ => true | Err _ => false end = true →
  reached s ops m0 hs es (m1 s ops) (σ1 ops).
Proof.
  intros [σ Hσ]%bool_decide_eq_true Hm. split; [apply start_m0|]. unfold σ1, m1.
  rewrite Hσ. split; [done|]. by destruct (exec_all s ops m0).
Qed.

Lemma queue_macros_keep_lists_witness :
  start TAILQ m0 hs es ∧ Forall (available TAILQ) ops ∧
  ∃ m, exec_all TAILQ ops m0 = Ok m
    ∧ foreach_of TAILQ m 1 visit [] = Ok (m, [10])
    ∧ foreach_of TAILQ m 2 visit [] = Ok (m, [13; 11; 12]).
Proof.
  assert (Forall (available TAILQ) ops) as Hav by (repeat constructor).
  split; [apply start_m0|]. split; [exact Hav|].
  destruct (queue_macros_keep_lists TAILQ ops m0 hs es (σ1 ops) (start_m0 TAILQ) Hav)
    as (m & Hm & H); [vm_compute; reflexivity|].
  exists m. split; [exact Hm|].
  split; [apply (H 1 [10])|apply (H 2 [13; 11; 12])]; vm_compute; reflexivity.
Defined.

Lemma traversals_follow_list_witness :
  reached SLIST ops_all m0 hs es (m1 SLIST ops_all) (σ1 ops_all)
  ∧ foreach_from_of SLIST (m1 SLIST ops_all) 2 12 visit [] = Ok (m1 SLIST ops_all, [12; 13])
  ∧ SLIST_FOREACH_PREVPTR (m1 SLIST ops_all) 2
    = Ok [(10, Head 2); (12, Elem 10); (13, Elem 12)].
Proof.
  assert (reached SLIST ops_all m0 hs es (m1 SLIST ops_all) (σ1 ops_all)) as H
    by (apply reached_m1; vm_compute; reflexivity).
  split; [exact H|].
  destruct (traversals_follow_list SLIST ops_all m0 hs es _ _ 2 [10] 12 [13] H)
    as (_ & _ & _ & _ & Hx & _ & Hp); [vm_compute; reflexivity|].
  split; [exact Hx|exact (Hp eq_refl)].
Defined.

Lemma reverse_traversals_follow_list_witness :
  reached TAILQ ops m0 hs es (m1 TAILQ ops) (σ1 ops)
  ∧ TAILQ_PREV (m1 TAILQ ops) 11 = Ok 13
  ∧ TAILQ_FOREACH_REVERSE (m1 TAILQ ops) 2 visit [] = Ok (m1 TAILQ ops, [12; 11; 13]).
Proof.
  assert (reached TAILQ ops m0 hs es (m1 TAILQ ops) (σ1 ops)) as H
    by (apply reached_m1; vm_compute; reflexivity).
  split; [exact H|].
  destruct (reverse_traversals_follow_list TAILQ ops m0 hs es _ _ 2 [13] 11 [12] H)
    as (_ & Hp & Hr & _); [vm_compute; reflexivity|].
  split; [exact Hp|exact Hr].
Defined.

Lemma safe_traversal_empties_queue_witness :
  reached LIST [Init 1; InsertHead 1 10; InsertBefore 1 10 11] m0 hs es
    (m1 LIST [Init 1; InsertHead 1 10; InsertBefore 1 10 11])
    (σ1 [Init 1; InsertHead 1 10; InsertBefore 1 10 11])
  ∧ ∃ m, foreach_safe_of LIST (m1 LIST [Init 1; InsertHead 1 10; InsertBefore 1 10 11]) 1
      (remove_visited LIST 1) [] = Ok (m, [11; 10])
    ∧ empty_of LIST m 1 = Ok true.
Proof.
  assert (reached LIST [Init 1; InsertHead 1 10; InsertBefore 1 10 11] m0 hs es
    (m1 LIST [Init 1; InsertHead 1 10; InsertBefore 1 10 11])
    (σ1 [Init 1; InsertHead 1 10; InsertBefore 1 10 11])) as H
    by (apply reached_m1; vm_compute; reflexivity).
  split; [exact H|].
  destruct (safe_traversal_empties_queue LIST _ m0 hs es _ _ 1 [11; 10] H)
    as (m & Hs & He & _); [vm_compute; reflexivity|].
  exists m. split; [exact Hs|exact He].
Defined.

End Demo.
