(* ===== verification/Server.v ===== *)
(** * The socket server

    Models [server/aesdsocket.c] and [aesdsocket.h].  The variables of the process
    are the globals of the file and its typed memory: [struct aesdsocketclientconn],
    [clientconn_info] and the [char *] cells that [malloc] returned.  Such an
    object has its block in the heap, which says whether it is still allocated,
    and its contents in the typed store. *)

From Stdlib Require Import String.
From S2P Require Import Prelude Memory Kernel AesdIoctl CString Posix DataFile SList.

Definition BUFFER_SIZE : Z := 128.
Definition LISTEN_BACKLOG : Z := 10.
Definition SERVER_PORT : list Z := str "9000".
Definition readbuf_size : Z := 1024 * 100.

Definition SIGINT : Z := 2.
Definition SIGTERM : Z := 15.
Definition EXIT_SUCCESS : Z := 0.
Definition EXIT_FAILURE : Z := 1.

(** [&mutex], the address of the global. *)
Definition the_mutex : Z := 1.

Record aesdsocketclientconn := Conn {
  data_fd : Z;
  client_fd : Z;
  client_ip_addr : Z;
  mutex : Z;
  init_buffer_size : Z;
  buffer_cell : Z                 (* [char **buffer] *)
}.

Definition sizeof_conn : Z := 40.

(** [clientconn_info] without its list link, which is in the [slist]. *)
Record clientconn_info := Info { thread_id : Z; ref : Z }.

Definition sizeof_info : Z := 24.

Record server := Server {
  server_fd : Z;
  timer_id : Z;
  stopApp : Z;
  connections : slist;
  infos : gmap Z clientconn_info;
  conns : gmap Z aesdsocketclientconn;
  cells : gmap Z Z
}.

Definition with_server_fd (fd : Z) (v : server) : server :=
  Server fd (timer_id v) (stopApp v) (connections v) (infos v) (conns v) (cells v).
Definition with_timer_id (t : Z) (v : server) : server :=
  Server (server_fd v) t (stopApp v) (connections v) (infos v) (conns v) (cells v).
Definition with_stopApp (x : Z) (v : server) : server :=
  Server (server_fd v) (timer_id v) x (connections v) (infos v) (conns v) (cells v).
Definition with_connections (l : slist) (v : server) : server :=
  Server (server_fd v) (timer_id v) (stopApp v) l (infos v) (conns v) (cells v).
Definition with_infos (m : gmap Z clientconn_info) (v : server) : server :=
  Server (server_fd v) (timer_id v) (stopApp v) (connections v) m (conns v) (cells v).
Definition with_conns (m : gmap Z aesdsocketclientconn) (v : server) : server :=
  Server (server_fd v) (timer_id v) (stopApp v) (connections v) (infos v) m (cells v).
Definition with_cells (m : gmap Z Z) (v : server) : server :=
  Server (server_fd v) (timer_id v) (stopApp v) (connections v) (infos v) (conns v) m.

Definition with_data_fd (fd : Z) (c : aesdsocketclientconn) : aesdsocketclientconn :=
  Conn fd (client_fd c) (client_ip_addr c) (mutex c) (init_buffer_size c) (buffer_cell c).

(** Reading a typed object through a pointer. *)
Definition deref {A} (m : gmap Z A) (p : Z) : res A :=
  if p =? 0 then Err NullDeref
  else match m !! p with Some x => Ok x | None => Err OutOfBounds end.

Section Server.
Context {O : OS}.
Variable USE_AESD_CHAR_DEVICE : bool.
(* what uninitialised local variables hold *)
Variables x0 y0 : Z.
(* the text of the address [accept] gives *)
Variable inet_ntoa : list Z → list Z.

Abbreviation prog := (prog server).

Definition modify (f : server → server) : prog unit := v ← get_vars; set_vars (f v).

Definition get_conn (p : Z) : prog aesdsocketclientconn :=
  v ← get_vars; lift (deref (conns v) p).

Definition put_conn (p : Z) (c : aesdsocketclientconn) : prog unit :=
  if p =? 0 then lift (Err NullDeref) else modify (λ v, with_conns (<[p := c]> (conns v)) v).

Definition get_cell (p : Z) : prog Z := v ← get_vars; lift (deref (cells v) p).

Definition put_cell (p x : Z) : prog unit :=
  if p =? 0 then lift (Err NullDeref) else modify (λ v, with_cells (<[p := x]> (cells v)) v).

Definition put_info (p : Z) (i : clientconn_info) : prog unit :=
  if p =? 0 then lift (Err NullDeref)
  else modify (λ v, with_infos (<[p := i]> (infos v))
                     (with_connections (SL (slh_first (connections v))
                        (<[p := 0]> (sle_next (connections v)))) v)).

Definition put_byte (p i x : Z) : prog unit :=
  h ← get_heap; h ← lift (store h p i x); set_heap h.

(** The memory from the pointer [p] on. *)
Definition get_mem (p : Z) : prog (list Z) :=
  h ← get_heap; b ← lift (blk_get h p); mret (blk_mem b).

Definition free_conn (p : Z) : prog unit :=
  _ ← p_free p; modify (λ v, with_conns (delete p (conns v)) v).
Definition free_cell (p : Z) : prog unit :=
  _ ← p_free p; modify (λ v, with_cells (delete p (cells v)) v).
Definition free_info (p : Z) : prog unit :=
  _ ← p_free p;
  modify (λ v, with_infos (delete p (infos v))
                (with_connections (SL (slh_first (connections v))
                   (delete p (sle_next (connections v)))) v)).

(** ** Connections *)

Fixpoint send_loop (fuel : nat) (data_fd client_fd : Z) : prog Z :=
  match fuel with
  | 0%nat => lift (Err OutOfFuel)
  | S fuel =>
    a ← syscall (Cread data_fd readbuf_size);
    let m := s32 (rc a) in
    if 0 <? m then
      r ← do_call (Csend client_fd (take (Z.to_nat m) (out a)));
      let rc := s32 r in
      if rc <? 0 then mret rc else send_loop fuel data_fd client_fd
    else mret 0
  end.

(** Every iteration but the last reads a byte. *)
Definition send_response (data_fd client_fd : Z) : prog Z :=
  _ ← adjust_datafile_pos USE_AESD_CHAR_DEVICE data_fd 0 SEEK_SET;
  with_world (λ w, send_loop (S (length (unread w data_fd))) data_fd client_fd).

(** [k] and [has_nl] of the handler, for the bytes received. *)
Fixpoint find_newline (recv_buf : list Z) (k : Z) : Z * bool :=
  match recv_buf with
  | [] => (k, false)
  | c :: recv_buf => if c =? NEWLINE then (k, true) else find_newline recv_buf (k + 1)
  end.

(** How an iteration of the receive loop ends. *)
Inductive next : Type :=
| Continue (maxbuflen buflen : Z)
| Break.

(** [append_string(args->buffer, &maxbuflen, buflen, in_buf, n)]. *)
Definition append_to_conn (args maxbuflen buflen : Z) (in_buf : list Z) (n : Z) : prog Z :=
  c ← get_conn args;
  p ← get_cell (buffer_cell c);
  '(q, maxbuflen) ← append_string p maxbuflen buflen in_buf n;
  _ ← put_cell (buffer_cell c) q;
  mret maxbuflen.

(** The second half of the part under the lock: answer, unlock, keep the rest. *)
Definition answer_message (args : Z) (c : aesdsocketclientconn) (data_fd maxbuflen : Z)
    (recv_buf : list Z) (n k : Z) : prog next :=
  rc ← send_response data_fd (client_fd c);
  if rc <? 0 then mret Break
  else
    rc ← do_call (Cmutex_unlock (mutex c));
    if negb (rc =? 0) then mret Break
    else if k <? n then
      let buflen := n - k - 1 in
      maxbuflen ← append_to_conn args maxbuflen buflen (drop (Z.to_nat (k + 1)) recv_buf) buflen;
      mret (Continue maxbuflen buflen)
    else mret (Continue maxbuflen 0).

(** The part under the lock: append the message, empty the buffer, answer. *)
Definition handle_message (args data_fd maxbuflen : Z) (recv_buf : list Z) (n k : Z) : prog next :=
  c ← get_conn args;
  rc ← do_call (Cmutex_lock (mutex c));
  if negb (rc =? 0) then mret Break
  else
    p ← get_cell (buffer_cell c);
    mem ← get_mem p;
    len ← lift (strlen mem);
    _ ← append_datafile USE_AESD_CHAR_DEVICE x0 y0 data_fd mem (s32 len);
    _ ← put_byte p 0 NUL;
    answer_message args c data_fd maxbuflen recv_buf n k.

(** One iteration of the receive loop, for the [n] bytes of [recv_buf]. *)
Definition handle_chunk (args maxbuflen buflen : Z) (recv_buf : list Z) (n : Z) : prog next :=
  data_fd ← open_datafile USE_AESD_CHAR_DEVICE;
  c ← get_conn args;
  _ ← put_conn args (with_data_fd data_fd c);
  pos ← adjust_datafile_pos USE_AESD_CHAR_DEVICE data_fd 0 SEEK_END;
  if -1 <? pos then
    let '(k, has_nl) := find_newline recv_buf 0 in
    let currlen := if k + 1 <? n then k + 1 else n in
    maxbuflen ← append_to_conn args maxbuflen buflen recv_buf currlen;
    let buflen := u64 (buflen + currlen) in
    if (has_nl : bool) then handle_message args data_fd maxbuflen recv_buf n k
    else mret (Continue maxbuflen buflen)
  else mret Break.

Fixpoint recv_loop (fuel : nat) (args maxbuflen buflen : Z) : prog unit :=
  match fuel with
  | 0%nat => lift (Err OutOfFuel)
  | S fuel =>
    c ← get_conn args;
    a ← syscall (Crecv (client_fd c) BUFFER_SIZE);
    let n := s32 (rc a) in
    if 0 <? n then
      r ← handle_chunk args maxbuflen buflen (take (Z.to_nat n) (out a)) n;
      match r with
      | Continue maxbuflen buflen => recv_loop fuel args maxbuflen buflen
      | Break => mret ()
      end
    else mret ()
  end.

Definition connection_cleanup (args : Z) : prog unit :=
  c ← get_conn args;
  _ ← do_call (Cclose (client_fd c));
  _ ← (if negb (data_fd c =? 0) then close_datafile (data_fd c) else mret ());
  p ← get_cell (buffer_cell c);
  _ ← p_free p;
  _ ← free_cell (buffer_cell c);
  _ ← p_free (client_ip_addr c);
  _ ← do_call (Cmutex_unlock (mutex c));
  mret ().

(** What is enclosed by [pthread_cleanup_push] and [pthread_cleanup_pop]: one round of the
    receive loop per chunk the client sends, and the last one. *)
Definition receive_all (args : Z) : prog unit :=
  c ← get_conn args;
  p ← get_cell (buffer_cell c);
  _ ← put_byte p 0 NUL;
  with_world (λ w, recv_loop (S (length (incoming w (client_fd c)))) args
                     (init_buffer_size c) 0).

Definition connnection_handler (args : Z) : prog Z :=
  _ ← with_cleanup (receive_all args) (connection_cleanup args);
  mret args.

(** ** The list of connections *)

Fixpoint cleanup_loop (fuel : nat) (await_termination item : Z) : prog unit :=
  match fuel with
  | 0%nat => lift (Err OutOfFuel)
  | S fuel =>
    if item =? 0 then mret ()
    else
      v ← get_vars;
      tmp_item ← lift (SLIST_NEXT (connections v) item);
      i ← lift (deref (infos v) item);
      rc ← do_call (if negb (await_termination =? 0) then Cthread_join (thread_id i)
                    else Cthread_tryjoin (thread_id i));
      _ ← (if rc =? 0 then
             l ← lift (SLIST_REMOVE (connections v) item);
             _ ← modify (with_connections l);
             _ ← free_conn (ref i);
             free_info item
           else mret ());
      cleanup_loop fuel await_termination tmp_item
  end.

(** The loop visits each element once. *)
Definition cleanup_term_conn (await_termination : Z) : prog unit :=
  v ← get_vars;
  cleanup_loop (S (size (sle_next (connections v)))) await_termination
    (SLIST_FIRST (connections v)).

Definition strcpy_new (p : Z) (s : list Z) : prog unit :=
  h ← get_heap; h ← lift (store_bytes h p (s ++ [NUL])); set_heap h.

(** The part of [accept_conn] that sets up the data of a connection. *)
Definition setup_conn (fd : Z) (addr : list Z) : prog Z :=
  conn_data ← p_malloc sizeof_conn;
  _ ← put_conn conn_data (Conn 0 fd 0 the_mutex 0 0);
  ip ← p_malloc (Z.of_nat (length addr) + 1);
  _ ← strcpy_new ip addr;
  buffer ← p_malloc 8;
  p ← p_malloc BUFFER_SIZE;
  _ ← put_cell buffer p;
  _ ← put_conn conn_data (Conn 0 fd ip the_mutex BUFFER_SIZE buffer);
  mret conn_data.

(** The part that keeps track of the thread. *)
Definition track_conn (conn_data tid : Z) : prog unit :=
  conn ← p_malloc sizeof_info;
  _ ← put_info conn (Info tid conn_data);
  v ← get_vars;
  l ← lift (SLIST_INSERT_HEAD (connections v) conn);
  _ ← modify (with_connections l);
  cleanup_term_conn 0.

Definition accept_conn : prog unit :=
  v ← get_vars;
  a ← syscall (Caccept (server_fd v));
  if rc a =? -1 then mret ()
  else
    conn_data ← setup_conn (rc a) (inet_ntoa (out a));
    t ← syscall (Cthread_create conn_data);
    if negb (rc t =? 0) then free_conn conn_data
    else track_conn conn_data (hd 0 (out t)).

(** ** Signals *)

(** [cleanup]; [closelog] is logging. *)
Definition cleanup : prog unit :=
  v ← get_vars;
  _ ← (if 0 <? server_fd v then _ ← do_call (Cclose (server_fd v)); mret () else mret ());
  destroy_datafile USE_AESD_CHAR_DEVICE.

(** The loop of [signal_handler]; it goes on for as long as [shutdown] fails. *)
Fixpoint shutdown_loop (fuel : nat) (fd : Z) : prog unit :=
  match fuel with
  | 0%nat => lift (Err OutOfFuel)
  | S fuel =>
    rc ← do_call (Cshutdown fd);
    if rc =? -1 then shutdown_loop fuel fd else mret ()
  end.

Fixpoint cancel_all (items : list Z) : prog unit :=
  match items with
  | [] => mret ()
  | item :: items =>
    v ← get_vars;
    i ← lift (deref (infos v) item);
    _ ← do_call (Cthread_cancel (thread_id i));
    cancel_all items
  end.

(** [fuel]: the attempts at [shutdown]. *)
Definition signal_handler (fuel : nat) (signum : Z) : prog unit :=
  if (signum =? SIGINT) || (signum =? SIGTERM) then
    _ ← modify (with_stopApp 1);
    v ← get_vars;
    _ ← (if 0 <? server_fd v then
           _ ← shutdown_loop fuel (server_fd v);
           _ ← do_call (Cclose (server_fd v)); mret ()
         else mret ());
    _ ← (if negb (timer_id v =? 0) then _ ← do_call (Ctimer_delete (timer_id v)); mret ()
         else mret ());
    items ← lift (SLIST_FOREACH (S (size (sle_next (connections v)))) (connections v)
                    (SLIST_FIRST (connections v)));
    _ ← cancel_all items;
    _ ← cleanup_term_conn 1;
    _ ← do_call (Cmutex_destroy the_mutex);
    destroy_datafile USE_AESD_CHAR_DEVICE
  else mret ().

Definition register_sighandlers : prog Z :=
  rc ← do_call (Csigaction SIGTERM);
  if negb (rc =? 0) then mret (-1)
  else
    rc ← do_call (Csigaction SIGINT);
    if negb (rc =? 0) then mret (-1) else mret 0.

(** ** Start *)

Definition make_daemon : prog unit :=
  pid ← do_call Cfork;
  if pid <? 0 then exit EXIT_FAILURE
  else if 0 <? pid then exit EXIT_SUCCESS
  else
    rc ← do_call Csetsid;
    if rc <? 0 then exit EXIT_FAILURE
    else
      pid ← do_call Cfork;
      if pid <? 0 then exit EXIT_FAILURE
      else if 0 <? pid then exit EXIT_SUCCESS
      else
        _ ← do_call (Cumask 0);
        _ ← do_call (Cchdir (str "/"));
        mret ().

(** [cleanup(); exit(EXIT_FAILURE);] *)
Definition give_up_start {A} : prog A := _ ← cleanup; exit EXIT_FAILURE.

(** The descriptor is a local variable that hides the global [server_fd]. *)
Definition start_server (port : list Z) (as_daemon : bool) : prog Z :=
  fd ← do_call Csocket;
  if fd <? 0 then give_up_start
  else
    rc ← do_call (Csetsockopt fd);
    if rc <? 0 then give_up_start
    else
      rc ← do_call (Cgetaddrinfo port);
      if negb (rc =? 0) then give_up_start
      else
        rc ← do_call (Cbind fd);
        if negb (rc =? 0) then give_up_start
        else
          _ ← (if as_daemon then make_daemon else mret ());
          rc ← do_call (Clisten fd LISTEN_BACKLOG);
          if negb (rc =? 0) then give_up_start else mret fd.

(** ** The timer of the plain-file build *)

Definition timestamp : list Z := str "timestamp:".

(** The row the timer writes: [ts0] is what the array [ts_row] held, [dt0] what
    the array [dt] holds after [strftime], [len] the length it gives. *)
Definition make_row (ts0 dt0 : list Z) (len : Z) : res (list Z) :=
  let ts_row := timestamp ++ [NUL] ++ drop (S (length timestamp)) ts0 in
  ts_row ← strncat ts_row dt0 len;
  len ← strlen ts_row;
  ts_row ← arr_set ts_row len NEWLINE;
  arr_set ts_row (len + 1) NUL.

Definition timer_action (ts0 : list Z) : prog unit :=
  r ← do_call (Cmutex_lock the_mutex);
  if negb (r =? 0) then mret ()
  else
    r ← do_call Cclock_gettime;
    _ ← (if negb (r =? 0) then mret ()
         else
           a ← syscall (Cstrftime 100);
           ts_row ← lift (make_row ts0 (out a) (rc a));
           fd ← open_datafile USE_AESD_CHAR_DEVICE;
           pos ← adjust_datafile_pos USE_AESD_CHAR_DEVICE fd 0 SEEK_END;
           _ ← (if -1 <? pos then
                  len ← lift (strlen ts_row);
                  append_datafile USE_AESD_CHAR_DEVICE x0 y0 fd ts_row len
                else mret ());
           close_datafile fd);
    _ ← do_call (Cmutex_unlock the_mutex);
    mret ().

Definition create_timer : prog unit :=
  a ← syscall Ctimer_create;
  if negb (rc a =? 0) then mret ()
  else
    let id := hd 0 (out a) in
    _ ← modify (with_timer_id id);
    _ ← do_call (Ctimer_settime id 10);
    mret ().

(** ** The main program *)

(** The accept loop, one element of [rounds] per round: the signal that is
    handled while [accept] waits, if any.  [None]: the server still serves after
    these rounds. *)
Fixpoint main_loop (fuel : nat) (rounds : list (option Z)) : prog (option Z) :=
  match rounds with
  | [] => v ← get_vars; mret (if stopApp v <? 1 then None else Some 0)
  | r :: rounds =>
    v ← get_vars;
    if stopApp v <? 1 then
      _ ← (match r with Some signum => signal_handler fuel signum | None => mret () end);
      _ ← accept_conn;
      main_loop fuel rounds
    else mret (Some 0)
  end.

Definition main_setup (argv : list (list Z)) : prog Z :=
  let daemon := match argv with [_; a] => bool_decide (a = str "-d") | _ => false end in
  fd ← start_server SERVER_PORT daemon;
  _ ← modify (with_server_fd fd);
  if fd <? 0 then mret EXIT_FAILURE
  else
    rc ← register_sighandlers;
    if negb (rc =? 0) then exit EXIT_FAILURE
    else
      fd ← open_datafile USE_AESD_CHAR_DEVICE;
      if fd <? 0 then exit EXIT_FAILURE
      else
        _ ← close_datafile fd;
        _ ← modify (λ v, with_connections (SLIST_INIT (connections v)) v);
        _ ← do_call (Cmutex_init the_mutex);
        _ ← (if negb USE_AESD_CHAR_DEVICE then create_timer else mret ());
        mret EXIT_SUCCESS.

Definition main (fuel : nat) (argv : list (list Z)) (rounds : list (option Z)) : prog (option Z) :=
  rc ← main_setup argv;
  if negb (rc =? 0) then mret (Some rc) else main_loop fuel rounds.

End Server.
