(* ===== verification/Runs.v ===== *)
(** * What a program did to its system

    A program changes its system only through the calls it makes, and the trace
    records them: the system after a run is the one before it, taken through the
    calls of the trace.  [traced] states this of a program; it holds of every
    program built from the ones of [Posix], in particular of the connection
    handler. *)

From S2P Require Import Prelude Memory Kernel AesdIoctl CString Posix DataFile SList Server.

Section Runs.
Context {O : OS}.

(** The calls [evs] take the system from [w] to [w']. *)
Inductive runs : world → list (call * answer) → world → Prop :=
| runs_nil w : runs w [] w
| runs_cons w c a w1 evs w' : sys w c = (a, w1) → runs w1 evs w' → runs w ((c, a) :: evs) w'.

Lemma runs_app w e1 e2 w' :
  runs w (e1 ++ e2) w' ↔ ∃ w1, runs w e1 w1 ∧ runs w1 e2 w'.
Proof.
  revert w. induction e1 as [|[c a] e1 IH]; intros w; cbn [app].
  - split; [intros H; exists w; split; [constructor|done]|].
    intros (w1 & H1 & H2). by inversion H1; subst.
  - split.
    + intros H. inversion H as [|? ? ? w2 ? ? Hs Hr]; subst. apply IH in Hr as (w1 & H1 & H2).
      exists w1. split; [by econstructor|done].
    + intros (w1 & H1 & H2). inversion H1 as [|? ? ? w2 ? ? Hs Hr]; subst.
      econstructor; [done|]. apply IH. eauto.
Qed.

Lemma runs_det w evs w1 w2 : runs w evs w1 → runs w evs w2 → w1 = w2.
Proof.
  intros H. revert w2. induction H as [w|w c a w1 evs w' Hs H IH]; intros w2 H2.
  - by inversion H2.
  - inversion H2 as [|? ? ? w3 ? ? Hs' Hr]; subst. rewrite Hs in Hs'.
    injection Hs' as <-. by apply IH.
Qed.

(** What every call guarantees holds of the calls of a run. *)
Lemma runs_forall (P : call * answer → Prop) w evs w' :
  (∀ w c a w', sys w c = (a, w') → P (c, a)) → runs w evs w' → Forall P evs.
Proof. intros HP. induction 1; constructor; eauto. Qed.

Context {V : Type}.

Definition traced {A} (p : prog V A) : Prop := ∀ s a s',
  p s = Ok (Returned a, s') → ∃ evs, p_trace s' = p_trace s ++ evs ∧ runs (p_world s) evs (p_world s').

Lemma traced_quiet {A} (p : prog V A) :
  (∀ s a s', p s = Ok (Returned a, s') → p_trace s' = p_trace s ∧ p_world s' = p_world s) → traced p.
Proof.
  intros H s o s' E. destruct (H _ _ _ E) as [Ht Hw]. exists [].
  rewrite app_nil_r, Hw. split; [done|constructor].
Qed.

Lemma traced_ret {A} (a : A) : traced (mret a).
Proof. apply traced_quiet. by intros s o s' [= <- <-]. Qed.

Lemma traced_lift {A} (r : res A) : traced (lift r).
Proof. apply traced_quiet. intros s o s'. unfold lift. destruct r; [by intros [= <- <-]|done]. Qed.

Lemma traced_get_vars : traced (get_vars (V := V)).
Proof. apply traced_quiet. by intros s o s' [= <- <-]. Qed.

Lemma traced_set_vars v : traced (set_vars (V := V) v).
Proof. apply traced_quiet. by intros s o s' [= <- <-]. Qed.

Lemma traced_get_heap : traced (get_heap (V := V)).
Proof. apply traced_quiet. by intros s o s' [= <- <-]. Qed.

Lemma traced_set_heap h : traced (set_heap (V := V) h).
Proof. apply traced_quiet. by intros s o s' [= <- <-]. Qed.

Lemma traced_bind {A B} (p : prog V A) (f : A → prog V B) :
  traced p → (∀ a, traced (f a)) → traced (p ≫= f).
Proof.
  intros Hp Hf s o s' E. unfold mbind, prog_bind in E.
  destruct (p s) as [[[a| | |] s1]|] eqn:Ep; simplify_eq.
  destruct (Hp _ _ _ Ep) as (e1 & Ht1 & Hr1). destruct (Hf a _ _ _ E) as (e2 & Ht2 & Hr2).
  exists (e1 ++ e2). split; [by rewrite Ht2, Ht1, app_assoc|]. apply runs_app. eauto.
Qed.

Lemma traced_syscall c : traced (syscall (V := V) c).
Proof.
  intros s o s' E. unfold syscall in E. destruct (_ && _); [done|]. destruct (sys (p_world s) c) as [a w] eqn:Es.
  injection E as <- <-. exists [(c, a)]. split; [done|]. econstructor; [done|constructor].
Qed.

Lemma traced_with_world {A} (f : world → prog V A) :
  (∀ w, traced (f w)) → traced (with_world f).
Proof. intros H s o s' E. exact (H (p_world s) s o s' E). Qed.

Lemma traced_with_cleanup {A} (p : prog V A) (h : prog V unit) :
  traced p → traced h → traced (with_cleanup p h).
Proof.
  intros Hp Hh s a s' E.
  assert (traced (p ≫= (λ a, _ ← h; mret a))) as H.
  { apply traced_bind; [done|]. intros b. apply traced_bind; [done|]. intros _. apply traced_ret. }
  apply (H s a s'). unfold with_cleanup in E. unfold mbind, prog_bind at 1.
  destruct (p s) as [[[b| | |] s1]|]; try done. by destruct (h _) as [[? ?]|].
Qed.

End Runs.

Create HintDb traced.
#[export] Hint Resolve traced_ret traced_lift traced_get_vars traced_set_vars traced_get_heap
  traced_set_heap traced_syscall : traced.

(** [trace_step] takes a program apart. *)
Ltac trace_step :=
  match goal with
  | |- traced (_ ≫= _) => apply traced_bind
  | |- traced (with_world _) => apply traced_with_world
  | |- traced (with_cleanup _ _) => apply traced_with_cleanup
  | |- traced (if ?b then _ else _) => destruct b
  | |- traced (match ?x with _ => _ end) => destruct x
  | |- ∀ _, _ => intros ?
  | |- traced _ => solve [auto with traced]
  end.

Ltac tracing := repeat trace_step.

(** ** The programs of the server *)

Section Programs.
Context {O : OS} {V : Type}.

Lemma traced_do_call c : traced (do_call (V := V) c).
Proof. unfold do_call. tracing. Qed.
#[local] Hint Resolve traced_do_call : traced.

Lemma traced_malloc n : traced (p_malloc (V := V) n).
Proof. unfold p_malloc. tracing. Qed.

Lemma traced_realloc p n : traced (p_realloc (V := V) p n).
Proof. unfold p_realloc. tracing. Qed.

Lemma traced_free p : traced (p_free (V := V) p).
Proof. unfold p_free. tracing. Qed.
#[local] Hint Resolve traced_malloc traced_realloc traced_free : traced.

Lemma traced_open dev : traced (open_datafile (V := V) dev).
Proof. unfold open_datafile. tracing. Qed.

Lemma traced_close fd : traced (close_datafile (V := V) fd).
Proof. unfold close_datafile. tracing. Qed.

Lemma traced_adjust dev fd o k : traced (adjust_datafile_pos (V := V) dev fd o k).
Proof. unfold adjust_datafile_pos. tracing. Qed.

Lemma traced_append_datafile dev x0 y0 fd buf size :
  traced (append_datafile (V := V) dev x0 y0 fd buf size).
Proof. unfold append_datafile, write_mem. tracing. Qed.

Lemma traced_append_string p max len buf n : traced (append_string (V := V) p max len buf n).
Proof. unfold append_string. tracing. Qed.

End Programs.

#[export] Hint Resolve traced_do_call traced_malloc traced_realloc traced_free traced_open
  traced_close traced_adjust traced_append_datafile traced_append_string : traced.

Section Handler.
Context {O : OS}.
Variables (dev : bool) (x0 y0 : Z).

Lemma traced_get_conn p : traced (get_conn p).
Proof. unfold get_conn. tracing. Qed.

Lemma traced_put_conn p c : traced (put_conn p c).
Proof. unfold put_conn, modify. tracing. Qed.

Lemma traced_get_cell p : traced (get_cell p).
Proof. unfold get_cell. tracing. Qed.

Lemma traced_put_cell p x : traced (put_cell p x).
Proof. unfold put_cell, modify. tracing. Qed.

Lemma traced_put_byte p i x : traced (put_byte p i x).
Proof. unfold put_byte. tracing. Qed.

Lemma traced_get_mem p : traced (get_mem p).
Proof. unfold get_mem. tracing. Qed.

Lemma traced_free_cell p : traced (free_cell p).
Proof. unfold free_cell, modify. tracing. Qed.
#[local] Hint Resolve traced_get_conn traced_put_conn traced_get_cell traced_put_cell
  traced_put_byte traced_get_mem traced_free_cell : traced.

Lemma traced_send_loop fuel dfd cfd : traced (send_loop fuel dfd cfd).
Proof. induction fuel as [|fuel IH]; cbn [send_loop]; tracing. Qed.

Lemma traced_send_response dfd cfd : traced (send_response dev dfd cfd).
Proof. unfold send_response. tracing. apply traced_send_loop. Qed.

Lemma traced_append_to_conn args max len buf n : traced (append_to_conn args max len buf n).
Proof. unfold append_to_conn. tracing. Qed.
#[local] Hint Resolve traced_send_response traced_append_to_conn : traced.

Lemma traced_handle_message args dfd max buf n k :
  traced (handle_message dev x0 y0 args dfd max buf n k).
Proof. unfold handle_message, answer_message. tracing. Qed.

Lemma traced_handle_chunk args max len buf n : traced (handle_chunk dev x0 y0 args max len buf n).
Proof. unfold handle_chunk. tracing. apply traced_handle_message. Qed.

Lemma traced_recv_loop fuel args max len : traced (recv_loop dev x0 y0 fuel args max len).
Proof.
  revert max len. induction fuel as [|fuel IH]; intros max len; cbn [recv_loop]; tracing;
    try apply traced_handle_chunk; apply IH.
Qed.

Lemma traced_cleanup args : traced (connection_cleanup args).
Proof. unfold connection_cleanup. tracing. Qed.

Lemma traced_cleanup_loop fuel await item : traced (cleanup_loop fuel await item).
Proof.
  revert item. induction fuel as [|fuel IH]; intros item; cbn [cleanup_loop]; unfold free_conn, free_info, modify;
    tracing; apply IH.
Qed.

Lemma traced_cleanup_term_conn await : traced (cleanup_term_conn await).
Proof. unfold cleanup_term_conn. tracing. apply traced_cleanup_loop. Qed.

Lemma traced_receive_all args : traced (receive_all dev x0 y0 args).
Proof. unfold receive_all. tracing. apply traced_recv_loop. Qed.

Lemma traced_handler args : traced (connnection_handler dev x0 y0 args).
Proof.
  unfold connnection_handler. tracing; [apply traced_receive_all|apply traced_cleanup].
Qed.

End Handler.

#[export] Hint Resolve traced_get_conn traced_put_conn traced_get_cell traced_put_cell
  traced_put_byte traced_get_mem traced_free_cell traced_send_loop traced_send_response
  traced_append_to_conn traced_handle_message traced_handle_chunk traced_recv_loop
  traced_receive_all : traced.
