(* ===== verification/Device.v ===== *)
(** * An operating system with the char device

    The server and the driver put together: a system whose data file is
    [/dev/aesdchar].  A descriptor of the device is a position, a call on it runs
    the driver's operation of [CharDriver] on the state of the device, and the
    answer is what the driver returns.  The threads of the server share the system:
    [csys i] is a call of thread [i].  [device_os i] is the system as thread [i]
    sees it when it runs alone; it satisfies [OSLaws]. *)

From Stdlib Require Import String.
From S2P Require Import Prelude CircularBuffer Memory Kernel AesdIoctl CharDriver DriverSpec.
From S2P Require Import DriverRefine DriverProps Posix SimOS.

(** ** The memory of the calling process

    A process that makes a call on the device hands a buffer to the kernel.
    [user_of bs] is a process whose buffer, at address 0, holds [bs]; [user_view]
    what the buffer holds.  What a copy past the end of the buffer does depends on what
    the process has mapped there, and is left open. *)

Class UserMemory (K : Kernel) := {
  user_of : list Z → user;
  user_view : user → list Z
}.

Class UserLaws (K : Kernel) {U : UserMemory K} : Prop := {
  copy_in bs : copy_from_user (user_of bs) 0 (Z.of_nat (length bs)) = (bs, 0);
  copy_out old bs u' left :
    copy_to_user (user_of old) 0 bs = (u', left) → left = 0 →
    (length bs ≤ length old)%nat → take (length bs) (user_view u') = bs
}.

#[export] Instance sim_user_memory limit slack : UserMemory (sim_kernel limit slack) :=
  {| user_of := λ bs, bs : @user (sim_kernel limit slack); user_view := λ u, u |}.

Lemma sim_user_laws limit slack : UserLaws (sim_kernel limit slack).
Proof.
  split; cbn.
  - intros bs. unfold sim_copy_from_user. change (Z.to_nat 0) with 0%nat.
    rewrite Nat2Z.id, drop_0, firstn_all, Nat.sub_diag, app_nil_r. f_equal. lia.
  - intros old bs u' left. unfold sim_copy_to_user. change (Z.to_nat 0) with 0%nat.
    cbn [Nat.add take app]. destruct (Nat.leb_spec (length bs) (length old)).
    + intros [= <- <-] _ _. by rewrite take_app_length.
    + lia.
Qed.

(** ** The system *)

Section Device.
Context {K : Kernel} {U : UserMemory K}.
(* the answers of the calls that concern neither a file, a stream nor a mutex *)
Variable default : call → answer.

Record dev_world := DevWorld {
  dw_dev : kstate;
  dw_pos : gmap Z Z;                        (* the open descriptors of the device *)
  dw_streams : gmap Z (list (list Z));      (* what the peers of the sockets still send *)
  dw_owner : gmap Z nat;                    (* the thread that holds a mutex *)
  dw_overrun : bool                         (* a read wrote past the end of its buffer *)
}.

Definition dw_log (w : dev_world) : log := log_of (dw_dev w).

Definition device_path : list Z := str "/dev/aesdchar".

Definition with_device (k : kstate) (w : dev_world) : dev_world :=
  DevWorld k (dw_pos w) (dw_streams w) (dw_owner w) (dw_overrun w).
Definition with_pos (m : gmap Z Z) (w : dev_world) : dev_world :=
  DevWorld (dw_dev w) m (dw_streams w) (dw_owner w) (dw_overrun w).
Definition with_owner (m : gmap Z nat) (w : dev_world) : dev_world :=
  DevWorld (dw_dev w) (dw_pos w) (dw_streams w) m (dw_overrun w).
Definition with_overrun (w : dev_world) : dev_world :=
  DevWorld (dw_dev w) (dw_pos w) (dw_streams w) (dw_owner w) true.

(** A descriptor that is not in use. *)
Definition new_fd (w : dev_world) : Z :=
  3 `max` (above (dw_pos w) `max` above (dw_streams w)).

(** The machine has room for the contents of the device and for the positions. *)
Definition fits (k : kstate) (fp : Z) : Prop :=
  Z.of_nat (length (contents (log_of k))) < 2 ^ 61 ∧ 0 ≤ fp < 2 ^ 62.

#[export] Instance fits_dec k fp : Decision (fits k fp).
Proof. unfold fits. apply _. Defined.

(** A call of the driver's operation [op], from its table, through the descriptor [fd]; [view] is what
    the process then finds in its buffer.  Where the driver would bring the machine
    down, the call fails and changes nothing; the theorems are about runs in which no
    call fails. *)
Definition device_call (fd : Z) (op : Z → kstate → res (Z * Z * kstate))
    (view : Z → kstate → list Z) (w : dev_world) : answer * dev_world :=
  match dw_pos w !! fd with
  | None => (Ans (-1) [], w)
  | Some pos =>
      match op pos (dw_dev w) with
      | Ok (rv, fp, k) =>
          if decide (fits k fp) then
            (if rv <? 0 then Ans (-1) [] else Ans rv (view rv k),
             with_pos (<[fd := fp]> (dw_pos w)) (with_device k w))
          else (Ans (-1) [], w)
      | Err _ => (Ans (-1) [], w)
      end
  end.

Definition read_op (n pos : Z) (k : kstate) : res (Z * Z * kstate) :=
  fop_read aesd_fops 0 n pos (with_user k (user_of (replicate (Z.to_nat n) 0))).
Definition write_op (bs : list Z) (pos : Z) (k : kstate) : res (Z * Z * kstate) :=
  fop_write aesd_fops 0 (Z.of_nat (length bs)) pos (with_user k (user_of bs)).
Definition ioctl_op (cmd : Z) (arg : list Z) (pos : Z) (k : kstate) : res (Z * Z * kstate) :=
  fop_unlocked_ioctl aesd_fops cmd 0 pos (with_user k (user_of arg)).

Definition read_view (rv : Z) (k : kstate) : list Z := take (Z.to_nat rv) (user_view (k_user k)).

(** [aesd_read] does not look at [count]: when the rest of the line is longer than the
    buffer, it copies past the end of it.  What becomes of the process then is not
    modelled: the system remembers it in [dw_overrun], and the call does not succeed. *)
Definition device_read (fd n : Z) (w : dev_world) : answer * dev_world :=
  let '(a, w') := device_call fd (read_op n) read_view w in
  if n <? rc a then (Ans (-1) [], with_overrun w') else (a, w').

Definition dw_stream (w : dev_world) (fd : Z) : list (list Z) :=
  match dw_streams w !! fd with Some cs => cs | None => [] end.

Definition dev_recv (w : dev_world) (fd n : Z) : answer * dev_world :=
  match dw_stream w fd with
  | c :: cs =>
    if Z.of_nat (length c) <=? n
    then (Ans (Z.of_nat (length c)) c,
          DevWorld (dw_dev w) (dw_pos w) (<[fd := cs]> (dw_streams w)) (dw_owner w) (dw_overrun w))
    else (Ans (-1) [], w)
  | [] => (Ans 0 [], w)
  end.

Definition dev_lock_mutex (i : nat) (w : dev_world) (m : Z) : answer * dev_world :=
  match dw_owner w !! m with
  | Some _ => (Ans 35 [], w)                       (* EDEADLK *)
  | None => (Ans 0 [], with_owner (<[m := i]> (dw_owner w)) w)
  end.

Definition dev_unlock_mutex (i : nat) (w : dev_world) (m : Z) : answer * dev_world :=
  if decide (dw_owner w !! m = Some i)
  then (Ans 0 [], with_owner (delete m (dw_owner w)) w)
  else (Ans 1 [], w).                              (* EPERM *)

(** A call of thread [i]. *)
Definition csys (i : nat) (w : dev_world) (c : call) : answer * dev_world :=
  match c with
  | Copen path _ _ =>
      if decide (path = device_path)
      then (Ans (new_fd w) [], with_pos (<[new_fd w := 0]> (dw_pos w)) w)
      else (Ans (-1) [], w)
  | Cclose fd => (Ans 0 [], with_pos (delete fd (dw_pos w)) w)
  | Cread fd n => device_read fd n w
  | Cwrite fd bs => device_call fd (write_op bs) (λ _ _, []) w
  | Cioctl fd cmd arg => device_call fd (ioctl_op cmd arg) (λ _ _, []) w
  | Crecv fd n => dev_recv w fd n
  | Cmutex_lock m => dev_lock_mutex i w m
  | Cmutex_unlock m => dev_unlock_mutex i w m
  | _ => (default c, w)
  end.

(** The invariant of the system. *)
Definition dev_ok (w : dev_world) : Prop :=
  drv_inv (dw_dev w) ∧ Z.of_nat (length (contents (dw_log w))) < 2 ^ 61
  ∧ map_Forall (λ _ pos, 0 ≤ pos < 2 ^ 62) (dw_pos w).

End Device.

(** ** The driver's operations, when they succeed *)

Section Success.
Context {K : Kernel} {KL : KernelLaws K}.

Lemma read_success buf count f_pos k rv fp k' :
  drv_inv k → 0 ≤ f_pos < 2 ^ 62 → Z.of_nat (length (contents (log_of k))) < 2 ^ 62 →
  aesd_read buf count f_pos k = Ok (rv, fp, k') → 0 ≤ rv →
  (rv, fp, k_user k') = read_result (log_of k) (k_user k) buf f_pos.
Proof using KL.
  intros Hinv Hpos Htot Hrun Hrv. destruct (mutex_lock_free _ (proj2 Hinv)) as (rc & m & Hl & _).
  destruct (decide (rc = 0)) as [->|Hrc].
  - destruct (aesd_read_spec buf count f_pos k m Hinv Hl Hpos Htot) as (m' & _ & _ & Hspec).
    rewrite Hrun in Hspec. destruct (read_result _ _ _ _) as [[rv' fp'] u].
    by injection Hspec as -> -> ->.
  - unfold aesd_read, dev_lock in Hrun. rewrite Hl in Hrun.
    cbn [mbind res_bind mret res_ret] in Hrun. rewrite (proj2 (Z.eqb_neq _ _) Hrc) in Hrun.
    injection Hrun as <- _ _. unfold ERESTARTSYS in Hrv. lia.
Qed.

Lemma write_success buf count f_pos k bs rv fp k' :
  drv_inv k → 0 < count → copy_from_user (k_user k) buf count = (bs, 0) →
  aesd_write buf count f_pos k = Ok (rv, fp, k') → 0 ≤ rv →
  rv = Z.of_nat (length (upto_nl bs)) ∧ fp = 0 ∧ log_of k' = log_write (log_of k) bs.
Proof using KL.
  intros Hinv Hc Hcopy Hrun Hrv.
  destruct (mutex_lock_free _ (proj2 Hinv)) as (rc & m & Hl & _).
  pose proof (aesd_write_outcomes buf count f_pos k rc m bs 0 Hinv Hc Hl Hcopy) as Hout.
  rewrite Hrun in Hout. unfold write_result, ERESTARTSYS, EFAULT in Hout.
  destruct Hout as (_ & _ & [(_ & -> & _)|[(_ & -> & _)|(_ & H1 & H2 & H3 & _)]]);
    [lia|lia|done].
Qed.

(** An empty write that returns was interrupted. *)
Lemma empty_write_returns buf f_pos k rv fp k' :
  drv_inv k → copy_from_user (k_user k) buf 0 = ([], 0) →
  aesd_write buf 0 f_pos k = Ok (rv, fp, k') → drv_inv k' ∧ log_of k' = log_of k ∧ rv < 0.
Proof using KL.
  intros Hinv Hcopy Hrun. destruct (mutex_lock_free _ (proj2 Hinv)) as (rc & m & Hl & Hh).
  destruct (decide (rc = 0)) as [->|Hrc].
  - destruct (empty_write_faults k buf f_pos m [] Hinv Hl Hcopy) as [E|E];
      rewrite Hrun in E; done.
  - rewrite aesd_write_unfold in Hrun. unfold dev_lock in Hrun. rewrite Hl in Hrun.
    cbn [mbind res_bind mret res_ret] in Hrun. rewrite (proj2 (Z.eqb_neq _ _) Hrc) in Hrun.
    injection Hrun as <- _ <-.
    destruct (drv_inv_lock k m (proj1 Hinv) (bool_not_held _ _ Hh Hrc)) as [H1 H2].
    split; [done|]. split; [done|]. unfold ERESTARTSYS. lia.
Qed.

Lemma ioctl_success arg f_pos k i o rv fp k' :
  drv_inv k → 0 ≤ i < 2 ^ 32 → 0 ≤ o < 2 ^ 32 →
  copy_from_user (k_user k) arg sizeof_aesd_seekto = (seekto_bytes (SeekTo i o), 0) →
  Z.of_nat (length (contents (log_of k))) < 2 ^ 62 →
  aesd_unlocked_ioctl AESDCHAR_IOCSEEKTO arg f_pos k = Ok (rv, fp, k') → 0 ≤ rv →
  rv = 0 ∧ fp = jmp_result (k_dev k) (log_of k) (u8 i) o ∧ 0 ≤ fp.
Proof using KL.
  intros Hinv Hi Ho Hcopy Htot Hrun Hrv.
  destruct (mutex_lock_free _ (proj2 Hinv)) as (rc & m & Hl & Hh).
  destruct (decide (rc = 0)) as [->|Hrc].
  - destruct (ioctl_run k arg f_pos i o m Hinv Hl Hcopy Hi Ho Htot) as (k2 & _ & _ & _ & Hspec).
    rewrite Hrun in Hspec. cbn zeta in Hspec. injection Hspec as Hspec.
    destruct (Z.ltb_spec (jmp_result (k_dev k) (log_of k) (u8 i) o) 0); simplify_eq; [lia|done].
  - unfold aesd_unlocked_ioctl, AESDCHAR_IOCSEEKTO in Hrun.
    unfold AESD_IOC_MAGIC, AESDCHAR_IOC_MAXNR in Hrun.
    rewrite IOC_TYPE_IOWR, IOC_NR_IOWR, !Z.eqb_refl in Hrun by (unfold sizeof_aesd_seekto; lia).
    cbn [negb] in Hrun. change (1 <? 1) with false in Hrun. rewrite Hcopy in Hrun.
    cbn [Z.eqb negb] in Hrun. unfold dev_lock in Hrun. rewrite Hl in Hrun.
    cbn [mbind res_bind mret res_ret] in Hrun. rewrite (proj2 (Z.eqb_neq _ _) Hrc) in Hrun.
    injection Hrun as <- _ _. unfold ERESTARTSYS in Hrv. lia.
Qed.

End Success.

(** ** What a call does to the system *)

Section Effects.
Context {K : Kernel} {KL : KernelLaws K} {U : UserMemory K} {UL : UserLaws K}.
Variable default : call → answer.

Lemma device_call_cases fd op view w a w' :
  device_call fd op view w = (a, w') →
  (w' = w ∧ a = Ans (-1) [])
  ∨ ∃ pos rv fp k, dw_pos w !! fd = Some pos ∧ op pos (dw_dev w) = Ok (rv, fp, k) ∧ fits k fp
      ∧ w' = with_pos (<[fd := fp]> (dw_pos w)) (with_device k w)
      ∧ a = if rv <? 0 then Ans (-1) [] else Ans rv (view rv k).
Proof using.
  unfold device_call. destruct (dw_pos w !! fd) as [pos|]; [|intros [= <- <-]; by left].
  destruct (op pos (dw_dev w)) as [[[rv fp] k]|] eqn:Hop; [|intros [= <- <-]; by left].
  destruct (decide (fits k fp)) as [Hf|Hf]; [|intros [= <- <-]; by left].
  intros [= <- <-]. right. by exists pos, rv, fp, k.
Qed.

(** The operation that succeeds. *)
Lemma device_call_success fd op view w a w' :
  device_call fd op view w = (a, w') → 0 ≤ rc a →
  ∃ pos fp k, dw_pos w !! fd = Some pos ∧ op pos (dw_dev w) = Ok (rc a, fp, k) ∧ fits k fp
    ∧ w' = with_pos (<[fd := fp]> (dw_pos w)) (with_device k w) ∧ a = Ans (rc a) (view (rc a) k).
Proof using.
  intros H Ha. apply device_call_cases in H as [[-> ->]|(pos & rv & fp & k & H1 & H2 & H3 & -> & ->)].
  - cbn in Ha. lia.
  - destruct (Z.ltb_spec rv 0); [cbn in Ha; lia|]. by exists pos, fp, k.
Qed.

Lemma device_call_rest fd op view w a w' :
  device_call fd op view w = (a, w') →
  dw_streams w' = dw_streams w ∧ dw_owner w' = dw_owner w
  ∧ (∀ fd', fd' ≠ fd → dw_pos w' !! fd' = dw_pos w !! fd')
  ∧ (0 ≤ rc a ∨ a = Ans (-1) []).
Proof using.
  intros H. apply device_call_cases in H as [[-> ->]|(pos & rv & fp & k & _ & _ & _ & -> & ->)].
  - split_and!; auto.
  - split; [done|]. split; [done|]. split.
    + intros fd' Hne. cbn. by rewrite lookup_insert_ne.
    + destruct (Z.ltb_spec rv 0); [by right|by left].
Qed.

Lemma device_read_cases fd n w a w' :
  device_read fd n w = (a, w') →
  (device_call fd (read_op n) read_view w = (a, w') ∧ rc a ≤ n)
  ∨ ∃ a1 w1, device_call fd (read_op n) read_view w = (a1, w1) ∧ n < rc a1
      ∧ a = Ans (-1) [] ∧ w' = with_overrun w1.
Proof using.
  unfold device_read. destruct (device_call _ _ _ _) as [a1 w1].
  destruct (Z.ltb_spec n (rc a1)); intros [= <- <-]; [right; by exists a1, w1|by left].
Qed.

Lemma device_read_rest fd n w a w' :
  device_read fd n w = (a, w') →
  dw_streams w' = dw_streams w ∧ dw_owner w' = dw_owner w
  ∧ (∀ fd', fd' ≠ fd → dw_pos w' !! fd' = dw_pos w !! fd')
  ∧ (0 ≤ rc a ∨ a = Ans (-1) []).
Proof using.
  intros [[H _]|(a1 & w1 & H & _ & -> & ->)]%device_read_cases.
  - by apply device_call_rest in H.
  - apply device_call_rest in H as (H1 & H2 & H3 & _). auto.
Qed.

Definition keeps_inv (op : Z → kstate → res (Z * Z * kstate)) : Prop :=
  ∀ pos k rv fp k', drv_inv k → op pos k = Ok (rv, fp, k') → drv_inv k'.

Lemma read_op_keeps n : keeps_inv (read_op n).
Proof using KL.
  intros pos k rv fp k' Hinv H. unfold read_op in H; cbn [fop_read aesd_fops] in H. apply call_read in H.
  by destruct (drv_call_inv _ (with_user k _) _ Hinv H).
Qed.

Lemma ioctl_op_keeps cmd arg : keeps_inv (ioctl_op cmd arg).
Proof using KL.
  intros pos k rv fp k' Hinv H. unfold ioctl_op in H; cbn [fop_unlocked_ioctl aesd_fops] in H. apply call_ioctl in H.
  by destruct (drv_call_inv _ (with_user k _) _ Hinv H).
Qed.

Lemma write_op_keeps bs : keeps_inv (write_op bs).
Proof using KL UL.
  intros pos k rv fp k' Hinv H. destruct bs as [|x bs].
  - by eapply empty_write_returns in H as (? & _); [|done|by apply (copy_in [])].
  - unfold write_op in H; cbn [fop_write aesd_fops] in H. apply call_write in H; [|cbn; lia].
    by destruct (drv_call_inv _ (with_user k _) _ Hinv H).
Qed.

Lemma device_call_ok fd op view w :
  keeps_inv op → dev_ok w → dev_ok (device_call fd op view w).2.
Proof using.
  intros Hop Hw. destruct (device_call fd op view w) as [a w'] eqn:E.
  apply device_call_cases in E as [[-> _]|(pos & rv & fp & k & _ & H & [Hlen Hfp] & -> & _)];
    [done|]. destruct Hw as (Hinv & _ & Hpos). split; [by eapply Hop|]. split; [done|].
  by apply map_Forall_insert_2.
Qed.

Lemma device_read_ok fd n w : dev_ok w → dev_ok (device_read fd n w).2.
Proof using KL.
  intros Hw. pose proof (device_call_ok fd (read_op n) read_view w (read_op_keeps n) Hw) as H.
  unfold device_read. destruct (device_call _ _ _ _) as [a w']. by destruct (_ <? _).
Qed.

(** Every call keeps the invariant. *)
Lemma csys_ok i w c : dev_ok w → dev_ok (csys default i w c).2.
Proof using KL UL.
  intros Hw. pose proof Hw as (H1 & H2 & H3). destruct c; cbn [csys snd]; try done.
  - destruct (decide _); [|done]. split; [done|]. split; [done|]. by apply map_Forall_insert_2.
  - split; [done|]. split; [done|]. by apply map_Forall_delete.
  - by apply device_read_ok.
  - by apply device_call_ok; [apply write_op_keeps|].
  - by apply device_call_ok; [apply ioctl_op_keeps|].
  - unfold dev_recv. destruct (dw_stream w fd) as [|ch cs]; [done|]. by destruct (_ <=? _).
  - unfold dev_lock_mutex. by destruct (dw_owner w !! m).
  - unfold dev_unlock_mutex. by destruct (decide _).
Qed.

Lemma read_op_log n pos k rv fp k' :
  drv_inv k → read_op n pos k = Ok (rv, fp, k') → log_of k' = log_of k.
Proof using KL.
  intros Hinv H. unfold read_op in H; cbn [fop_read aesd_fops] in H. edestruct aesd_read_outcomes as (? & ? & u & m & Hr & Hl);
    [|rewrite Hr in H]; [exact Hinv|]. injection H as _ _ <-. done.
Qed.

(** A read gives the rest of the line at the position. *)
Lemma read_effect i w fd n a w' :
  dev_ok w → csys default i w (Cread fd n) = (a, w') → 0 < n → 0 ≤ rc a →
  ∃ pos, dw_pos w !! fd = Some pos ∧ rc a ≤ n
    ∧ out a = upto_nl (drop (Z.to_nat pos) (contents (dw_log w)))
    ∧ Z.of_nat (length (out a)) = rc a
    ∧ dw_pos w' = <[fd := pos + rc a]> (dw_pos w) ∧ dw_log w' = dw_log w.
Proof using KL UL.
  intros (Hinv & Hlen & Hpos) H Hn Ha.
  apply device_read_cases in H as [[H Hle]|(_ & _ & _ & _ & -> & _)]; [|cbn in Ha; lia].
  apply device_call_success in H as (pos & fp & k & Hp & Hop & _ & -> & Hout); [|done].
  pose proof (read_op_log _ _ _ _ _ _ Hinv Hop) as Hlog. unfold read_op in Hop; cbn [fop_read aesd_fops] in Hop.
  apply read_success in Hop as Hres; [|done|apply (map_Forall_lookup_1 _ _ _ _ Hpos Hp)
    |change (log_of _) with (dw_log w); lia|done].
  unfold read_result in Hres. change (log_of (with_user _ _)) with (dw_log w) in Hres.
  exists pos. split; [done|]. rewrite Hout. cbn [rc out dw_pos with_pos with_device]. unfold read_view.
  set (rest := upto_nl _) in *. destruct (decide (rest = [])) as [Hr|Hr].
  - injection Hres as H1 H2 H3. rewrite H1, H2, Hr, Z.add_0_r. change (Z.to_nat 0) with 0%nat.
    rewrite take_0. cbn. split_and!; try done. lia.
  - destruct (copy_to_user _ _ _) as [u' missing] eqn:Hcopy.
    destruct (Z.eqb_spec missing 0) as [->|].
    + injection Hres as H1 H2 H3. apply copy_out in Hcopy as Hview; [|done|].
      2: { rewrite length_replicate. lia. }
      rewrite H3, H1, H2, Nat2Z.id, Hview.
      split_and!; try done. lia.
    + injection Hres as H1 H2 H3. unfold EFAULT in H1. lia.
Qed.

(** A write of a line appends it to the log. *)
Lemma write_effect i w fd bs a w' :
  dev_ok w → csys default i w (Cwrite fd bs) = (a, w') → 0 ≤ rc a →
  rc a = Z.of_nat (length (upto_nl bs)) ∧ is_Some (dw_pos w !! fd)
  ∧ dw_log w' = log_write (dw_log w) bs ∧ dw_pos w' = <[fd := 0]> (dw_pos w).
Proof using KL UL.
  intros (Hinv & Hlen & Hpos) H Ha.
  apply device_call_success in H as (pos & fp & k & Hp & Hop & _ & -> & _); [|done].
  unfold write_op in Hop; cbn [fop_write aesd_fops] in Hop. destruct bs as [|x bs].
  - apply empty_write_returns in Hop as (_ & _ & ?); [lia|done|apply (copy_in [])].
  - eapply write_success in Hop as (H1 & -> & H3); [|done|cbn; lia|apply copy_in|done].
    split; [done|]. split; [by eexists|done].
Qed.

(** A seek command moves the position. *)
Lemma seek_effect i w fd x y a w' :
  dev_ok w → 0 ≤ x < 2 ^ 32 → 0 ≤ y < 2 ^ 32 →
  csys default i w (Cioctl fd AESDCHAR_IOCSEEKTO (seekto_bytes (SeekTo x y))) = (a, w') →
  0 ≤ rc a →
  let pos := jmp_result (k_dev (dw_dev w)) (dw_log w) (u8 x) y in
  rc a = 0 ∧ 0 ≤ pos ∧ is_Some (dw_pos w !! fd)
  ∧ dw_log w' = dw_log w ∧ dw_pos w' = <[fd := pos]> (dw_pos w).
Proof using KL UL.
  intros (Hinv & Hlen & Hpos) Hx Hy H Ha.
  apply device_call_success in H as (p & fp & k & Hp & Hop & _ & -> & _); [|done].
  unfold ioctl_op in Hop; cbn [fop_unlocked_ioctl aesd_fops] in Hop.
  apply aesd_ioctl_frame in Hop as Hfr; [|exact Hinv]. destruct Hfr as [_ Hlog].
  assert (Z.of_nat (length (contents (dw_log w))) < 2 ^ 62) as Htot by lia.
  destruct (ioctl_success 0 p (with_user (dw_dev w) (user_of (seekto_bytes (SeekTo x y))))
    x y _ _ _ Hinv Hx Hy (copy_in _) Htot Hop Ha) as (H1 & -> & H3).
  split; [done|]. split; [done|]. split; [by eexists|done].
Qed.

End Effects.

(** ** The system of one thread *)

Section DeviceOS.
Context {K : Kernel} {KL : KernelLaws K} {U : UserMemory K} {UL : UserLaws K}.
Variable default : call → answer.
Variable i : nat.

Lemma csys_stream w c fd :
  on_stream fd c = false → dw_stream (csys default i w c).2 fd = dw_stream w fd.
Proof using.
  unfold dw_stream. destruct c; cbn [on_stream csys]; intros Hc; try done.
  - by destruct (decide _).
  - destruct (device_read _ _ _) as [a w'] eqn:E. apply device_read_rest in E as [E _].
    cbn [snd]. by rewrite E.
  - destruct (device_call _ _ _ _) as [a w'] eqn:E. apply device_call_rest in E as [E _].
    cbn [snd]. by rewrite E.
  - destruct (device_call _ _ _ _) as [a w'] eqn:E. apply device_call_rest in E as [E _].
    cbn [snd]. by rewrite E.
  - apply Z.eqb_neq in Hc. unfold dev_recv. destruct (dw_stream w fd0) as [|ch cs]; [done|].
    destruct (_ <=? _); [|done]. cbn. by rewrite lookup_insert_ne.
  - unfold dev_lock_mutex. by destruct (dw_owner w !! m).
  - unfold dev_unlock_mutex. by destruct (decide _).
Qed.

Lemma csys_owner w c m :
  on_mutex m c = false → dw_owner (csys default i w c).2 !! m = dw_owner w !! m.
Proof using.
  destruct c; cbn [on_mutex csys]; intros Hc; try done.
  - by destruct (decide _).
  - destruct (device_read _ _ _) as [a w'] eqn:E. apply device_read_rest in E as (_ & E & _).
    cbn [snd]. by rewrite E.
  - destruct (device_call _ _ _ _) as [a w'] eqn:E. apply device_call_rest in E as (_ & E & _).
    cbn [snd]. by rewrite E.
  - destruct (device_call _ _ _ _) as [a w'] eqn:E. apply device_call_rest in E as (_ & E & _).
    cbn [snd]. by rewrite E.
  - unfold dev_recv. destruct (dw_stream w fd); [done|]. by destruct (_ <=? _).
  - apply Z.eqb_neq in Hc. unfold dev_lock_mutex. destruct (dw_owner w !! m0); [done|].
    cbn. by rewrite lookup_insert_ne.
  - apply Z.eqb_neq in Hc. unfold dev_unlock_mutex. destruct (decide _); [|done].
    cbn. by rewrite lookup_delete_ne.
Qed.

Lemma dev_recv_chunk w fd n c cs :
  dw_stream w fd = c :: cs → Z.of_nat (length c) ≤ n →
  (dev_recv w fd n).1 = Ans (Z.of_nat (length c)) c ∧ dw_stream (dev_recv w fd n).2 fd = cs.
Proof using.
  intros H Hn. unfold dev_recv. rewrite H, (proj2 (Z.leb_le _ _)) by done.
  split; [done|]. unfold dw_stream. cbn. by rewrite lookup_insert_eq.
Qed.

(** The bytes a descriptor still gives. *)
Definition dw_unread (w : dev_world) (fd : Z) : list Z :=
  match dw_pos w !! fd with
  | Some pos => drop (Z.to_nat pos) (contents (dw_log w))
  | None => []
  end.

Lemma upto_nl_drop l : l = upto_nl l ++ drop (length (upto_nl l)) l.
Proof using. rewrite (upto_nl_take l) at 1. symmetry. apply take_drop. Qed.

Lemma read_unread w fd n a w' :
  dev_ok w → csys default i w (Cread fd n) = (a, w') → 0 < n → 0 ≤ rc a →
  rc a ≤ n ∧ Z.of_nat (length (out a)) = rc a ∧ dw_unread w fd = out a ++ dw_unread w' fd
  ∧ (rc a = 0 → dw_unread w fd = []).
Proof using KL UL.
  intros Hw H Hn Ha. edestruct read_effect as (pos & Hp & Hle & Hout & Hlen & Hp' & Hlog);
    [done|done|exact Hn|done|]. split; [done|]. split; [done|].
  destruct Hw as (_ & _ & Hpos). pose proof (map_Forall_lookup_1 _ _ _ _ Hpos Hp) as Hp0.
  cbn in Hp0. unfold dw_unread. rewrite Hp, Hp', lookup_insert_eq, Hlog.
  replace (Z.to_nat (pos + rc a)) with (Z.to_nat pos + length (out a))%nat by lia.
  rewrite <- drop_drop. split; [rewrite Hout; apply upto_nl_drop|]. intros H0.
  destruct (drop (Z.to_nat pos) (contents (dw_log w))) as [|x l] eqn:E; [done|].
  pose proof (upto_nl_nonempty (x :: l) ltac:(done)). rewrite Hout in Hlen. lia.
Qed.

Definition good_world : Type := {w : dev_world | dev_ok w}.

Definition dsys (w : good_world) (c : call) : answer * good_world :=
  ((csys default i (`w) c).1,
   (csys default i (`w) c).2 ↾ csys_ok default i (`w) c (proj2_sig w)).

Definition device_os : OS := {|
  world := good_world;
  sys := dsys;
  cancels := λ _ _, false;
  uncancel := id;
  malloc := sim_kmalloc (object_max - 1) [];
  realloc := sim_krealloc (object_max - 1) [];
  free := sim_kfree;
  os_IOWR := IOWR;
  incoming := λ w, dw_stream (`w);
  unread := λ w, dw_unread (`w);
  owns := λ w m, bool_decide (dw_owner (`w) !! m = Some i)
|}.

Lemma device_lock w m a w' :
  dev_lock_mutex i w m = (a, w') →
  (rc a = 0 → dw_owner w !! m = None ∧ dw_owner w' !! m = Some i)
  ∧ (rc a ≠ 0 → w' = w).
Proof using.
  unfold dev_lock_mutex. destruct (dw_owner w !! m) eqn:E; intros [= <- <-]; split; try done.
  intros _. split; [done|]. cbn. apply lookup_insert_eq.
Qed.

Lemma device_unlock w m a w' :
  dev_unlock_mutex i w m = (a, w') →
  if decide (dw_owner w !! m = Some i) then rc a = 0 ∧ dw_owner w' !! m = None
  else rc a ≠ 0 ∧ w' = w.
Proof using.
  unfold dev_unlock_mutex. destruct (decide _); intros [= <- <-]; [|done].
  split; [done|]. cbn. apply lookup_delete_eq.
Qed.

Lemma dsys_csys w c a w' : dsys w c = (a, w') → csys default i (`w) c = (a, `w').
Proof using. intros [= <- <-]. cbn. by destruct (csys _ _ _ _). Qed.

(** The system satisfies the laws, whatever the kernel. *)
Lemma device_os_laws : OSLaws device_os.
Proof using.
  pose proof (sim_os_laws (object_max - 1) default eq_refl) as L.
  split; try apply L; cbn [sys incoming unread owns world device_os];
    try (intros [w Hw] fd n c cs a w' Hc _ Hn H%dsys_csys); cbn in *.
  - pose proof (dev_recv_chunk w fd n c cs Hc Hn) as Hr. by rewrite H in Hr.
  - intros [w Hw] fd n a w' Hc H%dsys_csys. cbn in *. unfold dev_recv in H. rewrite Hc in H.
    injection H as <- _. by left.
  - intros w fd c a w' Hc H%dsys_csys. pose proof (csys_stream (`w) c fd Hc) as Hr.
    by rewrite H in Hr.
  - intros [w Hw] fd n a w' Hn H%dsys_csys Ha. cbn in *.
    edestruct read_unread as (? & ? & ? & _); [done|exact H|done|lia|done].
  - intros [w Hw] fd n a w' Hn H%dsys_csys. cbn in *.
    apply device_read_rest in H as (_ & _ & _ & [H | ->]); [lia|done].
  - intros [w Hw] fd n a w' Hn H%dsys_csys Ha. cbn in *.
    edestruct read_unread as (_ & _ & _ & ?); [done|exact H|done|lia|auto].
  - intros [w Hw] fd fd' bs a w' H%dsys_csys. cbn in *. by injection H as _ <-.
  - intros [w Hw] m a w' H%dsys_csys Ha. cbn in *. apply device_lock in H as [H _].
    destruct (H Ha) as [H1 H2]. rewrite H1, H2. split; [by apply bool_decide_eq_false|].
    by apply bool_decide_eq_true.
  - intros [w Hw] m a w' H%dsys_csys Ha. cbn in *. apply device_lock in H as [_ H].
    by rewrite H.
  - intros [w Hw] m a w' Ho H%dsys_csys. cbn in *. apply bool_decide_eq_true in Ho.
    apply device_unlock in H. rewrite decide_True in H by done. destruct H as [H1 H2].
    split; [done|]. by rewrite H2.
  - intros [w Hw] m a w' Ho H%dsys_csys. cbn in *. apply bool_decide_eq_false in Ho.
    apply device_unlock in H. rewrite decide_False in H by done. destruct H as [H1 ->].
    split; [done|]. by apply bool_decide_eq_false.
  - intros [w Hw] m a w' Ho H%dsys_csys. cbn in *. by injection H as _ <-.
  - intros [w Hw] m a w' Ho H%dsys_csys. cbn in *. by injection H as _ <-.
  - intros w m c a w' Hc H%dsys_csys. pose proof (csys_owner (`w) c m Hc) as Hr.
    rewrite H in Hr. cbn in Hr. by rewrite Hr.
  - done.
  - done.
Qed.

#[export] Instance device_uncancelled : Uncancelled device_os.
Proof using. done. Qed.

Lemma device_allocs_succeed : allocs_succeed device_os.
Proof using. apply (sim_allocs_succeed default). Qed.

End DeviceOS.
