(* ===== verification/ServerSpec.v ===== *)
(** * What the connection handler does

    The specification of [connnection_handler]: [serves] relates the chunks a
    client sends to the calls the handler makes on the data file, [conn_state] is
    the invariant of its receive loop, and the lemmas follow the handler's
    functions.  [dev] is the build flag: [true] for the char device, [false] for the
    plain file, where the handler also positions the file. *)

From Stdlib Require Import String.
From S2P Require Import Prelude Memory Kernel AesdIoctl CString Posix SimOS DataFile SList Server.

(** ** Framing *)

(** The part of a chunk up to its first newline, and the rest. *)
Fixpoint split_line (chunk : list Z) : option (list Z * list Z) :=
  match chunk with
  | [] => None
  | c :: chunk =>
    if c =? NEWLINE then Some ([c], chunk)
    else match split_line chunk with Some (a, b) => Some (c :: a, b) | None => None end
  end.

(** The messages in a sequence of chunks, after the bytes [pending]. *)
Fixpoint frames (pending : list Z) (chunks : list (list Z)) : list (list Z) :=
  match chunks with
  | [] => []
  | chunk :: chunks =>
    match split_line chunk with
    | Some (a, b) => (pending ++ upto_nul a) :: frames (upto_nul b) chunks
    | None => frames (pending ++ upto_nul chunk) chunks
    end
  end.

(** What is left in the buffer after them. *)
Fixpoint leftover (pending : list Z) (chunks : list (list Z)) : list Z :=
  match chunks with
  | [] => pending
  | chunk :: chunks =>
    match split_line chunk with
    | Some (a, b) => leftover (upto_nul b) chunks
    | None => leftover (pending ++ upto_nul chunk) chunks
    end
  end.

Lemma split_line_Some chunk a b :
  split_line chunk = Some (a, b) → chunk = a ++ b ∧ ∃ a', a = a' ++ [NEWLINE].
Proof.
  revert a b. induction chunk as [|c chunk IH]; intros a b; [done|]. cbn.
  destruct (Z.eqb_spec c NEWLINE) as [->|Hc].
  - intros [= <- <-]. split; [done|]. by exists [].
  - destruct (split_line chunk) as [[a1 b1]|] eqn:E; [|done]. intros [= <- <-].
    destruct (IH a1 b1 eq_refl) as [-> [a' ->]]. split; [done|]. by exists (c :: a').
Qed.

Lemma split_line_at a b :
  NEWLINE ∉ a → split_line (a ++ NEWLINE :: b) = Some (a ++ [NEWLINE], b).
Proof.
  induction a as [|c a IH]; intros H; [done|]. apply not_elem_of_cons in H as [Hc Ha].
  cbn. rewrite (proj2 (Z.eqb_neq c NEWLINE)) by done. by rewrite IH.
Qed.

Lemma find_newline_split chunk k :
  find_newline chunk k =
  match split_line chunk with
  | Some (a, _) => (k + Z.of_nat (length a) - 1, true)
  | None => (k + Z.of_nat (length chunk), false)
  end.
Proof.
  revert k. induction chunk as [|c chunk IH]; intros k; cbn [find_newline split_line].
  - f_equal. cbn. lia.
  - destruct (c =? NEWLINE); [f_equal; cbn; lia|]. rewrite IH.
    destruct (split_line chunk) as [[a b]|]; f_equal; cbn [length]; lia.
Qed.

(** Without NUL bytes no byte is lost and each message ends with a newline. *)
Lemma frames_bytes pending chunks :
  Forall nonul chunks →
  concat (frames pending chunks) ++ leftover pending chunks = pending ++ concat chunks.
Proof.
  intros H. revert pending. induction H as [|chunk chunks Hc H IH]; intros pending; cbn.
  - by rewrite app_nil_r.
  - destruct (split_line chunk) as [[a b]|] eqn:E.
    + apply split_line_Some in E as [-> _]. apply Forall_app in Hc as [Ha Hb].
      cbn. rewrite <- app_assoc, IH, !upto_nul_id by done. by rewrite <- !app_assoc.
    + rewrite IH, upto_nul_id by done. by rewrite app_assoc.
Qed.

Lemma upto_nul_forall (P : Z → Prop) l : Forall P l → Forall P (upto_nul l).
Proof. induction 1 as [|x l Hx H IH]; cbn; [done|]. destruct (x =? NUL); auto. Qed.

(** ** The calls on the data file *)

Section Spec.
Context {O : OS}.
Variable dev : bool.

(** The call that appends a message to the data file [fd]. *)
Definition message_call (fd : Z) (msg : list Z) (c : call) : Prop :=
  (dev = false ∨ contains match_cmd msg = false) ∧ c = Cwrite fd msg
  ∨ dev = true ∧ ∃ x y, 0 ≤ x < 2 ^ 32 ∧ 0 ≤ y < 2 ^ 32 ∧ msg = seek_text x y
      ∧ c = Cioctl fd seek_ioctl (le32_bytes x ++ le32_bytes y).

(** A message that is plain text or a well-formed seek command; a plain file takes
    any message. *)
Definition message_ok (msg : list Z) : Prop :=
  dev = false ∨ contains match_cmd msg = false
  ∨ ∃ x y, 0 ≤ x < 2 ^ 32 ∧ 0 ≤ y < 2 ^ 32 ∧ msg = seek_text x y.

Definition open_call : call := Copen (DATA_FILE_PATH dev) open_flags open_mode.

(** The calls of [adjust_datafile_pos(fd, 0, whence)] when [lseek] answers [a], and
    its result. *)
Definition seek_events (fd whence : Z) (a : answer) : list (call * answer) :=
  if dev then [] else [(Clseek fd 0 whence, a)].
Definition seek_pos (a : answer) : Z := if dev then 0 else s32 (rc a).

(** The data file is opened and positioned at its end. *)
Definition opened (a b : answer) : list (call * answer) :=
  (open_call, a) :: seek_events (rc a) SEEK_END b.

(** ** The calls of a connection *)

(** The calls of [send_response]: [dfd] is read and what was read is sent to [cfd],
    until a read gives nothing ([true]) or a send fails ([false]). *)
Inductive reply (dfd cfd : Z) : list (call * answer) → bool → Prop :=
| reply_end a : rc a ≤ 0 → reply dfd cfd [(Cread dfd readbuf_size, a)] true
| reply_broken a b :
    0 < rc a → s32 (rc b) < 0 →
    reply dfd cfd [(Cread dfd readbuf_size, a); (Csend cfd (out a), b)] false
| reply_more a b evs complete :
    0 < rc a → 0 ≤ s32 (rc b) → reply dfd cfd evs complete →
    reply dfd cfd ((Cread dfd readbuf_size, a) :: (Csend cfd (out a), b) :: evs) complete.

(** The part under the lock [m] for the message [msg]: lock, append, rewind, reply, unlock.
    It breaks off when the lock or a send fails. *)
Inductive exchange (dfd cfd m : Z) (msg : list Z) : list (call * answer) → bool → Prop :=
| exchange_locked b : rc b ≠ 0 → exchange dfd cfd m msg [(Cmutex_lock m, b)] false
| exchange_broken b c d f evs :
    rc b = 0 → message_call dfd msg c → reply dfd cfd evs false →
    exchange dfd cfd m msg
      ((Cmutex_lock m, b) :: (c, d) :: seek_events dfd SEEK_SET f ++ evs) false
| exchange_done b c d f evs e :
    rc b = 0 → message_call dfd msg c → reply dfd cfd evs true → rc e = 0 →
    exchange dfd cfd m msg
      ((Cmutex_lock m, b) :: (c, d) :: seek_events dfd SEEK_SET f ++ evs
       ++ [(Cmutex_unlock m, e)]) true.

(** The call that delivers [chunk]. *)
Definition recv_event (cfd : Z) (chunk : list Z) : call * answer :=
  (Crecv cfd BUFFER_SIZE, Ans (Z.of_nat (length chunk)) chunk).

(** [session cfd m pending chunks evs complete]: the calls of the receive loop for
    the chunks that the client [cfd] sends, when [pending] is in the buffer.  With
    [complete] the loop ended with the stream, otherwise in an exchange or because
    the file could not be positioned. *)
Inductive session (cfd m : Z) : list Z → list (list Z) → list (call * answer) → bool → Prop :=
| session_end pending a :
    rc a ≤ 0 → session cfd m pending [] [(Crecv cfd BUFFER_SIZE, a)] true
| session_lost pending chunk chunks a b :
    seek_pos b ≤ -1 →
    session cfd m pending (chunk :: chunks) (recv_event cfd chunk :: opened a b) false
| session_part pending chunk chunks a b evs complete :
    -1 < seek_pos b → split_line chunk = None →
    session cfd m (pending ++ upto_nul chunk) chunks evs complete →
    session cfd m pending (chunk :: chunks)
      (recv_event cfd chunk :: opened a b ++ evs) complete
| session_broken pending chunk chunks l r a b evs :
    -1 < seek_pos b → split_line chunk = Some (l, r) →
    exchange (rc a) cfd m (pending ++ upto_nul l) evs false →
    session cfd m pending (chunk :: chunks)
      (recv_event cfd chunk :: opened a b ++ evs) false
| session_message pending chunk chunks l r a b evs rest complete :
    -1 < seek_pos b → split_line chunk = Some (l, r) →
    exchange (rc a) cfd m (pending ++ upto_nul l) evs true →
    session cfd m (upto_nul r) chunks rest complete →
    session cfd m pending (chunk :: chunks)
      (recv_event cfd chunk :: opened a b ++ evs ++ rest) complete.

(** [serves pending chunks evs complete]: those of them that open and write the data
    file.  The handler may give up, then [complete] is [false]. *)
Inductive serves : list Z → list (list Z) → list (call * answer) → bool → Prop :=
| serves_all pending : serves pending [] [] true
| serves_stop pending chunks : serves pending chunks [] false
| serves_locked pending chunk chunks a : serves pending (chunk :: chunks) [(open_call, a)] false
| serves_part pending chunk chunks a evs complete :
    split_line chunk = None →
    serves (pending ++ upto_nul chunk) chunks evs complete →
    serves pending (chunk :: chunks) ((open_call, a) :: evs) complete
| serves_message pending chunk chunks l r a c b evs complete :
    split_line chunk = Some (l, r) →
    message_call (rc a) (pending ++ upto_nul l) c →
    serves (upto_nul r) chunks evs complete →
    serves pending (chunk :: chunks) ((open_call, a) :: (c, b) :: evs) complete.

(** The last descriptor that was opened, [fd] at first. *)
Fixpoint last_open (fd : Z) (evs : list (call * answer)) : Z :=
  match evs with
  | [] => fd
  | (Copen _ _ _, a) :: evs => last_open (rc a) evs
  | _ :: evs => last_open fd evs
  end.

Lemma last_open_app fd0 l1 l2 : last_open fd0 (l1 ++ l2) = last_open (last_open fd0 l1) l2.
Proof. revert fd0. induction l1 as [|[[] a] l1 IH]; intros fd0; cbn; by rewrite ?IH. Qed.

Lemma seek_last_open fd0 fd whence a : last_open fd0 (seek_events fd whence a) = fd0.
Proof. unfold seek_events. by destruct dev. Qed.

Lemma opened_last_open fd0 a b evs : last_open fd0 (opened a b ++ evs) = last_open (rc a) evs.
Proof. unfold opened. cbn. by rewrite last_open_app, seek_last_open. Qed.

Lemma reply_last_open dfd cfd evs complete fd0 :
  reply dfd cfd evs complete → last_open fd0 evs = fd0.
Proof. by induction 1. Qed.

Lemma exchange_last_open dfd cfd m msg evs complete fd0 :
  exchange dfd cfd m msg evs complete → last_open fd0 evs = fd0.
Proof.
  assert (∀ c d (l : list (call * answer)), message_call dfd msg c →
            last_open fd0 ((c, d) :: l) = last_open fd0 l) as Hm
    by by intros c d l [[_ ->] | (_ & x & y & _ & _ & _ & ->)].
  destruct 1 as [b Hb|b c d f evs Hb Hc Hr|b c d f evs e Hb Hc Hr He]; [done| |].
  - change (last_open fd0 ((c, d) :: seek_events dfd SEEK_SET f ++ evs) = fd0).
    rewrite Hm, last_open_app, seek_last_open by done. by eapply reply_last_open.
  - change (last_open fd0 ((c, d) :: seek_events dfd SEEK_SET f ++ evs
              ++ [(Cmutex_unlock m, e)]) = fd0).
    rewrite Hm, !last_open_app, seek_last_open by done. cbn. by eapply reply_last_open.
Qed.

(** The calls on files: opening, closing, writing. *)
Definition on_file (e : call * answer) : bool :=
  match e.1 with
  | Copen _ _ _ | Cclose _ | Cwrite _ _ | Cioctl _ _ _ => true
  | _ => false
  end.

Fixpoint file_events (evs : list (call * answer)) : list (call * answer) :=
  match evs with
  | [] => []
  | e :: evs => if on_file e then e :: file_events evs else file_events evs
  end.

(** The answers that let the handler go on: it looks at no other. *)
Definition proceeds (e : call * answer) : Prop :=
  match e.1 with
  | Cmutex_lock _ => rc e.2 = 0
  | Csend _ _ => 0 ≤ s32 (rc e.2)
  | Clseek _ _ whence => whence = SEEK_END → -1 < s32 (rc e.2)
  | _ => True
  end.

(** A call that did what it was asked to: besides, what is written and what is sent is
    accepted to its last byte, and the device takes the seek command. *)
Definition event_ok (e : call * answer) : Prop :=
  proceeds e ∧ match e.1 with
  | Cwrite _ bs | Csend _ bs => rc e.2 = Z.of_nat (length bs)
  | Cioctl _ _ _ => 0 ≤ rc e.2
  | _ => True
  end.

Lemma events_proceed evs : Forall event_ok evs → Forall proceeds evs.
Proof. intros H. eapply Forall_impl; [exact H|]. by intros e [? _]. Qed.

Lemma file_events_app l1 l2 : file_events (l1 ++ l2) = file_events l1 ++ file_events l2.
Proof.
  induction l1 as [|e l1 IH]; [done|]. cbn. destruct (on_file e); cbn; by rewrite IH.
Qed.

Lemma seek_file_events fd whence a : file_events (seek_events fd whence a) = [].
Proof. unfold seek_events. by destruct dev. Qed.

Lemma opened_file_events a b evs :
  file_events (opened a b ++ evs) = (open_call, a) :: file_events evs.
Proof. unfold opened. cbn. by rewrite file_events_app, seek_file_events. Qed.

Lemma opened_ok a b evs :
  Forall proceeds (opened a b ++ evs) → -1 < seek_pos b ∧ Forall proceeds evs.
Proof.
  intros H. apply Forall_app in H as [H ?]. split; [|done]. unfold opened, seek_events in H.
  unfold seek_pos. destruct dev; [lia|]. apply Forall_cons in H as [_ H].
  apply Forall_cons in H as [H _]. by apply H.
Qed.

(** In a sequence of calls, the bytes that were read, those that were handed to
    [send], and those of them that [send] accepted: it answers how many. *)
Fixpoint read_bytes (evs : list (call * answer)) : list Z :=
  match evs with
  | [] => []
  | (Cread _ _, a) :: evs => (if 0 <? rc a then out a else []) ++ read_bytes evs
  | _ :: evs => read_bytes evs
  end.

Fixpoint offered_bytes (evs : list (call * answer)) : list Z :=
  match evs with
  | [] => []
  | (Csend _ bs, _) :: evs => bs ++ offered_bytes evs
  | _ :: evs => offered_bytes evs
  end.

Fixpoint sent_bytes (evs : list (call * answer)) : list Z :=
  match evs with
  | [] => []
  | (Csend _ bs, a) :: evs => take (Z.to_nat (rc a)) bs ++ sent_bytes evs
  | _ :: evs => sent_bytes evs
  end.

(** Complete sends lose nothing. *)
Lemma sent_offered evs : Forall event_ok evs → sent_bytes evs = offered_bytes evs.
Proof.
  induction 1 as [|[c a] evs He H IH]; [done|]. destruct c; cbn; try done.
  destruct He as [_ He]. cbn in He. by rewrite He, Nat2Z.id, firstn_all, IH.
Qed.

Lemma reply_facts dfd cfd evs complete :
  reply dfd cfd evs complete →
  file_events evs = [] ∧ offered_bytes evs = read_bytes evs
  ∧ (Forall proceeds evs ↔ complete = true).
Proof.
  induction 1 as [a Ha|a b Ha Hb|a b evs complete Ha Hb H (IH1 & IH2 & IH3)]; cbn.
  - rewrite (proj2 (Z.ltb_ge 0 _) Ha). split; [done|]. split; [done|].
    split; [done|]. intros _. by repeat constructor.
  - rewrite (proj2 (Z.ltb_lt 0 _) Ha). split; [done|]. split; [done|]. split; [|done].
    intros Hok. do 2 apply Forall_cons in Hok as [? Hok]. cbn in *. lia.
  - rewrite (proj2 (Z.ltb_lt 0 _) Ha). split; [done|]. split; [by f_equal|].
    rewrite <- IH3, !Forall_cons. unfold proceeds at 1 2. cbn. tauto.
Qed.

(** An exchange seen from the data file. *)
Lemma exchange_facts dfd cfd m msg evs complete :
  exchange dfd cfd m msg evs complete →
  (Forall proceeds evs → complete = true)
  ∧ (file_events evs = [] ∧ complete = false
     ∨ ∃ c d, message_call dfd msg c ∧ file_events evs = [(c, d)]).
Proof.
  assert (∀ c d l, message_call dfd msg c → file_events ((c, d) :: l) = (c, d) :: file_events l)
    as Hon by by intros c d l [[_ ->] | (_ & x & y & _ & _ & _ & ->)].
  destruct 1 as [b Hb|b c d f evs Hb Hm Hr|b c d f evs e Hb Hm Hr He].
  - split; [|by left]. intros Hok. by apply Forall_cons in Hok as [? _].
  - apply reply_facts in Hr as (Hf & _ & Hok). split.
    + intros H. apply Hok. do 2 apply Forall_cons in H as [_ H].
      by apply Forall_app in H as [_ H].
    + right. exists c, d. split; [done|].
      change (file_events ((c, d) :: seek_events dfd SEEK_SET f ++ evs) = [(c, d)]).
      by rewrite Hon, file_events_app, seek_file_events, Hf.
  - apply reply_facts in Hr as (Hf & _ & _). split; [done|]. right. exists c, d.
    split; [done|].
    change (file_events ((c, d) :: seek_events dfd SEEK_SET f ++ evs
              ++ [(Cmutex_unlock m, e)]) = [(c, d)]).
    by rewrite Hon, !file_events_app, seek_file_events, Hf.
Qed.

(** A session seen from the data file. *)
Lemma session_serves cfd m pending chunks evs complete :
  session cfd m pending chunks evs complete →
  serves pending chunks (file_events evs) complete
  ∧ (Forall proceeds evs → complete = true).
Proof.
  induction 1 as [pending a Ha|pending chunk chunks a b Hb
    |pending chunk chunks a b evs complete Hb Hs H [IH1 IH2]
    |pending chunk chunks l r a b evs Hb Hs Hx
    |pending chunk chunks l r a b evs rest complete Hb Hs Hx H [IH1 IH2]].
  - split; [apply serves_all|done].
  - rewrite <- (app_nil_r (opened a b)). cbn [file_events on_file recv_event fst].
    rewrite opened_file_events. split; [apply serves_locked|].
    intros Hok. apply Forall_cons in Hok as [_ Hok]. apply opened_ok in Hok as [Hok _]. lia.
  - cbn [file_events on_file recv_event fst]. rewrite opened_file_events.
    split; [by apply serves_part|]. intros Hok. apply IH2.
    apply Forall_cons in Hok as [_ Hok]. by apply opened_ok in Hok as [_ Hok].
  - apply exchange_facts in Hx as (Hok & Hf). cbn [file_events on_file recv_event fst].
    rewrite opened_file_events. split.
    + destruct Hf as [[-> _] | (c & d & Hm & ->)]; [apply serves_locked|].
      eapply serves_message; [done|done|apply serves_stop].
    + intros H. apply Hok. apply Forall_cons in H as [_ H]. by apply opened_ok in H as [_ H].
  - apply exchange_facts in Hx as (_ & Hf). cbn [file_events on_file recv_event fst].
    rewrite opened_file_events. split.
    + rewrite file_events_app. destruct Hf as [[_ [=]] | (c & d & Hm & ->)].
      by eapply serves_message.
    + intros Hok. apply IH2. apply Forall_cons in Hok as [_ Hok].
      apply opened_ok in Hok as [_ Hok]. by apply Forall_app in Hok as [_ Hok].
Qed.

(** ** Steps that leave the connection alone *)

(** From [s] to [s'] the calls [evs] were made; memory and variables did not change,
    nor the stream of [fd] nor who holds the mutex [m]. *)
Record quiet (fd m : Z) (s s' : pstate server) (evs : list (call * answer)) : Prop := {
  quiet_heap : p_heap s' = p_heap s;
  quiet_vars : p_vars s' = p_vars s;
  quiet_trace : p_trace s' = p_trace s ++ evs;
  quiet_stream : incoming (p_world s') fd = incoming (p_world s) fd;
  quiet_owns : owns (p_world s') m = owns (p_world s) m
}.

Lemma quiet_refl fd m s : quiet fd m s s [].
Proof. split; try done. by rewrite app_nil_r. Qed.

Lemma quiet_trans fd m s1 s2 s3 e1 e2 :
  quiet fd m s1 s2 e1 → quiet fd m s2 s3 e2 → quiet fd m s1 s3 (e1 ++ e2).
Proof.
  intros [H1 H2 H3 H4 H5] [G1 G2 G3 G4 G5].
  split; [congruence..| |congruence|congruence]. by rewrite G3, H3, <- app_assoc.
Qed.

Lemma quiet_call {L : OSLaws O} fd m s c a w :
  on_stream fd c = false → on_mutex m c = false → sys (p_world s) c = (a, w) →
  quiet fd m s (after s c a w) [(c, a)].
Proof.
  intros Hs Hm E. split; try done; cbn.
  - by eapply incoming_frame.
  - by eapply owns_frame.
Qed.

(** ** Sending the file *)

(** What one run of the loop in [send_response] leaves. *)
Definition loop_sent (dfd cfd fd m : Z) (s : pstate server) (r : Z) (s' : pstate server) : Prop :=
  ∃ evs, quiet fd m s s' evs ∧ reply dfd cfd evs (0 <=? r)
    ∧ (0 ≤ r → unread (p_world s) dfd = offered_bytes evs
               ∨ ∃ a, (Cread dfd readbuf_size, a) ∈ evs ∧ rc a = -1).

(** [C] holds wherever the thread may be cancelled after calls that leave the
    connection alone. *)
Definition cancel_safe (fd m : Z) (C : pstate server → Prop) (s : pstate server) : Prop :=
  ∀ s' evs c, quiet fd m s s' evs → cancels (p_world s') c = true → C s'.

Lemma cancel_safe_here fd m C s c : cancel_safe fd m C s → cancels (p_world s) c = true → C s.
Proof. intros H. apply (H s []). apply quiet_refl. Qed.

Lemma cancel_safe_quiet fd m C s s' evs :
  cancel_safe fd m C s → quiet fd m s s' evs → cancel_safe fd m C s'.
Proof. intros H Hq s2 e2 c Hq2. by eapply H, quiet_trans. Qed.

Lemma send_loop_spec {L : OSLaws O} C dfd cfd fd m fuel s :
  (length (unread (p_world s) dfd) < fuel)%nat → cancel_safe fd m C s →
  runs_to C (send_loop fuel dfd cfd) s (loop_sent dfd cfd fd m s).
Proof.
  revert s. induction fuel as [|fuel IH]; intros s Hf HC; [lia|]. cbn [send_loop].
  prog_step. apply runs_to_syscall; [intros _; by eapply cancel_safe_here|]. intros a w E.
  assert (-1 ≤ rc a ≤ readbuf_size) as Hrange.
  { split; [eapply read_range; [|exact E]; done|]. destruct (Z.lt_ge_cases 0 (rc a)) as [Hp|Hp].
    - eapply read_some; [|exact E|done]. done.
    - unfold readbuf_size. lia. }
  rewrite s32_id by (unfold readbuf_size in Hrange; lia).
  assert (quiet fd m s (after s (Cread dfd readbuf_size) a w) [(Cread dfd readbuf_size, a)])
    as Hq by by apply quiet_call.
  destruct (Z.ltb_spec 0 (rc a)) as [Hpos|Hneg].
  - edestruct (read_some (p_world s) dfd) as (Hle & Hlen & Hun); [|exact E|done|]; [done|].
    rewrite <- Hlen, Nat2Z.id, firstn_all. prog_step.
    prog_step; [by eapply cancel_safe_here; [eapply cancel_safe_quiet|]|].
    set (s1 := after _ (Csend cfd (out a)) _ _).
    assert (quiet fd m s s1 [(Cread dfd readbuf_size, a); (Csend cfd (out a), a0)]) as Hq1
      by (eapply (quiet_trans _ _ _ _ _ [_] [_]); [exact Hq|by apply quiet_call]).
    destruct (Z.ltb_spec (s32 (rc a0)) 0) as [Hs|Hs].
    + prog_step. exists [(Cread dfd readbuf_size, a); (Csend cfd (out a), a0)].
      split; [done|]. rewrite (proj2 (Z.leb_gt 0 _) Hs). split; [by apply reply_broken|lia].
    + assert (unread (p_world s1) dfd = unread w dfd) as Hu1 by by eapply send_frame.
      eapply runs_to_weaken; [apply IH|].
      { rewrite Hu1. rewrite Hun, length_app in Hf. lia. }
      { by eapply cancel_safe_quiet. }
      intros r s' (evs & Hq2 & Hr & Hun2).
      exists ((Cread dfd readbuf_size, a) :: (Csend cfd (out a), a0) :: evs).
      split; [by apply (quiet_trans _ _ _ _ _ _ _ Hq1)|]. split; [by apply reply_more|].
      intros Hr0. destruct (Hun2 Hr0) as [Hu|(a' & Hin & Ha')].
      * left. cbn. by rewrite Hun, <- Hu, Hu1.
      * right. exists a'. split; [|done]. by do 2 apply list_elem_of_further.
  - prog_step. exists [(Cread dfd readbuf_size, a)]. split; [done|].
    split; [by apply reply_end|]. intros _. destruct (decide (rc a = 0)) as [H0|H0].
    + left. eapply (read_end _ _ readbuf_size); [|exact E|done]. done.
    + right. exists a. split; [apply list_elem_of_here|lia].
Qed.

(** [adjust_datafile_pos]. *)
Lemma runs_to_adjust {L : OSLaws O} C dfd whence fd m s (Q : Z → pstate server → Prop) :
  cancel_safe fd m C s →
  (∀ b s', quiet fd m s s' (seek_events dfd whence b) →
     p_world s' = (if dev then p_world s else (sys (p_world s) (Clseek dfd 0 whence)).2) →
     Q (seek_pos b) s') →
  runs_to C (adjust_datafile_pos dev dfd 0 whence) s Q.
Proof.
  intros HC HQ. unfold adjust_datafile_pos, seek_events, seek_pos in *.
  destruct dev; cbn [negb].
  - prog_step. apply (HQ (Ans 0 [])); [apply quiet_refl|done].
  - prog_step. prog_step; [by eapply cancel_safe_here|]. prog_step. apply HQ; [by apply quiet_call|]. cbn. by rewrite H.
Qed.

(** The system after [send_response] rewound the file. *)
Definition rewound (w : world) (dfd : Z) : world :=
  if dev then w else (sys w (Clseek dfd 0 SEEK_SET)).2.

(** What [send_response] leaves. *)
Definition sent (dfd cfd fd m : Z) (s : pstate server) (r : Z) (s' : pstate server) : Prop :=
  ∃ f evs, quiet fd m s s' (seek_events dfd SEEK_SET f ++ evs) ∧ reply dfd cfd evs (0 <=? r)
    ∧ (0 ≤ r → unread (rewound (p_world s) dfd) dfd = offered_bytes evs
               ∨ ∃ a, (Cread dfd readbuf_size, a) ∈ evs ∧ rc a = -1).

Lemma send_response_spec {L : OSLaws O} C dfd cfd fd m s :
  cancel_safe fd m C s →
  runs_to C (send_response dev dfd cfd) s (sent dfd cfd fd m s).
Proof.
  intros HC. unfold send_response. prog_step. apply (runs_to_adjust C dfd SEEK_SET fd m); [done|].
  intros f s1 Hq Hw. prog_step.
  eapply runs_to_weaken; [apply send_loop_spec; [lia|by eapply cancel_safe_quiet]|].
  intros r s2 (evs & Hq2 & Hr & Hu). exists f, evs. split; [by eapply quiet_trans|].
  split; [done|]. unfold rewound. by rewrite <- Hw.
Qed.

End Spec.
