(* ===== verification/ServerRefine.v ===== *)
(** * The connection handler follows its specification

    The invariant of the receive loop of [connnection_handler], and the lemmas
    that follow the handler: each function keeps the invariant and makes the calls
    that [serves] says. *)

From Stdlib Require Import String.
From S2P Require Import Prelude Memory Kernel AesdIoctl CString Posix SimOS DataFile SList.
From S2P Require Import Server ServerSpec.

Section Handler.
Context {O : OS} {L : OSLaws O}.
Variable dev : bool.
Variables x0 y0 : Z.
(* the connection: its address, its contents at first, the variables of the
   process, and the memory without the message buffer *)
Variables (args : Z) (c : aesdsocketclientconn) (v0 : server) (base : heap).
Context (Halloc : allocs_succeed O) (Hargs : args ≠ 0) (Hcell : buffer_cell c ≠ 0).

Definition conn_vars (fd p : Z) : server :=
  with_cells (<[buffer_cell c := p]> (cells v0))
    (with_conns (<[args := with_data_fd fd c]> (conns v0)) v0).

(** [fd] is in the field [data_fd]; the message buffer has [max] bytes and holds
    [str]; the rest is as at the start. *)
Definition conn_state (fd : Z) (s : pstate server) (max : Z) (str : list Z) : Prop :=
  ∃ p, p_vars s = conn_vars fd p ∧ buffer (p_heap s) p max str ∧ delete p (p_heap s) = base.

(** [C] holds wherever the thread may be cancelled in the receive loop. *)
Variable C : pstate server → Prop.
Hypothesis HC : ∀ fd s max str cl,
  conn_state fd s max str → cancels (p_world s) cl = true → C s.

(** The capacity and the recorded length, when [total] bytes have arrived. *)
Definition sized (total max buflen : Z) (str : list Z) : Prop :=
  Z.of_nat (length str) ≤ buflen < max ∧ 0 ≤ buflen ≤ total ∧ 128 ≤ max ≤ 128 + 5 * total.

Lemma get_conn_runs D fd p s (Q : aesdsocketclientconn → pstate server → Prop) :
  p_vars s = conn_vars fd p → Q (with_data_fd fd c) s → runs_to D (get_conn args) s Q.
Proof.
  intros Hv HQ. unfold get_conn. prog_step. prog_step. eapply runs_to_lift; [|done].
  unfold deref. rewrite (proj2 (Z.eqb_neq _ _) Hargs), Hv. cbn.
  by rewrite lookup_insert_eq.
Qed.

Lemma get_cell_runs D fd p s (Q : Z → pstate server → Prop) :
  p_vars s = conn_vars fd p → Q p s → runs_to D (get_cell (buffer_cell c)) s Q.
Proof.
  intros Hv HQ. unfold get_cell. prog_step. prog_step. eapply runs_to_lift; [|done].
  unfold deref. rewrite (proj2 (Z.eqb_neq _ _) Hcell), Hv. cbn.
  by rewrite lookup_insert_eq.
Qed.

Lemma put_cell_vars fd p q s (Q : unit → pstate server → Prop) :
  p_vars s = conn_vars fd p →
  Q () (PState (p_heap s) (p_world s) (p_trace s) (conn_vars fd q)) →
  runs_to C (put_cell (buffer_cell c) q) s Q.
Proof.
  intros Hv HQ. unfold put_cell. rewrite (proj2 (Z.eqb_neq _ _) Hcell). unfold modify.
  prog_step. prog_step. prog_step. rewrite Hv. unfold conn_vars, with_cells in *. cbn in *.
  by rewrite insert_insert_eq.
Qed.

Lemma put_conn_vars fd p fd' s (Q : unit → pstate server → Prop) :
  p_vars s = conn_vars fd p →
  Q () (PState (p_heap s) (p_world s) (p_trace s) (conn_vars fd' p)) →
  runs_to C (put_conn args (with_data_fd fd' (with_data_fd fd c))) s Q.
Proof.
  intros Hv HQ. unfold put_conn. rewrite (proj2 (Z.eqb_neq _ _) Hargs). unfold modify.
  prog_step. prog_step. prog_step. rewrite Hv. unfold conn_vars, with_cells, with_conns in *.
  cbn in *. by rewrite insert_insert_eq.
Qed.

Lemma delete_regrown h h' p q :
  regrown h h' p q → delete p h = base → delete q h' = base.
Proof.
  intros [Hfr [b ->]] <-. rewrite delete_insert_eq.
  destruct Hfr as [-> | Hq]; [by rewrite delete_delete_eq|].
  apply delete_id. by rewrite lookup_delete_None; right.
Qed.

Lemma append_to_conn_spec fd s max buflen str in_buf n :
  conn_state fd s max str → Z.of_nat (length str) ≤ buflen → buflen ≤ max → 0 < max →
  0 ≤ n < 2 ^ 30 → (Z.to_nat n ≤ length in_buf)%nat → max + buflen + 2 * n < object_max →
  runs_to C (append_to_conn args max buflen in_buf n) s
    (λ max' s', conn_state fd s' max' (str ++ upto_nul (take (Z.to_nat n) in_buf))
       ∧ p_world s' = p_world s ∧ p_trace s' = p_trace s ∧ buflen + n < max'
       ∧ (max' = max ∨ max ≤ buflen + n ∧ max' = max + buflen + 2 * n)).
Proof.
  intros (p & Hv & Hb & Hbase) Hstr Hbm Hmax Hn Hin Hlim. unfold append_to_conn.
  prog_step. eapply get_conn_runs; [done|].
  prog_step. eapply get_cell_runs; [done|]. prog_step.
  eapply runs_to_weaken;
    [apply returns_runs_to, (append_string_spec s p max buflen in_buf n str); done || lia|].
  intros [q max'] s' (Hb' & Hre & Hroom & Hcap & Hs'). cbn in *.
  rewrite Hs'. prog_step. apply (put_cell_vars fd p q); [done|]. prog_step. cbn.
  split_and!; [|done|done|done|done]. exists q. cbn. split; [done|].
  split; [done|]. by eapply delete_regrown.
Qed.

(** ** A message *)

Lemma append_seek x y dfd rest s (Q : unit → pstate server → Prop) :
  0 ≤ x < 2 ^ 32 → 0 ≤ y < 2 ^ 32 →
  let call := Cioctl dfd seek_ioctl (le32_bytes x ++ le32_bytes y) in
  (∀ cl, cancels (p_world s) cl = true → C s) →
  (∀ a w, sys (p_world s) call = (a, w) → Q () (after s call a w)) →
  runs_to C (append_datafile true x0 y0 dfd (seek_text x y ++ NUL :: rest)
             (Z.of_nat (length (seek_text x y)))) s Q.
Proof.
  intros Hx Hy call Hcan HQ. unfold append_datafile. apply runs_to_bind. eapply runs_to_lift.
  { apply (parse_seek_text x y x0 y0 rest); lia. }
  rewrite !u32_id by done. prog_step. prog_step; [by eapply Hcan|]. prog_step. by apply HQ.
Qed.

Lemma append_message dfd msg rest s (Q : unit → pstate server → Prop) :
  nonul msg → message_ok dev msg → (∀ cl, cancels (p_world s) cl = true → C s) →
  (∀ cl a w, message_call dev dfd msg cl → sys (p_world s) cl = (a, w) → Q () (after s cl a w)) →
  runs_to C (append_datafile dev x0 y0 dfd (msg ++ NUL :: rest) (Z.of_nat (length msg))) s Q.
Proof.
  intros Hnn Hok Hcan HQ. destruct dev.
  - destruct Hok as [[=]|[Hc|(x & y & Hx & Hy & ->)]].
    + apply append_text; [done|done|done|]. intros a w E. apply HQ; [by left; auto|done].
    + apply append_seek; [done|done|done|]. intros a w E. apply HQ; [|done].
      right. split; [done|]. by exists x, y.
  - apply append_plain; [done|]. intros a w E. apply HQ; [by left; auto|done].
Qed.

Lemma message_call_quiet fd m dfd msg cl s a w :
  message_call dev dfd msg cl → sys (p_world s) cl = (a, w) →
  quiet fd m s (after s cl a w) [(cl, a)] ∧ file_events [(cl, a)] = [(cl, a)].
Proof.
  intros Hm E. split; [apply quiet_call; [| |done]|];
    destruct Hm as [[_ ->] | (_ & x & y & _ & _ & _ & ->)]; done.
Qed.

(** Storing a NUL at the start of a block makes it the empty string. *)
Lemma empty_block fd p b s max (Q : unit → pstate server → Prop) :
  p_vars s = conn_vars fd p → p ≠ 0 → p_heap s !! p = Some b → blk_size b = max →
  Z.of_nat (length (blk_mem b)) = max → 0 < max → delete p (p_heap s) = base →
  (∀ s', conn_state fd s' max [] → p_world s' = p_world s → p_trace s' = p_trace s → Q () s') →
  runs_to C (put_byte p 0 NUL) s Q.
Proof.
  intros Hv Hp Hb Hs Hl Hpos Hbase HQ. unfold put_byte.
  prog_step. prog_step. prog_step. eapply runs_to_lift; [apply store_in; [done|done|lia]|].
  prog_step. apply HQ; [|done|done]. exists p. split; [done|].
  split; [|cbn; by rewrite delete_insert_eq].
  split; [done|]. eexists. cbn. rewrite lookup_insert_eq. split; [done|]. cbn.
  split; [done|]. split; [by rewrite length_insert|]. split; [by apply Forall_nil|].
  destruct (blk_mem b) as [|x mem]; [cbn in Hl; lia|]. by exists mem.
Qed.

Lemma clear_buffer fd p s max str (Q : unit → pstate server → Prop) :
  p_vars s = conn_vars fd p → buffer (p_heap s) p max str → delete p (p_heap s) = base →
  (∀ s', conn_state fd s' max [] → p_world s' = p_world s → p_trace s' = p_trace s → Q () s') →
  runs_to C (put_byte p 0 NUL) s Q.
Proof.
  intros Hv (Hp & b & Hb & Hs & Hl & Hnn & [rest Hmem]) Hbase HQ.
  apply (empty_block fd p b s max); try done.
  rewrite <- Hl, Hmem, length_app. cbn. lia.
Qed.

(** ** The part under the lock *)

Abbreviation m := (mutex c).
Abbreviation stream s := (incoming (p_world s) (client_fd c)).

Lemma quiet_conn_state fd s s' evs max str :
  quiet (client_fd c) m s s' evs → conn_state fd s max str → conn_state fd s' max str.
Proof.
  intros Hq (p & Hv & Hb & Hbase). exists p.
  by rewrite (quiet_vars _ _ _ _ _ Hq), (quiet_heap _ _ _ _ _ Hq).
Qed.

Lemma conn_cancel_safe fd s max str :
  conn_state fd s max str → cancel_safe (client_fd c) m C s.
Proof using HC. intros Hc s' evs cl Hq. eapply HC. by eapply quiet_conn_state. Qed.

(** What an iteration leaves when the handler goes on. *)
Definition goes_on (fd total : Z) (s' : pstate server) (max buflen : Z) (str : list Z) : Prop :=
  conn_state fd s' max str ∧ sized total max buflen str ∧ owns (p_world s') m = false.

Lemma answer_message_spec fd dfd s max chunk l r total :
  conn_state fd s max [] → split_line chunk = Some (l, r) → owns (p_world s) m = true →
  128 ≤ max ≤ 128 + 5 * total → Z.of_nat (length chunk) ≤ 128 →
  Z.of_nat (length chunk) ≤ total → total < 2 ^ 40 →
  runs_to C (answer_message dev args (with_data_fd fd c) dfd max chunk (Z.of_nat (length chunk))
             (Z.of_nat (length l) - 1)) s
    (λ nx s', ∃ f evs, stream s' = stream s
       ∧ match nx with
         | Break => p_trace s' = p_trace s ++ seek_events dev dfd SEEK_SET f ++ evs
             ∧ reply dfd (client_fd c) evs false
             ∧ ∃ max' str, conn_state fd s' max' str
         | Continue max' buflen =>
             (∃ e, rc e = 0 ∧ p_trace s' = p_trace s ++ seek_events dev dfd SEEK_SET f ++ evs
                                          ++ [(Cmutex_unlock m, e)])
             ∧ reply dfd (client_fd c) evs true ∧ goes_on fd total s' max' buflen (upto_nul r)
         end).
Proof.
  intros Hc Hsplit Hown Hmax Hlen Htot Hlim.
  destruct (split_line_Some _ _ _ Hsplit) as [-> [l' ->]]. rewrite !length_app in *.
  cbn [length] in *. unfold answer_message. prog_step.
  eapply runs_to_weaken; [apply (send_response_spec dev C _ _ (client_fd c) m); by eapply conn_cancel_safe|].
  intros rc0 s1 (f & evs & Hq & Hr & _). cbn beta.
  pose proof (quiet_conn_state _ _ _ _ _ _ Hq Hc) as Hc1.
  destruct (Z.ltb_spec rc0 0) as [Hneg|Hpos].
  { prog_step. exists f, evs. split; [apply Hq|]. split; [apply Hq|].
    rewrite (proj2 (Z.leb_gt 0 _) Hneg) in Hr. split; [done|by eexists _, _]. }
  rewrite (proj2 (Z.leb_le 0 _) Hpos) in Hr.
  prog_step. prog_step. set (s2 := after _ _ _ _).
  destruct (unlock_held (p_world s1) m a w) as [Ha Hw];
    [by rewrite (quiet_owns _ _ _ _ _ Hq)|done|].
  rewrite Ha. cbn [Z.eqb negb].
  rewrite (proj2 (Z.ltb_lt _ (Z.of_nat _))) by lia. prog_step.
  replace (Z.to_nat (Z.of_nat (length l' + 1) - 1 + 1)) with (length (l' ++ [NEWLINE]))
    by (rewrite length_app; cbn; lia).
  rewrite drop_app_length.
  set (k := Z.of_nat (length l' + 1 + length r) - _ - 1).
  assert (k = Z.of_nat (length r)) as -> by lia.
  eapply runs_to_weaken;
    [apply (append_to_conn_spec fd s2 max (Z.of_nat (length r)) [] r); try done;
      unfold object_max; cbn; lia|].
  intros max' s3 (Hc3 & Hw3 & Ht3 & Hroom & Hcap). prog_step.
  exists f, evs. rewrite Nat2Z.id, firstn_all in Hc3. split.
  { rewrite Hw3. cbn. rewrite <- (quiet_stream _ _ _ _ _ Hq). by apply (incoming_frame _ _ (Cmutex_unlock m) a). }
  split; [exists a; split; [done|]|split; [done|]].
  - rewrite Ht3. cbn. by rewrite (quiet_trace _ _ _ _ _ Hq), <- !app_assoc.
  - split; [done|]. split; [|by rewrite Hw3].
    pose proof (upto_nul_length r). unfold sized. lia.
Qed.

(** What [handle_message] leaves for the message [msg] when [r] follows it. *)
Definition message_post (fd dfd total : Z) (s : pstate server) (msg r : list Z) (nx : next)
    (s' : pstate server) : Prop :=
  ∃ evs, p_trace s' = p_trace s ++ evs ∧ stream s' = stream s
    ∧ match nx with
      | Break => exchange dev dfd (client_fd c) m msg evs false
          ∧ ∃ max' str, conn_state fd s' max' str
      | Continue max' buflen => exchange dev dfd (client_fd c) m msg evs true
          ∧ goes_on fd total s' max' buflen (upto_nul r)
      end.

Lemma handle_message_spec fd dfd s max chunk l r msg total :
  conn_state fd s max msg → message_ok dev msg → Z.of_nat (length msg) < 2 ^ 31 →
  split_line chunk = Some (l, r) →
  128 ≤ max ≤ 128 + 5 * total → Z.of_nat (length chunk) ≤ 128 →
  Z.of_nat (length chunk) ≤ total → total < 2 ^ 40 →
  runs_to C (handle_message dev x0 y0 args dfd max chunk (Z.of_nat (length chunk))
             (Z.of_nat (length l) - 1)) s (message_post fd dfd total s msg r).
Proof.
  intros Hc Hmsg Hml Hsplit Hmax Hlen Htot Hlim. pose proof Hc as (p & Hv & Hb & Hbase).
  unfold handle_message. prog_step. eapply get_conn_runs; [done|]. prog_step. prog_step.
  set (s1 := after _ _ _ _). destruct (Z.eqb_spec (rc a) 0) as [Ha|Ha]; cbn [negb].
  2: { prog_step. exists [(Cmutex_lock m, a)]. split; [done|].
       split; [by apply (incoming_frame _ _ (Cmutex_lock m) a)|].
       split; [by apply exchange_locked|]. by exists max, msg, p. }
  destruct (lock_ok _ _ _ _ H Ha) as [_ Hown].
  pose proof Hb as (Hp & b & Hbl & _ & _ & Hstr).
  prog_step. apply (get_cell_runs C fd p); [done|]. prog_step. unfold get_mem.
  prog_step. prog_step. prog_step. eapply runs_to_lift; [by apply blk_get_Some|].
  prog_step. prog_step. eapply runs_to_lift; [by apply strlen_spec|]. rewrite s32_id by lia.
  destruct Hstr as [Hnn [rest Hmem]]. rewrite Hmem. prog_step.
  apply append_message; [done|done|by intros cl; eapply HC|]. intros cl b' w' Hcall E. set (s2 := after s1 _ _ _).
  destruct (message_call_quiet (client_fd c) m _ _ _ s1 _ _ Hcall E) as [Hq2 Hf].
  prog_step. apply (clear_buffer fd p s2 max msg); [done|done|done|].
  intros s3 Hc3 Hw3 Ht3.
  eapply runs_to_weaken; [apply (answer_message_spec fd dfd s3 max chunk l r total); try done|].
  { rewrite Hw3. etrans; [apply (quiet_owns _ _ _ _ _ Hq2)|done]. }
  intros nx s4 (f & evs & Hs4 & Hnx).
  assert (stream s4 = stream s) as Hst.
  { rewrite Hs4, Hw3. etrans; [apply (quiet_stream _ _ _ _ _ Hq2)|].
    by apply (incoming_frame _ _ (Cmutex_lock m) a). }
  assert (p_trace s3 = p_trace s ++ [(Cmutex_lock m, a); (cl, b')]) as Ht
    by (rewrite Ht3; cbn; by rewrite <- app_assoc).
  destruct nx as [max' bl|].
  - destruct Hnx as ((e & He & Ht4) & Hr & Hg).
    exists ((Cmutex_lock m, a) :: (cl, b') :: seek_events dev dfd SEEK_SET f ++ evs
            ++ [(Cmutex_unlock m, e)]).
    split; [by rewrite Ht4, Ht, <- app_assoc|]. split; [done|].
    split; [by apply exchange_done|done].
  - destruct Hnx as (Ht4 & Hr & Hst'). exists ((Cmutex_lock m, a) :: (cl, b') :: seek_events dev dfd SEEK_SET f ++ evs).
    split; [by rewrite Ht4, Ht, <- app_assoc|]. split; [done|].
    split; [by apply exchange_broken|done].
Qed.

(** ** A chunk *)

(** What the iteration for [chunk] leaves, when [str] was in the buffer. *)
Definition chunk_post (total : Z) (s : pstate server) (str chunk : list Z) (nx : next)
    (s' : pstate server) : Prop :=
  ∃ evs a b, p_trace s' = p_trace s ++ opened dev a b ++ evs ∧ stream s' = stream s
    ∧ if decide (-1 < seek_pos dev b) then
        match split_line chunk with
        | None => evs = [] ∧ ∃ max' buflen, nx = Continue max' buflen
            ∧ goes_on (rc a) total s' max' buflen (str ++ upto_nul chunk)
        | Some (l, r) =>
            match nx with
            | Continue max' buflen =>
                exchange dev (rc a) (client_fd c) m (str ++ upto_nul l) evs true
                ∧ goes_on (rc a) total s' max' buflen (upto_nul r)
            | Break => exchange dev (rc a) (client_fd c) m (str ++ upto_nul l) evs false
                ∧ ∃ max' str, conn_state (rc a) s' max' str
            end
        end
      else nx = Break ∧ evs = [] ∧ ∃ max' str, conn_state (rc a) s' max' str.

(** Appending the bytes [bs] of a chunk, with the sizes that result. *)
Lemma append_chunk fd s max buflen str bs tail total (Q : Z → pstate server → Prop) :
  conn_state fd s max str → sized total max buflen str → owns (p_world s) m = false →
  Z.of_nat (length bs) ≤ 128 → total < 2 ^ 40 →
  (∀ max' s', conn_state fd s' max' (str ++ upto_nul bs) → p_trace s' = p_trace s →
     stream s' = stream s → owns (p_world s') m = false →
     sized (total + Z.of_nat (length bs)) max' (buflen + Z.of_nat (length bs))
       (str ++ upto_nul bs) → Q max' s') →
  runs_to C (append_to_conn args max buflen (bs ++ tail) (Z.of_nat (length bs))) s Q.
Proof.
  intros Hc (Hs1 & Hs2 & Hs3) Hown Hlen Hlim HQ. eapply runs_to_weaken.
  { apply (append_to_conn_spec fd s max buflen str (bs ++ tail) (Z.of_nat (length bs)));
      try done; rewrite ?length_app; unfold object_max; lia. }
  intros max' s' (Hc' & Hw' & Ht' & Hroom & Hcap).
  rewrite Nat2Z.id, take_app_length in Hc'. apply HQ; [done|done|by rewrite Hw'|by rewrite Hw'|].
  pose proof (upto_nul_length bs). unfold sized. rewrite length_app. lia.
Qed.

Lemma sized_weaken total total' max buflen str :
  sized total max buflen str → total ≤ total' → sized total' max buflen str.
Proof. unfold sized. lia. Qed.

(** The part before the lock. *)
Lemma handle_chunk_open fd s max str (f : Z → Z → prog server next) Q :
  conn_state fd s max str → owns (p_world s) m = false →
  (∀ a b s', conn_state (rc a) s' max str → p_trace s' = p_trace s ++ opened dev a b →
     stream s' = stream s → owns (p_world s') m = false →
     runs_to C (f (rc a) (seek_pos dev b)) s' Q) →
  runs_to C (data_fd ← open_datafile dev; c ← get_conn args;
           _ ← put_conn args (with_data_fd data_fd c);
           pos ← adjust_datafile_pos dev data_fd 0 SEEK_END; f data_fd pos) s Q.
Proof.
  intros (p & Hv & Hb & Hbase) Hown Hf. unfold open_datafile.
  prog_step. prog_step; [by eapply HC; [exists p|]|].
  prog_step. eapply get_conn_runs; [done|]. prog_step.
  apply (put_conn_vars fd p (rc a)); [done|]. prog_step. set (s1 := PState _ _ _ _).
  assert (conn_state (rc a) s1 max str) as Hc1 by by exists p.
  apply (runs_to_adjust dev C (rc a) SEEK_END (client_fd c) m); [by eapply conn_cancel_safe|].
  intros b s2 Hq _. apply Hf.
  - by apply (quiet_conn_state _ s1 _ _ _ _ Hq).
  - rewrite (quiet_trace _ _ _ _ _ Hq). cbn. by rewrite <- app_assoc.
  - rewrite (quiet_stream _ _ _ _ _ Hq). by apply (incoming_frame _ _ (open_call dev) a).
  - rewrite (quiet_owns _ _ _ _ _ Hq). etrans; [|exact Hown]. by apply (owns_frame _ _ (open_call dev) a).
Qed.

Lemma handle_chunk_spec fd s max buflen str chunk total :
  conn_state fd s max str → sized total max buflen str → owns (p_world s) m = false →
  0 < Z.of_nat (length chunk) ≤ 128 → total + Z.of_nat (length chunk) < 2 ^ 31 →
  (∀ l r, split_line chunk = Some (l, r) → message_ok dev (str ++ upto_nul l)) →
  runs_to C (handle_chunk dev x0 y0 args max buflen chunk (Z.of_nat (length chunk))) s
    (chunk_post (total + Z.of_nat (length chunk)) s str chunk).
Proof.
  intros Hc Hsz Hown Hlen Hlim Hok. unfold handle_chunk.
  apply (handle_chunk_open fd s max str); [done|done|]. intros a b s1 Hc1 Ht1 Hst1 Hown1.
  unfold chunk_post. destruct (Z.ltb_spec (-1) (seek_pos dev b)) as [Hb|Hb].
  2: { prog_step. exists [], a, b. rewrite app_nil_r, decide_False by lia. split; [done|].
       split; [done|]. split; [done|]. split; [done|]. by exists max, str. }
  rewrite find_newline_split. destruct (split_line chunk) as [[l r]|] eqn:Hsplit.
  - destruct (split_line_Some _ _ _ Hsplit) as [Hlr [l' Hl']].
    assert (0 < Z.of_nat (length l)) as Hl by (rewrite Hl', length_app; cbn; lia).
    set (currlen := if _ <? _ then _ else _).
    assert (currlen = Z.of_nat (length l)) as ->.
    { unfold currlen. rewrite Hlr, length_app. destruct (Z.ltb_spec (0 + Z.of_nat (length l) - 1 + 1)
        (Z.of_nat (length l + length r))); lia. }
    rewrite Hlr at 1. rewrite Hlr, length_app in Hlen, Hlim.
    prog_step. apply (append_chunk (rc a) s1 max buflen str l r total); try done; [lia|lia|].
    intros max' s2 Hc2 Ht2 Hst2 Hown2 Hsz2.
    rewrite Z.add_0_l. pose proof (Hok l r eq_refl) as Hmok.
    assert (Z.of_nat (length chunk) = Z.of_nat (length l) + Z.of_nat (length r)) as Hcl
      by (rewrite Hlr, length_app; lia).
    eapply runs_to_weaken.
    { destruct Hsz as (_ & Hz0 & _), Hsz2 as (Hz1 & Hz2 & Hz3).
      apply (handle_message_spec (rc a) (rc a) s2 max' chunk l r (str ++ upto_nul l)
               (total + Z.of_nat (length chunk))); try done; lia. }
    intros nx s3 (evs & Ht3 & Hst3 & Hnx). exists evs, a, b.
    split; [by rewrite Ht3, Ht2, Ht1, <- app_assoc|].
    split; [by rewrite Hst3, Hst2|by rewrite decide_True].
  - set (currlen := if _ <? _ then _ else _).
    assert (currlen = Z.of_nat (length chunk)) as ->.
    { unfold currlen. destruct (Z.ltb_spec (0 + Z.of_nat (length chunk) + 1)
        (Z.of_nat (length chunk))); lia. }
    rewrite <- (app_nil_r chunk) at 1. prog_step.
    apply (append_chunk (rc a) s1 max buflen str chunk [] total); try done; [lia|lia|].
    intros max' s2 Hc2 Ht2 Hst2 Hown2 Hsz2. prog_step.
    rewrite u64_id by (destruct Hsz as (_ & ? & _); lia).
    exists [], a, b. split; [by rewrite Ht2, Ht1, app_nil_r|]. split; [by rewrite Hst2|].
    rewrite decide_True by done. split; [done|]. by exists max', (buflen + Z.of_nat (length chunk)).
Qed.
(** ** The receive loop *)

(** What the loop leaves, from a state with [str] in the buffer; when it ended with the
    stream, the buffer holds what followed the last message. *)
Definition recv_post (fd : Z) (s : pstate server) (str : list Z) (chunks : list (list Z))
    (s' : pstate server) : Prop :=
  ∃ evs complete, p_trace s' = p_trace s ++ evs
    ∧ session dev (client_fd c) m str chunks evs complete
    ∧ ∃ max' str', conn_state (last_open fd evs) s' max' str'
        ∧ (complete = true → str' = leftover str chunks).

(** One round, then the others. *)
Lemma recv_post_round fd s s2 s3 str str' chunk chunks evs :
  p_trace s2 = p_trace s ++ recv_event (client_fd c) chunk :: evs →
  (∀ rest complete, session dev (client_fd c) m str' chunks rest complete →
     session dev (client_fd c) m str (chunk :: chunks)
       (recv_event (client_fd c) chunk :: evs ++ rest) complete) →
  leftover str (chunk :: chunks) = leftover str' chunks →
  recv_post (last_open fd evs) s2 str' chunks s3 → recv_post fd s str (chunk :: chunks) s3.
Proof.
  intros Ht2 Hstep Hleft (evs3 & complete & Ht3 & Hserv & Hex).
  exists (recv_event (client_fd c) chunk :: evs ++ evs3), complete.
  split; [by rewrite Ht3, Ht2, <- app_assoc|]. split; [by apply Hstep|].
  cbn [last_open recv_event]. by rewrite last_open_app, Hleft.
Qed.

Lemma recv_loop_spec chunks fd s max buflen str total fuel :
  stream s = chunks → (length chunks < fuel)%nat →
  conn_state fd s max str → sized total max buflen str → owns (p_world s) m = false →
  Forall (λ ch, 0 < Z.of_nat (length ch) ≤ 128) chunks →
  total + Z.of_nat (length (concat chunks)) < 2 ^ 31 →
  Forall (message_ok dev) (frames str chunks) →
  runs_to C (recv_loop dev x0 y0 fuel args max buflen) s (λ _ s', recv_post fd s str chunks s').
Proof.
  revert fd s max buflen str total fuel.
  induction chunks as [|chunk chunks IH]; intros fd s max buflen str total fuel Hst Hf Hc Hsz
    Hown Hch Htot Hok; (destruct fuel as [|fuel]; [cbn in Hf; lia|]); cbn [recv_loop];
    pose proof Hc as (p & Hv & _); prog_step; (eapply get_conn_runs; [done|]);
    prog_step; (apply runs_to_syscall; [intros _ ?; by eapply HC|]); intros a w E; set (s1 := after _ _ _ _).
  - assert (rc a ≤ 0 ∧ s32 (rc a) ≤ 0) as [Ha Ha']
      by (destruct (recv_end _ _ _ _ _ Hst E) as [-> | ->]; rewrite s32_id; lia).
    rewrite (proj2 (Z.ltb_ge 0 _) Ha'). prog_step.
    exists [(Crecv (client_fd c) BUFFER_SIZE, a)], true.
    split; [done|]. split; [by apply session_end|]. exists max, str. split; [exact Hc|done].
  - apply Forall_cons in Hch as [Hl Hch]. cbn [concat] in Htot. rewrite length_app in Htot.
    destruct (recv_chunk _ _ BUFFER_SIZE chunk chunks a w Hst) as [-> Hst1];
      [by intros ->; cbn in Hl; lia|unfold BUFFER_SIZE; lia|done|].
    cbn [rc out]. rewrite s32_id, (proj2 (Z.ltb_lt 0 _)), Nat2Z.id, firstn_all by lia.
    prog_step. eapply runs_to_weaken.
    { apply (handle_chunk_spec fd s1 max buflen str chunk total); try done; [|lia|].
      - rewrite <- Hown. by apply (owns_frame _ _ (Crecv (client_fd c) BUFFER_SIZE) _ _ eq_refl E).
      - intros l r Hs. cbn [frames] in Hok. rewrite Hs in Hok. by apply Forall_cons in Hok as [Hok _]. }
    intros nx s2 (evs & a2 & b2 & Ht2 & Hst2 & Hpost). cbn [frames] in Hok.
    assert (p_trace s2 = p_trace s ++ recv_event (client_fd c) chunk :: opened dev a2 b2 ++ evs)
      as Ht by (rewrite Ht2; cbn [s1 after p_trace]; by rewrite <- app_assoc).
    assert (stream s2 = chunks) as Hs2 by by rewrite Hst2. cbn in Hf.
    destruct (decide (-1 < seek_pos dev b2)) as [Hb|Hb].
    2: { destruct Hpost as (-> & -> & max' & str' & Hc2). prog_step.
         rewrite app_nil_r in Ht. eexists _, false. split; [exact Ht|].
         split; [apply session_lost; lia|]. exists max', str'. cbn [last_open recv_event].
         rewrite <- (app_nil_r (opened dev a2 b2)). by rewrite opened_last_open. }
    destruct (split_line chunk) as [[l r]|] eqn:Hsplit; [destruct nx as [max' bl|]|].
    + destruct Hpost as (Hx & Hc2 & Hsz2 & Hown2). apply Forall_cons in Hok as [_ Hok].
      eapply runs_to_weaken; [by eapply (IH (rc a2) s2 max' bl (upto_nul r)); try done; lia|].
      intros ? s3 Hpost. apply (recv_post_round fd s s2 s3 str (upto_nul r) chunk chunks
        (opened dev a2 b2 ++ evs)); [done| |cbn [leftover]; by rewrite Hsplit|].
      { intros rest complete Hserv. rewrite <- app_assoc. by eapply session_message. }
      by rewrite opened_last_open, (exchange_last_open _ _ _ _ _ _ _ _ Hx).
    + destruct Hpost as (Hx & max' & str' & Hc2). prog_step.
      eexists _, false. split; [exact Ht|]. split; [by eapply session_broken|].
      exists max', str'. cbn [last_open recv_event].
      by rewrite opened_last_open, (exchange_last_open _ _ _ _ _ _ _ _ Hx).
    + destruct Hpost as (-> & max' & bl & -> & Hc2 & Hsz2 & Hown2).
      eapply runs_to_weaken; [by eapply (IH (rc a2) s2 max' bl (str ++ upto_nul chunk)); try done; lia|].
      intros ? s3 Hpost. apply (recv_post_round fd s s2 s3 str (str ++ upto_nul chunk) chunk chunks
        (opened dev a2 b2 ++ [])); [done| |cbn [leftover]; by rewrite Hsplit|by rewrite opened_last_open].
      intros rest complete Hserv. rewrite app_nil_r. by apply session_part.
Qed.

(** ** The end of a connection *)

(** The closing calls of [connection_cleanup]. *)
Definition closing (fd : Z) (evs : list (call * answer)) : Prop :=
  ∃ a b e, evs = (Cclose (client_fd c), a) :: (if 0 <? fd then [(Cclose fd, b)] else [])
                 ++ [(Cmutex_unlock m, e)].

Lemma close_data (D : pstate server → Prop) fd s (Q : unit → pstate server → Prop) :
  (∀ cl, cancels (p_world s) cl = true → D s) →
  (∀ evs s' b, quiet 0 m s s' evs →
     evs = (if 0 <? fd then [(Cclose fd, b)] else []) → Q () s') →
  runs_to D (if negb (fd =? 0) then close_datafile fd else mret ()) s Q.
Proof.
  intros HD HQ. destruct (Z.eqb_spec fd 0) as [->|Hfd]; cbn [negb].
  { prog_step. by apply (HQ [] s (Ans 0 [])); [apply quiet_refl|]. }
  unfold close_datafile. destruct (0 <? fd) eqn:E.
  - prog_step. prog_step; [by eapply HD|]. prog_step.
    apply (HQ [(Cclose fd, a)] _ a); [|done]. split; try done.
    + apply (incoming_frame _ _ (Cclose fd) a); [|done]. cbn.
      apply Z.ltb_lt in E. destruct fd; done.
    + by apply (owns_frame _ _ (Cclose fd) a).
  - prog_step. by apply (HQ [] s (Ans 0 [])); [apply quiet_refl|].
Qed.

Definition cleaned_vars (fd : Z) : server :=
  with_cells (delete (buffer_cell c) (cells v0))
    (with_conns (<[args := with_data_fd fd c]> (conns v0)) v0).

(** Where [connection_cleanup] may be cancelled itself: before the socket is closed, or
    right after that. *)
Definition cleanup_cut (s s' : pstate server) : Prop :=
  s' = s ∨ ∃ a w, sys (p_world s) (Cclose (client_fd c)) = (a, w)
                  ∧ s' = after s (Cclose (client_fd c)) a w.

Lemma connection_cleanup_spec (D : pstate server → Prop) fd s max str :
  (∀ s' cl, cleanup_cut s s' → cancels (p_world s') cl = true → D s') →
  conn_state fd s max str → client_ip_addr c ≠ 0 → buffer_cell c ≠ client_ip_addr c →
  is_Some (base !! buffer_cell c) → is_Some (base !! client_ip_addr c) →
  runs_to D (connection_cleanup args) s (λ _ s', ∃ evs, p_trace s' = p_trace s ++ evs
    ∧ closing fd evs ∧ owns (p_world s') m = false
    ∧ p_heap s' = delete (client_ip_addr c) (delete (buffer_cell c) base)
    ∧ p_vars s' = cleaned_vars fd).
Proof.
  intros HD (p & Hv & (Hp & b & Hb & _) & Hbase) Hip Hne [bc Hbc] [bi Hbi].
  unfold connection_cleanup. prog_step. apply (get_conn_runs D fd p); [done|].
  prog_step. prog_step; [by eapply HD; [left|]|]. prog_step. apply close_data.
  { intros cl. apply HD. right. eauto. }
  intros evs s1 ab Hq Hf.
  pose proof (quiet_heap _ _ _ _ _ Hq) as Hh1. pose proof (quiet_vars _ _ _ _ _ Hq) as Hv1.
  prog_step. apply (get_cell_runs D fd p); [by rewrite Hv1|]. prog_step.
  apply returns_runs_to, (returns_free p b); [done|by rewrite Hh1|]. set (s2 := PState _ _ _ _).
  assert (p_heap s2 = base) as Hh2 by (cbn; by rewrite Hh1).
  prog_step. unfold free_cell. prog_step.
  apply returns_runs_to, (returns_free (buffer_cell c) bc); [done|by rewrite Hh2|]. unfold modify.
  prog_step. prog_step. prog_step. set (s3 := PState _ _ _ _).
  prog_step. apply returns_runs_to, (returns_free (client_ip_addr c) bi); [done| |].
  { cbn [p_heap s3]. by rewrite Hh2, lookup_delete_ne. }
  prog_step. prog_step. set (s4 := after _ _ _ _). prog_step.
  exists ([(Cclose (client_fd c), a)] ++ evs ++ [(Cmutex_unlock m, a0)]). split_and!.
  - cbn. rewrite (quiet_trace _ _ _ _ _ Hq). cbn. by rewrite <- !app_assoc.
  - exists a, ab, a0. by rewrite Hf.
  - cbn. destruct (owns (p_world s1) m) eqn:Eo.
    + by eapply unlock_held.
    + by eapply unlock_free.
  - cbn. by rewrite <- Hh2.
  - cbn. rewrite Hv1. cbn. rewrite Hv. unfold cleaned_vars, with_cells, conn_vars. cbn.
    by rewrite delete_insert_eq.
Qed.
End Handler.

(** ** The whole handler *)

(** The connection that [accept_conn] set up at [args]: a message buffer that holds
    anything, and three blocks that belong to it. *)
Record conn_ready {O : OS} (s : pstate server) (args p : Z) (c : aesdsocketclientconn) : Prop := {
  ready_args : args ≠ 0;
  ready_conn : conns (p_vars s) !! args = Some c;
  ready_size : init_buffer_size c = BUFFER_SIZE;
  ready_cell : buffer_cell c ≠ 0 ∧ cells (p_vars s) !! buffer_cell c = Some p;
  ready_buffer : p ≠ 0 ∧ ∃ b, p_heap s !! p = Some b ∧ block_of BUFFER_SIZE b;
  ready_live : is_Some (p_heap s !! buffer_cell c) ∧ is_Some (p_heap s !! client_ip_addr c);
  ready_distinct : client_ip_addr c ≠ 0 ∧ buffer_cell c ≠ client_ip_addr c
    ∧ p ≠ buffer_cell c ∧ p ≠ client_ip_addr c;
  ready_mutex : owns (p_world s) (mutex c) = false
}.

(** The chunks are what [recv] can deliver, and their messages are understood. *)
Record chunks_ok {O : OS} (dev : bool) (chunks : list (list Z)) : Prop := {
  chunks_size : Forall (λ ch, 0 < Z.of_nat (length ch) ≤ BUFFER_SIZE) chunks;
  chunks_total : Z.of_nat (length (concat chunks)) < 2 ^ 31;
  chunks_messages : Forall (message_ok dev) (frames [] chunks)
}.

Definition handler_post {O : OS} (dev : bool) (args p : Z) (c : aesdsocketclientconn)
    (s : pstate server) (r : Z) (s' : pstate server) : Prop :=
  r = args ∧ ∃ evs1 evs2 complete,
    let fd := last_open (data_fd c) evs1 in
    p_trace s' = p_trace s ++ evs1 ++ evs2
    ∧ session dev (client_fd c) (mutex c) [] (incoming (p_world s) (client_fd c)) evs1 complete
    ∧ closing c fd evs2
    ∧ owns (p_world s') (mutex c) = false
    ∧ p_heap s' = delete (client_ip_addr c) (delete (buffer_cell c) (delete p (p_heap s)))
    ∧ p_vars s' = cleaned_vars args c (p_vars s) fd.

(** How the handler leaves when its thread is cancelled.  In the receive loop: the cleanup
    handler closes the connection as at its normal end, whatever the phase.  In the
    cleanup itself, which runs as ordinary code at the end: it is cut short. *)
Definition handler_cancelled {O : OS} (dev : bool) (x0 y0 args p : Z)
    (c : aesdsocketclientconn) (s s' : pstate server) : Prop :=
  (∃ w cl, cancels w cl = true)
  ∧ ((∃ s1 fd max str evs, receive_all dev x0 y0 args s = Ok (Cancelled, s1)
       ∧ conn_state args c (p_vars s) (delete p (p_heap s)) fd s1 max str
       ∧ p_trace s' = p_trace s1 ++ evs ∧ closing c fd evs
       ∧ owns (p_world s') (mutex c) = false
       ∧ p_heap s' = delete (client_ip_addr c) (delete (buffer_cell c) (delete p (p_heap s)))
       ∧ p_vars s' = cleaned_vars args c (p_vars s) fd)
     ∨ ∃ s1 evs complete max str, p_trace s1 = p_trace s ++ evs
       ∧ session dev (client_fd c) (mutex c) [] (incoming (p_world s) (client_fd c)) evs complete
       ∧ conn_state args c (p_vars s) (delete p (p_heap s)) (last_open (data_fd c) evs) s1 max str
       ∧ cleanup_cut c s1 s').

(** The state of a handler that has not made a call yet. *)
Lemma ready_vars {O : OS} s args p c :
  conn_ready s args p c → p_vars s = conn_vars args c (p_vars s) (data_fd c) p.
Proof.
  intros [_ Hconn _ [_ Hcell] _ _ _ _]. unfold conn_vars.
  assert (with_data_fd (data_fd c) c = c) as -> by by destruct c.
  unfold with_cells, with_conns. cbn. rewrite !insert_id by done. by destruct (p_vars s).
Qed.

(** The receive loop, from the start of the handler. *)
Lemma receive_all_spec {O : OS} {L : OSLaws O} dev x0 y0 (C : pstate server → Prop) s args p c :
  (∀ fd s' max str cl, conn_state args c (p_vars s) (delete p (p_heap s)) fd s' max str →
     cancels (p_world s') cl = true → C s') →
  allocs_succeed O → conn_ready s args p c →
  chunks_ok dev (incoming (p_world s) (client_fd c)) →
  runs_to C (receive_all dev x0 y0 args) s (λ _ s', ∃ evs complete max str,
    p_trace s' = p_trace s ++ evs
    ∧ session dev (client_fd c) (mutex c) [] (incoming (p_world s) (client_fd c)) evs complete
    ∧ conn_state args c (p_vars s) (delete p (p_heap s)) (last_open (data_fd c) evs) s' max str
    ∧ (complete = true → str = leftover [] (incoming (p_world s) (client_fd c)))).
Proof.
  intros HC Halloc Hr [Hch Htot Hmsgs]. pose proof (ready_vars s args p c Hr) as Hv.
  destruct Hr as [Hargs Hconn Hsize [Hcell Hcellp] [Hp (b & Hb & Hbs & Hbl & _)] _ _ Hmtx].
  set (v0 := p_vars s) in *. set (base := delete p (p_heap s)) in *. unfold receive_all.
  prog_step. apply (get_conn_runs args c v0 Hargs C (data_fd c) p); [done|]. prog_step.
  apply (get_cell_runs args c v0 Hcell C (data_fd c) p); [done|]. prog_step.
  apply (empty_block args c v0 base C (data_fd c) p b s BUFFER_SIZE); try done.
  intros s1 Hc1 Hw1 Ht1. prog_step. cbn [init_buffer_size with_data_fd client_fd].
  rewrite Hsize. eapply runs_to_weaken.
  { apply (recv_loop_spec dev x0 y0 args c v0 base Halloc Hargs Hcell C HC
      (incoming (p_world s) (client_fd c)) (data_fd c) s1 BUFFER_SIZE 0 [] 0);
      try done; try (by rewrite Hw1). rewrite Hw1. lia. }
  intros _ s2 (evs & complete & Ht2 & Hserv & max & str & Hc2 & Hleft). rewrite Ht1 in Ht2.
  by exists evs, complete, max, str.
Qed.

Lemma connnection_handler_runs {O : OS} {L : OSLaws O} dev x0 y0 s args p c :
  allocs_succeed O → conn_ready s args p c →
  chunks_ok dev (incoming (p_world s) (client_fd c)) →
  runs_to (handler_cancelled dev x0 y0 args p c s) (connnection_handler dev x0 y0 args) s
    (handler_post dev args p c s).
Proof.
  intros Halloc Hr Hch. set (v0 := p_vars s). set (base := delete p (p_heap s)).
  pose proof (ready_args _ _ _ _ Hr) as Hargs. destruct (ready_cell _ _ _ _ Hr) as [Hcell _].
  destruct (ready_distinct _ _ _ _ Hr) as (Hip & Hd1 & Hd2 & Hd3).
  destruct (ready_live _ _ _ _ Hr) as [Hl1 Hl2].
  assert (is_Some (base !! buffer_cell c)) as Hbase1 by (unfold base; by rewrite lookup_delete_ne).
  assert (is_Some (base !! client_ip_addr c)) as Hbase2 by (unfold base; by rewrite lookup_delete_ne).
  set (C := λ s' : pstate server, (∃ fd max str, conn_state args c v0 base fd s' max str)
              ∧ ∃ cl, cancels (p_world s') cl = true).
  unfold connnection_handler. prog_step. apply runs_to_with_cleanup.
  eapply runs_to_cancelled with (C := λ s1, C s1 ∧ receive_all dev x0 y0 args s = Ok (Cancelled, s1)).
  { apply runs_to_run. eapply runs_to_weaken; [apply receive_all_spec; try done|].
    { intros fd s' max str cl Hs Hcl. split; [by exists fd, max, str|by exists cl]. }
    intros _ s2 (evs1 & complete & max & str & Ht2 & Hserv & Hc2 & _).
    set (fd := last_open (data_fd c) evs1) in *. eapply runs_to_weaken.
    { apply (connection_cleanup_spec args c v0 base Hargs Hcell _ fd s2 max str); try done.
      intros s3 cl Hcut Hcl. split; [by exists (p_world s3), cl|]. right.
      by exists s2, evs1, complete, max, str. }
    intros _ s3 (evs2 & Ht3 & Hcl & Hown & Hh & Hv3). prog_step. split; [done|].
    exists evs1, evs2, complete. split_and!; try done.
    rewrite Ht3, Ht2. by rewrite <- app_assoc. }
  intros s1 [[(fd & max & str & Hc1) Hcl] Hall]. set (s2 := PState _ _ _ _).
  assert (not_cancelled (p_world s2)) as Hoff by apply uncancel_off.
  destruct (connection_cleanup_spec args c v0 base Hargs Hcell (λ _, False) fd s2 max str)
    as ([] & s3 & Hrun & Hpost); try done.
  { intros s' cl [->|(a & w & Hs & ->)] Hcl'; [by rewrite not_cancelled_here in Hcl'|].
    rewrite not_cancelled_here in Hcl'; [done|]. by eapply not_cancelled_step. }
  destruct Hpost as (evs & Ht & Hclo & Hown & Hh & Hv3).
  eexists _, s3. split; [exact Hrun|]. destruct Hcl as [cl Hcl]. split; [by exists (p_world s1), cl|].
  left. by exists s1, fd, max, str, evs.
Qed.

(** The handler of a thread that nobody cancels. *)
Lemma connnection_handler_spec {O : OS} {L : OSLaws O} {N : Uncancelled O} dev x0 y0 s args p c :
  allocs_succeed O → conn_ready s args p c →
  chunks_ok dev (incoming (p_world s) (client_fd c)) →
  returns (connnection_handler dev x0 y0 args) s (handler_post dev args p c s).
Proof.
  intros Ha Hr Hch. eapply runs_to_returns, runs_to_cancelled.
  { by apply connnection_handler_runs. }
  intros s' [(w & cl & Hcl) _]. by rewrite never_cancels in Hcl.
Qed.

(** The two parts of such a run: the receive loop, and the cleanup, which writes nothing
    and frees the message buffer at [q]. *)
Lemma connnection_handler_parts {O : OS} {L : OSLaws O} {N : Uncancelled O} dev x0 y0 s args p c :
  allocs_succeed O → conn_ready s args p c →
  chunks_ok dev (incoming (p_world s) (client_fd c)) →
  returns (receive_all dev x0 y0 args) s (λ _ s1, ∃ evs complete q max str,
    p_trace s1 = p_trace s ++ evs
    ∧ session dev (client_fd c) (mutex c) [] (incoming (p_world s) (client_fd c)) evs complete
    ∧ cells (p_vars s1) !! buffer_cell c = Some q ∧ buffer (p_heap s1) q max str
    ∧ (complete = true → str = leftover [] (incoming (p_world s) (client_fd c)))
    ∧ returns (connnection_handler dev x0 y0 args) s (λ _ s2, ∃ fd evs2,
        p_trace s2 = p_trace s1 ++ evs2 ∧ closing c fd evs2 ∧ p_heap s2 !! q = None)).
Proof.
  intros Halloc Hr Hch. set (v0 := p_vars s). set (base := delete p (p_heap s)).
  pose proof (ready_args _ _ _ _ Hr) as Hargs. destruct (ready_cell _ _ _ _ Hr) as [Hcell _].
  destruct (ready_distinct _ _ _ _ Hr) as (Hip & Hd1 & Hd2 & Hd3).
  destruct (ready_live _ _ _ _ Hr) as [Hl1 Hl2].
  destruct (runs_to_returns _ _ _ (receive_all_spec dev x0 y0 (λ _, False) s args p c
    ltac:(intros ????? _ H; by rewrite never_cancels in H) Halloc Hr Hch))
    as ([] & s1 & Hrun & evs & complete & max & str & Ht & Hs & Hc1 & Hleft).
  exists tt, s1. split; [exact Hrun|]. pose proof Hc1 as (q & Hv & Hb & Hbase).
  exists evs, complete, q, max, str. split_and!; try done.
  { rewrite Hv. cbn. by rewrite lookup_insert_eq. }
  set (fd := last_open (data_fd c) evs) in *.
  assert (is_Some (base !! buffer_cell c)) as Hb1 by (unfold base; by rewrite lookup_delete_ne).
  assert (is_Some (base !! client_ip_addr c)) as Hb2 by (unfold base; by rewrite lookup_delete_ne).
  destruct (runs_to_returns _ _ _ (connection_cleanup_spec args c v0 base Hargs Hcell (λ _, False)
    fd s1 max str ltac:(intros ?? _ H; by rewrite never_cancels in H) Hc1 Hip Hd1 Hb1 Hb2))
    as ([] & s2 & Hrun2 & evs2 & Ht2 & Hcl & _ & Hh & _).
  exists args, s2. split.
  { unfold connnection_handler, with_cleanup, mbind, prog_bind. rewrite Hrun.
    unfold mbind, prog_bind. by rewrite Hrun2. }
  exists fd, evs2. split_and!; try done. rewrite Hh, !lookup_delete_None. right. right.
  pose proof (lookup_delete_eq (p_heap s1) q) as Hn. by rewrite Hbase in Hn.
Qed.
