(* ===== verification/Cut.v ===== *)
(** * Cancelled runs of a handler

    A thread that is cancelled made the first of the calls it would have made otherwise:
    [follows] relates a program on a system that may cancel it with the same program on
    [patient], the same system without requests to cancel, and holds of every program of
    the handler.  So what the handler promises of its calls holds, up to the point of
    the cancellation, for a cancelled handler too ([handler_cut]). *)

From S2P Require Import Prelude Memory Kernel AesdIoctl CString Posix DataFile SList.
From S2P Require Import Server Runs ServerSpec ServerRefine.

(** ** The system without requests to cancel *)

Definition patient (O : OS) : OS := {|
  world := @world O;
  sys := @sys O;
  cancels := λ _ _, false;
  uncancel := id;
  malloc := @malloc O;
  realloc := @realloc O;
  free := @free O;
  os_IOWR := @os_IOWR O;
  incoming := @incoming O;
  unread := @unread O;
  owns := @owns O
|}.

Lemma patient_laws (O : OS) : OSLaws O → OSLaws (patient O).
Proof. intros []. by split. Qed.

#[export] Instance patient_uncancelled (O : OS) : Uncancelled (patient O).
Proof. done. Qed.

(** The same state, on [patient]. *)
Definition calm {O : OS} {V} (s : @pstate O V) : @pstate (patient O) V :=
  @PState (patient O) V (p_heap s) (p_world s) (p_trace s) (p_vars s).

Definition calm_outcome {O : OS} {V A} (r : res (outcome A * @pstate O V))
    : res (outcome A * @pstate (patient O) V) :=
  match r with Ok (o, s) => Ok (o, calm s) | Err e => Err e end.

(** [q] on [patient] does what [p] does, and goes on where [p] is cancelled. *)
Record follows {O : OS} {V A} (p : @prog O V A) (q : @prog (patient O) V A) : Prop := {
  fo_traced : traced q;
  fo_run s : match p s with
             | Ok (Cancelled, s') => ∀ a s'', q (calm s) = Ok (Returned a, s'') →
                 ∃ evs, p_trace s'' = p_trace s' ++ evs
             | r => q (calm s) = calm_outcome r
             end
}.

Section Follows.
Context {O : OS} {V : Type}.
Abbreviation P := (patient O).

Lemma follows_ret {A} (a : A) : follows (O := O) (V := V) (mret a) (mret a).
Proof. split; [tracing|done]. Qed.

Lemma follows_lift {A} (r : res A) : follows (O := O) (V := V) (lift r) (lift r).
Proof. split; [tracing|]. intros s. unfold lift. by destruct r. Qed.

Lemma follows_get_vars : follows (O := O) (get_vars (V := V)) get_vars.
Proof. split; [tracing|done]. Qed.

Lemma follows_set_vars v : follows (O := O) (set_vars (V := V) v) (set_vars v).
Proof. split; [tracing|done]. Qed.

Lemma follows_get_heap : follows (O := O) (get_heap (V := V)) get_heap.
Proof. split; [tracing|done]. Qed.

Lemma follows_set_heap h : follows (O := O) (set_heap (V := V) h) (set_heap h).
Proof. split; [tracing|done]. Qed.

Lemma follows_syscall c : follows (O := O) (V := V) (syscall c) (syscall c).
Proof.
  split; [tracing|]. intros s. unfold syscall. cbn [cancels patient]. rewrite andb_false_r.
  change (@sys P) with (@sys O). change (p_world (calm s)) with (p_world s).
  destruct (sys (p_world s) c) as [a w] eqn:E. destruct (_ && _); [|done].
  intros a' s'' [= <- <-]. by exists [(c, a)].
Qed.

Lemma follows_bind {A B} (p : @prog O V A) q (f : A → @prog O V B) g :
  follows p q → (∀ a, follows (f a) (g a)) → follows (p ≫= f) (q ≫= g).
Proof.
  intros [Ht Hp] Hf. split; [apply traced_bind; [done|]; intros a; apply Hf|].
  intros s. specialize (Hp s). unfold mbind, prog_bind.
  destruct (p s) as [[[a| | |] s']|]; try (by rewrite Hp).
  - rewrite Hp. cbn [calm_outcome]. apply (Hf a).
  - intros b s'' H. destruct (q (calm s)) as [[[a| | |] s1]|] eqn:Hq; try done.
    destruct (Hp a s1 eq_refl) as [e1 H1]. destruct (fo_traced _ _ (Hf a) _ _ _ H) as (e2 & H2 & _).
    exists (e1 ++ e2). by rewrite H2, H1, app_assoc.
Qed.

Lemma follows_with_world {A} (f : @world O → @prog O V A) (g : @world P → @prog P V A) :
  (∀ w, follows (f w) (g w)) → traced (with_world g) → follows (with_world f) (with_world g).
Proof. intros H Ht. split; [done|]. intros s. apply (fo_run _ _ (H (p_world s))). Qed.

End Follows.

Create HintDb follows.
#[export] Hint Resolve follows_ret follows_lift follows_get_vars follows_set_vars
  follows_get_heap follows_set_heap follows_syscall : follows.

(** [follow_step] takes both programs apart. *)
Ltac follow_step :=
  match goal with
  | |- follows (_ ≫= _) (_ ≫= _) => apply follows_bind
  | |- follows (with_world _) (with_world _) => apply follows_with_world
  | |- follows (if ?b then _ else _) _ => destruct b
  | |- follows (match ?x with _ => _ end) _ => destruct x
  | |- ∀ _, _ => intros ?
  | |- follows _ _ => solve [auto with follows]
  | |- traced _ => solve [tracing; auto with traced]
  end.

Ltac following :=
  cbn [patient malloc realloc free os_IOWR incoming unread]; repeat follow_step.

(** ** The programs of the handler *)

Section Programs.
Context {O : OS} {V : Type}.

Lemma follows_do_call c : follows (O := O) (V := V) (do_call c) (do_call c).
Proof. unfold do_call. following. Qed.
#[local] Hint Resolve follows_do_call : follows.

Lemma follows_malloc n : follows (O := O) (V := V) (p_malloc n) (p_malloc n).
Proof. unfold p_malloc. following. Qed.

Lemma follows_realloc p n : follows (O := O) (V := V) (p_realloc p n) (p_realloc p n).
Proof. unfold p_realloc. following. Qed.
#[local] Hint Resolve follows_malloc follows_realloc : follows.

Lemma follows_open dev : follows (O := O) (V := V) (open_datafile dev) (open_datafile dev).
Proof. unfold open_datafile. following. Qed.

Lemma follows_adjust dev fd o k :
  follows (O := O) (V := V) (adjust_datafile_pos dev fd o k) (adjust_datafile_pos dev fd o k).
Proof. unfold adjust_datafile_pos. following. Qed.

Lemma follows_append_datafile dev x0 y0 fd buf size :
  follows (O := O) (V := V) (append_datafile dev x0 y0 fd buf size)
    (append_datafile dev x0 y0 fd buf size).
Proof. unfold append_datafile, write_mem. following. Qed.

Lemma follows_append_string p max len buf n :
  follows (O := O) (V := V) (append_string p max len buf n) (append_string p max len buf n).
Proof. unfold append_string. following. Qed.

End Programs.

#[export] Hint Resolve follows_do_call follows_malloc follows_realloc follows_open
  follows_adjust follows_append_datafile follows_append_string : follows.

Section Handler.
Context {O : OS}.
Variables (dev : bool) (x0 y0 : Z).

Lemma follows_get_conn p : follows (O := O) (get_conn p) (get_conn p).
Proof. unfold get_conn. following. Qed.

Lemma follows_put_conn p c : follows (O := O) (put_conn p c) (put_conn p c).
Proof. unfold put_conn, modify. following. Qed.

Lemma follows_get_cell p : follows (O := O) (get_cell p) (get_cell p).
Proof. unfold get_cell. following. Qed.

Lemma follows_put_cell p x : follows (O := O) (put_cell p x) (put_cell p x).
Proof. unfold put_cell, modify. following. Qed.

Lemma follows_put_byte p i x : follows (O := O) (put_byte p i x) (put_byte p i x).
Proof. unfold put_byte. following. Qed.

Lemma follows_get_mem p : follows (O := O) (get_mem p) (get_mem p).
Proof. unfold get_mem. following. Qed.
#[local] Hint Resolve follows_get_conn follows_put_conn follows_get_cell follows_put_cell
  follows_put_byte follows_get_mem : follows.

Lemma follows_send_loop fuel dfd cfd : follows (O := O) (send_loop fuel dfd cfd) (send_loop fuel dfd cfd).
Proof. induction fuel as [|fuel IH]; cbn [send_loop]; following. Qed.
#[local] Hint Resolve follows_send_loop : follows.

Lemma follows_send_response dfd cfd :
  follows (O := O) (send_response dev dfd cfd) (send_response dev dfd cfd).
Proof. unfold send_response. following. Qed.

Lemma follows_append_to_conn args max len buf n :
  follows (O := O) (append_to_conn args max len buf n) (append_to_conn args max len buf n).
Proof. unfold append_to_conn. following. Qed.
#[local] Hint Resolve follows_send_response follows_append_to_conn : follows.

Lemma follows_handle_message args dfd max buf n k :
  follows (O := O) (handle_message dev x0 y0 args dfd max buf n k)
    (handle_message dev x0 y0 args dfd max buf n k).
Proof. unfold handle_message, answer_message. following. Qed.
#[local] Hint Resolve follows_handle_message : follows.

Lemma follows_handle_chunk args max len buf n :
  follows (O := O) (handle_chunk dev x0 y0 args max len buf n)
    (handle_chunk dev x0 y0 args max len buf n).
Proof. unfold handle_chunk. following. Qed.
#[local] Hint Resolve follows_handle_chunk : follows.

Lemma follows_recv_loop fuel args max len :
  follows (O := O) (recv_loop dev x0 y0 fuel args max len) (recv_loop dev x0 y0 fuel args max len).
Proof. revert max len. induction fuel as [|fuel IH]; intros max len; cbn [recv_loop]; following. Qed.
#[local] Hint Resolve follows_recv_loop : follows.

Lemma follows_receive_all args :
  follows (O := O) (receive_all dev x0 y0 args) (receive_all dev x0 y0 args).
Proof. unfold receive_all. following. Qed.

End Handler.

(** ** The descriptor in the connection

    Wherever a handler is cancelled, the field [data_fd] of its connection is the
    descriptor it opened last, which the cleanup closes. *)

Section Tracks.
Context {O : OS}.
Variables (dev : bool) (x0 y0 : Z).
(* the connection, its contents at the start, and the calls before that *)
Variables (args : Z) (c : aesdsocketclientconn) (t0 : list (call * answer)).

Definition tracks (s : pstate server) : Prop :=
  ∃ evs, p_trace s = t0 ++ evs
    ∧ conns (p_vars s) !! args = Some (with_data_fd (last_open (data_fd c) evs) c).

Definition keeps {A} (p : @prog O server A) : Prop :=
  ∀ s o s', tracks s → p s = Ok (o, s') → tracks s'.

Definition is_open (cl : call) : bool := match cl with Copen _ _ _ => true | _ => false end.

Lemma tracks_call s cl a w : is_open cl = false → tracks s → tracks (after s cl a w).
Proof.
  intros Hc (evs & Ht & Hv). exists (evs ++ [(cl, a)]). split; [by rewrite app_assoc, <- Ht|].
  rewrite last_open_app. by destruct cl.
Qed.

Lemma keeps_ret {A} (a : A) : keeps (mret a).
Proof. by intros s o s' H [= <- <-]. Qed.

Lemma keeps_lift {A} (r : res A) : keeps (lift r).
Proof. intros s o s' H. unfold lift. destruct r; [by intros [= <- <-]|done]. Qed.

Lemma keeps_get_vars : keeps get_vars.
Proof. by intros s o s' H [= <- <-]. Qed.

Lemma keeps_get_heap : keeps get_heap.
Proof. by intros s o s' H [= <- <-]. Qed.

Lemma keeps_set_heap h : keeps (set_heap h).
Proof. by intros s o s' H [= <- <-]. Qed.

Lemma keeps_bind {A B} (p : prog server A) (f : A → prog server B) :
  keeps p → (∀ a, keeps (f a)) → keeps (p ≫= f).
Proof.
  intros Hp Hf s o s' H E. unfold mbind, prog_bind in E.
  destruct (p s) as [[[a| | |] s1]|] eqn:Ep; simplify_eq; try by eapply Hp.
  eapply Hf; [|exact E]. by eapply Hp.
Qed.

Lemma keeps_with_world {A} (f : world → prog server A) : (∀ w, keeps (f w)) → keeps (with_world f).
Proof. intros H s o s' Ht E. by eapply (H (p_world s)). Qed.

Lemma keeps_syscall cl : is_open cl = false → keeps (syscall cl).
Proof.
  intros Hc s o s' H E. unfold syscall in E. destruct (_ && _); [by injection E as <- <-|].
  destruct (sys (p_world s) cl) as [a w]. injection E as <- <-. by apply tracks_call.
Qed.

Lemma keeps_put_cell p x : keeps (put_cell p x).
Proof.
  unfold put_cell. destruct (p =? 0); [apply keeps_lift|].
  intros s o s' (evs & Ht & Hv) [= <- <-]. by exists evs.
Qed.

(** A sequence that ends in [Ok]: its first part returned, or ended it. *)
Lemma bind_Ok {A B} (p : prog server A) (f : A → prog server B) s o s' :
  (p ≫= f) s = Ok (o, s') →
  (∃ a s1, p s = Ok (Returned a, s1) ∧ f a s1 = Ok (o, s'))
  ∨ ∃ o1, p s = Ok (o1, s') ∧ ∀ a, o1 ≠ Returned a.
Proof.
  unfold mbind, prog_bind. destruct (p s) as [[[a| | |] s1]|]; try done; [by left; eauto|..];
    intros [= <- <-]; right; by eexists.
Qed.

Lemma get_conn_Ok s o s' c' :
  conns (p_vars s) !! args = Some c' → get_conn args s = Ok (o, s') → o = Returned c' ∧ s' = s.
Proof.
  intros Hc. unfold get_conn, lift, deref, get_vars, mbind, prog_bind.
  destruct (args =? 0); [done|]. rewrite Hc. by intros [= <- <-].
Qed.

Lemma keeps_put_conn fd s evs s' o :
  p_trace s = t0 ++ evs → last_open (data_fd c) evs = fd →
  put_conn args (with_data_fd fd c) s = Ok (o, s') → tracks s'.
Proof using.
  intros Ht Hl. unfold put_conn. destruct (args =? 0); [done|]. intros [= <- <-]. exists evs.
  split; [done|]. rewrite Hl. apply lookup_insert_eq.
Qed.

(** The part of an iteration that opens the file and stores the descriptor. *)
Lemma keeps_reopen {A} (k : Z → prog server A) :
  (∀ fd, keeps (k fd)) →
  keeps (fd ← open_datafile dev; c' ← get_conn args; _ ← put_conn args (with_data_fd fd c'); k fd).
Proof.
  intros Hk s o s' (evs & Ht & Hv) E.
  assert (∀ o1 s1, open_datafile dev s = Ok (o1, s1) →
            (o1 = Cancelled ∧ s1 = s) ∨ ∃ a w, o1 = Returned (rc a) ∧ s1 = after s (open_call dev) a w)
    as Hopen.
  { intros o1 s1. unfold open_datafile, do_call, syscall, mbind, prog_bind.
    destruct (_ && _); [by intros [= <- <-]; left|].
    destruct (sys (p_world s) _) as [a w]. intros [= <- <-]. right. by exists a, w. }
  apply bind_Ok in E as [(fd & s1 & E1 & E)|(o1 & E1 & Hne)].
  2: { destruct (Hopen _ _ E1) as [[_ ->]|(a & w & -> & _)]; [by exists evs|by destruct (Hne (rc a))]. }
  destruct (Hopen _ _ E1) as [[[=] _]|(a & w & [= ->] & ->)].
  set (s2 := after s (open_call dev) a w) in *.
  apply bind_Ok in E as [(c1 & s3 & E2 & E)|(o1 & E2 & Hne)];
    (eapply get_conn_Ok in E2 as [Ho ->]; [|exact Hv]); [|by destruct (Hne _ Ho)].
  injection Ho as ->. assert (p_trace s2 = t0 ++ evs ++ [(open_call dev, a)]) as Ht2
    by (cbn; by rewrite Ht, <- app_assoc).
  apply bind_Ok in E as [([] & s4 & E3 & E)|(o1 & E3 & _)];
    (eapply keeps_put_conn in E3; [|exact Ht2|by rewrite last_open_app]); [|done].
  by eapply Hk.
Qed.

End Tracks.

Create HintDb keeps.
#[export] Hint Resolve keeps_ret keeps_lift keeps_get_vars keeps_get_heap keeps_set_heap
  keeps_put_cell : keeps.
#[export] Hint Extern 1 (keeps _ _ _ (syscall _)) => apply keeps_syscall; reflexivity : keeps.

(** [keep_step] takes a program apart. *)
Ltac keep_step :=
  match goal with
  | |- keeps _ _ _ (_ ← open_datafile _; _) => apply keeps_reopen
  | |- keeps _ _ _ (_ ≫= _) => apply keeps_bind
  | |- keeps _ _ _ (with_world _) => apply keeps_with_world
  | |- keeps _ _ _ (if ?b then _ else _) => destruct b
  | |- keeps _ _ _ (match ?x with _ => _ end) => destruct x
  | |- ∀ _, _ => intros ?
  | |- keeps _ _ _ _ => solve [auto with keeps]
  end.

Ltac keeping := repeat keep_step.

Section HandlerTracks.
Context {O : OS}.
Variables (dev : bool) (x0 y0 : Z).
Variables (args : Z) (c : aesdsocketclientconn) (t0 : list (call * answer)).
Abbreviation keeps := (keeps args c t0).

Lemma keeps_do_call cl : is_open cl = false → keeps (do_call cl).
Proof. intros H. unfold do_call. keeping. by apply keeps_syscall. Qed.
#[local] Hint Extern 1 (Cut.keeps _ _ _ (do_call _)) => apply keeps_do_call; reflexivity : keeps.

Lemma keeps_get_conn p : keeps (get_conn p).
Proof. unfold get_conn. keeping. Qed.

Lemma keeps_get_cell p : keeps (get_cell p).
Proof. unfold get_cell. keeping. Qed.

Lemma keeps_put_byte p i x : keeps (put_byte p i x).
Proof. unfold put_byte. keeping. Qed.

Lemma keeps_get_mem p : keeps (get_mem p).
Proof. unfold get_mem. keeping. Qed.

Lemma keeps_adjust fd o k : keeps (adjust_datafile_pos dev fd o k).
Proof. unfold adjust_datafile_pos. keeping. Qed.

Lemma keeps_append_datafile fd buf size : keeps (append_datafile dev x0 y0 fd buf size).
Proof. unfold append_datafile, write_mem. keeping. Qed.

Lemma keeps_append_string p max len buf n : keeps (append_string p max len buf n).
Proof. unfold append_string, p_malloc, p_realloc. keeping. Qed.
#[local] Hint Resolve keeps_get_conn keeps_get_cell keeps_put_byte keeps_get_mem keeps_adjust
  keeps_append_datafile keeps_append_string : keeps.

Lemma keeps_send_loop fuel dfd cfd : keeps (send_loop fuel dfd cfd).
Proof. induction fuel as [|fuel IH]; cbn [send_loop]; keeping. Qed.
#[local] Hint Resolve keeps_send_loop : keeps.

Lemma keeps_handle_message dfd max buf n k : keeps (handle_message dev x0 y0 args dfd max buf n k).
Proof. unfold handle_message, answer_message, send_response, append_to_conn. keeping. Qed.
#[local] Hint Resolve keeps_handle_message : keeps.

Lemma keeps_handle_chunk max len buf n : keeps (handle_chunk dev x0 y0 args max len buf n).
Proof. unfold handle_chunk, append_to_conn. keeping. Qed.
#[local] Hint Resolve keeps_handle_chunk : keeps.

Lemma keeps_recv_loop fuel max len : keeps (recv_loop dev x0 y0 fuel args max len).
Proof. revert max len. induction fuel as [|fuel IH]; intros max len; cbn [recv_loop]; keeping. Qed.
#[local] Hint Resolve keeps_recv_loop : keeps.

Lemma keeps_receive_all : keeps (receive_all dev x0 y0 args).
Proof. unfold receive_all. keeping. Qed.

End HandlerTracks.

(** ** The calls of a cancelled handler *)

(** The calls of a handler for a client at [cfd] that sends [chunks]: the session, and the
    calls that close the connection.  Cancelled in the session, it leaves out the [rest]
    of it, and cancelled in the cleanup of its normal end, what is [more] there. *)
Definition handler_calls (dev : bool) (cfd m : Z) (chunks : list (list Z)) (whole : bool)
    (evs : list (call * answer)) : Prop :=
  ∃ (O : OS) c evs1 rest evs2 more complete,
    client_fd c = cfd ∧ mutex c = m ∧ evs = evs1 ++ evs2
    ∧ session (O := O) dev cfd m [] chunks (evs1 ++ rest) complete
    ∧ closing c (last_open 0 evs1) (evs2 ++ more)
    ∧ (rest = [] ∨ more = []) ∧ (whole = true → rest = [] ∧ more = []).

Section HandlerCut.
Context {O : OS} {L : OSLaws O}.
Variables (dev : bool) (x0 y0 : Z).

Lemma calm_ready s args p c : conn_ready s args p c → conn_ready (calm s) args p c.
Proof. intros []. by split. Qed.

Lemma calm_chunks chunks : chunks_ok (O := O) dev chunks → chunks_ok (O := patient O) dev chunks.
Proof. intros []. by split. Qed.

(** Cancelled in the receive loop: the calls so far begin a session, and the descriptor to
    close is the last one that was opened. *)
Lemma receive_all_cut s args p c s' :
  allocs_succeed O → conn_ready s args p c →
  chunks_ok dev (incoming (p_world s) (client_fd c)) →
  receive_all dev x0 y0 args s = Ok (Cancelled, s') →
  ∃ evs rest complete, p_trace s' = p_trace s ++ evs
    ∧ session (O := patient O) dev (client_fd c) (mutex c) [] (incoming (p_world s) (client_fd c))
        (evs ++ rest) complete
    ∧ conns (p_vars s') !! args = Some (with_data_fd (last_open (data_fd c) evs) c).
Proof.
  intros Halloc Hr Hch Hrun. pose proof (patient_laws O L) as PL.
  destruct (receive_all_spec (O := patient O) dev x0 y0 (λ _, False) (calm s) args p c)
    as ([] & s2 & Hq & Hpost); try done; [by apply calm_ready|by apply calm_chunks|].
  destruct Hpost as (evs1 & complete & max & str & Ht2 & Hs & _).
  pose proof (fo_run _ _ (follows_receive_all dev x0 y0 args) s) as Hf. rewrite Hrun in Hf.
  destruct (Hf _ _ Hq) as [rest Hrest].
  destruct (keeps_receive_all dev x0 y0 args c (p_trace s) s Cancelled s') as (evs & Ht & Hv);
    [|done|].
  { exists []. rewrite app_nil_r. split; [done|]. cbn. destruct c. by apply Hr. }
  exists evs, rest, complete. split; [done|]. split; [|done].
  rewrite Ht2 in Hrest. cbn in Hrest. rewrite Ht, <- app_assoc in Hrest.
  apply app_inv_head in Hrest as <-. exact Hs.
Qed.

(** The calls of every run of the handler. *)
Lemma handler_cut s args p c o s' :
  allocs_succeed O → conn_ready s args p c → data_fd c = 0 →
  chunks_ok dev (incoming (p_world s) (client_fd c)) →
  connnection_handler dev x0 y0 args s = Ok (o, s') →
  (o = Cancelled ∨ o = Returned args)
  ∧ ∃ evs, p_trace s' = p_trace s ++ evs
    ∧ handler_calls dev (client_fd c) (mutex c) (incoming (p_world s) (client_fd c))
        (if o is Cancelled then false else true) evs.
Proof.
  intros Halloc Hr Hfd Hch Hrun.
  destruct (connnection_handler_runs dev x0 y0 s args p c Halloc Hr Hch) as (o' & s2 & Hrun' & Hpost).
  rewrite Hrun in Hrun'. injection Hrun' as <- <-. destruct o; try done.
  - destruct Hpost as (-> & evs1 & evs2 & complete & Ht & Hs & Hcl & _). split; [by right|].
    exists (evs1 ++ evs2). split; [done|]. exists O, c, evs1, [], evs2, [], complete.
    rewrite !app_nil_r. rewrite Hfd in Hcl. split_and!; auto.
  - split; [by left|]. destruct Hpost as [_ [(s1 & fd & max & str & evs2 & Hall & Hc & Ht & Hcl & _)
      |(s1 & evs1 & complete & max & str & Ht & Hs & Hc & Hcut)]].
    + destruct (receive_all_cut s args p c s1 Halloc Hr Hch Hall) as (evs1 & rest & complete & Ht1 & Hs & Hv).
      destruct Hc as (q & Hq & _). rewrite Hq in Hv. cbn in Hv. rewrite lookup_insert_eq in Hv.
      injection Hv as Hv. exists (evs1 ++ evs2). split; [by rewrite Ht, Ht1, <- app_assoc|].
      exists (patient O), c, evs1, rest, evs2, [], complete. rewrite app_nil_r. rewrite Hfd in Hv. split_and!; auto; [by rewrite <- Hv|done].
    + assert (∀ a, ∃ more, closing c (last_open 0 evs1) ((Cclose (client_fd c), a) :: more)) as Hmore.
      { intros a. eexists. exists a, (Ans 0 []), (Ans 0 []). reflexivity. }
      destruct Hcut as [->|(a & w & _ & ->)].
      * exists evs1. split; [done|]. destruct (Hmore (Ans 0 [])) as [more Hm].
        exists O, c, evs1, [], [], ((Cclose (client_fd c), Ans 0 []) :: more), complete.
        rewrite !app_nil_r. split_and!; auto; done.
      * exists (evs1 ++ [(Cclose (client_fd c), a)]). split; [cbn; by rewrite Ht, <- app_assoc|].
        destruct (Hmore a) as [more Hm]. exists O, c, evs1, [], [(Cclose (client_fd c), a)], more, complete.
        rewrite !app_nil_r. split_and!; auto; done.
Qed.

End HandlerCut.
