(* ===== verification/ServerProps.v ===== *)
(** * Properties of the socket server

    The theorems about [connnection_handler] and the functions around it, with the
    runs that show their hypotheses can hold. *)

From Stdlib Require Import String.
From S2P Require Import Prelude Memory Kernel AesdIoctl CString Posix SimOS DataFile SList.
From S2P Require Import Server ServerSpec ServerRefine.

(** ** Reading a trace *)

(** The calls that append to a file, the bytes they write, and the numbers of calls
    that open and close. *)
Fixpoint file_writes (evs : list (call * answer)) : list call :=
  match evs with
  | [] => []
  | (Cwrite fd bs, _) :: evs => Cwrite fd bs :: file_writes evs
  | (Cioctl fd cmd arg, _) :: evs => Cioctl fd cmd arg :: file_writes evs
  | _ :: evs => file_writes evs
  end.

Fixpoint written (calls : list call) : list Z :=
  match calls with
  | [] => []
  | Cwrite _ bs :: calls => bs ++ written calls
  | _ :: calls => written calls
  end.

(** The bytes that the files accepted: [write] answers how many. *)
Fixpoint accepted (evs : list (call * answer)) : list Z :=
  match evs with
  | [] => []
  | (Cwrite _ bs, a) :: evs => take (Z.to_nat (rc a)) bs ++ accepted evs
  | _ :: evs => accepted evs
  end.

Fixpoint opens (evs : list (call * answer)) : nat :=
  match evs with
  | [] => 0
  | (Copen _ _ _, _) :: evs => S (opens evs)
  | _ :: evs => opens evs
  end.

Fixpoint closes (evs : list (call * answer)) : list Z :=
  match evs with
  | [] => []
  | (Cclose fd, _) :: evs => fd :: closes evs
  | _ :: evs => closes evs
  end.

Lemma file_writes_app l k : file_writes (l ++ k) = file_writes l ++ file_writes k.
Proof. induction l as [|[[] a] l IH]; cbn; by rewrite ?IH. Qed.
Lemma opens_app l k : opens (l ++ k) = (opens l + opens k)%nat.
Proof. induction l as [|[[] a] l IH]; cbn; by rewrite ?IH. Qed.
Lemma closes_app l k : closes (l ++ k) = closes l ++ closes k.
Proof. induction l as [|[[] a] l IH]; cbn; by rewrite ?IH. Qed.

Lemma accepted_written evs : Forall event_ok evs → accepted evs = written (file_writes evs).
Proof.
  induction 1 as [|[c a] evs [_ He] H IH]; [done|]. destruct c; cbn; try done.
  cbn in He. by rewrite He, Nat2Z.id, firstn_all, IH.
Qed.

(** Only the calls on files count. *)
Lemma file_events_reads evs :
  file_writes (file_events evs) = file_writes evs
  ∧ opens (file_events evs) = opens evs ∧ closes (file_events evs) = closes evs.
Proof.
  induction evs as [|[c a] evs (IH1 & IH2 & IH3)]; [done|].
  destruct c; cbn; rewrite ?IH1, ?IH2, ?IH3; done.
Qed.

Section Served.
Context {O : OS}.
Variable dev : bool.

Definition appends (msg : list Z) (c : call) : Prop := ∃ fd, message_call dev fd msg c.

(** The messages hold no seek command, which only the device would act on. *)
Definition plain_texts (msgs : list (list Z)) : Prop :=
  dev = false ∨ Forall (λ msg, contains match_cmd msg = false) msgs.

(** The messages appended so far are the first ones. *)
Lemma serves_upto pending chunks evs complete :
  serves dev pending chunks evs complete →
  closes evs = [] ∧ ∃ msgs more, frames pending chunks = msgs ++ more
    ∧ Forall2 appends msgs (file_writes evs)
    ∧ (complete = true → more = [] ∧ opens evs = length chunks).
Proof.
  induction 1 as
    [pending|pending chunks|pending chunk chunks a|pending chunk chunks a evs complete Hs H IH
    |pending chunk chunks l r a c b evs complete Hs Hm H IH]; cbn [frames]; rewrite ?Hs.
  - split; [done|]. by exists [], [].
  - split; [done|]. by exists [], (frames pending chunks).
  - split; [done|]. by eexists [], _.
  - destruct IH as (Hc & msgs & more & -> & Hf & Hall). split; [done|]. exists msgs, more.
    split; [done|]. split; [done|]. intros Ht. destruct (Hall Ht) as [-> Ho]. split; [done|].
    cbn. by rewrite Ho.
  - destruct IH as (Hc & msgs & more & -> & Hf & Hall).
    assert (appends (pending ++ upto_nul l) c) as Ha by by exists (rc a).
    destruct Hm as [[_ ->] | (_ & x & y & _ & _ & _ & ->)]; (split; [done|]);
      exists ((pending ++ upto_nul l) :: msgs), more; (split; [done|]);
      (split; [by constructor|]); intros Ht; destruct (Hall Ht) as [-> Ho]; cbn; by rewrite Ho.
Qed.

Lemma serves_frames pending chunks evs :
  serves dev pending chunks evs true →
  Forall2 appends (frames pending chunks) (file_writes evs)
  ∧ opens evs = length chunks ∧ closes evs = [].
Proof.
  intros (Hc & msgs & more & -> & Hf & Hall)%serves_upto. destruct (Hall eq_refl) as [-> Ho].
  by rewrite app_nil_r.
Qed.

Lemma closing_closes c fd evs :
  closing c fd evs →
  file_writes evs = [] ∧ opens evs = 0%nat
  ∧ closes evs = client_fd c :: (if 0 <? fd then [fd] else []).
Proof.
  intros (a & b & e & ->). by destruct (0 <? fd).
Qed.

(** Without seek commands every append is a write. *)
Lemma text_append msg c :
  appends msg c → dev = false ∨ contains match_cmd msg = false → ∃ fd, c = Cwrite fd msg.
Proof.
  intros [fd [[_ ->] | (Hd & x & y & _ & _ & -> & _)]] Ht; [by exists fd|].
  destruct Ht as [Ht|Ht]; [congruence|]. unfold seek_text in Ht. by rewrite contains_start in Ht.
Qed.

Lemma written_text msgs calls :
  Forall2 appends msgs calls → plain_texts msgs → written calls = concat msgs.
Proof.
  induction 1 as [|msg c msgs calls Hm H IH]; intros Ht; [done|].
  destruct (text_append msg c Hm) as [fd ->].
  { destruct Ht as [|Ht]; [by left|right]. by apply Forall_cons in Ht as [? _]. }
  cbn. rewrite IH; [done|]. destruct Ht as [|Ht]; [by left|right].
  by apply Forall_cons in Ht as [_ ?].
Qed.

Lemma one_text_message msg calls :
  Forall2 appends [msg] calls → dev = false ∨ contains match_cmd msg = false →
  ∃ fd, calls = [Cwrite fd msg].
Proof.
  intros H Ht. apply Forall2_cons_inv_l in H as (c & calls' & Hm & H & ->).
  apply Forall2_nil_inv_l in H as ->. destruct (text_append msg c Hm Ht) as [fd ->].
  by exists fd.
Qed.

Lemma Forall_proceeds_l (l k : list (call * answer)) :
  Forall proceeds (l ++ k) → Forall proceeds l.
Proof. intros H. by apply Forall_app in H as [H _]. Qed.

End Served.

(** ** The connection handler *)

Section HandlerTheorems.
Context {O : OS} {L : OSLaws O} {N : Uncancelled O}.
Variable dev : bool.
Variables x0 y0 : Z.

(** The handler runs to its end without leaving its buffers, whatever the
    chunks the client sends, and the calls it makes on the data file are those of
    the specification [serves]: one [open] per chunk, and for each chunk with a
    newline one append of the bytes collected so far up to that newline. *)
Theorem handler_serves_client s args p c
    (Halloc : allocs_succeed O) (Hready : conn_ready s args p c)
    (Hchunks : chunks_ok dev (incoming (p_world s) (client_fd c))) :
  returns (connnection_handler dev x0 y0 args) s (λ r s',
    r = args ∧ ∃ evs1 evs2 complete, p_trace s' = p_trace s ++ evs1 ++ evs2
      ∧ serves dev [] (incoming (p_world s) (client_fd c)) (file_events evs1) complete
      ∧ (Forall proceeds evs1 → complete = true) ∧ file_writes evs2 = []).
Proof.
  eapply returns_weaken; [by apply connnection_handler_spec|].
  intros r s' (Hr & evs1 & evs2 & complete & Ht & [Hs Hc]%session_serves & Hcl & _).
  split; [done|]. exists evs1, evs2, complete. split_and!; try done. by eapply closing_closes.
Qed.

(** When the lock and every [send] succeed, the messages appended to the data
    file are the frames of the chunks, in order: each one text as it is or a seek
    command as its ioctl. *)
Theorem handler_appends_frames s args p c
    (Halloc : allocs_succeed O) (Hready : conn_ready s args p c)
    (Hchunks : chunks_ok dev (incoming (p_world s) (client_fd c))) :
  returns (connnection_handler dev x0 y0 args) s (λ _ s',
    ∃ evs, p_trace s' = p_trace s ++ evs ∧ (Forall proceeds evs →
      Forall2 (appends dev) (frames [] (incoming (p_world s) (client_fd c))) (file_writes evs))).
Proof.
  eapply returns_weaken; [by apply connnection_handler_spec|].
  intros r s' (_ & evs1 & evs2 & complete & Ht & [Hs Hc]%session_serves & Hcl & _).
  exists (evs1 ++ evs2). split; [done|]. intros Hok.
  rewrite (Hc (Forall_proceeds_l _ _ Hok)) in Hs. apply serves_frames in Hs as (Hf & _).
  destruct (closing_closes _ _ _ Hcl) as (Hw & _). destruct (file_events_reads evs1) as (H1 & _).
  by rewrite file_writes_app, Hw, app_nil_r, <- H1.
Qed.

(** C24: for text without NUL bytes (and, with the device, without the seek command)
    nothing is lost, duplicated or reordered when every call does what it was asked to:
    after the receive loop, the bytes that the data file accepted, followed by the text in
    the message buffer, are the bytes the client sent.  The rest of the handler writes
    nothing: what is in the buffer then, a line without its newline, is freed with it. *)
Theorem handler_loses_no_byte s args p c
    (Halloc : allocs_succeed O) (Hready : conn_ready s args p c)
    (Hchunks : chunks_ok dev (incoming (p_world s) (client_fd c)))
    (Hnul : Forall nonul (incoming (p_world s) (client_fd c)))
    (Htext : plain_texts dev (frames [] (incoming (p_world s) (client_fd c)))) :
  returns (receive_all dev x0 y0 args) s (λ _ s1, ∃ evs q max text,
    p_trace s1 = p_trace s ++ evs
    ∧ cells (p_vars s1) !! buffer_cell c = Some q ∧ buffer (p_heap s1) q max text
    ∧ (Forall event_ok evs → accepted evs ++ text = concat (incoming (p_world s) (client_fd c)))
    ∧ returns (connnection_handler dev x0 y0 args) s (λ _ s2, ∃ evs2,
        p_trace s2 = p_trace s1 ++ evs2 ∧ file_writes evs2 = [] ∧ p_heap s2 !! q = None)).
Proof.
  eapply returns_weaken; [by apply (connnection_handler_parts dev x0 y0 s args p c)|].
  intros _ s1 (evs & complete & q & max & text & Ht & [Hs Hc]%session_serves & Hq & Hb & Hl & Hend).
  exists evs, q, max, text. split_and!; [done..| |].
  - intros Hok. rewrite (Hc (events_proceed _ Hok)) in Hs, Hl. rewrite (Hl eq_refl).
    apply serves_frames in Hs as (Hf & _). destruct (file_events_reads evs) as (H1 & _).
    rewrite (accepted_written _ Hok), <- H1, (written_text _ _ _ Hf Htext). by apply frames_bytes.
  - eapply returns_weaken; [exact Hend|]. intros _ s2 (fd & evs2 & Ht2 & Hcl & Hn).
    exists evs2. split_and!; [done| |done]. by eapply closing_closes.
Qed.

(** Whatever happened to the connection (the end of the stream, a failed lock,
    a failed send), the handler leaves with the mutex released, the three blocks
    of the connection freed and nothing else changed in memory, and the client's
    socket closed. *)
Theorem handler_releases_connection s args p c
    (Halloc : allocs_succeed O) (Hready : conn_ready s args p c)
    (Hchunks : chunks_ok dev (incoming (p_world s) (client_fd c))) :
  returns (connnection_handler dev x0 y0 args) s (λ _ s',
    owns (p_world s') (mutex c) = false
    ∧ p_heap s' = delete (client_ip_addr c) (delete (buffer_cell c) (delete p (p_heap s)))
    ∧ ∃ evs, p_trace s' = p_trace s ++ evs ∧ client_fd c ∈ closes evs).
Proof.
  eapply returns_weaken; [by apply connnection_handler_spec|].
  intros r s' (_ & evs1 & evs2 & complete & Ht & _ & Hcl & Hown & Hh & _).
  split; [done|]. split; [done|]. exists (evs1 ++ evs2). split; [done|].
  destruct (closing_closes _ _ _ Hcl) as (_ & _ & Hc). rewrite closes_app, Hc. set_solver.
Qed.

(** C34: the handler opens the data file once per chunk but closes at most one of
    these descriptors: of a client that sends [n] chunks, [n - 1] stay open.  This is when
    the handler is not stopped before: no lock, positioning of the file or send fails. *)
Theorem handler_leaks_descriptors s args p c
    (Halloc : allocs_succeed O) (Hready : conn_ready s args p c)
    (Hchunks : chunks_ok dev (incoming (p_world s) (client_fd c))) :
  returns (connnection_handler dev x0 y0 args) s (λ _ s',
    ∃ evs, p_trace s' = p_trace s ++ evs ∧ (Forall proceeds evs →
      opens evs = length (incoming (p_world s) (client_fd c))
      ∧ ∃ fd, closes evs = client_fd c :: (if 0 <? fd then [fd] else []))).
Proof.
  eapply returns_weaken; [by apply connnection_handler_spec|].
  intros r s' (_ & evs1 & evs2 & complete & Ht & [Hs Hc]%session_serves & Hcl & _).
  exists (evs1 ++ evs2). split; [done|]. intros Hok.
  rewrite (Hc (Forall_proceeds_l _ _ Hok)) in Hs. apply serves_frames in Hs as (_ & Ho & Hcl1).
  destruct (closing_closes _ _ _ Hcl) as (_ & Ho2 & Hcl2).
  destruct (file_events_reads evs1) as (_ & H2 & H3).
  rewrite opens_app, closes_app, Hcl2, Ho2, <- H2, <- H3, Ho, Hcl1. split; [lia|by eexists].
Qed.

(** A client that sends two lines in one chunk and then ends the connection
    has only the first one appended. *)
Theorem second_line_is_not_appended s args p c l1 l2
    (Halloc : allocs_succeed O) (Hready : conn_ready s args p c)
    (Hin : incoming (p_world s) (client_fd c) = [l1 ++ [NEWLINE] ++ l2 ++ [NEWLINE]])
    (Hl1 : nonul l1 ∧ NEWLINE ∉ l1) (Hlen : (length l1 + length l2 ≤ 126)%nat)
    (Htext : dev = false ∨ contains match_cmd (l1 ++ [NEWLINE]) = false) :
  returns (connnection_handler dev x0 y0 args) s (λ _ s',
    ∃ evs, p_trace s' = p_trace s ++ evs ∧ (Forall proceeds evs →
      ∃ fd, file_writes evs = [Cwrite fd (l1 ++ [NEWLINE])])).
Proof.
  assert (frames [] [l1 ++ [NEWLINE] ++ l2 ++ [NEWLINE]] = [l1 ++ [NEWLINE]]) as Hfr.
  { cbn [frames app]. rewrite split_line_at by apply Hl1. cbn. f_equal. apply upto_nul_id.
    apply Forall_app. split; [by destruct Hl1|]. by apply Forall_cons. }
  assert (chunks_ok dev (incoming (p_world s) (client_fd c))) as Hch.
  { rewrite Hin. split.
    - apply Forall_cons. split; [|by apply Forall_nil]. rewrite !length_app. cbn [length].
      unfold BUFFER_SIZE. lia.
    - cbn [concat]. rewrite app_nil_r, !length_app. cbn [length]. lia.
    - rewrite Hfr. apply Forall_cons. split; [|by apply Forall_nil].
      destruct Htext as [Ht|Ht]; [by left|by right; left]. }
  eapply returns_weaken; [by apply connnection_handler_spec|].
  intros r s' (_ & evs1 & evs2 & complete & Ht & [Hs Hc]%session_serves & Hcl & _).
  exists (evs1 ++ evs2). split; [done|]. intros Hok.
  rewrite (Hc (Forall_proceeds_l _ _ Hok)), Hin in Hs. apply serves_frames in Hs as (Hf & _).
  destruct (closing_closes _ _ _ Hcl) as (Hw & _). destruct (file_events_reads evs1) as (H1 & _).
  rewrite file_writes_app, Hw, app_nil_r, <- H1. rewrite Hfr in Hf.
  by eapply one_text_message.
Qed.

End HandlerTheorems.

(** ** A connection *)

Definition demo_conn : aesdsocketclientconn := Conn 0 5 32 1 BUFFER_SIZE 24.

Definition demo_server : server :=
  Server 3 0 0 (SL 0 ∅) ∅ {[ 40 := demo_conn ]} {[ 24 := 16 ]}.

Definition conn_heap : heap :=
  <[16 := Block 128 (replicate 128 7)]>
    (<[24 := Block 8 (replicate 8 7)]>
      (<[32 := Block 2 [49; 0]]> (<[40 := Block 40 (replicate 40 7)]> ∅))).

Definition conn_process (chunks : list (list Z)) : @pstate demo_os server :=
  @PState demo_os server conn_heap (SimWorld {[ 5 := chunks ]} [] 0 []) [] demo_server.

Lemma conn_process_ready chunks : conn_ready (conn_process chunks) 40 16 demo_conn.
Proof.
  split; try done.
  split; [done|]. by exists (Block 128 (replicate 128 7)).
Qed.

Lemma conn_process_incoming chunks :
  incoming (p_world (conn_process chunks)) (client_fd demo_conn) = chunks.
Proof. cbn. unfold sim_stream. cbn. by rewrite lookup_singleton_eq. Qed.

(** A line in two chunks, the start of another, and one more chunk. *)
Definition demo_chunks : list (list Z) := [[97]; [98; 10; 99]; [100; 10]].

Lemma demo_frames : frames [] demo_chunks = [[97; 98; 10]; [99; 100; 10]].
Proof. reflexivity. Qed.

Lemma demo_texts : Forall (λ msg, contains match_cmd msg = false) (frames [] demo_chunks).
Proof. repeat (apply Forall_cons; split; [done|]). by apply Forall_nil. Qed.

Lemma demo_chunks_ok dev : chunks_ok (O := demo_os) dev demo_chunks.
Proof.
  split; [|done|].
  - repeat (apply Forall_cons; split; [done|]). by apply Forall_nil.
  - eapply Forall_impl; [apply demo_texts|]. intros msg H. by right; left.
Qed.

(** The hypotheses of the theorems about the handler. *)
Definition demo_ready (dev : bool) : Prop :=
  allocs_succeed demo_os ∧ conn_ready (conn_process demo_chunks) 40 16 demo_conn
  ∧ chunks_ok (O := demo_os) dev (incoming (p_world (conn_process demo_chunks)) (client_fd demo_conn)).

Lemma demo_is_ready dev : demo_ready dev.
Proof.
  split; [apply sim_allocs_succeed|]. split; [apply conn_process_ready|].
  rewrite conn_process_incoming. apply demo_chunks_ok.
Qed.

Definition demo_laws : OSLaws demo_os := sim_os_laws (object_max - 1) _ eq_refl.

Lemma handler_serves_client_witness :
  demo_ready false ∧ returns (connnection_handler false 0 0 40) (conn_process demo_chunks) (λ r s',
    r = 40 ∧ ∃ evs1 evs2 complete,
      p_trace s' = p_trace (conn_process demo_chunks) ++ evs1 ++ evs2
      ∧ serves (O := demo_os) false [] (incoming (p_world (conn_process demo_chunks)) (client_fd demo_conn))
          (file_events evs1) complete
      ∧ (Forall proceeds evs1 → complete = true) ∧ file_writes evs2 = []).
Proof.
  split; [apply demo_is_ready|]. destruct (demo_is_ready false) as (H1 & H2 & H3).
  exact (handler_serves_client (L := demo_laws) false 0 0 (conn_process demo_chunks) 40 16 demo_conn
           H1 H2 H3).
Defined.

Lemma handler_appends_frames_witness :
  demo_ready true ∧ returns (connnection_handler true 0 0 40) (conn_process demo_chunks) (λ _ s',
    ∃ evs, p_trace s' = p_trace (conn_process demo_chunks) ++ evs ∧ (Forall proceeds evs →
      Forall2 (appends (O := demo_os) true) [[97; 98; 10]; [99; 100; 10]] (file_writes evs))).
Proof.
  split; [apply demo_is_ready|]. destruct (demo_is_ready true) as (H1 & H2 & H3).
  pose proof (handler_appends_frames (L := demo_laws) true 0 0 (conn_process demo_chunks) 40 16
                demo_conn H1 H2 H3) as H.
  rewrite conn_process_incoming, demo_frames in H. exact H.
Defined.

Lemma handler_loses_no_byte_witness :
  demo_ready false ∧ returns (receive_all false 0 0 40) (conn_process demo_chunks) (λ _ s1,
    ∃ evs q max text, p_trace s1 = p_trace (conn_process demo_chunks) ++ evs
    ∧ cells (p_vars s1) !! buffer_cell demo_conn = Some q ∧ buffer (p_heap s1) q max text
    ∧ (Forall event_ok evs → accepted evs ++ text
         = concat (incoming (p_world (conn_process demo_chunks)) (client_fd demo_conn)))
    ∧ returns (connnection_handler false 0 0 40) (conn_process demo_chunks) (λ _ s2, ∃ evs2,
        p_trace s2 = p_trace s1 ++ evs2 ∧ file_writes evs2 = [] ∧ p_heap s2 !! q = None)).
Proof.
  split; [apply demo_is_ready|]. destruct (demo_is_ready false) as (H1 & H2 & H3).
  apply (handler_loses_no_byte (L := demo_laws) false 0 0 (conn_process demo_chunks) 40 16 demo_conn
           H1 H2 H3); rewrite conn_process_incoming; [|right; apply demo_texts].
  repeat (apply Forall_cons; split; [forall_neq|]). by apply Forall_nil.
Defined.

Lemma handler_releases_connection_witness :
  demo_ready false ∧ returns (connnection_handler false 0 0 40) (conn_process demo_chunks) (λ _ s',
    owns (p_world s') 1 = false ∧ p_heap s' = delete 32 (delete 24 (delete 16 conn_heap))
    ∧ ∃ evs, p_trace s' = p_trace (conn_process demo_chunks) ++ evs ∧ 5 ∈ closes evs).
Proof.
  split; [apply demo_is_ready|]. destruct (demo_is_ready false) as (H1 & H2 & H3).
  exact (handler_releases_connection (L := demo_laws) false 0 0 (conn_process demo_chunks) 40 16
           demo_conn H1 H2 H3).
Defined.

Lemma handler_leaks_descriptors_witness :
  demo_ready true ∧ returns (connnection_handler true 0 0 40) (conn_process demo_chunks) (λ _ s',
    ∃ evs, p_trace s' = p_trace (conn_process demo_chunks) ++ evs ∧ (Forall proceeds evs →
      opens evs = 3%nat ∧ ∃ fd, closes evs = 5 :: (if 0 <? fd then [fd] else []))).
Proof.
  split; [apply demo_is_ready|]. destruct (demo_is_ready true) as (H1 & H2 & H3).
  assert (3%nat = length (incoming (p_world (conn_process demo_chunks)) (client_fd demo_conn)))
    as -> by by rewrite conn_process_incoming.
  exact (handler_leaks_descriptors (L := demo_laws) true 0 0 (conn_process demo_chunks) 40 16
           demo_conn H1 H2 H3).
Defined.

Lemma second_line_is_not_appended_witness :
  conn_ready (conn_process [[97; 10; 98; 10]]) 40 16 demo_conn
  ∧ returns (connnection_handler false 0 0 40) (conn_process [[97; 10; 98; 10]]) (λ _ s',
    ∃ evs, p_trace s' = p_trace (conn_process [[97; 10; 98; 10]]) ++ evs ∧ (Forall proceeds evs →
      ∃ fd, file_writes evs = [Cwrite fd [97; 10]])).
Proof.
  split; [apply conn_process_ready|].
  apply (second_line_is_not_appended (L := demo_laws) false 0 0 (conn_process [[97; 10; 98; 10]]) 40 16
           demo_conn [97] [98] (sim_allocs_succeed _) (conn_process_ready _));
    [apply conn_process_incoming| |cbn; lia|by left].
  split; [forall_neq|]. by apply not_elem_of_cons; split; [|apply not_elem_of_nil].
Defined.
