(* ===== verification/Cancel.v ===== *)
(** * Cancelling the thread of a connection

    When the server is told to stop, [signal_handler] cancels the threads of the
    connections.  [connnection_handler] pushes [connection_cleanup] as a cleanup handler
    before its loop and pops it at the end.  This file says what a cancelled handler
    leaves: cancelled anywhere in the loop, it leaves the connection as at its normal
    end ([cancelled_handler_releases]); cancelled in the cleanup itself, which
    [pthread_cleanup_pop] runs as ordinary code and which starts with two cancellation
    points, it keeps everything, the mutex included ([cancelled_cleanup_keeps_lock]).  The
    mutex stays locked for good then: a thread that makes no further call keeps its mutexes,
    whatever the others do ([silent_owner_keeps_lock] in [Interleave]). *)

From Stdlib Require Import String.
From S2P Require Import Prelude Memory Kernel AesdIoctl CString Posix SimOS DataFile SList.
From S2P Require Import Server Runs ServerSpec ServerRefine ServerProps.

(** ** A system that cancels a thread

    [cancel_os O] is the system [O] for a thread that acts on a request to cancel it at
    the cancellation point with the number that the world carries, counted from 0. *)

Definition cancel_sys (O : OS) (w : @world O * option nat) (c : call)
    : answer * (@world O * option nat) :=
  let '(a, w') := sys w.1 c in
  (a, (w', if cancellation_point c then Nat.pred <$> w.2 else w.2)).

Definition cancel_os (O : OS) : OS := {|
  world := @world O * option nat;
  sys := cancel_sys O;
  cancels := λ w _, bool_decide (w.2 = Some 0%nat);
  uncancel := λ w, (w.1, None);
  malloc := @malloc O;
  realloc := @realloc O;
  free := @free O;
  os_IOWR := @os_IOWR O;
  incoming := λ w, incoming w.1;
  unread := λ w, unread w.1;
  owns := λ w, owns w.1
|}.

Section CancelOS.
Context {O : OS} {L : OSLaws O}.

Lemma cancel_sys_base w c a w' : cancel_sys O w c = (a, w') → sys w.1 c = (a, w'.1).
Proof. unfold cancel_sys. destruct (sys w.1 c). by intros [= <- <-]. Qed.

Lemma cancel_os_laws : OSLaws (cancel_os O).
Proof.
  split; cbn [cancel_os sys incoming unread owns malloc realloc free].
  - apply malloc_null.
  - apply malloc_block.
  - apply realloc_block.
  - apply realloc_null.
  - apply free_null.
  - apply free_block.
  - intros w fd n c cs a w' H1 H2 H3 H%cancel_sys_base. by eapply recv_chunk.
  - intros w fd n a w' H1 H%cancel_sys_base. by eapply recv_end.
  - intros w fd c a w' H1 H%cancel_sys_base. by eapply incoming_frame.
  - intros w fd n a w' H1 H%cancel_sys_base. by eapply read_some.
  - intros w fd n a w' H1 H%cancel_sys_base. by eapply read_range.
  - intros w fd n a w' H1 H%cancel_sys_base. by eapply read_end.
  - intros w fd fd' bs a w' H%cancel_sys_base. by eapply send_frame.
  - intros w m a w' H%cancel_sys_base. by eapply lock_ok.
  - intros w m a w' H%cancel_sys_base. by eapply lock_bad.
  - intros w m a w' H1 H%cancel_sys_base. by eapply unlock_held.
  - intros w m a w' H1 H%cancel_sys_base. by eapply unlock_free.
  - intros w m a w' H1 H%cancel_sys_base. by eapply destroy_free.
  - intros w m a w' H1 H%cancel_sys_base. by eapply init_free.
  - intros w m c a w' H1 H%cancel_sys_base. by eapply owns_frame.
  - intros w cs c. cbn. rewrite bool_decide_eq_false.
    assert (∀ v : @world O * option nat, v.2 = None →
              (foldl (λ w c, (cancel_sys O w c).2) v cs).2 = None) as Hnone.
    { induction cs as [|c1 cs IH]; intros v Hv; cbn; [done|]. apply IH. unfold cancel_sys.
      destruct (sys v.1 c1). cbn. rewrite Hv. by destruct (cancellation_point c1). }
    by rewrite Hnone.
  - done.
Qed.

Lemma cancel_allocs_succeed : allocs_succeed O → allocs_succeed (cancel_os O).
Proof. done. Qed.

End CancelOS.

(** ** What a cancelled handler leaves *)

(** The connection is given back: the mutex is free, the three blocks of the connection
    are freed and nothing else changed in memory, and the last calls close the client's
    socket and the data file. *)
Definition gives_back {O : OS} (args p : Z) (c : aesdsocketclientconn) (s s' : pstate server)
    : Prop :=
  owns (p_world s') (mutex c) = false
  ∧ p_heap s' = delete (client_ip_addr c) (delete (buffer_cell c) (delete p (p_heap s)))
  ∧ ∃ fd pre evs, p_trace s' = pre ++ evs ∧ closing c fd evs
      ∧ p_vars s' = cleaned_vars args c (p_vars s) fd.

(** The cleanup was cut short: nothing was freed, and at most the socket is closed. *)
Definition cut_short {O : OS} (dev : bool) (c : aesdsocketclientconn) (s s' : pstate server)
    : Prop :=
  ∃ evs complete last, p_trace s' = p_trace s ++ evs ++ last
    ∧ session dev (client_fd c) (mutex c) [] (incoming (p_world s) (client_fd c)) evs complete
    ∧ (last = [] ∨ ∃ a, last = [(Cclose (client_fd c), a)])
    ∧ is_Some (p_heap s' !! buffer_cell c) ∧ is_Some (p_heap s' !! client_ip_addr c)
    ∧ ∃ q, cells (p_vars s') !! buffer_cell c = Some q ∧ is_Some (p_heap s' !! q).

Section Cancelled.
Context {O : OS} {L : OSLaws O}.
Variable dev : bool.
Variables x0 y0 : Z.

Lemma conn_live args c v0 base fd s max str :
  conn_state args c v0 base fd s max str →
  (∀ q, is_Some (base !! q) → is_Some (p_heap s !! q))
  ∧ ∃ q, cells (p_vars s) !! buffer_cell c = Some q ∧ is_Some (p_heap s !! q).
Proof.
  intros (p & Hv & (Hp & b & Hb & _) & <-). split.
  - intros q [x Hq]. apply lookup_delete_Some in Hq as [_ Hq]. by eexists.
  - exists p. rewrite Hv, Hb. split; [|by eexists]. cbn. apply lookup_insert_eq.
Qed.

Lemma cancelled_spec s args p c s' :
  conn_ready s args p c → handler_cancelled dev x0 y0 args p c s s' →
  gives_back args p c s s' ∨ cut_short dev c s s'.
Proof.
  intros Hr [_ [(s1 & fd & max & str & evs & _ & _ & Ht & Hcl & Ho & Hh & Hv)
    |(s1 & evs & complete & max & str & Ht & Hs & Hc & Hcut)]].
  - left. split; [done|]. split; [done|]. by exists fd, (p_trace s1), evs.
  - right. destruct (conn_live _ _ _ _ _ _ _ _ Hc) as [Hlive Hq].
    destruct (ready_live _ _ _ _ Hr) as [Hl1 Hl2].
    destruct (ready_distinct _ _ _ _ Hr) as (_ & _ & Hd1 & Hd2).
    assert (is_Some (p_heap s1 !! buffer_cell c) ∧ is_Some (p_heap s1 !! client_ip_addr c)) as [H1 H2]
      by (split; apply Hlive; by rewrite lookup_delete_ne).
    destruct Hcut as [->|(a & w & _ & ->)].
    + exists evs, complete, []. rewrite app_nil_r. split_and!; auto.
    + exists evs, complete, [(Cclose (client_fd c), a)]. split_and!; try done; [|by right; eexists].
      cbn. by rewrite Ht, <- app_assoc.
Qed.

(** C5: on every system, whether and wherever it cancels the thread, the handler ends
    without a fault.  Cancelled in the receive loop, in the middle of a message and
    whatever it holds, it gives back the connection as at its normal end: the mutex is
    free, its memory freed, the socket and the data file closed.  The exception is a
    thread cancelled at a [close] of the cleanup that runs at the normal end.  The
    allocations succeed and the client's seek commands are well formed and its text below
    2 GiB ([chunks_ok]). *)
Theorem cancelled_handler_releases s args p c
    (Halloc : allocs_succeed O) (Hready : conn_ready s args p c)
    (Hchunks : chunks_ok dev (incoming (p_world s) (client_fd c))) :
  ∃ o s', connnection_handler dev x0 y0 args s = Ok (o, s')
    ∧ match o with
      | Returned _ => gives_back args p c s s'
      | Cancelled => gives_back args p c s s' ∨ cut_short dev c s s'
      | _ => False
      end.
Proof.
  destruct (connnection_handler_runs dev x0 y0 s args p c Halloc Hready Hchunks)
    as (o & s' & Hrun & Hpost). exists o, s'. split; [done|]. destruct o; try done.
  - destruct Hpost as (_ & evs1 & evs2 & complete & Ht & _ & Hcl & Ho & Hh & Hv).
    split; [done|]. split; [done|]. exists (last_open (data_fd c) evs1), (p_trace s ++ evs1), evs2.
    by rewrite <- app_assoc.
  - by apply cancelled_spec.
Qed.

(** *** A send that failed *)

(** The last call is a [send] to [cfd] that failed. *)
Definition ends_unsent (cfd : Z) (evs : list (call * answer)) : Prop :=
  ∃ bs b, last evs = Some (Csend cfd bs, b) ∧ s32 (rc b) < 0.

Lemma ends_unsent_app cfd e1 e2 :
  e2 ≠ [] → ends_unsent cfd (e1 ++ e2) → ends_unsent cfd e2.
Proof.
  intros Hne (bs & b & Hl & Hb). exists bs, b. split; [|done]. rewrite last_app in Hl.
  destruct (last e2) eqn:E; [done|]. by apply last_None in E.
Qed.

(** Calls that do not concern the mutex keep it. *)
Lemma runs_owns w evs w' m :
  runs w evs w' → Forall (λ e, on_mutex m e.1 = false) evs → owns w' m = owns w m.
Proof using L.
  intros H. induction H as [w|w c a w1 evs w' Hs H IH]; intros Hm; [done|].
  apply Forall_cons in Hm as [Hc Hm]. rewrite IH by done. by eapply owns_frame.
Qed.

Lemma reply_off_mutex dfd cfd evs complete m :
  reply dfd cfd evs complete → Forall (λ e, on_mutex m e.1 = false) evs.
Proof using. induction 1; by repeat constructor. Qed.

Lemma exchange_unsent w w' dfd cfd m msg evs :
  exchange dev dfd cfd m msg evs false → runs w evs w' → ends_unsent cfd evs → owns w' m = true.
Proof using L.
  intros Hx Hr (bs & b' & Hl & _). inversion Hx as [b Hb|b c d f evs' Hb Hc Hrp|]; subst; [done|].
  inversion Hr as [|? ? ? w1 ? ? Hlock Hrest]; subst.
  destruct (lock_ok _ _ _ _ Hlock Hb) as [_ Ho]. rewrite <- Ho.
  eapply runs_owns; [exact Hrest|]. apply Forall_cons. split.
  - by destruct Hc as [[_ ->]|(_ & x & y & _ & _ & _ & ->)].
  - apply Forall_app. split; [|by eapply reply_off_mutex].
    unfold seek_events. destruct dev; by repeat constructor.
Qed.

Lemma session_nonempty cfd m pending chunks evs complete :
  session dev cfd m pending chunks evs complete → evs ≠ [].
Proof using. by destruct 1. Qed.

(** A session whose last call is a [send] that failed ends with the lock. *)
Lemma session_unsent w w' cfd m pending chunks evs complete :
  session dev cfd m pending chunks evs complete → runs w evs w' → ends_unsent cfd evs →
  owns w' m = true.
Proof using L.
  intros H. revert w. induction H as [pending a Ha|pending chunk chunks a b Hb
    |pending chunk chunks a b evs complete Hb Hs H IH
    |pending chunk chunks l r a b evs Hb Hs Hx
    |pending chunk chunks l r a b evs rest complete Hb Hs Hx H IH]; intros w Hr Hu.
  - by destruct Hu as (bs & b & [=] & _).
  - exfalso. destruct Hu as (bs & b' & Hl & _). unfold opened, seek_events in Hl. by destruct dev.
  - apply (ends_unsent_app _ (_ :: opened dev a b)) in Hu; [|by eapply session_nonempty].
    apply (runs_app _ (_ :: opened dev a b)) in Hr as (w1 & _ & Hr). by eapply IH.
  - apply (ends_unsent_app _ (_ :: opened dev a b)) in Hu; [|by destruct Hx].
    apply (runs_app _ (_ :: opened dev a b)) in Hr as (w1 & _ & Hr). by eapply exchange_unsent.
  - rewrite app_assoc in Hr, Hu.
    apply (ends_unsent_app _ (_ :: opened dev a b ++ evs)) in Hu; [|by eapply session_nonempty].
    apply (runs_app _ (_ :: opened dev a b ++ evs)) in Hr as (w1 & _ & Hr). by eapply IH.
Qed.

(** C35: a thread cancelled in the cleanup of its normal end keeps what it has.  When the
    receive loop was left because sending an answer failed, and the thread is cancelled at
    the first call of the cleanup, [close(client_fd)], it ends right there: it has the
    mutex, no descriptor was closed and none of the three blocks of the connection was freed. *)
Theorem cancelled_cleanup_keeps_lock s args p c s1
    (Halloc : allocs_succeed O) (Hready : conn_ready s args p c)
    (Hchunks : chunks_ok dev (incoming (p_world s) (client_fd c)))
    (Hloop : receive_all dev x0 y0 args s = Ok (Returned (), s1))
    (Hsend : ∃ evs, p_trace s1 = p_trace s ++ evs ∧ ends_unsent (client_fd c) evs)
    (Hcancel : cancels (p_world s1) (Cclose (client_fd c)) = true) :
  connnection_handler dev x0 y0 args s = Ok (Cancelled, s1)
  ∧ owns (p_world s1) (mutex c) = true
  ∧ (∃ evs, p_trace s1 = p_trace s ++ evs ∧ closes evs = [])
  ∧ is_Some (p_heap s1 !! buffer_cell c) ∧ is_Some (p_heap s1 !! client_ip_addr c)
  ∧ ∃ q, cells (p_vars s1) !! buffer_cell c = Some q ∧ is_Some (p_heap s1 !! q).
Proof.
  destruct Hsend as (evs & Ht & Hu).
  destruct (receive_all_spec dev x0 y0 (λ _, True) s args p c ltac:(done) Halloc Hready Hchunks)
    as (o & s2 & Hrun & Hpost). rewrite Hloop in Hrun. injection Hrun as <- <-.
  destruct Hpost as (evs' & complete & max & str & Ht' & Hs & Hc & _).
  rewrite Ht in Ht'. apply app_inv_head in Ht' as <-.
  destruct (traced_receive_all _ _ _ _ _ _ _ Hloop) as (evs' & Ht' & Hruns).
  rewrite Ht in Ht'. apply app_inv_head in Ht' as <-.
  destruct (conn_live _ _ _ _ _ _ _ _ Hc) as [Hlive Hq].
  destruct (ready_live _ _ _ _ Hready) as [Hl1 Hl2].
  destruct (ready_distinct _ _ _ _ Hready) as (_ & _ & Hd1 & Hd2).
  destruct (ready_cell _ _ _ _ Hready) as [Hcell _].
  split_and!; [|by eapply session_unsent| | | |done].
  - destruct Hc as (q & Hv & _). pose proof (ready_args _ _ _ _ Hready) as Hargs.
    destruct (get_conn_runs args c (p_vars s) Hargs (λ _, False) _ _ s1
      (λ c' s', c' = with_data_fd (last_open (data_fd c) evs) c ∧ s' = s1) Hv ltac:(done))
      as (o & s' & Hget & Ho). destruct o as [c'| | |]; try done. destruct Ho as [-> ->].
    unfold connnection_handler, with_cleanup, mbind, prog_bind. rewrite Hloop.
    unfold connection_cleanup, mbind, prog_bind. rewrite Hget. unfold do_call, mbind, prog_bind.
    unfold syscall. cbn [client_fd with_data_fd]. by rewrite Hcancel.
  - exists evs. split; [done|]. apply session_serves in Hs as [Hs _]. apply serves_upto in Hs as [Hcl _].
    destruct (file_events_reads evs) as (_ & _ & H3). by rewrite <- H3.
  - apply Hlive. by rewrite lookup_delete_ne.
  - apply Hlive. by rewrite lookup_delete_ne.
Qed.

End Cancelled.

(** ** Runs *)

(** The thread of [demo_chunks], cancelled at its cancellation point [n]. *)
Definition cancel_process (O : OS) (w : @world O) (n : nat) : @pstate (cancel_os O) server :=
  @PState (cancel_os O) server conn_heap (w, Some n) [] demo_server.

Definition demo_sim (chunks : list (list Z)) : sim_world := SimWorld {[ 5 := chunks ]} [] 0 [].

Lemma cancel_process_ready limit default (w : sim_world) n :
  sw_owned w = [] → conn_ready (cancel_process (sim_os limit default) w n) 40 16 demo_conn.
Proof.
  intros Hw. split; try done.
  - split; [done|]. by exists (Block 128 (replicate 128 7)).
  - cbn. unfold sim_owns. by rewrite Hw.
Qed.

Definition demo_cancel_laws : OSLaws (cancel_os demo_os) := cancel_os_laws (L := demo_laws).

(** A thread that is cancelled while it answers a message, with the lock: at its sixth
    cancellation point, the [read]. *)
Lemma cancelled_handler_releases_witness :
  ∃ o s', connnection_handler true 0 0 40 (cancel_process demo_os (demo_sim demo_chunks) 5)
          = Ok (o, s')
    ∧ match o with
      | Returned _ => gives_back 40 16 demo_conn (cancel_process demo_os (demo_sim demo_chunks) 5) s'
      | Cancelled =>
          gives_back 40 16 demo_conn (cancel_process demo_os (demo_sim demo_chunks) 5) s'
          ∨ cut_short true demo_conn (cancel_process demo_os (demo_sim demo_chunks) 5) s'
      | _ => False
      end.
Proof.
  apply (cancelled_handler_releases (L := demo_cancel_laws) true 0 0
    (cancel_process demo_os (demo_sim demo_chunks) 5) 40 16 demo_conn).
  - apply cancel_allocs_succeed, sim_allocs_succeed.
  - by apply cancel_process_ready.
  - assert (incoming (p_world (cancel_process demo_os (demo_sim demo_chunks) 5)) (client_fd demo_conn)
            = demo_chunks) as -> by reflexivity.
    destruct (demo_chunks_ok true) as [H1 H2 H3]. by split.
Defined.

(** The calls of that run: the lock is taken, and given back by the cleanup handler. *)
Example cancelled_while_reading :
  match connnection_handler true 0 0 40 (cancel_process demo_os (demo_sim demo_chunks) 5) with
  | Ok (Cancelled, s') => drop 4 (fst <$> p_trace s')
  | _ => []
  end
  = [Cmutex_lock 1; Cwrite 0 [97; 98; 10]; Cclose 5; Cmutex_unlock 1].
Proof. vm_compute. reflexivity. Qed.

(** A system on which every [send] fails. *)
Definition unsent_os : OS :=
  sim_os (object_max - 1) (λ c, match c with Csend _ _ => Ans (-1) [] | _ => Ans 0 [] end).

(** The first line is appended, sending the answer fails, and the thread is cancelled at
    the first [close] of the cleanup. *)
Definition unsent_process : @pstate (cancel_os unsent_os) server :=
  cancel_process unsent_os (demo_sim demo_chunks) 10.

Definition unsent_laws : OSLaws (cancel_os unsent_os) :=
  cancel_os_laws (L := sim_os_laws (object_max - 1) _ eq_refl).

(** The last call is a [send] to [cfd] that failed, as a test. *)
Definition unsentb (cfd : Z) (evs : list (call * answer)) : bool :=
  match last evs with
  | Some (Csend fd _, b) => (fd =? cfd) && (s32 (rc b) <? 0)
  | _ => false
  end.

Lemma unsentb_true cfd evs : unsentb cfd evs = true → ends_unsent cfd evs.
Proof.
  unfold unsentb, ends_unsent. destruct (last evs) as [[[] b]|]; try done.
  intros [->%Z.eqb_eq Hb%Z.ltb_lt]%andb_prop. by eexists _, _.
Qed.

(** The state in which the loop is left. *)
Definition unsent_left : option (pstate server) :=
  match receive_all false 0 0 40 unsent_process with Ok (Returned tt, s1) => Some s1 | _ => None end.

Lemma cancelled_cleanup_keeps_lock_witness :
  ∃ s1, unsent_left = Some s1
    ∧ connnection_handler false 0 0 40 unsent_process = Ok (Cancelled, s1)
    ∧ owns (OS := cancel_os unsent_os) (p_world s1) 1 = true
    ∧ (∃ evs, p_trace s1 = [] ++ evs ∧ closes evs = [])
    ∧ is_Some (p_heap s1 !! 24) ∧ is_Some (p_heap s1 !! 32)
    ∧ ∃ q, cells (p_vars s1) !! 24 = Some q ∧ is_Some (p_heap s1 !! q).
Proof.
  assert (match unsent_left with
    | Some s1 => unsentb 5 (p_trace s1) && cancels (p_world s1) (Cclose 5)
    | None => false end = true) as H by (vm_compute; reflexivity).
  unfold unsent_left in *.
  destruct (receive_all false 0 0 40 unsent_process) as [[[[]| | |] s1]|f] eqn:E; try discriminate H.
  apply andb_prop in H as [Hs Hc]. exists s1. split; [done|].
  apply (cancelled_cleanup_keeps_lock (L := unsent_laws) false 0 0 unsent_process 40 16 demo_conn s1).
  - apply cancel_allocs_succeed, sim_allocs_succeed.
  - by apply cancel_process_ready.
  - assert (incoming (p_world unsent_process) (client_fd demo_conn) = demo_chunks) as -> by reflexivity.
    destruct (demo_chunks_ok false) as [H1 H2 H3]. by split.
  - exact E.
  - exists (p_trace s1). split; [reflexivity|]. apply unsentb_true, Hs.
  - exact Hc.
Defined.
