(* ===== verification/Timer.v ===== *)
(** * The timer of the server

    The build without the char device starts a timer that appends a row with the time to
    the data file every ten seconds: [timer_action] in [server/aesdsocket.c], which runs in
    a thread of its own.  [timer_calls] says which calls it makes. *)

From S2P Require Import Prelude Memory Kernel AesdIoctl CString Posix SimOS DataFile SList.
From S2P Require Import Server ServerSpec ServerRefine ServerProps.

(** ** The row *)

Lemma make_row_spec ts0 dt pad :
  length ts0 = 120%nat → nonul dt → (length dt ≤ 107)%nat →
  ∃ rest, make_row ts0 (dt ++ NUL :: pad) (Z.of_nat (length dt))
    = Ok ((timestamp ++ dt ++ [NEWLINE]) ++ NUL :: rest).
Proof.
  intros Hts Hdt Hlen. unfold make_row.
  set (row0 := timestamp ++ [NUL] ++ drop (S (length timestamp)) ts0).
  assert (length row0 = 120%nat) as Hl0.
  { unfold row0. rewrite !length_app, length_drop, Hts. reflexivity. }
  assert (holds_str row0 timestamp) as H0.
  { split; [|by eexists]. unfold timestamp.
    repeat (apply Forall_cons; split; [done|]). by apply Forall_nil. }
  destruct (strncat_spec row0 timestamp (dt ++ NUL :: pad) (Z.of_nat (length dt)) H0)
    as (row1 & -> & H1 & Hl1);
    [lia|rewrite length_app; lia
    |rewrite Hl0, Nat2Z.id; change (length timestamp) with 10%nat; lia|].
  rewrite Nat2Z.id, take_app_length, upto_nul_id in H1 by done. cbn [mbind res_bind].
  rewrite (strlen_spec _ _ H1). cbn [mbind res_bind].
  destruct H1 as [_ [rest ->]]. set (str := timestamp ++ dt) in *.
  assert (Z.of_nat (length str) ≤ 117) as Hstr 
    by (unfold str; rewrite length_app; change (length timestamp) with 10%nat; lia).
  rewrite length_app, Hl0 in Hl1. cbn [length] in Hl1.
  rewrite arr_set_in by (rewrite length_app; cbn; lia). cbn [mbind res_bind].
  rewrite arr_set_in by (rewrite length_insert, length_app; cbn; lia).
  destruct rest as [|x rest]; [cbn [length] in Hl1; lia|].
  exists rest. f_equal.
  rewrite Nat2Z.id, insert_app_r_alt, Nat.sub_diag by done.
  change (<[0%nat:=NEWLINE]> (NUL :: x :: rest)) with (NEWLINE :: x :: rest).
  rewrite insert_app_r_alt by lia.
  replace (Z.to_nat (Z.of_nat (length str) + 1) - length str)%nat with 1%nat by lia.
  change (<[1%nat:=NUL]> (NEWLINE :: x :: rest)) with ([NEWLINE] ++ NUL :: rest).
  unfold str. by rewrite <- !app_assoc.
Qed.

(** The row of the timer fits its array of 120 bytes: for every date text of at
    most 107 bytes (strftime gives at most 99) the row is ["timestamp:"], the text, a
    newline and a NUL, and no byte is stored outside of the array. *)
Theorem make_row_fits ts0 dt pad
    (Hts : length ts0 = 120%nat) (Hdt : nonul dt) (Hlen : (length dt ≤ 107)%nat) :
  ∃ rest, make_row ts0 (dt ++ NUL :: pad) (Z.of_nat (length dt))
    = Ok ((timestamp ++ dt ++ [NEWLINE]) ++ NUL :: rest).
Proof. by apply make_row_spec. Qed.

(** What [strftime] with room for 100 bytes gives. *)
Definition strftime_fits (O : OS) : Prop :=
  ∀ w a w', sys w (Cstrftime 100) = (a, w') →
    ∃ dt pad, nonul dt ∧ (length dt < 100)%nat
      ∧ a = Ans (Z.of_nat (length dt)) (dt ++ NUL :: pad).

(** ** The calls *)

(** The row for some time. *)
Definition is_text (msg : list Z) : Prop :=
  ∃ dt, nonul dt ∧ (length dt < 100)%nat ∧ msg = timestamp ++ dt ++ [NEWLINE].

(** The row the timer builds from the answer of [strftime]. *)
Definition row_of (d : answer) : list Z :=
  timestamp ++ take (Z.to_nat (rc d)) (out d) ++ [NEWLINE].

(** The file is closed when it could be opened. *)
Definition timer_closes (fd : Z) (a : answer) : list (call * answer) :=
  if 0 <? fd then [(Cclose fd, a)] else [].

(** The calls before the append. *)
Definition timer_opens (b d f g : answer) : list (call * answer) :=
  [(Cclock_gettime, b); (Cstrftime 100, d); (open_call false, f);
   (Clseek (rc f) 0 SEEK_END, g)].

(** The calls of one run of the timer.  It breaks off without the lock or the time, and
    writes nothing when it could not go to the end of the file: [adjust_datafile_pos]
    returns the answer of [lseek] as an [int], which is negative when [lseek] failed, but
    also when the file has 2 GiB or more.  Otherwise it writes one row on the descriptor
    that [lseek] just moved to the end. *)
Inductive timer_calls : list (call * answer) → Prop :=
| timer_locked a : rc a ≠ 0 → timer_calls [(Cmutex_lock the_mutex, a)]
| timer_timeless a b e :
    rc a = 0 → rc b ≠ 0 →
    timer_calls [(Cmutex_lock the_mutex, a); (Cclock_gettime, b); (Cmutex_unlock the_mutex, e)]
| timer_unplaced a b d f g h e :
    rc a = 0 → rc b = 0 → s32 (rc g) < 0 →
    timer_calls ((Cmutex_lock the_mutex, a) :: timer_opens b d f g
      ++ timer_closes (rc f) h ++ [(Cmutex_unlock the_mutex, e)])
| timer_row a b d f g msg r h e :
    rc a = 0 → rc b = 0 → 0 ≤ s32 (rc g) → is_text msg → msg = row_of d →
    timer_calls ((Cmutex_lock the_mutex, a) :: timer_opens b d f g ++ [(Cwrite (rc f) msg, r)]
      ++ timer_closes (rc f) h ++ [(Cmutex_unlock the_mutex, e)]).

Section Timer.
Context {O : OS} {L : OSLaws O} {N : Uncancelled O}.
Variables x0 y0 : Z.

(** From [s] to [s'] the calls [evs]; the mutex is held as before. *)
Definition ran (s s' : pstate server) (evs : list (call * answer)) : Prop :=
  p_trace s' = p_trace s ++ evs
  ∧ owns (p_world s') the_mutex = owns (p_world s) the_mutex.

Lemma ran_call s s' evs c a w :
  ran s s' evs → sys (p_world s') c = (a, w) → on_mutex the_mutex c = false →
  ran s (after s' c a w) (evs ++ [(c, a)]).
Proof.
  intros [Ht Ho] E Hc. split; cbn; [by rewrite Ht, <- app_assoc|].
  rewrite <- Ho. by apply (owns_frame _ _ c a).
Qed.

Lemma timer_close fd s s' evs (Q : unit → pstate server → Prop) :
  ran s s' evs → (∀ h s', ran s s' (evs ++ timer_closes fd h) → Q () s') →
  returns (close_datafile fd) s' Q.
Proof.
  intros Hr HQ. unfold close_datafile, timer_closes in *. destruct (0 <? fd).
  - prog_step. prog_step. prog_step. eapply HQ. by apply ran_call.
  - prog_step. apply (HQ (Ans 0 [])). by rewrite app_nil_r.
Qed.

(** The part of [timer_action] that appends the row. *)
Lemma timer_append ts0 s s0 b (Q : unit → pstate server → Prop) :
  length ts0 = 120%nat → strftime_fits O → ran s0 s [(Cclock_gettime, b)] →
  (∀ d f g l h s', ran s0 s' (timer_opens b d f g ++ l ++ timer_closes (rc f) h) →
     s32 (rc g) < 0 ∧ l = []
     ∨ 0 ≤ s32 (rc g) ∧ (∃ msg r, is_text msg ∧ msg = row_of d ∧ l = [(Cwrite (rc f) msg, r)]) →
     Q () s') →
  returns (a ← syscall (Cstrftime 100);
           ts_row ← lift (make_row ts0 (out a) (rc a));
           fd ← open_datafile false;
           pos ← adjust_datafile_pos false fd 0 SEEK_END;
           _ ← (if -1 <? pos then
                  len ← lift (strlen ts_row); append_datafile false x0 y0 fd ts_row len
                else mret ());
           close_datafile fd) s Q.
Proof.
  intros Hts Hstrf Hran HQ. prog_step. apply returns_syscall. intros d w E.
  destruct (Hstrf _ _ _ E) as (dt & pad & Hdt & Hl & Hd).
  destruct (make_row_spec ts0 dt pad Hts Hdt ltac:(lia)) as [rest Hrow].
  assert (make_row ts0 (out d) (rc d) = _) as Hrow' by (rewrite Hd; exact Hrow).
  prog_step. eapply returns_lift; [exact Hrow'|]. unfold open_datafile, adjust_datafile_pos. cbn [negb].
  eapply ran_call in Hran; [|exact E|done]. set (s1 := after s _ _ _) in *.
  prog_step. prog_step. eapply ran_call in Hran; [|eassumption|done]. set (s2 := after s1 _ _ _) in *.
  prog_step. prog_step. prog_step. prog_step.
  eapply ran_call in Hran; [|eassumption|done]. set (s3 := after s2 _ _ _) in *.
  assert (nonul (timestamp ++ dt ++ [NEWLINE])) as Hnn.
  { apply Forall_app. split; [unfold timestamp; forall_neq|]. apply Forall_app.
    split; [done|]. forall_neq. }
  destruct (Z.ltb_spec (-1) (s32 (rc a0))) as [Hpos|Hneg].
  - prog_step. prog_step. eapply returns_lift; [apply strlen_spec; split; [done|by exists rest]|].
    cbn [append_datafile]. apply runs_to_returns, write_mem_spec;
      [rewrite (length_app _ (NUL :: rest)); lia|intros; never_cancelled|].
    rewrite Nat2Z.id, take_app_length. intros r w2 E1. eapply ran_call in Hran; [|exact E1|done].
    eapply timer_close; [exact Hran|]. intros h s4 Hran4. rewrite <- !app_assoc in Hran4.
    eapply (HQ d a a0 [_] h); [exact Hran4|]. right. split; [lia|]. do 2 eexists.
    split; [by exists dt|]. split; [|done]. unfold row_of. rewrite Hd. cbn [rc out].
    by rewrite Nat2Z.id, take_app_length.
  - prog_step. prog_step. eapply timer_close; [exact Hran|]. intros h s4 Hran4.
    rewrite <- !app_assoc in Hran4. eapply (HQ d a a0 [] h); [exact Hran4|]. left. split; [lia|done].
Qed.

(** The calls of the timer; it leaves with the lock released. *)
Lemma timer_action_spec ts0 s :
  length ts0 = 120%nat → strftime_fits O → owns (p_world s) the_mutex = false →
  returns (timer_action false x0 y0 ts0) s (λ _ s', ∃ evs, p_trace s' = p_trace s ++ evs
    ∧ timer_calls evs ∧ owns (p_world s') the_mutex = false).
Proof.
  intros Hts Hstrf Hown. unfold timer_action. prog_step. prog_step. set (s1 := after _ _ _ _).
  destruct (Z.eqb_spec (rc a) 0) as [Ha|Ha]; cbn [negb].
  2: { prog_step. eexists. split; [done|]. split; [by apply timer_locked|].
       cbn. rewrite <- Hown. by eapply lock_bad. }
  destruct (lock_ok _ _ _ _ H Ha) as [_ Hheld].
  assert (∀ (s2 : pstate server) evs, ran s1 s2 evs →
    (∀ e, timer_calls ((Cmutex_lock the_mutex, a) :: evs ++ [(Cmutex_unlock the_mutex, e)])) →
    returns (_ ← do_call (Cmutex_unlock the_mutex); mret ()) s2 (λ _ s', ∃ evs,
      p_trace s' = p_trace s ++ evs ∧ timer_calls evs ∧ owns (p_world s') the_mutex = false))
    as Hunlock.
  { intros s2 evs [Ht Ho] Hc. prog_step. prog_step. prog_step. eexists. split; [|split; [apply Hc|]].
    - cbn. rewrite Ht. cbn. by rewrite <- !app_assoc.
    - eapply unlock_held; [|done]. by rewrite Ho. }
  prog_step. prog_step. set (s2 := after s1 _ _ _).
  assert (ran s1 s2 [(Cclock_gettime, a0)]) as Hr2.
  { apply (ran_call s1 s1 []); [split; [by rewrite app_nil_r|done]|done|done]. }
  prog_step. destruct (Z.eqb_spec (rc a0) 0) as [Ha0|Ha0]; cbn [negb].
  - eapply timer_append; [done|done|exact Hr2|]. intros d f g l h s3 Hr3 Hl.
    eapply Hunlock; [exact Hr3|]. intros e. rewrite <- !app_assoc.
    destruct Hl as [[Hg ->]|[Hg (msg & r & Hm & Hrow & ->)]]; [by apply timer_unplaced|by apply timer_row].
  - prog_step. eapply Hunlock; [exact Hr2|]. intros e. by apply timer_timeless.
Qed.

(** C32: in the plain-file build each run of the timer makes exactly the calls of
    [timer_calls] and leaves with the lock released: it takes the lock, reads the clock,
    opens the data file and moves the descriptor to the end of it, writes there the row
    ["timestamp:<date>\n"] with the date that [strftime] gave, closes the descriptor and
    releases the lock.  It writes nothing when the lock or the clock fails, or when the
    position that [lseek] answers is negative as an [int]. *)
Theorem timer_appends_row ts0 s
    (Hts : length ts0 = 120%nat) (Hstrf : strftime_fits O)
    (Hown : owns (p_world s) the_mutex = false) :
  returns (timer_action false x0 y0 ts0) s (λ _ s', ∃ evs, p_trace s' = p_trace s ++ evs
    ∧ timer_calls evs ∧ owns (p_world s') the_mutex = false).
Proof. by apply timer_action_spec. Qed.

(** On a data file of 2 GiB or more the timer writes nothing, although [lseek] succeeds. *)
Theorem timer_skips_large_file evs fd g
    (Hcalls : timer_calls evs) (Hseek : (Clseek fd 0 SEEK_END, g) ∈ evs)
    (Hlarge : 2 ^ 31 ≤ rc g < 2 ^ 32) :
  file_writes evs = [].
Proof.
  assert (s32 (rc g) < 0) as Hneg.
  { unfold s32. rewrite <- (Z.mod_unique (rc g + 2 ^ 31) (2 ^ 32) 1 (rc g - 2 ^ 31)); lia. }
  assert (∀ f h e, file_writes (timer_closes f h ++ [(Cmutex_unlock the_mutex, e)]) = []
            ∧ (Clseek fd 0 SEEK_END, g) ∉ timer_closes f h ++ [(Cmutex_unlock the_mutex, e)]) as Hclose.
  { intros f h e. unfold timer_closes. destruct (0 <? f); (split; [done|]);
      cbn [app]; rewrite ?not_elem_of_cons; (split_and!; [done..|apply not_elem_of_nil]). }
  destruct Hcalls as [a Ha|a b e Ha Hb|a b d f g' h e Ha Hb Hg|a b d f g' msg r h e Ha Hb Hg Hm Hr].
  - done.
  - done.
  - cbn. apply Hclose.
  - exfalso. destruct (Hclose (rc f) h e) as [_ Hno].
    unfold timer_opens in Hseek. cbn [app] in Hseek.
    repeat (apply elem_of_cons in Hseek as [Hseek|Hseek];
            [try discriminate Hseek; injection Hseek as -> ->; lia|]). done.
Qed.

End Timer.

(** ** Runs *)

Definition timer_process (O : OS) (w : @world O) : @pstate O server :=
  @PState O server ∅ w [] (Server 0 0 0 (SL 0 ∅) ∅ ∅ ∅).

Definition timer_world : sim_world := SimWorld ∅ [] 0 [].

Lemma make_row_fits_witness :
  length (replicate 120 7) = 120%nat
  ∧ ∃ rest, make_row (replicate 120 7) ([77; 111; 110] ++ NUL :: [7; 7]) 3
      = Ok ((timestamp ++ [77; 111; 110] ++ [NEWLINE]) ++ NUL :: rest).
Proof.
  split; [done|]. apply (make_row_fits (replicate 120 7) [77; 111; 110] [7; 7]);
    [done|forall_neq|cbn; lia].
Defined.

(** A system whose clock always shows the same date. *)
Definition one_date (c : call) : answer :=
  match c with Cstrftime _ => Ans 3 ([77; 111; 110] ++ NUL :: []) | _ => Ans 0 [] end.

Definition date_os : OS := sim_os (object_max - 1) one_date.

Lemma date_strftime : strftime_fits date_os.
Proof.
  intros w a w' [= <- <-]. exists [77; 111; 110], []. split; [forall_neq|].
  split; [cbn; lia|done].
Qed.

Lemma timer_appends_row_witness :
  strftime_fits date_os
  ∧ returns (timer_action false 0 0 (replicate 120 7)) (timer_process date_os timer_world)
      (λ _ s', ∃ evs, p_trace s' = [] ++ evs ∧ timer_calls evs
                      ∧ owns (p_world s') the_mutex = false).
Proof.
  split; [apply date_strftime|].
  exact (timer_appends_row (L := sim_os_laws (object_max - 1) one_date eq_refl) 0 0
           (replicate 120 7) (timer_process date_os timer_world) eq_refl date_strftime eq_refl).
Defined.

Lemma timer_skips_large_file_witness :
  file_writes ((Cmutex_lock the_mutex, Ans 0 [])
    :: timer_opens (Ans 0 []) (Ans 0 [NUL]) (Ans 4 []) (Ans (2 ^ 31) [])
    ++ timer_closes 4 (Ans 0 []) ++ [(Cmutex_unlock the_mutex, Ans 0 [])]) = [].
Proof.
  apply (timer_skips_large_file _ 4 (Ans (2 ^ 31) [])); [|vm_compute; set_solver|cbn; lia].
  by apply (timer_unplaced (Ans 0 []) (Ans 0 []) (Ans 0 [NUL]) (Ans 4 []) (Ans (2 ^ 31) [])).
Defined.
