(* ===== verification/Protocol.v ===== *)
(** * The protocol of a thread

    The calls of the threads of the server as automata: [serves_next] says which call a
    connection may make in which phase, and which phase the answer leads to, and
    [ticks_next] the same for the timer.  A thread appends and reads only between a
    successful lock and its unlock.  Every run of [connnection_handler] and of
    [timer_action] follows its automaton, whatever the calls answer as long as allocations
    succeed and the seek commands of the client are well formed ([chunks_ok]), and a handler that is cancelled follows it up to that point and then closes the
    connection. *)

From Stdlib Require Import String.
From S2P Require Import Prelude Memory Kernel AesdIoctl CString Posix SimOS DataFile SList.
From S2P Require Import Server Runs ServerSpec ServerRefine Cut ServerProps Timer.

Inductive phase : Type :=
| Idle                        (* without the lock *)
| Locked                      (* with the lock, before the append *)
| Rewinding                   (* the message is appended, the plain file not yet rewound *)
| Reading                     (* the message is appended, the answer is being read *)
| Sending (bs : list Z)       (* these bytes are read but not sent *)
| Ticking                     (* the timer with the lock, before it goes to the end *)
| Placed                      (* the timer at the end of the file *)
| Finished                    (* with the lock, nothing left to do but to give it back *)
| Leaving                     (* with the lock, the socket of the client is closed *)
| Left.                       (* without the lock, the socket of the client is closed *)

#[export] Instance phase_eq_dec : EqDecision phase.
Proof. solve_decision. Defined.

(** [h_fd]: the descriptor of the data file the thread uses. *)
Record hstate := HState { h_phase : phase; h_fd : option Z }.

Definition hstart : hstate := HState Idle None.

Definition in_phase (ph : phase) (st : hstate) : hstate := HState ph (h_fd st).

(** The phases with the lock. *)
Definition holding (st : hstate) : bool :=
  match h_phase st with Idle | Left => false | _ => true end.

(** The phase of a connection that closes its socket. *)
Definition leaving (ph : phase) : phase := match ph with Idle => Left | _ => Leaving end.

Definition parted (st : hstate) : Prop := h_phase st = Leaving ∨ h_phase st = Left.

(** What a thread runs: the handler of the client at a socket, which is not cancelled if it
    is [whole], or the timer. *)
Inductive role : Type :=
| Serves (cfd : Z) (whole : bool)
| Ticks.

Section Automaton.
Variable dev : bool.
(* the lock *)
Variable m : Z.

(** The phase after the append: a plain file is rewound first. *)
Definition answering : phase := if dev then Reading else Rewinding.

(** A connection that is not cancelled closes its socket when it has nothing left to send. *)
Definition may_leave (whole : bool) (ph : phase) : bool :=
  match ph with Idle | Finished => true | Leaving | Left => false | _ => negb whole end.

(** The state after the call [e], [None] where the protocol does not allow it. *)
Definition serves_next (cfd : Z) (whole : bool) (st : hstate) (e : call * answer)
    : option hstate :=
  let '(c, a) := e in
  match h_phase st, c with
  | Idle, Crecv fd _ => if decide (fd = cfd) then Some st else None
  | Idle, Copen _ _ _ =>
      if decide (c = open_call dev) then Some (HState Idle (Some (rc a))) else None
  | Idle, Clseek fd off whence =>
      if decide (dev = false ∧ h_fd st = Some fd ∧ off = 0 ∧ whence = SEEK_END)
      then Some st else None
  | Idle, Cmutex_lock m' =>
      if decide (m' = m) then Some (in_phase (if decide (rc a = 0) then Locked else Idle) st)
      else None
  | Locked, Cwrite fd _ =>
      if decide (h_fd st = Some fd) then Some (in_phase answering st) else None
  | Locked, Cioctl fd _ _ =>
      if decide (dev = true ∧ h_fd st = Some fd) then Some (in_phase Reading st) else None
  | Rewinding, Clseek fd off whence =>
      if decide (dev = false ∧ h_fd st = Some fd ∧ off = 0 ∧ whence = SEEK_SET)
      then Some (in_phase Reading st) else None
  | Reading, Cread fd n =>
      if decide (h_fd st = Some fd ∧ n = readbuf_size)
      then Some (in_phase (if 0 <? rc a then Sending (out a) else Finished) st) else None
  | Sending bs, Csend fd bs' =>
      if decide (fd = cfd ∧ bs' = bs)
      then Some (in_phase (if s32 (rc a) <? 0 then Finished else Reading) st) else None
  | Finished, Cmutex_unlock m' =>
      if decide (m' = m) then Some (in_phase (if decide (rc a = 0) then Idle else Finished) st)
      else None
  | Leaving, Cmutex_unlock m' =>
      if decide (m' = m) then Some (in_phase (if decide (rc a = 0) then Left else Leaving) st)
      else None
  | Idle, Cmutex_unlock m' | Left, Cmutex_unlock m' => if decide (m' = m) then Some st else None
  | Leaving, Cclose fd | Left, Cclose fd =>
      if decide (h_fd st = Some fd) then Some (HState (h_phase st) None) else None
  | ph, Cclose fd =>
      if decide (fd = cfd ∧ may_leave whole ph = true) then Some (in_phase (leaving ph) st)
      else None
  | _, _ => None
  end.

Definition ticks_next (st : hstate) (e : call * answer) : option hstate :=
  let '(c, a) := e in
  match h_phase st, c with
  | Idle, Cmutex_lock m' =>
      if decide (m' = m) then Some (in_phase (if decide (rc a = 0) then Ticking else Idle) st)
      else None
  | Ticking, Cclock_gettime | Ticking, Cstrftime _ => Some st
  | Ticking, Copen _ _ _ =>
      if decide (c = open_call dev) then Some (HState Ticking (Some (rc a))) else None
  | Ticking, Clseek fd off whence =>
      if decide (dev = false ∧ h_fd st = Some fd ∧ off = 0 ∧ whence = SEEK_END)
      then Some (in_phase Placed st) else None
  | Placed, Cwrite fd _ => if decide (h_fd st = Some fd) then Some (in_phase Finished st) else None
  | Placed, Cclose fd | Finished, Cclose fd =>
      if decide (h_fd st = Some fd) then Some (HState Finished None) else None
  | Ticking, Cmutex_unlock m' | Placed, Cmutex_unlock m' | Finished, Cmutex_unlock m' =>
      if decide (m' = m) then Some (in_phase (if decide (rc a = 0) then Idle else Finished) st)
      else None
  | _, _ => None
  end.

Definition hnext (r : role) : hstate → call * answer → option hstate :=
  match r with Serves cfd whole => serves_next cfd whole | Ticks => ticks_next end.

Fixpoint hrun (r : role) (st : hstate) (evs : list (call * answer)) : option hstate :=
  match evs with
  | [] => Some st
  | e :: evs => match hnext r st e with Some st' => hrun r st' evs | None => None end
  end.

Lemma hrun_cons r st e evs :
  hrun r st (e :: evs) = match hnext r st e with Some st' => hrun r st' evs | None => None end.
Proof. done. Qed.

Lemma hrun_app r st l1 l2 :
  hrun r st (l1 ++ l2) = match hrun r st l1 with Some st' => hrun r st' l2 | None => None end.
Proof. revert st. induction l1 as [|e l1 IH]; intros st; cbn; [done|]. by destruct (hnext r st e). Qed.

(** The automata as a relation. *)
Inductive hstep : role → hstate → call * answer → hstate → Prop :=
| hs_recv cfd wh f n a : hstep (Serves cfd wh) (HState Idle f) (Crecv cfd n, a) (HState Idle f)
| hs_open cfd wh f a :
    hstep (Serves cfd wh) (HState Idle f) (open_call dev, a) (HState Idle (Some (rc a)))
| hs_seek_end cfd wh fd a :
    dev = false →
    hstep (Serves cfd wh) (HState Idle (Some fd)) (Clseek fd 0 SEEK_END, a)
      (HState Idle (Some fd))
| hs_lock cfd wh f a :
    hstep (Serves cfd wh) (HState Idle f) (Cmutex_lock m, a)
      (HState (if decide (rc a = 0) then Locked else Idle) f)
| hs_write cfd wh fd bs a :
    hstep (Serves cfd wh) (HState Locked (Some fd)) (Cwrite fd bs, a) (HState answering (Some fd))
| hs_ioctl cfd wh fd cmd arg a :
    dev = true →
    hstep (Serves cfd wh) (HState Locked (Some fd)) (Cioctl fd cmd arg, a)
      (HState Reading (Some fd))
| hs_rewind cfd wh fd a :
    dev = false →
    hstep (Serves cfd wh) (HState Rewinding (Some fd)) (Clseek fd 0 SEEK_SET, a)
      (HState Reading (Some fd))
| hs_read cfd wh fd a :
    hstep (Serves cfd wh) (HState Reading (Some fd)) (Cread fd readbuf_size, a)
      (HState (if 0 <? rc a then Sending (out a) else Finished) (Some fd))
| hs_send cfd wh bs f a :
    hstep (Serves cfd wh) (HState (Sending bs) f) (Csend cfd bs, a)
      (HState (if s32 (rc a) <? 0 then Finished else Reading) f)
| hs_unlock cfd wh f a :
    hstep (Serves cfd wh) (HState Finished f) (Cmutex_unlock m, a)
      (HState (if decide (rc a = 0) then Idle else Finished) f)
| hs_unlock_last cfd wh f a :
    hstep (Serves cfd wh) (HState Leaving f) (Cmutex_unlock m, a)
      (HState (if decide (rc a = 0) then Left else Leaving) f)
| hs_unlock_free cfd wh ph f a :
    ph = Idle ∨ ph = Left →
    hstep (Serves cfd wh) (HState ph f) (Cmutex_unlock m, a) (HState ph f)
| hs_close_client cfd wh ph f a :
    may_leave wh ph = true →
    hstep (Serves cfd wh) (HState ph f) (Cclose cfd, a) (HState (leaving ph) f)
| hs_close_data cfd wh ph fd a :
    ph = Leaving ∨ ph = Left →
    hstep (Serves cfd wh) (HState ph (Some fd)) (Cclose fd, a) (HState ph None)
| tk_lock f a :
    hstep Ticks (HState Idle f) (Cmutex_lock m, a)
      (HState (if decide (rc a = 0) then Ticking else Idle) f)
| tk_time f c a :
    c = Cclock_gettime ∨ (∃ n, c = Cstrftime n) →
    hstep Ticks (HState Ticking f) (c, a) (HState Ticking f)
| tk_open f a : hstep Ticks (HState Ticking f) (open_call dev, a) (HState Ticking (Some (rc a)))
| tk_seek_end fd a :
    dev = false →
    hstep Ticks (HState Ticking (Some fd)) (Clseek fd 0 SEEK_END, a) (HState Placed (Some fd))
| tk_write fd bs a :
    hstep Ticks (HState Placed (Some fd)) (Cwrite fd bs, a) (HState Finished (Some fd))
| tk_close ph fd a :
    ph = Placed ∨ ph = Finished →
    hstep Ticks (HState ph (Some fd)) (Cclose fd, a) (HState Finished None)
| tk_unlock ph f a :
    ph = Ticking ∨ ph = Placed ∨ ph = Finished →
    hstep Ticks (HState ph f) (Cmutex_unlock m, a)
      (HState (if decide (rc a = 0) then Idle else Finished) f).

Lemma hnext_hstep r st e st' : hnext r st e = Some st' → hstep r st e st'.
Proof.
  destruct r as [cfd wh|], st as [ph f], e as [c a]; destruct ph, c; cbn; intros H;
    try discriminate H;
    repeat match type of H with (if ?d then _ else _) = _ => destruct d end;
    simplify_eq; destruct_and?; subst;
    try match goal with E : _ = open_call _ |- _ => rewrite E end;
    try (by constructor); try (constructor; eauto); destruct_or?; done.
Qed.

(** ** The handler follows it *)

Context {O : OS}.
Variables (cfd : Z) (whole : bool).
Abbreviation srun := (hrun (Serves cfd whole)).
Abbreviation snext := (hnext (Serves cfd whole)).

Lemma reply_run dfd evs complete f :
  reply dfd cfd evs complete →
  f = Some dfd → srun (HState Reading f) evs = Some (HState Finished f).
Proof.
  intros H ->. induction H as [a Ha|a b Ha Hb|a b evs complete Ha Hb H IH]; cbn;
    rewrite decide_True by done; cbn.
  - by rewrite (proj2 (Z.ltb_ge 0 _) Ha).
  - rewrite (proj2 (Z.ltb_lt 0 _) Ha). cbn. rewrite decide_True by done.
    by rewrite (proj2 (Z.ltb_lt _ 0) Hb).
  - rewrite (proj2 (Z.ltb_lt 0 _) Ha). cbn. rewrite decide_True by done.
    by rewrite (proj2 (Z.ltb_ge _ 0) Hb).
Qed.

(** The append and the rewinding after it. *)
Lemma append_run dfd msg c d f evs :
  message_call dev dfd msg c →
  srun (HState Locked (Some dfd)) ((c, d) :: seek_events dev dfd SEEK_SET f ++ evs)
  = srun (HState Reading (Some dfd)) evs.
Proof.
  intros Hm. unfold seek_events. cbn [hrun].
  destruct Hm as [[_ ->] | (Hd & x & y & _ & _ & _ & ->)]; cbn [hnext serves_next h_phase h_fd].
  - rewrite decide_True by done. unfold in_phase, answering. cbn [h_fd].
    destruct dev eqn:Hd; [done|]. cbn [app hrun hnext serves_next h_phase h_fd].
    by rewrite decide_True.
  - rewrite decide_True by done. rewrite Hd. done.
Qed.

(** Opening and positioning the data file. *)
Lemma opened_run f a b evs :
  srun (HState Idle f) (opened dev a b ++ evs) = srun (HState Idle (Some (rc a))) evs.
Proof.
  unfold opened, seek_events. cbn [app hrun hnext serves_next h_phase open_call].
  rewrite decide_True by done. destruct dev eqn:Hd; [done|].
  cbn [app hrun hnext serves_next h_phase h_fd]. by rewrite decide_True.
Qed.

Lemma lock_run f b :
  snext (HState Idle f) (Cmutex_lock m, b)
  = Some (HState (if decide (rc b = 0) then Locked else Idle) f).
Proof. cbn. by rewrite decide_True. Qed.

Lemma unlock_run f e :
  snext (HState Finished f) (Cmutex_unlock m, e)
  = Some (HState (if decide (rc e = 0) then Idle else Finished) f).
Proof. cbn. by rewrite decide_True. Qed.

(** An exchange ends without the lock, unless a send failed. *)
Lemma exchange_run dfd msg evs complete :
  exchange dev dfd cfd m msg evs complete →
  ∃ ph, srun (HState Idle (Some dfd)) evs = Some (HState ph (Some dfd))
    ∧ (ph = Idle ∨ ph = Finished ∧ complete = false).
Proof.
  destruct 1 as [b Hb|b c d f evs Hb Hc Hr|b c d f evs e Hb Hc Hr He].
  - cbn [hrun]. rewrite lock_run, decide_False by done. exists Idle. auto.
  - rewrite hrun_cons, lock_run, decide_True, (append_run _ msg) by done.
    erewrite reply_run by done. exists Finished. auto.
  - rewrite hrun_cons, lock_run, decide_True, (append_run _ msg), hrun_app by done.
    erewrite reply_run by done. cbn [hrun]. rewrite unlock_run, decide_True by done.
    exists Idle. auto.
Qed.

Lemma recv_run st chunk : h_phase st = Idle → snext st (recv_event cfd chunk) = Some st.
Proof. intros H. cbn. rewrite H. by rewrite decide_True. Qed.

Lemma session_run pending chunks evs complete f :
  session dev cfd m pending chunks evs complete →
  ∃ ph f', srun (HState Idle f) evs = Some (HState ph f')
    ∧ (ph = Idle ∨ ph = Finished ∧ complete = false)
    ∧ default 0 f' = last_open (default 0 f) evs.
Proof.
  intros H. revert f. induction H as [pending a Ha|pending chunk chunks a b Hb
    |pending chunk chunks a b evs complete Hb Hs H IH
    |pending chunk chunks l r a b evs Hb Hs Hx
    |pending chunk chunks l r a b evs rest complete Hb Hs Hx H IH]; intros f.
  - exists Idle, f. cbn. rewrite decide_True by done. auto.
  - rewrite <- (app_nil_r (opened dev a b)). exists Idle, (Some (rc a)).
    cbn [hrun last_open recv_event]. rewrite recv_run, opened_run, opened_last_open by done. auto.
  - destruct (IH (Some (rc a))) as (ph & f' & Hr & Hph & Hf). exists ph, f'.
    cbn [hrun last_open recv_event]. rewrite recv_run, opened_run, opened_last_open by done. by rewrite Hr.
  - destruct (exchange_run _ _ _ _ Hx) as (ph & Hr & Hph). exists ph, (Some (rc a)).
    cbn [hrun last_open recv_event]. rewrite recv_run, opened_run, opened_last_open, Hr by done.
    split; [done|]. split; [done|].
    by rewrite (exchange_last_open _ _ _ _ _ _ _ _ Hx).
  - destruct (exchange_run _ _ _ _ Hx) as (ph & Hr & [->|[_ ?]]); [|done].
    destruct (IH (Some (rc a))) as (ph & f' & Hr' & Hph & Hf). exists ph, f'.
    cbn [hrun last_open recv_event]. rewrite recv_run, opened_run, opened_last_open, hrun_app, Hr by done.
    split; [done|]. split; [done|].
    by rewrite last_open_app, (exchange_last_open _ _ _ _ _ _ _ _ Hx).
Qed.

(** The descriptor of a connection that closed nothing is the last one it opened. *)
Lemma hrun_open evs st st' :
  closes evs = [] → srun st evs = Some st' → ¬ parted st →
  default 0 (h_fd st') = last_open (default 0 (h_fd st)) evs ∧ ¬ parted st'.
Proof.
  revert st. induction evs as [|[c a] evs IH]; intros st Hc H Hp; [by injection H as <-|].
  cbn [hrun] in H. destruct (snext st (c, a)) as [st1|] eqn:E; [|done]. apply hnext_hstep in E.
  unfold parted in *. inversion E; subst; unfold answering in *; cbn [closes] in Hc; try discriminate Hc;
    (destruct (IH _ Hc H) as [-> Hp']; [|done]); cbn [h_phase];
    repeat match goal with |- context [if ?b then _ else _] => destruct b end;
    solve [exact Hp | by destruct Hp; left | by intros [?|?]].
Qed.

(** The thread has nothing left to send. *)
Definition at_rest (st : hstate) : Prop := h_phase st = Idle ∨ h_phase st = Finished ∨ parted st.

(** The end of a connection, in whatever phase it is if it is cancelled. *)
Lemma closing_run c evs ph f :
  closing c (default 0 f) evs → client_fd c = cfd → mutex c = m → may_leave whole ph = true →
  ∃ st, srun (HState ph f) evs = Some st ∧ at_rest st.
Proof.
  intros (a & b & e & ->) Hc Hm Hph. rewrite Hc, Hm. cbn [hrun app].
  assert (snext (HState ph f) (Cclose cfd, a) = Some (HState (leaving ph) f)) as ->.
  { destruct ph; cbn in Hph |- *; try done; by rewrite decide_True. }
  assert (leaving ph = Leaving ∨ leaving ph = Left) as Hl by (destruct ph; cbn; auto).
  assert (∀ g, ∃ st, srun (HState (leaving ph) g) [(Cmutex_unlock m, e)] = Some st ∧ at_rest st) as Hlast.
  { intros g. unfold at_rest, parted. destruct Hl as [-> | ->]; cbn; rewrite decide_True by done;
      eexists; (split; [done|]); cbn; [destruct (decide _)|]; auto. }
  destruct (Z.ltb_spec 0 (default 0 f)) as [Hf|Hf]; [|apply Hlast].
  destruct f as [fd|]; [|done]. change (default 0 (Some fd)) with fd.
  cbn [app]. rewrite hrun_cons.
  assert (snext (HState (leaving ph) (Some fd)) (Cclose fd, b) = Some (HState (leaving ph) None)) as ->.
  { by destruct Hl as [-> | ->]; cbn; rewrite decide_True. }
  apply Hlast.
Qed.

End Automaton.

(** The calls of a handler, cancelled or not, follow the protocol. *)
Lemma handler_calls_run dev cfd m whole chunks evs :
  handler_calls dev cfd m chunks whole evs →
  ∃ st, hrun dev m (Serves cfd whole) hstart evs = Some st ∧ (whole = true → at_rest st).
Proof.
  intros (O' & c & e1 & rest & e2 & more & complete & Hcfd & Hm & -> & Hs & Hcl & _ & Hwh).
  destruct (session_run dev m cfd whole _ _ _ _ None Hs) as (ph & f & Hr & Hph & _). unfold hstart.
  rewrite hrun_app in Hr |- *. destruct (hrun _ _ _ _ e1) as [[ph1 f1]|] eqn:E1; [|done].
  assert (default 0 f1 = last_open 0 e1 ∧ ¬ parted (HState ph1 f1)) as [Hf1 Hp1].
  { apply hrun_open in E1; [exact E1| |intros [?|?]; done]. apply session_serves in Hs as [Hs _].
    apply serves_upto in Hs as [Hno _]. destruct (file_events_reads (e1 ++ rest)) as (_ & _ & Hx).
    rewrite Hx, closes_app in Hno. by apply app_eq_nil in Hno as [Hno _]. }
  assert (may_leave whole ph1 = true) as Hmay.
  { destruct whole; [|by destruct ph1; try done; destruct Hp1; [left|right]]. destruct (Hwh eq_refl) as [-> _]. injection Hr as -> _.
    by destruct Hph as [-> | [-> _]]. }
  rewrite <- Hf1 in Hcl. destruct (closing_run dev m cfd whole c _ ph1 f1 Hcl Hcfd Hm Hmay) as (st & Hst & Hrest).
  rewrite hrun_app in Hst. destruct (hrun _ _ _ _ e2) as [st2|] eqn:E2; [|done]. exists st2.
  split; [done|]. intros Hw. destruct (Hwh Hw) as [_ ->]. by injection Hst as ->.
Qed.

(** ** The timer follows its automaton *)

Lemma timer_calls_run evs :
  timer_calls evs → ∃ st, hrun false the_mutex Ticks hstart evs = Some st ∧ at_rest st.
Proof.
  assert (∀ ph, at_rest (HState (if decide (ph = 0) then Idle else Finished) None)) as Hrest
    by (intros ph; unfold at_rest; destruct (decide _); auto).
  assert (∀ ph fd h e, ph = Placed ∨ ph = Finished →
    ∃ st, hrun false the_mutex Ticks (HState ph (Some fd))
            (timer_closes fd h ++ [(Cmutex_unlock the_mutex, e)]) = Some st ∧ at_rest st) as Hclose.
  { intros ph fd h e Hph. unfold timer_closes. destruct (0 <? fd).
    - eexists. destruct Hph as [-> | ->]; cbn; rewrite decide_True by done; (split; [done|]); apply Hrest.
    - assert (at_rest (HState (if decide (rc e = 0) then Idle else Finished) (Some fd)))
        by (unfold at_rest; destruct (decide _); auto).
      destruct Hph as [-> | ->]; eexists; (split; [reflexivity|done]). }
  assert (∀ a b d f g l, rc a = 0 →
    hrun false the_mutex Ticks hstart ((Cmutex_lock the_mutex, a) :: timer_opens b d f g ++ l)
    = hrun false the_mutex Ticks (HState Placed (Some (rc f))) l) as Hopen.
  { intros a b d f g l Ha. unfold timer_opens. cbn [app hrun hnext ticks_next h_phase hstart].
    repeat (rewrite decide_True by done; unfold in_phase, open_call; cbn [hrun hnext ticks_next h_phase h_fd]). done. }
  destruct 1 as [a Ha|a b e Ha Hb|a b d f g h e Ha Hb Hg|a b d f g msg r h e Ha Hb Hg Hm].
  - eexists. cbn. rewrite decide_True, decide_False by done. split; [done|]. by left.
  - eexists. cbn. do 2 (rewrite decide_True by done; cbn). rewrite decide_True by done. cbn.
    split; [done|]. apply Hrest.
  - rewrite Hopen by done. apply Hclose. by left.
  - rewrite Hopen by done. cbn [app hrun hnext ticks_next h_phase h_fd].
    rewrite decide_True by done. apply Hclose. by right.
Qed.

(** ** Runs of the threads *)

(** The calls of a run of the handler for the client at the socket [cfd] that sends
    [chunks], on some system that obeys the laws; [whole]: it is not cancelled. *)
Definition client_run (dev : bool) (x0 y0 cfd m : Z) (chunks : list (list Z)) (whole : bool)
    (evs : list (call * answer)) : Prop :=
  ∃ (O : OS) (L : OSLaws O) (s s' : pstate server) args p c o,
    allocs_succeed O ∧ conn_ready s args p c ∧ data_fd c = 0 ∧ client_fd c = cfd ∧ mutex c = m
    ∧ incoming (p_world s) cfd = chunks ∧ chunks_ok (O := O) dev chunks
    ∧ connnection_handler dev x0 y0 args s = Ok (o, s') ∧ p_trace s' = p_trace s ++ evs
    ∧ whole = (if o is Cancelled then false else true).

(** The calls of a run of the timer, which only the build for the plain file starts. *)
Definition timer_run (x0 y0 : Z) (evs : list (call * answer)) : Prop :=
  ∃ (O : OS) (L : OSLaws O) (N : Uncancelled O) (s s' : pstate server) ts0 o,
    length ts0 = 120%nat ∧ strftime_fits O ∧ owns (p_world s) the_mutex = false
    ∧ timer_action false x0 y0 ts0 s = Ok (o, s') ∧ p_trace s' = p_trace s ++ evs.

Lemma client_run_calls dev x0 y0 cfd m chunks whole evs :
  client_run dev x0 y0 cfd m chunks whole evs → handler_calls dev cfd m chunks whole evs.
Proof.
  intros (O & L & s & s' & args & p & c & o & Ha & Hr & Hfd & <- & <- & Hin & Hch & Hrun & Ht & ->).
  rewrite <- Hin in Hch |- *.
  destruct (handler_cut dev x0 y0 s args p c o s' Ha Hr Hfd Hch Hrun) as (_ & evs' & Ht' & H).
  rewrite Ht in Ht'. by apply app_inv_head in Ht' as ->.
Qed.

Lemma timer_run_calls x0 y0 evs : timer_run x0 y0 evs → timer_calls evs.
Proof.
  intros (O & L & N & s & s' & ts0 & o & Hl & Hf & Ho & Hrun & Ht).
  destruct (timer_action_spec x0 y0 ts0 s Hl Hf Ho) as (u & s2 & Hrun' & evs' & Ht' & Hc & _).
  rewrite Hrun in Hrun'. injection Hrun' as -> ->. rewrite Ht in Ht'.
  by apply app_inv_head in Ht' as ->.
Qed.

Section HandlerProtocol.
Context {O : OS} {L : OSLaws O}.
Variable dev : bool.
Variables x0 y0 : Z.

(** C10: the handler keeps to the protocol of a connection.  On every system that obeys
    the laws and whose allocations succeed, for every client that sends less
    than 2 GiB and whose seek commands are two 32-bit numbers as [seek_text] prints them
    ([chunks_ok]; a long one without a comma makes the parser fault,
    [long_seek_command_overflows]), whatever the other calls answer, and whether or not the
    thread is cancelled somewhere, it ends without a fault and its calls are a run of the
    automaton.  In particular it appends to the data file and reads it only between a successful
    [pthread_mutex_lock] and the [pthread_mutex_unlock] after it, sends every block
    it reads before it reads on unless it is cancelled, and closes only its own
    descriptors. *)
Theorem handler_follows_protocol s args p c
    (Halloc : allocs_succeed O) (Hready : conn_ready s args p c) (Hfd : data_fd c = 0)
    (Hchunks : chunks_ok dev (incoming (p_world s) (client_fd c))) :
  ∃ o s' evs, connnection_handler dev x0 y0 args s = Ok (o, s')
    ∧ (o = Cancelled ∨ o = Returned args) ∧ p_trace s' = p_trace s ++ evs
    ∧ is_Some (hrun dev (mutex c)
        (Serves (client_fd c) (if o is Cancelled then false else true)) hstart evs).
Proof.
  destruct (connnection_handler_runs dev x0 y0 s args p c Halloc Hready Hchunks)
    as (o & s' & Hrun & _).
  destruct (handler_cut dev x0 y0 s args p c o s' Halloc Hready Hfd Hchunks Hrun)
    as (Ho & evs & Ht & Hc).
  exists o, s', evs. split_and!; try done. apply handler_calls_run in Hc as (st & Hst & _).
  by exists st.
Qed.

End HandlerProtocol.

Lemma handler_follows_protocol_witness :
  demo_ready false ∧ data_fd demo_conn = 0
  ∧ ∃ o s' evs, connnection_handler false 0 0 40 (conn_process demo_chunks) = Ok (o, s')
      ∧ (o = Cancelled ∨ o = Returned 40) ∧ p_trace s' = p_trace (conn_process demo_chunks) ++ evs
      ∧ is_Some (hrun false (mutex demo_conn)
          (Serves (client_fd demo_conn) (if o is Cancelled then false else true)) hstart evs).
Proof.
  split; [apply demo_is_ready|]. split; [reflexivity|]. destruct (demo_is_ready false) as (H1 & H2 & H3).
  exact (handler_follows_protocol (L := demo_laws) false 0 0 (conn_process demo_chunks) 40 16 demo_conn
           H1 H2 eq_refl H3).
Defined.
