(* ===== verification/Interleave.v ===== *)
(** * Threads of the server on a shared system

    The handlers of several clients and the timer run at once.  A [System] is the operating system
    as the threads share it: the answer of every call of every thread, and who has a
    mutex; its laws are those of POSIX mutexes.  An execution [exec] interleaves the
    calls of the threads, one call after the other, as the system runs them; a thread
    that waits for a lock makes no call.  [serving] says that every thread is a run of
    [connnection_handler], which may be cancelled, or of [timer_action], so it keeps to
    its automaton of [Protocol]; the invariant of this file, that one thread at most has
    the lock, holds for both builds and on every system. *)

From Stdlib Require Import String.
From S2P Require Import Prelude Memory Kernel AesdIoctl CString Posix SimOS DataFile SList.
From S2P Require Import Server Runs ServerSpec ServerRefine ServerProps Timer Protocol.

(** ** Lists of what threads do *)

(** The items of thread [i]. *)
Fixpoint select {A} (i : nat) (l : list (nat * A)) : list A :=
  match l with
  | [] => []
  | (j, x) :: l => if decide (j = i) then x :: select i l else select i l
  end.

Lemma select_app {A} i (l k : list (nat * A)) : select i (l ++ k) = select i l ++ select i k.
Proof. induction l as [|[j x] l IH]; cbn; [done|]. rewrite IH. by destruct (decide _). Qed.

Lemma select_snoc {A} i j (l : list (nat * A)) x :
  select i (l ++ [(j, x)]) = select i l ++ (if decide (j = i) then [x] else []).
Proof. rewrite select_app. cbn. by destruct (decide _). Qed.

(** The last item of thread [i]. *)
Lemma select_last {A} i (l : list (nat * A)) pre x :
  select i l = pre ++ [x] → ∃ l1 l2, l = l1 ++ (i, x) :: l2 ∧ select i l1 = pre.
Proof.
  induction l as [|[j y] l IH] using rev_ind; intros H; [by destruct pre|].
  rewrite select_snoc in H. destruct (decide (j = i)) as [->|].
  - apply app_inj_tail in H as [H ->]. by exists l, [].
  - rewrite app_nil_r in H. destruct (IH H) as (l1 & l2 & -> & H1).
    exists l1, (l2 ++ [(j, y)]). by rewrite <- app_assoc.
Qed.

Lemma Forall_select {A} (Q : nat → A → Prop) (l : list (nat * A)) :
  (∀ i, Forall (Q i) (select i l)) → Forall (λ e, Q e.1 e.2) l.
Proof.
  induction l as [|[j x] l IH]; intros H; constructor.
  - specialize (H j). cbn in H. rewrite decide_True in H by done.
    by apply Forall_cons in H as [H _].
  - apply IH. intros i. specialize (H i). cbn in H. destruct (decide (j = i)); [|done].
    by apply Forall_cons in H as [_ H].
Qed.

Lemma select_Forall {A} (Q : A → Prop) i (l : list (nat * A)) :
  Forall (λ e, Q e.2) l → Forall Q (select i l).
Proof.
  induction 1 as [|[j x] l Hx H IH]; cbn; [constructor|]. destruct (decide _); [|done].
  by constructor.
Qed.

Lemma select_all {A} i (l : list A) : select i ((λ e, (i, e)) <$> l) = l.
Proof. induction l as [|x l IH]; cbn; [done|]. by rewrite decide_True, IH. Qed.

Lemma select_other {A} i j (l : list A) : i ≠ j → select i ((λ e, (j, e)) <$> l) = [].
Proof. intros H. induction l as [|x l IH]; cbn; [done|]. by rewrite decide_False. Qed.

Lemma select_one {A} (ms : list (nat * A)) :
  (∀ i, i ≠ 0%nat → select i ms = []) → ms = (λ e, (0%nat, e)) <$> select 0 ms.
Proof.
  induction ms as [|[j x] ms IH]; intros H; [done|]. cbn. destruct (decide (j = 0%nat)) as [->|Hj].
  - cbn. f_equal. apply IH. intros i Hi. specialize (H i Hi). cbn in H.
    by rewrite decide_False in H by done.
  - specialize (H j Hj). cbn in H. by rewrite decide_True in H.
Qed.

(** An event: a thread, its call and the answer. *)
Abbreviation event := (nat * (call * answer))%type.

(** The calls of one thread. *)
Definition tag (i : nat) (evs : list (call * answer)) : list event := (λ e, (i, e)) <$> evs.

(** ** Systems *)

Class System := {
  ts_world : Type;
  ts_sys : nat → ts_world → call → answer * ts_world;
  (* the thread that has a mutex *)
  ts_owner : ts_world → Z → option nat
}.

Class SystemLaws (S : System) : Prop := {
  ts_lock i w m a w' :
    ts_sys i w (Cmutex_lock m) = (a, w') →
    if decide (rc a = 0) then ts_owner w m = None ∧ ts_owner w' m = Some i
    else ts_owner w' m = ts_owner w m;
  ts_unlock i w m a w' :
    ts_sys i w (Cmutex_unlock m) = (a, w') →
    if decide (ts_owner w m = Some i) then rc a = 0 ∧ ts_owner w' m = None
    else rc a ≠ 0 ∧ ts_owner w' m = ts_owner w m;
  ts_init i w m c a w' :
    c = Cmutex_init m ∨ c = Cmutex_destroy m → ts_sys i w c = (a, w') →
    ts_owner w' m = ts_owner w m;
  ts_frame i w m c a w' :
    on_mutex m c = false → ts_sys i w c = (a, w') → ts_owner w' m = ts_owner w m
}.

(** A thread of the server: the handler of a client, with its socket and the chunks the
    client sends, or the timer. *)
Inductive thread : Type :=
| Client (cl_fd : Z) (cl_chunks : list (list Z))
| TimerThread.

(** The automaton of thread [i]; [whole]: the threads that are not cancelled. *)
Definition role_of (threads : list thread) (whole : nat → bool) (i : nat) : role :=
  match threads !! i with Some (Client fd _) => Serves fd (whole i) | _ => Ticks end.

(** The calls that append to the data file or read it. *)
Definition accesses (c : call) : bool :=
  match c with Cread _ _ | Cwrite _ _ | Cioctl _ _ _ => true | _ => false end.

Section Executions.
Context {S : System} {L : SystemLaws S}.

(** A thread waits while another one has the lock. *)
Definition enabled (i : nat) (w : ts_world) (c : call) : bool :=
  match c with
  | Cmutex_lock m => match ts_owner w m with Some j => (j =? i)%nat | None => true end
  | _ => true
  end.

Inductive exec (w : ts_world) : list event → ts_world → Prop :=
| exec_nil : exec w [] w
| exec_snoc evs w1 i c a w2 :
    exec w evs w1 → enabled i w1 c = true → ts_sys i w1 c = (a, w2) →
    exec w (evs ++ [(i, (c, a))]) w2.

Lemma exec_one w i c a w' :
  exec w [(i, (c, a))] w' → ts_sys i w c = (a, w').
Proof using.
  intros H. inversion H as [|evs w1 j d b w2 H1 Hen Hs Heq]; subst.
  apply (app_inj_tail evs []) in Heq as [-> [=]]; subst.
  inversion H1 as [|e1 ? ? ? ? ? ? ? ? He]; subst; [done|by destruct e1].
Qed.

Lemma exec_app_inv w e1 e2 w' :
  exec w (e1 ++ e2) w' → ∃ w1, exec w e1 w1 ∧ exec w1 e2 w'.
Proof using.
  revert w'. induction e2 as [|e e2 IH] using rev_ind; intros w' H.
  - rewrite app_nil_r in H. exists w'. split; [done|constructor].
  - rewrite app_assoc in H. inversion H as [Hnil|evs w1 i c a w2 H1 Hen Hs Hevs]; subst.
    + symmetry in Hnil. by apply app_eq_nil in Hnil as [_ [=]].
    + apply app_inj_tail in Hevs as [-> <-]. destruct (IH _ H1) as (w2 & Hw1 & Hw2).
      exists w2. split; [done|]. by econstructor.
Qed.

(** A thread that makes no further call keeps its mutexes, whatever the others do. *)
Lemma silent_owner_keeps_lock w evs w' m i :
  exec w evs w' → select i evs = [] → ts_owner w m = Some i → ts_owner w' m = Some i.
Proof using L.
  intros H. induction H as [|evs w1 j c a w2 H IH Hen Hs]; intros Hsel Hw; [done|].
  rewrite select_snoc in Hsel. apply app_eq_nil in Hsel as [Hsel Hj].
  destruct (decide (j = i)) as [|Hne]; [done|]. specialize (IH Hsel Hw).
  destruct (on_mutex m c) eqn:Hc; [|by rewrite (ts_frame j w1 m c a w2)].
  destruct c; cbn in Hc; try done; apply Z.eqb_eq in Hc as <-.
  - rewrite (ts_init j w1 m (Cmutex_init m) a w2) by auto. done.
  - rewrite (ts_init j w1 m (Cmutex_destroy m) a w2) by auto. done.
  - apply ts_lock in Hs. destruct (decide _); [destruct Hs; congruence|congruence].
  - apply ts_unlock in Hs. destruct (decide _); destruct Hs as [_ Hs]; congruence.
Qed.

(** An execution can be replayed. *)
#[local] Instance answer_eq_dec : EqDecision answer.
Proof. solve_decision. Defined.

Fixpoint replay (w : ts_world) (evs : list event) : option ts_world :=
  match evs with
  | [] => Some w
  | (i, (c, a)) :: evs =>
      let '(a', w') := ts_sys i w c in
      if enabled i w c && bool_decide (a' = a) then replay w' evs else None
  end.

Lemma replay_exec w0 evs0 w evs w' :
  exec w0 evs0 w → replay w evs = Some w' → exec w0 (evs0 ++ evs) w'.
Proof using.
  revert evs0 w. induction evs as [|[i [c a]] evs IH]; intros evs0 w He Hr; cbn in Hr.
  - injection Hr as <-. by rewrite app_nil_r.
  - destruct (ts_sys i w c) as [a' w1] eqn:Hs.
    destruct (enabled i w c) eqn:Hg; [|done]. cbn in Hr. case_bool_decide as Ha; [|done].
    rewrite cons_middle, app_assoc. eapply IH; [|exact Hr]. subst a'. by econstructor.
Qed.

(** The calls of a thread that runs alone, as an execution: [O] is the system as the
    thread [i] sees it. *)
Section Alone.
Context {O : OS} (view : @world O → ts_world) (i : nat).
Hypothesis Hview : ∀ w c a w', sys w c = (a, w') → ts_sys i (view w) c = (a, view w').

Definition alone (w : ts_world) : Prop := ∀ m j, ts_owner w m = Some j → j = i.

Lemma alone_step w c a w' : alone w → ts_sys i w c = (a, w') → alone w'.
Proof using L.
  intros Hw Hs m j Hj. destruct (on_mutex m c) eqn:Hc.
  2: { rewrite (ts_frame i w m c a w') in Hj by done. by eapply Hw. }
  destruct c; cbn in Hc; try done; apply Z.eqb_eq in Hc as <-.
  - rewrite (ts_init i w m (Cmutex_init m) a w') in Hj by auto. by eapply Hw.
  - rewrite (ts_init i w m (Cmutex_destroy m) a w') in Hj by auto. by eapply Hw.
  - apply ts_lock in Hs. destruct (decide _); [destruct Hs; congruence|].
    rewrite Hs in Hj. by eapply Hw.
  - apply ts_unlock in Hs. destruct (decide _); destruct Hs as [_ Hs]; rewrite Hs in Hj; [done|].
    by eapply Hw.
Qed.

Lemma runs_exec w evs w' :
  alone (view w) → runs w evs w' → exec (view w) (tag i evs) (view w') ∧ alone (view w').
Proof using L Hview.
  intros Hown. revert w'. induction evs as [|[c a] evs IH] using rev_ind; intros w' H.
  - inversion H; subst. split; [constructor|done].
  - apply runs_app in H as (w1 & H1 & H2). destruct (IH w1 H1) as [He Ho].
    inversion H2 as [|? ? ? w2 ? ? Hs Hnil]; subst. inversion Hnil; subst.
    apply Hview in Hs. split; [|by eapply alone_step].
    unfold tag. rewrite fmap_app. cbn. eapply exec_snoc; [done| |done].
    destruct c; try done. cbn. destruct (ts_owner (view w1) m) as [j|] eqn:E; [|done].
    apply Nat.eqb_eq. by eapply Ho.
Qed.

End Alone.

(** ** The automata of the threads *)

Variable dev : bool.
(* what the threads run, and their lock *)
Variable rl : nat → role.
Variable m : Z.

(** Where the automata of the threads are. *)
Definition states : Type := nat → option hstate.

Definition upd (st : states) (j : nat) (s : hstate) : states :=
  λ i, if decide (i = j) then Some s else st i.

Definition states_after (evs : list event) : states :=
  λ i, hrun dev m (rl i) hstart (select i evs).

Lemma states_start i s : states_after [] i = Some s → s = hstart.
Proof using. by intros [= <-]. Qed.

Lemma states_snoc evs j e :
  is_Some (states_after (evs ++ [(j, e)]) j) →
  ∃ s s', states_after evs j = Some s ∧ hstep dev m (rl j) s e s'
    ∧ ∀ i, states_after (evs ++ [(j, e)]) i = upd (states_after evs) j s' i.
Proof using.
  unfold states_after, upd. rewrite select_snoc, decide_True, hrun_app by done. intros [s' H].
  destruct (hrun dev m (rl j) hstart (select j evs)) as [s|] eqn:E; [|done]. cbn in H.
  destruct (hnext dev m (rl j) s e) as [s2|] eqn:Hn; [|done]. injection H as ->.
  exists s, s'. split; [done|]. split; [by apply hnext_hstep|]. intros i.
  rewrite select_snoc. destruct (decide (i = j)) as [->|Hij].
  - rewrite decide_True, hrun_app, E by done. cbn. by rewrite Hn.
  - by rewrite decide_False, app_nil_r by congruence.
Qed.

Lemma states_prefix evs j e i :
  is_Some (states_after (evs ++ [(j, e)]) i) → is_Some (states_after evs i).
Proof using.
  unfold states_after. rewrite select_snoc, hrun_app.
  destruct (hrun dev m (rl i) hstart (select i evs)); [by eexists|done].
Qed.

(** ** One thread has the lock *)

Definition owner_inv (w : ts_world) (st : states) : Prop :=
  ∀ i s, st i = Some s → (holding s = true ↔ ts_owner w m = Some i).

Lemma owner_frame w w' st j s s' :
  owner_inv w st → ts_owner w' m = ts_owner w m → st j = Some s →
  holding s' = holding s → owner_inv w' (upd st j s').
Proof using.
  intros Hinv Ho Hs Hh i si Hi. unfold upd in Hi. rewrite Ho.
  destruct (decide (i = j)) as [->|]; [|by apply Hinv].
  injection Hi as <-. rewrite Hh. by apply Hinv.
Qed.

(** A thread that takes the lock, or gives it back. *)
Lemma owner_moves w w' st j s s' o :
  owner_inv w st → st j = Some s → ts_owner w m = (if holding s' then None else Some j) →
  ts_owner w' m = o → o = (if holding s' then Some j else None) → owner_inv w' (upd st j s').
Proof using.
  intros Hinv Hs Ho Ho' -> i si Hi. unfold upd in Hi. rewrite Ho'.
  destruct (decide (i = j)) as [->|Hij].
  - injection Hi as <-. by destruct (holding s').
  - rewrite (Hinv i si Hi), Ho. destruct (holding s'); split; congruence.
Qed.

(** A call that does not touch the lock. *)
Lemma hstep_holding r s c a s' :
  hstep dev m r s (c, a) s' → on_mutex m c = false → holding s' = holding s.
Proof using.
  intros H Hc. inversion H; subst; cbn in *; try done; try by rewrite Z.eqb_refl in Hc.
  - unfold answering. by destruct dev.
  - by destruct (0 <? rc a).
  - by destruct (s32 (rc a) <? 0).
  - by destruct ph.
  - by match goal with E : _ ∨ _ |- _ => destruct E as [-> | ->] end.
Qed.

Lemma owner_step w w' st j s c a s' :
  owner_inv w st → st j = Some s → ts_sys j w c = (a, w') →
  hstep dev m (rl j) s (c, a) s' → owner_inv w' (upd st j s').
Proof using L.
  intros Hinv Hs Hsys Hstep. pose proof (Hinv j s Hs) as Hj. generalize dependent (rl j).
  intros r Hstep. destruct (on_mutex m c) eqn:Hc.
  2: { apply (owner_frame w w' st j s s'); [done|by apply (ts_frame j w m c a w')|done|].
       by eapply hstep_holding. }
  assert (∀ ph, holding (HState ph None) = true → c = Cmutex_lock m → h_phase s = Idle →
            s' = HState (if decide (rc a = 0) then ph else Idle) (h_fd s) → owner_inv w' (upd st j s'))
    as Hlock.
  { intros ph Hph -> Hidle ->. apply ts_lock in Hsys. destruct (decide (rc a = 0)) as [Ha|Ha].
    - destruct Hsys. unfold holding in Hph. cbn [h_phase] in Hph.
      eapply owner_moves; try done; unfold holding; cbn [h_phase]; by rewrite Hph.
    - apply (owner_frame w w' st j s); try done. by unfold holding; rewrite Hidle. }
  assert (∀ ph ph', c = Cmutex_unlock m → holding s = true → holding (HState ph None) = false →
            s' = HState (if decide (rc a = 0) then ph else ph') (h_fd s) →
            owner_inv w' (upd st j s')) as Hunlock.
  { intros ph ph' -> Hh Hph ->. apply ts_unlock in Hsys. rewrite decide_True in Hsys by (by apply Hj).
    destruct Hsys as [Ha Hn]. rewrite decide_True by done.
    unfold holding in Hph. cbn [h_phase] in Hph.
    eapply owner_moves; try done; unfold holding; cbn [h_phase]; rewrite Hph; [by apply Hj|done]. }
  inversion Hstep; subst; cbn in Hc; try discriminate Hc;
    try solve [by apply (Hlock Locked)|by apply (Hlock Ticking)|by apply (Hunlock Idle Finished)
      |by apply (Hunlock Left Leaving)].
  - assert (holding (HState ph f) = false) as Hh
      by (by match goal with E : _ ∨ _ |- _ => destruct E as [-> | ->] end).
    rewrite Hh in Hj. apply ts_unlock in Hsys. rewrite decide_False in Hsys by (rewrite <- Hj; done).
    destruct Hsys as [_ Hn]. by apply (owner_frame w w' st j (HState ph f)).
  - by match goal with E : _ ∨ _ |- _ => destruct E as [-> | [n ->]] end.
  - apply (Hunlock Idle Finished); try done.
    by match goal with E : _ ∨ _ ∨ _ |- _ => destruct E as [->|[->| ->]] end.
Qed.

Lemma owner_inv_ext w st st' : (∀ i, st' i = st i) → owner_inv w st → owner_inv w st'.
Proof using. intros He H i s Hi. rewrite He in Hi. by apply H. Qed.

(** Who has the lock, in every execution of threads that keep to the protocol. *)
Lemma exec_owner w0 evs w :
  exec w0 evs w → ts_owner w0 m = None → (∀ i, is_Some (states_after evs i)) →
  owner_inv w (states_after evs).
Proof using L.
  intros H Hm. induction H as [|evs w1 j c a w2 H IH Hen Hsys]; intros Hst.
  - intros i s Hi. apply states_start in Hi as ->. rewrite Hm. done.
  - destruct (states_snoc evs j (c, a) (Hst j)) as (s & s' & Hs & Hstep & Heq).
    apply (owner_inv_ext _ _ _ Heq), (owner_step w1 w2 _ j s c a); try done.
    apply IH. intros i. by eapply states_prefix.
Qed.

End Executions.

(** ** The threads of the server *)

Section Serving.
Context {S : System} {L : SystemLaws S}.
Variables (dev : bool) (x0 y0 : Z).

(** The calls of a run of a thread to its end; [whole]: it is not cancelled. *)
Definition thread_run (m : Z) (th : thread) (whole : bool) (evs : list (call * answer)) : Prop :=
  match th with
  | Client fd chunks => client_run dev x0 y0 fd m chunks whole evs
  | TimerThread => dev = false ∧ m = the_mutex ∧ timer_run x0 y0 evs
  end.

(** Every thread is a run, up to some point. *)
Definition serving (m : Z) (threads : list thread) (whole : nat → bool) (evs : list event)
    : Prop :=
  ∀ i, match threads !! i with
       | Some th => ∃ rest, thread_run m th (whole i) (select i evs ++ rest)
       | None => select i evs = []
       end.

(** The same, to the end. *)
Definition served (m : Z) (threads : list thread) (whole : nat → bool) (evs : list event)
    : Prop :=
  ∀ i, match threads !! i with
       | Some th => thread_run m th (whole i) (select i evs)
       | None => select i evs = []
       end.

(** A run of a thread follows its automaton. *)
Lemma thread_run_states m threads whole i th evs :
  threads !! i = Some th → thread_run m th (whole i) evs →
  ∃ st, hrun dev m (role_of threads whole i) hstart evs = Some st
    ∧ (whole i = true → at_rest st).
Proof using.
  intros Hi H. unfold role_of. rewrite Hi. destruct th as [fd chunks|].
  - apply client_run_calls in H. exact (handler_calls_run _ _ _ _ _ _ H).
  - destruct H as (-> & -> & H). apply timer_run_calls, timer_calls_run in H as (st & H & Hst).
    by exists st.
Qed.

Lemma serving_states m threads whole evs i :
  serving m threads whole evs → is_Some (states_after dev (role_of threads whole) m evs i).
Proof using.
  intros H. specialize (H i). unfold states_after. destruct (threads !! i) as [th|] eqn:Hi.
  - destruct H as [rest H]. apply (thread_run_states _ _ _ _ _ _ Hi) in H as (st & H & _).
    rewrite hrun_app in H. destruct (hrun _ _ _ _ _); [by eexists|done].
  - rewrite H. by eexists.
Qed.

Lemma serving_app m threads whole e1 e2 :
  serving m threads whole (e1 ++ e2) → serving m threads whole e1.
Proof using.
  intros H i. specialize (H i). destruct (threads !! i) as [th|].
  - destruct H as [rest H]. rewrite select_app, <- app_assoc in H. by eexists.
  - rewrite select_app in H. by apply app_eq_nil in H as [H _].
Qed.

Lemma served_serving m threads whole evs : served m threads whole evs → serving m threads whole evs.
Proof using.
  intros H i. specialize (H i). destruct (threads !! i); [|done].
  exists []. by rewrite app_nil_r.
Qed.

(** Mutual exclusion, in both builds and on every system with the mutexes of POSIX.
    In every interleaving of the handlers of any number of clients with runs of the timer,
    whatever fails, whichever handlers are cancelled and wherever the threads are, a
    thread that appends to the data file or reads it has the lock, and no other thread is
    between its lock and its unlock.  The unlock in [connection_cleanup], which a thread
    also does without having the lock, takes it from nobody. *)
Theorem handlers_exclude_each_other m threads whole w0 evs i c a evs' w
    (Hexec : exec w0 (evs ++ (i, (c, a)) :: evs') w) (Hfree : ts_owner w0 m = None)
    (Hserving : serving m threads whole (evs ++ (i, (c, a)) :: evs'))
    (Haccess : accesses c = true) :
  ∃ w1, exec w0 evs w1 ∧ ts_owner w1 m = Some i
    ∧ ∀ j s, states_after dev (role_of threads whole) m evs j = Some s → holding s = true → j = i.
Proof using L.
  destruct (exec_app_inv _ _ _ _ Hexec) as (w1 & H1 & _). exists w1. split; [done|].
  pose proof (serving_app _ _ _ _ _ Hserving) as Hsv1.
  pose proof (exec_owner dev (role_of threads whole) m w0 evs w1 H1 Hfree
    (λ k, serving_states _ _ _ _ k Hsv1)) as Hown.
  assert (ts_owner w1 m = Some i) as Hi.
  { rewrite cons_middle, app_assoc in Hserving. apply serving_app in Hserving as Hsv2.
    destruct (states_snoc dev (role_of threads whole) m evs i (c, a) (serving_states _ _ _ _ i Hsv2))
      as (s & s' & Hs & Hstep & _).
    apply (Hown i s Hs). inversion Hstep; subst; done. }
  split; [done|]. intros j s Hj Hh. apply (Hown j s Hj) in Hh. congruence.
Qed.

(** ** The lock when all threads have ended *)

Definition ends_with_unlock (m : Z) (evs : list (call * answer)) : Prop :=
  ∃ pre a, evs = pre ++ [(Cmutex_unlock m, a)].

(** The thread is not cancelled, or cancelled and its last call is the unlock; nobody
    cancels the timer. *)
Definition ends_well (m : Z) (th : thread) (whole : bool) (evs : list (call * answer)) : Prop :=
  th = TimerThread ∨ whole = true ∨ ends_with_unlock m evs.

(** A run that is not cancelled ends with the unlock, or without having got the lock. *)
Lemma run_ends m threads whole i th evs :
  threads !! i = Some th → thread_run m th (whole i) evs →
  ends_well m th (whole i) evs →
  ∃ st, hrun dev m (role_of threads whole i) hstart evs = Some st
    ∧ (holding st = false ∨ ends_with_unlock m evs).
Proof using.
  intros Hi Hrun Hend. destruct (thread_run_states _ _ _ _ _ _ Hi Hrun) as (st & Hst & _).
  exists st. split; [done|]. destruct th as [fd chunks|].
  - destruct Hend as [|[Hw|]]; [done| |by right]. right. apply client_run_calls in Hrun as (O & c & e1 & rest & e2 & more & complete & _ & Hm & -> & _
      & (a & b & e & Hcl) & _ & Hwh).
    destruct (Hwh Hw) as [_ ->]. rewrite app_nil_r in Hcl. subst e2. rewrite Hm.
    exists (e1 ++ (Cclose (client_fd c), a)
      :: (if 0 <? last_open 0 e1 then [(Cclose (last_open 0 e1), b)] else [])), e.
    by rewrite <- app_assoc.
  - destruct Hrun as (-> & -> & Hrun). apply timer_run_calls in Hrun. unfold role_of in Hst.
    rewrite Hi in Hst.
    destruct Hrun as [a Ha|a b e Ha Hb|a b d f g h e Ha Hb Hg|a b d f g msg r h e Ha Hb Hg Hmsg].
    + left. cbn in Hst. rewrite decide_True, decide_False in Hst by done. by injection Hst as <-.
    + right. by exists [(Cmutex_lock the_mutex, a); (Cclock_gettime, b)], e.
    + right. exists ((Cmutex_lock the_mutex, a) :: timer_opens b d f g ++ timer_closes (rc f) h), e.
      rewrite <- app_comm_cons. by rewrite <- ?app_assoc.
    + right. exists ((Cmutex_lock the_mutex, a) :: timer_opens b d f g ++ [(Cwrite (rc f) msg, r)]
        ++ timer_closes (rc f) h), e. rewrite <- app_comm_cons. by rewrite <- ?app_assoc.
Qed.

(** Behind an unlock that gave the lock back, the automaton does not have it. *)
Lemma unlock_releases m rl s a s' :
  hstep dev m rl s (Cmutex_unlock m, a) s' → (holding s = true → rc a = 0) → holding s' = false.
Proof using.
  intros Hstep Ha. inversion Hstep; subst; unfold holding in *; cbn in *.
  all: repeat match goal with H : _ ∨ _ |- _ => destruct H as [H|H] end; subst.
  all: try (by rewrite decide_True by auto).
  all: first [done|match goal with H : ∃ _, _ |- _ => by destruct H end].
Qed.

(** The same where the automata say who has the lock: a thread that ends with the unlock
    does not have it. *)
Lemma unlock_lets_go m rl w st j s a w' s' :
  owner_inv m w st → st j = Some s → ts_sys j w (Cmutex_unlock m) = (a, w') →
  hstep dev m rl s (Cmutex_unlock m, a) s' → holding s' = false.
Proof using L.
  intros Hinv Hs Hsys%ts_unlock Hstep. apply (unlock_releases _ _ _ _ _ Hstep). intros Hh.
  apply (Hinv _ _ Hs) in Hh. rewrite decide_True in Hsys by done. by destruct Hsys.
Qed.

(** The lock can be destroyed when the server stops.  After any interleaving in which
    all threads came to their ends, those that were not cancelled wherever they were, and
    those that were cancelled by the last call of [connection_cleanup], its unlock, no
    thread has the lock.  [signal_handler] cancels the handlers and joins them before
    it calls [pthread_mutex_destroy]; for a run of the timer it does not wait, so that
    the premise on the timer is not established by the code. *)
Theorem lock_is_free_in_the_end m threads whole w0 evs w
    (Hexec : exec w0 evs w) (Hfree : ts_owner w0 m = None)
    (Hserved : served m threads whole evs)
    (Hend : ∀ i, is_Some (threads !! i) →
              whole i = true ∨ ends_with_unlock m (select i evs)) :
  ts_owner w m = None.
Proof using L.
  pose proof (served_serving _ _ _ _ Hserved) as Hserving.
  destruct (ts_owner w m) as [j|] eqn:Hj; [exfalso|done].
  destruct (serving_states _ _ _ _ j Hserving) as [s Hs].
  pose proof (exec_owner dev (role_of threads whole) m w0 evs w Hexec Hfree
    (λ k, serving_states _ _ _ _ k Hserving) j s Hs) as Hown.
  apply Hown in Hj. pose proof (Hserved j) as Hrun.
  destruct (threads !! j) as [th|] eqn:Hth.
  2: { unfold states_after in Hs. rewrite Hrun in Hs. by injection Hs as <-. }
  destruct (run_ends _ _ _ _ _ _ Hth Hrun (or_intror (Hend j ltac:(by eexists)))) as (st & Hst & Hor).
  unfold states_after in Hs. rewrite Hs in Hst. injection Hst as <-.
  destruct Hor as [Hor|(pre & a & Hpre)]; [congruence|].
  destruct (select_last _ _ _ _ Hpre) as (e1 & e2 & -> & He1).
  destruct (exec_app_inv _ _ _ _ Hexec) as (w1 & H1 & H2).
  assert (serving m threads whole (e1 ++ [(j, (Cmutex_unlock m, a))])) as Hsv.
  { eapply (serving_app _ _ _ _ e2). by rewrite <- app_assoc. }
  pose proof (serving_app _ _ _ _ _ Hsv) as Hsv1.
  pose proof (exec_owner dev (role_of threads whole) m w0 e1 w1 H1 Hfree
    (λ k, serving_states _ _ _ _ k Hsv1)) as Hown1.
  destruct (states_snoc dev (role_of threads whole) m e1 j (Cmutex_unlock m, a)
    (serving_states _ _ _ _ j Hsv)) as (s0 & s1 & Hs0 & Hstep & Heq).
  assert (s1 = s) as ->.
  { specialize (Heq j). unfold states_after, upd in Heq. rewrite decide_True in Heq by done.
    rewrite select_snoc, decide_True, He1, <- Hpre, Hs in Heq by done. by injection Heq as ->. }
  destruct (exec_app_inv _ [_] _ _ H2) as (w2 & Hone & _).
  apply exec_one in Hone. enough (holding s = false) by congruence.
  by eapply (unlock_lets_go m _ w1 _ j s0 a w2 s).
Qed.

End Serving.
