(* ===== verification/Concurrent.v ===== *)
(** * Several clients and one data file

    The handlers of several clients and the timer, interleaved as in [Interleave], share
    the data file.  [SharedFile] is what the server relies on: the contents of the file, a
    position per descriptor, and what opening, positioning, reading and appending do
    to them; [EndToEnd] shows it of the driver's device and [PlainFile] of an
    ordinary file.

    The invariants of an execution follow the automata of all threads: descriptors
    are not shared; the file holds what the messages appended so far make of it, and
    each client was sent the contents as they were right after each of its messages, up to
    the point where its handler was cancelled, if it was.

    A device appends wherever a descriptor stands; in an ordinary file a message is
    appended only if the descriptor still stands at the end, where the handler put it
    before it took the lock.  [undisturbed] says so of an execution.  The timer takes the
    lock first and needs no such condition. *)

From Stdlib Require Import String.
From S2P Require Import Prelude Memory Kernel AesdIoctl CString Posix SimOS DataFile SList.
From S2P Require Import Server Runs ServerSpec ServerRefine ServerProps Timer Protocol Interleave.

(** The messages that are written. *)
Fixpoint texts (evs : list (call * answer)) : list (list Z) :=
  match evs with
  | [] => []
  | (Cwrite _ bs, _) :: evs => bs :: texts evs
  | _ :: evs => texts evs
  end.

Lemma texts_app l k : texts (l ++ k) = texts l ++ texts k.
Proof. induction l as [|[[] a] l IH]; cbn; by rewrite ?IH. Qed.

Lemma sent_bytes_app l k : sent_bytes (l ++ k) = sent_bytes l ++ sent_bytes k.
Proof. induction l as [|[[] a] l IH]; cbn; rewrite ?IH, ?app_assoc; done. Qed.

(** The calls that leave the data file and its descriptors alone. *)
Definition on_fds (c : call) : bool :=
  match c with
  | Copen _ _ _ | Cclose _ | Cread _ _ | Cwrite _ _ | Cioctl _ _ _ | Clseek _ _ _ => true
  | _ => false
  end.

(** ** The file *)

Class SharedFile (S : System) := {
  sf_state : Type;                               (* what the file holds *)
  sf_contents : sf_state → list Z;               (* as a reader sees it *)
  sf_append : sf_state → list Z → sf_state;
  sf_ok : ts_world → Prop;                       (* the invariant of the system *)
  sf_get : ts_world → sf_state;
  sf_pos : ts_world → Z → option Z;              (* where a descriptor stands *)
  sf_socket : ts_world → Z → Prop                (* the descriptors of the clients *)
}.

Section Moved.
Context {S : System} {F : SharedFile S}.

(** The descriptor [fd] stands at [o] now, or is closed; nothing else changed. *)
Definition moved (w w' : ts_world) (fd : Z) (o : option Z) : Prop :=
  sf_get w' = sf_get w
  ∧ ∀ fd', sf_pos w' fd' = if decide (fd' = fd) then o else sf_pos w fd'.

Definition size (w : ts_world) : Z := Z.of_nat (length (sf_contents (sf_get w))).

(** What can still be read from [p] on. *)
Definition from (w : ts_world) (p : Z) : list Z := drop (Z.to_nat p) (sf_contents (sf_get w)).

End Moved.

(** The calls on the file that succeed. *)
Class SharedFileLaws (dev : bool) {S : System} (F : SharedFile S) : Prop := {
  sf_keeps i w c a w' : sf_ok w → ts_sys i w c = (a, w') → sf_ok w';
  sf_sockets i w c a w' fd : ts_sys i w c = (a, w') → (sf_socket w' fd ↔ sf_socket w fd);
  sf_frame i w c a w' :
    on_fds c = false → ts_sys i w c = (a, w') →
    sf_get w' = sf_get w ∧ ∀ fd, sf_pos w' fd = sf_pos w fd;
  sf_open i w a w' :
    ts_sys i w (open_call dev) = (a, w') → 0 ≤ rc a →
    moved w w' (rc a) (Some 0) ∧ sf_pos w (rc a) = None ∧ ¬ sf_socket w (rc a);
  sf_close i w fd a w' : ts_sys i w (Cclose fd) = (a, w') → moved w w' fd None;
  sf_seek_end i w fd a w' :
    dev = false → ts_sys i w (Clseek fd 0 SEEK_END) = (a, w') → 0 ≤ rc a →
    moved w w' fd (Some (size w));
  sf_rewind i w fd a w' :
    dev = false → ts_sys i w (Clseek fd 0 SEEK_SET) = (a, w') → 0 ≤ rc a →
    moved w w' fd (Some 0);
  sf_read i w fd n a w' :
    sf_ok w → ts_sys i w (Cread fd n) = (a, w') → 0 < n → 0 ≤ rc a →
    ∃ p, sf_pos w fd = Some p ∧ moved w w' fd (Some (p + rc a))
      ∧ from w p = out a ++ from w (p + rc a) ∧ (rc a = 0 → from w p = []);
  sf_write i w fd bs a w' :
    sf_ok w → ts_sys i w (Cwrite fd bs) = (a, w') → 0 ≤ rc a →
    (dev = false → rc a = Z.of_nat (length bs) ∧ sf_pos w fd = Some (size w)) →
    sf_get w' = sf_append (sf_get w) bs
    ∧ ∃ p, (dev = true → p = 0)
      ∧ ∀ fd', sf_pos w' fd' = if decide (fd' = fd) then Some p else sf_pos w fd'
}.

(** What the file holds right after each message, for the thread that wrote it. *)
Fixpoint answers {S : System} {F : SharedFile S} (g : sf_state) (ms : list (nat * list Z))
    : list (nat * list Z) :=
  match ms with
  | [] => []
  | (i, msg) :: ms => let g := sf_append g msg in (i, sf_contents g) :: answers g ms
  end.

(** What the messages make of the file. *)
Definition logged {S : System} {F : SharedFile S} (g : sf_state) (ms : list (nat * list Z))
    : sf_state := foldl sf_append g (snd <$> ms).

Lemma logged_snoc {S : System} {F : SharedFile S} g ms i msg :
  logged g (ms ++ [(i, msg)]) = sf_append (logged g ms) msg.
Proof. unfold logged. by rewrite fmap_app, foldl_app. Qed.

Lemma answers_snoc {S : System} {F : SharedFile S} g ms i msg :
  answers g (ms ++ [(i, msg)])
  = answers g ms ++ [(i, sf_contents (sf_append (logged g ms) msg))].
Proof.
  revert g. induction ms as [|[j x] ms IH]; intros g; [done|]. cbn [app answers].
  rewrite IH. done.
Qed.

(** ** Undisturbed executions *)

(** Whether the descriptor of thread [i] stands at the end of an ordinary file, as far
    as the calls tell: thread [i] put it there and used it no more, and nobody wrote. *)
Definition own_mark (b : bool) (c : call) : bool :=
  match c with
  | Clseek _ _ whence => whence =? SEEK_END
  | Copen _ _ _ | Cread _ _ | Cwrite _ _ | Cioctl _ _ _ | Cclose _ => false
  | _ => b
  end.

Definition mark (i : nat) (b : bool) (e : event) : bool :=
  if decide (e.1 = i) then own_mark b e.2.1
  else match e.2.1 with Cwrite _ _ => false | _ => b end.

Definition marks (evs : list event) (i : nat) : bool := foldl (mark i) false evs.

Lemma marks_snoc evs e i : marks (evs ++ [e]) i = mark i (marks evs i) e.
Proof. unfold marks. by rewrite foldl_app. Qed.

(** Every message of a handler is written where the handler put the descriptor: no other
    message was written in between. *)
Definition undisturbed (rl : nat → role) (evs : list event) : Prop :=
  ∀ e1 j fd bs a e2, evs = e1 ++ (j, (Cwrite fd bs, a)) :: e2 → rl j ≠ Ticks →
    marks e1 j = true.

Lemma undisturbed_app rl e1 e2 : undisturbed rl (e1 ++ e2) → undisturbed rl e1.
Proof.
  intros H k1 j fd bs a k2 ->. eapply H. by rewrite <- app_assoc.
Qed.

(** It can be computed. *)
Fixpoint undisturbed_from (rl : nat → role) (past evs : list event) : bool :=
  match evs with
  | [] => true
  | (j, (c, a)) :: evs =>
      match c, rl j with Cwrite _ _, Serves _ _ => marks past j | _, _ => true end
      && undisturbed_from rl (past ++ [(j, (c, a))]) evs
  end.

Lemma undisturbed_computed rl evs : undisturbed_from rl [] evs = true → undisturbed rl evs.
Proof.
  assert (∀ past, undisturbed_from rl past evs = true → ∀ e1 j fd bs a e2,
            evs = e1 ++ (j, (Cwrite fd bs, a)) :: e2 → rl j ≠ Ticks → marks (past ++ e1) j = true)
    as Hgen; [|intros H; exact (Hgen [] H)].
  induction evs as [|[i [c a]] evs IH]; intros past H e1 j fd bs a' e2 E Hj.
  - by destruct e1.
  - apply andb_true_iff in H as [H1 H2]. destruct e1 as [|e e1]; cbn in E.
    + injection E as -> -> -> ->. rewrite app_nil_r. by destruct (rl j).
    + injection E as <- E2. specialize (IH _ H2 e1 j fd bs a' e2 E2 Hj). by rewrite <- app_assoc in IH.
Qed.

(** A call that does not fail, and does what it was asked to: writes and sends are
    complete. *)
Definition well (e : call * answer) : Prop := 0 ≤ rc e.2 ∧ event_ok e.

(** A call other than a seek command. *)
Definition no_seek (e : call * answer) : Prop :=
  match e.1 with Cioctl _ _ _ => False | _ => True end.

(** What the connection still has to send of the answer it is sending. *)
Definition to_read {S : System} {F : SharedFile S} (w : ts_world) (s : hstate) : list Z :=
  match h_fd s with
  | Some fd => match sf_pos w fd with Some p => from w p | None => [] end
  | None => []
  end.

Definition to_send {S : System} {F : SharedFile S} (w : ts_world) (s : hstate) : list Z :=
  match h_phase s with
  | Rewinding => sf_contents (sf_get w)
  | Reading => to_read w s
  | Sending bs => bs ++ to_read w s
  | _ => []
  end.

Section Concurrent.
Variable dev : bool.
Context {S : System} {L : SystemLaws S} {F : SharedFile S} {FL : SharedFileLaws dev F}.
(* what the threads run, and their lock *)
Variable rl : nat → role.
Variable m : Z.

Abbreviation after_events := (states_after dev rl m).

(** The socket of a connection is one. *)
Definition good_role (w : ts_world) (r : role) : Prop :=
  match r with Serves fd _ => sf_socket w fd | Ticks => True end.

(** ** Descriptors *)

(** A socket is not a descriptor of the file; the descriptors of the threads are open,
    and no two threads use the same one. *)
Record fds_inv (w : ts_world) (st : states) : Prop := {
  fi_sockets fd : sf_socket w fd → sf_pos w fd = None;
  fi_open i s fd : st i = Some s → h_fd s = Some fd → is_Some (sf_pos w fd);
  fi_distinct i j si sj fd :
    st i = Some si → st j = Some sj → h_fd si = Some fd → h_fd sj = Some fd → i = j
}.

(** What a call of a thread does to the descriptors: it changes only its own one, or
    opens a new one. *)
Definition own_fd (w w' : ts_world) (s s' : hstate) : Prop :=
  (∀ fd, sf_pos w' fd = sf_pos w fd ∨ h_fd s = Some fd
         ∨ sf_pos w fd = None ∧ ¬ sf_socket w fd)
  ∧ ∀ fd, h_fd s' = Some fd → is_Some (sf_pos w' fd) ∧ (h_fd s = Some fd ∨ sf_pos w fd = None).

Lemma own_moved w w' fd o s s' :
  moved w w' fd o → h_fd s = Some fd ∨ sf_pos w fd = None ∧ ¬ sf_socket w fd ∨ o = sf_pos w fd →
  h_fd s' = Some fd ∧ is_Some o ∧ (h_fd s = Some fd ∨ sf_pos w fd = None)
  ∨ h_fd s' = None ∨ (∃ fd', h_fd s' = Some fd' ∧ h_fd s = Some fd' ∧ fd' ≠ fd
                              ∧ is_Some (sf_pos w fd')) →
  own_fd w w' s s'.
Proof using.
  intros [_ Hp] H1 H2. split.
  - intros fd'. rewrite Hp. destruct (decide (fd' = fd)) as [->|Hne]; [|by left].
    destruct H1 as [?|[?| ->]]; auto.
  - intros fd' Hfd. rewrite Hp. destruct H2 as [(Hs & Ho & H)|[Hs|(fd2 & Hs & H & Hne & Ho)]].
    + rewrite Hs in Hfd. injection Hfd as <-. by rewrite decide_True.
    + congruence.
    + rewrite Hs in Hfd. injection Hfd as <-. rewrite decide_False by done. auto.
Qed.

Lemma own_frame w w' s s' :
  (∀ fd, sf_pos w' fd = sf_pos w fd) → h_fd s' = h_fd s →
  (∀ fd, h_fd s = Some fd → is_Some (sf_pos w fd)) → own_fd w w' s s'.
Proof using.
  intros Hp Hf Ho. split; [auto|]. intros fd Hfd. rewrite Hp. rewrite Hf in Hfd. auto.
Qed.

Lemma step_own w w' st j r s c a s' :
  sf_ok w → fds_inv w st → st j = Some s → ts_sys j w c = (a, w') →
  hstep dev m r s (c, a) s' → good_role w r → well (c, a) → no_seek (c, a) →
  (∀ fd bs, c = Cwrite fd bs → dev = false → sf_pos w fd = Some (size w)) →
  own_fd w w' s s'.
Proof using FL.
  intros Hok Hf Hs Hsys Hstep Hsock (Hrc & _ & Hwh) Hns Hend. cbn in Hrc, Hwh.
  destruct (on_fds c) eqn:Hc.
  2: { apply sf_frame in Hsys as [_ Hp]; [|done]. apply own_frame; [done| |].
       - by inversion Hstep; subst.
       - intros fd Hfd. by eapply fi_open. }
  assert (∀ fd f bs, c = Cwrite fd bs → h_fd s = Some fd → h_fd s' = f → f = Some fd → own_fd w w' s s')
    as Hwrite.
  { intros fd f bs -> Hfd Hf' ->.
    edestruct sf_write as (Hg & p & _ & Hp); [exact Hok|exact Hsys|done|by eauto|].
    split; [|intros fd' Hfd'; rewrite Hf' in Hfd'; injection Hfd' as <-; rewrite Hp, decide_True by done; eauto].
    intros fd'. rewrite Hp. destruct (decide (fd' = fd)) as [->|]; auto. }
  inversion Hstep; subst; try discriminate Hc; try done; try (by eapply Hwrite).
  - apply sf_open in Hsys as (Hm & Hn & Hsk); [|done]. eapply own_moved; [exact Hm|auto|]. left. eauto.
  - apply sf_seek_end in Hsys as Hm; [|done..]. eapply own_moved; [exact Hm|auto|]. left. eauto.
  - apply sf_rewind in Hsys as Hm; [|done..]. eapply own_moved; [exact Hm|auto|]. left. eauto.
  - edestruct sf_read as (p & _ & Hm & _); [exact Hok|exact Hsys|done|done|].
    eapply own_moved; [exact Hm|auto|]. left. eauto.
  - apply sf_close in Hsys as Hm. pose proof (fi_sockets _ _ Hf _ Hsock) as Hnone.
    eapply own_moved; [exact Hm|by auto|]. right. destruct f as [fd'|]; [right|by left].
    destruct (fi_open _ _ Hf _ _ fd' Hs eq_refl) as [x Hx].
    exists fd'. split_and!; [done|done| |by eexists]. intros ->. congruence.
  - apply sf_close in Hsys as Hm. eapply own_moved; [exact Hm|auto|]. auto.
  - by match goal with E : _ ∨ _ |- _ => destruct E as [-> | [n ->]] end.
  - apply sf_open in Hsys as (Hm & Hn & Hsk); [|done]. eapply own_moved; [exact Hm|auto|]. left. eauto.
  - apply sf_seek_end in Hsys as Hm; [|done..]. eapply own_moved; [exact Hm|auto|]. left. eauto.
  - apply sf_close in Hsys as Hm. eapply own_moved; [exact Hm|auto|]. auto.
Qed.

(** The descriptors of the other threads stay where they are. *)
Lemma own_others w w' st j s s' i si fd :
  fds_inv w st → own_fd w w' s s' → st j = Some s → i ≠ j → st i = Some si →
  h_fd si = Some fd → sf_pos w' fd = sf_pos w fd.
Proof using.
  intros Hf [H1 _] Hj Hij Hi Hfd. destruct (H1 fd) as [?|[Hs|[Hn _]]]; [done| |].
  - exfalso. apply Hij. by eapply (fi_distinct _ _ Hf).
  - destruct (fi_open _ _ Hf _ _ _ Hi Hfd) as [x Hx]. congruence.
Qed.

Lemma fds_step w w' st j s c a s' :
  fds_inv w st → st j = Some s → ts_sys j w c = (a, w') → own_fd w w' s s' →
  fds_inv w' (upd st j s').
Proof using FL.
  intros Hf Hs Hsys Hown. pose proof Hown as [H1 H2]. split.
  - intros fd Hsk. apply (sf_sockets (dev := dev) j w c a w') in Hsk; [|done].
    pose proof (fi_sockets _ _ Hf fd Hsk) as Hn. destruct (H1 fd) as [?|[Hfd|[_ ?]]]; [congruence| |done].
    destruct (fi_open _ _ Hf _ _ _ Hs Hfd) as [x Hx]. congruence.
  - intros i si fd Hi Hfd. unfold upd in Hi. destruct (decide (i = j)) as [->|Hij].
    + injection Hi as <-. by apply H2.
    + erewrite own_others; try done. by eapply fi_open.
  - assert (∀ i si fd, i ≠ j → st i = Some si → h_fd si = Some fd → h_fd s' ≠ Some fd) as Hne.
    { intros i si fd Hij Hi Hfd Hfd'. apply H2 in Hfd' as [_ [Hfd'|Hn]].
      - apply Hij. by eapply (fi_distinct _ _ Hf).
      - destruct (fi_open _ _ Hf _ _ _ Hi Hfd) as [x Hx]. congruence. }
    intros i1 i2 s1 s2 fd Hi1 Hi2 Hf1 Hf2. unfold upd in Hi1, Hi2.
    destruct (decide (i1 = j)) as [->|], (decide (i2 = j)) as [->|]; simplify_eq; try done.
    + exfalso. by eapply (Hne i2 s2 fd).
    + exfalso. by eapply (Hne i1 s1 fd).
    + by eapply (fi_distinct _ _ Hf i1 i2).
Qed.

Lemma fds_inv_ext w st st' : (∀ i, st' i = st i) → fds_inv w st → fds_inv w st'.
Proof using.
  intros He [H1 H2 H3]. split; [done| |].
  - intros i s fd Hi. rewrite He in Hi. by apply (H2 i).
  - intros i j si sj fd Hi Hj. rewrite He in Hi, Hj. by apply H3.
Qed.

(** ** Marked descriptors stand at the end *)

Definition marked (evs : list event) (w : ts_world) (st : states) : Prop :=
  dev = false → ∀ i s fd, st i = Some s → h_fd s = Some fd → marks evs i = true →
  sf_pos w fd = Some (size w).

(** A call that does not write. *)
Lemma step_quiet w w' st j r s c a s' :
  sf_ok w → fds_inv w st → st j = Some s → ts_sys j w c = (a, w') →
  hstep dev m r s (c, a) s' → well (c, a) → no_seek (c, a) → texts [(c, a)] = [] →
  sf_get w' = sf_get w.
Proof using FL.
  intros Hok Hf Hs Hsys Hstep (Hrc & _ & _) Hns Ht. cbn in Hrc.
  destruct (on_fds c) eqn:Hc; [|by apply sf_frame in Hsys as [? _]].
  inversion Hstep; subst; try discriminate; try done.
  - by apply sf_open in Hsys as [[? _] _].
  - by apply sf_seek_end in Hsys as [? _].
  - by apply sf_rewind in Hsys as [? _].
  - edestruct sf_read as (p & _ & [? _] & _); [exact Hok|exact Hsys|done|done|done].
  - by apply sf_close in Hsys as [? _].
  - by apply sf_close in Hsys as [? _].
  - by match goal with E : _ ∨ _ |- _ => destruct E as [-> | [n ->]] end.
  - by apply sf_open in Hsys as [[? _] _].
  - by apply sf_seek_end in Hsys as [? _].
  - by apply sf_close in Hsys as [? _].
Qed.

Lemma marked_step evs w w' st j r s c a s' :
  sf_ok w → fds_inv w st → st j = Some s → ts_sys j w c = (a, w') →
  hstep dev m r s (c, a) s' → well (c, a) → no_seek (c, a) → own_fd w w' s s' →
  marked evs w st → marked (evs ++ [(j, (c, a))]) w' (upd st j s').
Proof using FL.
  intros Hok Hf Hs Hsys Hstep Hw Hns Hown Hm Hd i si fd Hi Hfd. rewrite marks_snoc.
  unfold mark. cbn [fst snd]. unfold upd in Hi. destruct (decide (i = j)) as [->|Hij].
  - rewrite decide_True by done. injection Hi as <-. destruct (on_fds c) eqn:Hc.
    + intros Hmk. destruct Hw as [Hrc _].
      inversion Hstep; subst; try discriminate; try (cbn in Hfd; injection Hfd as <-);
        [..|by match goal with E : _ ∨ _ |- _ => destruct E as [-> | [n ->]] end|];
        apply sf_seek_end in Hsys as [Hg Hp]; try done; unfold size; by rewrite Hp, decide_True, Hg.
    + apply sf_frame in Hsys as [Hg Hp]; [|done]. rewrite Hp. unfold size. rewrite Hg.
      intros Hmk. apply (Hm Hd j s); [done| |].
      * by inversion Hstep; subst.
      * by destruct c.
  - rewrite decide_False by congruence. destruct (texts [(c, a)]) as [|t ts] eqn:Ht.
    + intros Hmk. rewrite (own_others w w' st j s s' i si fd) by done. unfold size.
      rewrite (step_quiet w w' st j r s c a s') by done.
      apply (Hm Hd i si); [done|done|]. by destruct c.
    + by destruct c.
Qed.

(** The timer, between going to the end of the file and the append. *)
Definition placed (evs : list event) (st : states) : Prop :=
  ∀ i s, st i = Some s → h_phase s = Placed → marks evs i = true.

Lemma placed_step evs w st j r s c a s' :
  owner_inv m w st → st j = Some s → hstep dev m r s (c, a) s' →
  placed evs st → placed (evs ++ [(j, (c, a))]) (upd st j s').
Proof using.
  clear FL F. intros Hown Hs Hstep Hpl i si Hi Hph. rewrite marks_snoc. unfold mark. cbn [fst snd].
  unfold upd in Hi. destruct (decide (i = j)) as [->|Hij].
  - rewrite decide_True by done. injection Hi as <-.
    inversion Hstep; subst; cbn in Hph; try done; unfold answering in *;
      repeat match type of Hph with (if ?b then _ else _) = _ => destruct b end; try done;
      by destruct ph; destruct_or?.
  - rewrite decide_False by congruence. pose proof (Hpl i si Hi Hph) as Hmk.
    destruct c; try done. exfalso. apply Hij.
    assert (holding s = true) as Hh by (by inversion Hstep; subst).
    apply (Hown j s Hs) in Hh. assert (holding si = true) as Hhi by (unfold holding; by rewrite Hph).
    apply (Hown i si Hi) in Hhi. congruence.
Qed.

(** ** The file and what was sent *)

(** The thread sends nothing any more: a handler that was cancelled and closed its socket,
    or the timer. *)
Definition gone (r : role) (s : hstate) : Prop :=
  match r with Serves _ whole => whole = false ∧ parted s | Ticks => True end.

Lemma gone_step r s e s' : hstep dev m r s e s' → gone r s → gone r s' ∧ sent_bytes [e] = [].
Proof using.
  clear L FL F S. intros H. destruct r as [cfd wh|].
  - unfold gone, parted. intros [-> Hp]. inversion H; subst; cbn in *; try (by destruct Hp);
      try (by destruct ph; destruct Hp); try (by auto). by destruct (decide _); auto.
  - intros _. split; [done|]. inversion H; subst; try done.
    by match goal with E : _ ∨ _ |- _ => destruct E as [-> | [n ->]] end.
Qed.

(** After the events [evs], in which the messages [ms] were appended to [g]: each client
    was sent its answers, but for what it is being sent and, if its handler was cancelled,
    for the rest of them. *)
Record data_inv (g : sf_state) (evs : list event) (w : ts_world) (st : states)
    (ms : list (nat * list Z)) : Prop := {
  di_file : sf_get w = logged g ms;
  di_texts i : select i ms = texts (select i evs);
  di_sent i s : st i = Some s → ∃ lost,
    sent_bytes (select i evs) ++ to_send w s ++ lost = concat (select i (answers g ms))
    ∧ (lost = [] ∨ gone (rl i) s)
}.

Lemma to_send_frame w w' s :
  sf_get w' = sf_get w → (∀ fd, h_fd s = Some fd → sf_pos w' fd = sf_pos w fd) →
  to_send w' s = to_send w s.
Proof using.
  intros Hl Hp. assert (to_read w' s = to_read w s) as Hr.
  { unfold to_read, from. destruct (h_fd s) as [fd|]; [|done]. by rewrite Hl, (Hp fd). }
  unfold to_send. by rewrite Hr, Hl.
Qed.

(** A call that does not write. *)
Lemma data_quiet g evs w st ms w' j s c a s' now :
  data_inv g evs w st ms → fds_inv w st → st j = Some s → own_fd w w' s s' →
  hstep dev m (rl j) s (c, a) s' → sf_get w' = sf_get w → texts [(c, a)] = [] →
  sent_bytes [(c, a)] ++ to_send w' s' ++ now = to_send w s → (now = [] ∨ gone (rl j) s') →
  data_inv g (evs ++ [(j, (c, a))]) w' (upd st j s') ms.
Proof using.
  intros [Hlog Htx Hsent] Hf Hs Hown Hstep Hl Ht Hts Hnow. split.
  - by rewrite Hl.
  - intros i. rewrite Htx, select_snoc, texts_app. destruct (decide (j = i)); [|by rewrite app_nil_r].
    by rewrite Ht, app_nil_r.
  - intros i si Hi. unfold upd in Hi. rewrite select_snoc, sent_bytes_app.
    destruct (decide (i = j)) as [->|Hij].
    + injection Hi as <-. rewrite decide_True by done.
      destruct (Hsent j s Hs) as (lost & <- & Hlost). exists (now ++ lost).
      rewrite <- Hts, <- !app_assoc. split; [done|].
      destruct Hlost as [->|Hg]; [|right; by eapply gone_step]. rewrite app_nil_r. tauto.
    + rewrite decide_False, app_nil_r by congruence.
      destruct (Hsent i si Hi) as (lost & <- & Hlost). exists lost. split; [|done]. do 2 f_equal.
      apply to_send_frame; [done|]. intros fd Hfd. by eapply own_others.
Qed.

(** A write, under the lock: [s] is before it, [s'] after it. *)
Lemma data_write g evs w st ms w' j fd bs a s s' now :
  data_inv g evs w st ms → owner_inv m w st → st j = Some s →
  hstep dev m (rl j) s (Cwrite fd bs, a) s' → sf_get w' = sf_append (sf_get w) bs →
  to_send w' s' ++ now = sf_contents (sf_get w') → (now = [] ∨ gone (rl j) s') →
  data_inv g (evs ++ [(j, (Cwrite fd bs, a))]) w' (upd st j s') (ms ++ [(j, bs)]).
Proof using.
  clear FL. intros [Hlog Htx Hsent] Hown Hs Hstep Hl Hnow Hgone.
  assert (holding s = true ∧ to_send w s = []) as [Hh Hts] by by inversion Hstep; subst.
  split.
  - by rewrite Hl, Hlog, logged_snoc.
  - intros i. rewrite !select_snoc, texts_app, Htx. by destruct (decide (j = i)).
  - intros i si Hi. unfold upd in Hi.
    rewrite answers_snoc, !select_snoc, sent_bytes_app, concat_app.
    destruct (decide (i = j)) as [->|Hij].
    + injection Hi as <-. rewrite !decide_True by done. cbn [sent_bytes app concat].
      destruct (Hsent j s Hs) as (lost & <- & Hlost). rewrite Hts, <- Hlog, <- Hl, <- Hnow, !app_nil_r.
      destruct Hlost as [->|Hg]; [|destruct (rl j) as [cfd wh|]].
      * exists now. by rewrite app_nil_r.
      * destruct Hg as [_ [Hg|Hg]]; inversion Hstep; subst; done.
      * assert (to_send w' s' = []) as -> by by inversion Hstep; subst.
        exists (lost ++ now). split; [by rewrite <- !app_assoc|by right].
    + rewrite !decide_False, !app_nil_r by congruence.
      destruct (Hsent i si Hi) as (lost & <- & Hlost). exists lost. split; [|done]. do 2 f_equal.
      assert (holding si = false) as Hph.
      { destruct (holding si) eqn:Hhi; [|done]. exfalso. apply Hij.
        apply (Hown j _ Hs) in Hh. apply (Hown i si Hi) in Hhi. congruence. }
      unfold holding in Hph. unfold to_send. by destruct (h_phase si).
Qed.

Lemma data_step g evs w st ms w' j s c a s' :
  data_inv g evs w st ms → sf_ok w → owner_inv m w st → fds_inv w st → own_fd w w' s s' →
  st j = Some s → ts_sys j w c = (a, w') → hstep dev m (rl j) s (c, a) s' →
  well (c, a) → no_seek (c, a) →
  (∀ fd bs, c = Cwrite fd bs → dev = false → sf_pos w fd = Some (size w)) →
  ∃ ms', data_inv g (evs ++ [(j, (c, a))]) w' (upd st j s') ms'.
Proof using FL.
  intros Hdata Hok Hown Hf Hofd Hs Hsys Hstep Hw Hns Hend.
  destruct (texts [(c, a)]) as [|t ts] eqn:Ht.
  2: { destruct c; try done. pose proof Hw as (Hrc & _ & Hwh). cbn in Hrc, Hwh.
       edestruct sf_write as (Hg & p & Hp0 & Hp); [exact Hok|exact Hsys|done|by eauto|].
       exists (ms ++ [(j, bs)]). clear Ht. remember (rl j) as r eqn:Hr.
       inversion Hstep; subst.
       - eapply (data_write g evs w st ms w' j fd bs a _ _ []); try done; [|by left].
         rewrite app_nil_r. unfold to_send, answering. cbn [h_phase]. destruct dev; [|done].
         unfold to_read, from. cbn [h_fd]. rewrite Hp, decide_True, Hp0 by done. by rewrite drop_0.
       - by match goal with E : _ ∨ _ |- _ => destruct E as [? | [n ?]] end.
       - eapply (data_write g evs w st ms w' j fd bs a _ _ (sf_contents (sf_get w'))); try done.
         right. by match goal with E : Ticks = rl j |- _ => rewrite <- E end. }
  exists ms. pose proof (step_quiet _ _ _ _ _ _ _ _ _ Hok Hf Hs Hsys Hstep Hw Hns Ht) as Hg.
  destruct Hw as (Hrc & Hev & Hw). cbn in Hrc.
  assert (on_fds c = false → ∀ t, to_read w' t = to_read w t) as Hsame.
  { intros Hc t. apply sf_frame in Hsys as [_ Hp]; [|done]. unfold to_read, from.
    destruct (h_fd t); [|done]. by rewrite Hg, Hp. }
  assert (∃ now, sent_bytes [(c, a)] ++ to_send w' s' ++ now = to_send w s
            ∧ (now = [] ∨ gone (rl j) s')) as (now & Hnow & Hgone); [|by eapply data_quiet].
  clear Hdata. generalize dependent (rl j). intros r Hstep.
  assert (sent_bytes [(c, a)] ++ to_send w' s' = to_send w s →
            ∃ now, sent_bytes [(c, a)] ++ to_send w' s' ++ now = to_send w s
            ∧ (now = [] ∨ gone r s')) as Heq.
  { intros <-. exists []. rewrite app_nil_r. auto. }
  inversion Hstep; subst; try (by apply Heq); try (by apply Heq; destruct (decide _)).
  - apply Heq. unfold to_send, to_read, from. cbn [h_phase h_fd sent_bytes app].
    apply sf_rewind in Hsys as [_ Hp]; [|done..]. rewrite Hp, decide_True, Hg by done.
    change (Z.to_nat 0) with 0%nat. by rewrite drop_0.
  - apply Heq. edestruct sf_read as (p & Hp & [_ Hp'] & Hu & H0); [exact Hok|exact Hsys|done|done|].
    unfold to_send, to_read. cbn [sent_bytes app h_fd h_phase]. rewrite Hp', decide_True, Hp by done.
    unfold from in *. rewrite Hg. destruct (Z.ltb_spec 0 (rc a)); [by rewrite Hu|].
    symmetry. apply H0. lia.
  - apply Heq. cbn in Hev, Hw. rewrite (proj2 (Z.ltb_ge _ 0) Hev). unfold to_send.
    cbn [h_phase sent_bytes]. rewrite Hw, Nat2Z.id, firstn_all, app_nil_r. f_equal. by apply (Hsame eq_refl (HState Reading f)).
  - apply Heq. by match goal with E : _ ∨ _ |- _ => destruct E as [-> | ->] end.
  - destruct (to_send w (HState ph f)) as [|x rest] eqn:Hts.
    + apply Heq. unfold to_send. by destruct ph.
    + exists (x :: rest). split; [unfold to_send; by destruct ph|]. right.
      destruct ph, wh; try done; by (split; [done|left]).
  - apply Heq. by match goal with E : _ ∨ _ |- _ => destruct E as [-> | ->] end.
  - apply Heq. by match goal with E : _ ∨ _ |- _ => destruct E as [-> | [n ->]] end.
  - apply Heq. by match goal with E : _ ∨ _ |- _ => destruct E as [-> | ->] end.
  - apply Heq. by match goal with E : _ ∨ _ ∨ _ |- _ => destruct E as [->|[->| ->]]; destruct (decide _) end.
Qed.

Lemma data_inv_ext g evs w st st' ms :
  (∀ i, st' i = st i) → data_inv g evs w st ms → data_inv g evs w st' ms.
Proof using.
  intros He [H1 H2 H3]. split; [done|done|]. intros i s Hi. rewrite He in Hi. by apply H3.
Qed.

(** ** Executions *)

Lemma exec_ok w0 evs w :
  exec w0 evs w → sf_ok w0 → sf_ok w ∧ ∀ fd, sf_socket w fd ↔ sf_socket w0 fd.
Proof using FL.
  intros H Hok. induction H as [|evs w1 j c a w2 H [IH1 IH2] Hen Hsys]; [done|].
  split; [by eapply sf_keeps|]. intros fd. rewrite <- IH2. by eapply (sf_sockets (dev := dev)).
Qed.

(** The descriptors, the file, and what was sent. *)
Record exec_inv (w0 : ts_world) (evs : list event) (w : ts_world) : Prop := {
  ei_fds : fds_inv w (after_events evs);
  ei_marked : marked evs w (after_events evs);
  ei_placed : placed evs (after_events evs);
  ei_data : ∃ ms, data_inv (sf_get w0) evs w (after_events evs) ms
}.

Lemma exec_inv_start w0 :
  (∀ fd, sf_socket w0 fd → sf_pos w0 fd = None) → exec_inv w0 [] w0.
Proof using.
  clear FL. intros Hsock. assert (∀ i s, after_events [] i = Some s → s = hstart) as Hstart
    by (intros i s; apply states_start).
  split.
  - split; [done| |].
    + intros i s fd Hi Hf. by apply Hstart in Hi as ->.
    + intros i k si sk fd Hi Hk Hf. by apply Hstart in Hi as ->.
  - intros _ i s fd Hi Hfd. by apply Hstart in Hi as ->.
  - intros i s Hi Hph. by apply Hstart in Hi as ->.
  - exists []. split; [done|done|]. intros i s Hi. apply Hstart in Hi as ->.
    exists []. split; [done|by left].
Qed.

Lemma exec_data w0 evs w :
  exec w0 evs w → sf_ok w0 → ts_owner w0 m = None →
  (∀ fd, sf_socket w0 fd → sf_pos w0 fd = None) →
  (∀ i, is_Some (after_events evs i)) →
  Forall (λ e : event, good_role w0 (rl e.1) ∧ well e.2 ∧ no_seek e.2) evs →
  (dev = false → undisturbed rl evs) → exec_inv w0 evs w.
Proof using L FL.
  intros H Hok Hm Hsock. induction H as [|evs w1 j c a w2 H IH Hen Hsys]; intros Hst Hall Hund;
    [by apply exec_inv_start|].
  assert (∀ i, is_Some (after_events evs i)) as Hst1 by (intros i; by eapply states_prefix).
  apply Forall_app in Hall as [Hall Hlast]. apply Forall_cons in Hlast as [(Hs1 & Hw & Hn) _].
  destruct (IH Hst1 Hall (λ Hd, undisturbed_app _ _ _ (Hund Hd))) as [Hf Hmk Hpl (ms & Hd)].
  destruct (states_snoc dev rl m evs j (c, a) (Hst j)) as (s & s' & Hs & Hstep & Heq).
  destruct (exec_ok _ _ _ H Hok) as [Hok1 Hstr]. cbn in Hs1, Hw, Hn.
  assert (good_role w1 (rl j)) as Hs2 by (destruct (rl j); [by apply Hstr|done]).
  pose proof (exec_owner dev rl m _ _ _ H Hm Hst1) as Hown.
  assert (∀ fd bs, c = Cwrite fd bs → dev = false → sf_pos w1 fd = Some (size w1)) as Hend.
  { intros fd bs -> Hdev. assert (h_fd s = Some fd ∧ (rl j ≠ Ticks ∨ h_phase s = Placed)) as [Hfd Hor].
    { remember (rl j) as r. inversion Hstep; subst; try (by split; [|left]); [|by split; [|right]].
      by match goal with E : _ ∨ _ |- _ => destruct E as [? | [n ?]] end. }
    apply (Hmk Hdev j s); [done|done|]. destruct Hor as [Hr|Hph]; [|by eapply Hpl].
    by eapply (Hund Hdev). }
  pose proof (step_own _ _ _ _ _ _ _ _ _ Hok1 Hf Hs Hsys Hstep Hs2 Hw Hn Hend) as Hofd.
  split.
  - apply (fds_inv_ext _ _ _ Heq). by eapply fds_step.
  - pose proof (marked_step evs _ _ _ _ _ _ _ _ _ Hok1 Hf Hs Hsys Hstep Hw Hn Hofd Hmk) as Hmk'.
    intros Hdev i si fd Hi. rewrite Heq in Hi. by apply (Hmk' Hdev i si fd).
  - pose proof (placed_step evs w1 _ _ _ _ _ _ _ Hown Hs Hstep Hpl) as Hpl'.
    intros i si Hi. rewrite Heq in Hi. by apply (Hpl' i si).
  - destruct (data_step (sf_get w0) evs w1 (after_events evs) ms w2 j s c a s')
      as [ms' Hd']; try done. exists ms'. by apply (data_inv_ext _ _ _ _ _ _ Heq).
Qed.

End Concurrent.
