(* ===== verification/Serial.v ===== *)
(** * What the clients see

    The handlers of the clients, the timer, their messages and the data file put
    together, for both builds: whatever the interleaving, at every moment there is one
    order of all messages that explains the file and what every client was sent; and a
    client that is served alone gets, for each of its lines, the file with that line
    appended. *)

From Stdlib Require Import String.
From S2P Require Import Prelude Memory Kernel AesdIoctl CString Posix SimOS DataFile SList.
From S2P Require Import Server Runs ServerSpec ServerRefine ServerProps Cut Timer Protocol Interleave.
From S2P Require Import Concurrent.

(** All messages of a client are text. *)
Definition sends_text (dev : bool) (th : thread) : Prop :=
  match th with Client _ chunks => plain_texts dev (frames [] chunks) | TimerThread => True end.

(** The messages of a run whose calls succeed are the frames of the chunks. *)
Lemma appends_texts {O : OS} dev msgs evs :
  Forall2 (appends dev) msgs (file_writes evs) → plain_texts dev msgs →
  texts evs = msgs ∧ Forall no_seek evs.
Proof.
  revert msgs. induction evs as [|[c a] evs IH]; intros msgs H Ht.
  - apply Forall2_nil_inv_r in H as ->. split; [done|constructor].
  - assert (file_writes ((c, a) :: evs) = file_writes evs →
      texts ((c, a) :: evs) = texts evs → no_seek (c, a) →
      texts ((c, a) :: evs) = msgs ∧ Forall no_seek ((c, a) :: evs)) as Hskip.
    { intros Hf Hx Hn. rewrite Hf in H. destruct (IH msgs H Ht) as [H1 H2].
      split; [by rewrite Hx|by constructor]. }
    assert (∀ msg msgs', plain_texts dev (msg :: msgs') →
      (dev = false ∨ contains match_cmd msg = false) ∧ plain_texts dev msgs') as Hcons.
    { intros msg msgs' [?|Hp]; [split; by left|]. apply Forall_cons in Hp as [? ?].
      split; by right. }
    destruct c; try (by apply Hskip); cbn [file_writes] in H;
      apply Forall2_cons_inv_r in H as (msg & msgs' & Hm & H & ->);
      apply Hcons in Ht as [Hmt Ht]; destruct (text_append dev msg _ Hm Hmt) as [fd' [=]]; subst.
    destruct (IH msgs' H Ht) as [H1 H2]. split; [cbn; by rewrite H1|by constructor].
Qed.

Lemma closing_texts c fd evs : closing c fd evs → texts evs = [] ∧ Forall no_seek evs.
Proof.
  intros (a & b & e & ->). destruct (0 <? fd); cbn; (split; [done|]); repeat constructor.
Qed.

Lemma closing_upto_texts c fd evs more :
  closing c fd (evs ++ more) → texts evs = [] ∧ Forall no_seek evs.
Proof.
  intros [Ht Hn]%closing_texts. rewrite texts_app in Ht. apply app_eq_nil in Ht as [Ht _].
  by apply Forall_app in Hn as [Hn _].
Qed.

(** The messages a handler appended: the first ones of its client, and all of them if it is
    not cancelled and nothing fails. *)
Lemma handler_texts dev cfd m chunks whole evs :
  handler_calls dev cfd m chunks whole evs → plain_texts dev (frames [] chunks) →
  texts evs `prefix_of` frames [] chunks ∧ Forall no_seek evs
  ∧ (whole = true → Forall proceeds evs → texts evs = frames [] chunks).
Proof.
  intros (O & c & e1 & rest & e2 & more & complete & _ & _ & -> & Hs & Hcl & _ & Hwh) Htext.
  apply session_serves in Hs as [Hs Hc]. apply serves_upto in Hs as (_ & msgs & mr & Hfr & Hf & Hall).
  destruct (file_events_reads (e1 ++ rest)) as (H1 & _). rewrite H1 in Hf.
  assert (plain_texts dev msgs) as Hp.
  { destruct Htext as [|Hp]; [by left|right]. rewrite Hfr in Hp. by apply Forall_app in Hp as [Hp _]. }
  destruct (appends_texts _ _ _ Hf Hp) as [H2 H3]. destruct (closing_upto_texts _ _ _ _ Hcl) as [H4 H5].
  apply Forall_app in H3 as [H3 _]. rewrite texts_app in H2 |- *. rewrite H4, app_nil_r.
  split_and!.
  - rewrite Hfr, <- H2, <- app_assoc. by apply prefix_app_r.
  - by apply Forall_app.
  - intros Hw Hok. destruct (Hwh Hw) as [-> ->]. apply Forall_app in Hok as [Hok _].
    rewrite app_nil_r in Hc. destruct (Hall (Hc Hok)) as [-> _]. rewrite Hfr, <- H2. cbn.
    by rewrite !app_nil_r.
Qed.

Lemma timer_texts evs :
  timer_calls evs → (texts evs = [] ∨ ∃ row, is_text row ∧ texts evs = [row]) ∧ Forall no_seek evs.
Proof.
  assert (∀ fd h e, texts (timer_closes fd h ++ [(Cmutex_unlock the_mutex, e)]) = []
            ∧ Forall no_seek (timer_closes fd h ++ [(Cmutex_unlock the_mutex, e)])) as Hclose.
  { intros fd h e. unfold timer_closes. destruct (0 <? fd); cbn; (split; [done|]); repeat constructor. }
  destruct 1 as [a Ha|a b e Ha Hb|a b d f g h e Ha Hb Hg|a b d f g msg r h e Ha Hb Hg Hm].
  - split; [by left|]. repeat constructor.
  - split; [by left|]. repeat constructor.
  - destruct (Hclose (rc f) h e) as [H1 H2]. cbn. split; [by left|]. by repeat constructor.
  - destruct (Hclose (rc f) h e) as [H1 H2]. cbn. rewrite H1.
    split; [right; by exists msg|]. by repeat constructor.
Qed.

(** The messages of a thread up to some point. *)
Definition said (th : thread) (msgs : list (list Z)) : Prop :=
  match th with
  | Client _ chunks => msgs `prefix_of` frames [] chunks
  | TimerThread => msgs = [] ∨ ∃ row, is_text row ∧ msgs = [row]
  end.

Lemma said_upto th msgs more : said th (msgs ++ more) → said th msgs.
Proof.
  destruct th as [fd chunks|]; cbn.
  - intros H. etrans; [|exact H]. by apply prefix_app_r.
  - intros [H|(row & Hr & H)]; [left; by apply app_eq_nil in H as [H _]|].
    destruct msgs as [|x msgs]; [by left|]. right. injection H as -> H.
    apply app_eq_nil in H as [-> _]. by exists row.
Qed.

Lemma thread_texts dev x0 y0 m th whole evs :
  thread_run dev x0 y0 m th whole evs → sends_text dev th →
  said th (texts evs) ∧ Forall no_seek evs.
Proof.
  destruct th as [fd chunks|]; cbn.
  - intros H%client_run_calls Ht. destruct (handler_texts _ _ _ _ _ _ H Ht) as (H1 & H2 & _). done.
  - intros (_ & _ & H) _. by eapply timer_texts, timer_run_calls.
Qed.

(** ** A thread alone disturbs nobody *)

(** Every write of one thread comes after it went to the end of the file; [b]: the
    mark before the calls. *)
Fixpoint settled (b : bool) (evs : list (call * answer)) : Prop :=
  match evs with
  | [] => True
  | (c, a) :: evs =>
      match c with Cwrite _ _ => b = true | _ => True end ∧ settled (own_mark b c) evs
  end.

Fixpoint mark_after (b : bool) (evs : list (call * answer)) : bool :=
  match evs with [] => b | (c, a) :: evs => mark_after (own_mark b c) evs end.

Lemma settled_app b l k : settled b (l ++ k) ↔ settled b l ∧ settled (mark_after b l) k.
Proof. revert b. induction l as [|[c a] l IH]; intros b; cbn; [tauto|]. rewrite IH. tauto. Qed.

Lemma no_write_settled b evs : texts evs = [] → settled b evs.
Proof.
  revert b. induction evs as [|[c a] evs IH]; intros b H; [done|].
  destruct c; cbn; split; try done; by apply IH.
Qed.

Lemma settled_undisturbed rl i evs : settled false evs → undisturbed rl (tag i evs).
Proof.
  intros H e1 j fd bs a e2 E _.
  assert (∀ b l k, settled b (l ++ k) → ∀ f x a' k', k = (Cwrite f x, a') :: k' →
            foldl (mark i) b (tag i l) = true) as Hgen.
  { clear. intros b l k. revert b. induction l as [|[c a] l IH]; intros b H f x a' k' ->.
    - by destruct H.
    - destruct H as [_ H]. cbn. unfold mark at 2. cbn [fst snd]. rewrite decide_True by done.
      by eapply IH. }
  unfold tag in E. apply fmap_app_inv in E as (l & k & -> & Hk & ->).
  symmetry in Hk. apply fmap_cons_inv in Hk as ([c2 a2] & k' & [= -> <- <-] & -> & ->).
  by eapply Hgen.
Qed.

Section Session.
Context {O : OS}.

Lemma reply_texts dfd cfd evs complete : reply dfd cfd evs complete → texts evs = [].
Proof. by induction 1. Qed.

Lemma opened_settled dev b a e evs :
  dev = false → settled b (opened dev a e ++ evs) ↔ settled true evs.
Proof. intros ->. cbn. tauto. Qed.

Lemma exchange_settled dev dfd cfd m msg evs complete :
  exchange dev dfd cfd m msg evs complete → settled true evs.
Proof.
  assert (∀ c d l, message_call dev dfd msg c → texts l = [] → settled true ((c, d) :: l)) as Hm.
  { intros c d l [[_ ->]|(_ & x & y & _ & _ & _ & ->)] Hl; cbn; auto using no_write_settled. }
  assert (∀ f, texts (seek_events dev dfd SEEK_SET f) = []) as Hseek
    by (intros f; unfold seek_events; by destruct dev).
  destruct 1 as [b Hb|b c d f evs Hb Hc Hr|b c d f evs e Hb Hc Hr He]; [done| |];
    apply reply_texts in Hr; (split; [done|]); apply Hm; try done;
    rewrite !texts_app, Hseek, Hr; done.
Qed.

Lemma session_settled dev cfd m pending chunks evs complete b :
  dev = false → session dev cfd m pending chunks evs complete → settled b evs.
Proof.
  intros Hd H. revert b. induction H as [pending a Ha|pending chunk chunks a e Hb
    |pending chunk chunks a e evs complete Hb Hs H IH
    |pending chunk chunks l r a e evs Hb Hs Hx
    |pending chunk chunks l r a e evs rest complete Hb Hs Hx H IH]; intros b;
    [done|split; [done|]..].
  - rewrite <- (app_nil_r (opened _ _ _)). by apply opened_settled.
  - by apply opened_settled.
  - apply opened_settled; [done|]. by eapply exchange_settled.
  - apply opened_settled; [done|]. apply settled_app. split; [by eapply exchange_settled|done].
Qed.

End Session.

Lemma handler_settled dev cfd m chunks whole evs :
  dev = false → handler_calls dev cfd m chunks whole evs → settled false evs.
Proof.
  intros Hd (O & c & e1 & rest & e2 & more & complete & _ & _ & -> & Hs & Hcl & _).
  apply (session_settled _ _ _ _ _ _ _ false Hd), settled_app in Hs as [Hs _].
  apply settled_app. split; [done|]. apply no_write_settled. by eapply closing_upto_texts.
Qed.

(** ** Many threads *)

Section Serial.
Variable dev : bool.
Context {S : System} {L : SystemLaws S} {F : SharedFile S} {FL : SharedFileLaws dev F}.
Variables x0 y0 : Z.

(** A system on which the server can start: the invariant holds, nobody has the lock,
    and the sockets of the clients are sockets, not descriptors of the file. *)
Record ready (m : Z) (threads : list thread) (w : ts_world) : Prop := {
  rd_ok : sf_ok w;
  rd_free : ts_owner w m = None;
  rd_sockets fd : sf_socket w fd → sf_pos w fd = None;
  rd_clients : Forall (λ th, match th with Client fd _ => sf_socket w fd | TimerThread => True end)
                 threads
}.

Lemma serving_texts m threads whole evs i th :
  serving dev x0 y0 m threads whole evs → Forall (sends_text dev) threads →
  threads !! i = Some th → said th (texts (select i evs)) ∧ Forall no_seek (select i evs).
Proof using.
  clear. intros Hs Ht Hi. specialize (Hs i). rewrite Hi in Hs. destruct Hs as [rest Hs].
  apply thread_texts in Hs as [Hsaid Hns]; [|by eapply (Forall_lookup_1 (sends_text dev))].
  rewrite texts_app in Hsaid. split; [by eapply said_upto|]. by apply Forall_app in Hns as [Hns _].
Qed.

Lemma serving_events m threads whole evs w :
  serving dev x0 y0 m threads whole evs → Forall (sends_text dev) threads → ready m threads w →
  Forall (λ e : event, well e.2) evs →
  Forall (λ e : event, good_role w (role_of threads whole e.1) ∧ well e.2 ∧ no_seek e.2) evs.
Proof using.
  intros Hs Ht [_ _ _ Hcl] Hw.
  apply (Forall_select (λ i e, good_role w (role_of threads whole i) ∧ well e ∧ no_seek e)).
  intros i. pose proof (select_Forall _ i _ Hw) as Hwi. pose proof (Hs i) as Hsi. unfold role_of.
  destruct (threads !! i) as [th|] eqn:Hi; [|by rewrite Hsi].
  destruct (serving_texts _ _ _ _ _ _ Hs Ht Hi) as [_ Hn].
  pose proof (Forall_lookup_1 _ _ _ _ Hcl Hi) as Hsk.
  rewrite Forall_forall in Hwi, Hn |- *. intros e He. split_and!; [|by apply Hwi|by apply Hn].
  by destruct th.
Qed.

(** The handler [i] of a client ran to its end and was not cancelled. *)
Definition finished (m : Z) (threads : list thread) (whole : nat → bool) (evs : list event)
    (i : nat) (chunks : list (list Z)) : Prop :=
  whole i = true ∧ ∃ fd, threads !! i = Some (Client fd chunks)
    ∧ client_run dev x0 y0 fd m chunks true (select i evs).

Lemma serial_log m threads whole w0 evs w
    (Hready : ready m threads w0) (Hexec : exec w0 evs w)
    (Hserving : serving dev x0 y0 m threads whole evs) (Htext : Forall (sends_text dev) threads)
    (Hwell : Forall (λ e : event, well e.2) evs)
    (Hund : dev = false → undisturbed (role_of threads whole) evs) :
  ∃ ms, sf_get w = logged (sf_get w0) ms
    ∧ (∀ i, match threads !! i with Some th => said th (select i ms) | None => select i ms = [] end)
    ∧ (∀ i, sent_bytes (select i evs) `prefix_of` concat (select i (answers (sf_get w0) ms)))
    ∧ ∀ i chunks, finished m threads whole evs i chunks → select i ms = frames [] chunks
        ∧ sent_bytes (select i evs) = concat (select i (answers (sf_get w0) ms)).
Proof using L FL.
  pose proof (serving_events _ _ _ _ _ Hserving Htext Hready Hwell) as Hall.
  destruct (exec_data dev (role_of threads whole) m w0 evs w Hexec (rd_ok _ _ _ Hready)
    (rd_free _ _ _ Hready) (rd_sockets _ _ _ Hready)
    (λ i, serving_states _ _ _ _ _ _ _ i Hserving) Hall Hund) as [_ _ _ (ms & [Hlog Htx Hsent])].
  exists ms. split_and!; [done|intros i..|].
  - pose proof (Hserving i) as Hi. destruct (threads !! i) as [th|] eqn:Ei; [|by rewrite Htx, Hi].
    rewrite Htx. by eapply serving_texts.
  - destruct (serving_states _ _ _ _ _ _ _ i Hserving) as [st Hst].
    destruct (Hsent i st Hst) as (lost & <- & _). by apply prefix_app_r.
  - intros i chunks (Hw & fd & Hi & Hrun). apply client_run_calls in Hrun as Hc. split.
    + rewrite Htx. apply (handler_texts _ _ _ _ _ _ Hc); [|done|].
      * exact (Forall_lookup_1 (sends_text dev) _ _ _ Htext Hi).
      * eapply Forall_impl; [exact (select_Forall _ i _ Hwell)|]. by intros e (_ & H & _).
    + assert (role_of threads whole i = Serves fd true) as Hr by (unfold role_of; by rewrite Hi, Hw).
      apply handler_calls_run in Hc as (st & Hst & Hrest).
      destruct (Hsent i st) as (lost & <- & Hlost); [unfold states_after; by rewrite Hr|].
      rewrite Hr in Hlost. destruct Hlost as [->|[[=] _]].
      assert (to_send w st = []) as ->; [|by rewrite app_nil_r].
      unfold to_send. destruct (Hrest eq_refl) as [->|[->|[-> | ->]]]; done.
Qed.

(** C1: the whole system, in both builds: any number of clients at once, with the timer
    where the build has it.  At every moment of every interleaving of the handlers and the
    timer, some of them cancelled, in which every call did what it was asked to (no call
    failed, writes and sends were complete) and the messages are text, there is one order of the messages appended so far such that the data file
    holds what these messages make of it when they are appended one after the other; the
    messages of a client are its first ones, in the order it sent them, and those of the
    timer its row; and each client was sent nothing but, after each of its messages, the
    contents of the file right after that message.  A client whose handler ran to its end
    has all its messages in the file and was sent all these answers.  With an ordinary
    file this needs that no message is written between the moment a handler went to the
    end of the file and the moment it writes; with the device nothing is needed. *)
Theorem clients_share_serial_log m threads whole w0 evs w
    (Hready : ready m threads w0) (Hexec : exec w0 evs w)
    (Hserving : serving dev x0 y0 m threads whole evs) (Htext : Forall (sends_text dev) threads)
    (Hwell : Forall (λ e : event, well e.2) evs)
    (Hund : dev = false → undisturbed (role_of threads whole) evs) :
  ∃ ms, sf_get w = logged (sf_get w0) ms
    ∧ (∀ i, match threads !! i with Some th => said th (select i ms) | None => select i ms = [] end)
    ∧ (∀ i, sent_bytes (select i evs) `prefix_of` concat (select i (answers (sf_get w0) ms)))
    ∧ ∀ i chunks, finished m threads whole evs i chunks → select i ms = frames [] chunks
        ∧ sent_bytes (select i evs) = concat (select i (answers (sf_get w0) ms)).
Proof using L FL. by apply (serial_log m threads whole w0 evs w). Qed.

(** ** One client *)

(** What one client is sent for its messages, on a file that holds [g]. *)
Fixpoint replies (g : sf_state) (msgs : list (list Z)) : list (list Z) :=
  match msgs with
  | [] => []
  | msg :: msgs => sf_contents (sf_append g msg) :: replies (sf_append g msg) msgs
  end.

Lemma answers_one g msgs :
  select 0 (answers g ((λ e, (0%nat, e)) <$> msgs)) = replies g msgs.
Proof using.
  revert g. induction msgs as [|msg msgs IH]; intros g; cbn; [done|].
  by rewrite IH.
Qed.

Lemma logged_one g msgs : logged g ((λ e, (0%nat, e)) <$> msgs) = foldl sf_append g msgs.
Proof using.
  unfold logged. rewrite <- list_fmap_compose. change (snd ∘ _) with (@id (list Z)).
  by rewrite list_fmap_id.
Qed.

(** The handler of a client on the system [O], which is [S] for a thread alone. *)
Lemma alone_is_served {O : OS} {OL : OSLaws O} {N : Uncancelled O} (view : @world O → ts_world) (s : pstate server)
    args p c
    (Hview : ∀ w c a w', sys w c = (a, w') → ts_sys 0 (view w) c = (a, view w'))
    (Halloc : allocs_succeed O) (Hready : conn_ready s args p c) (Hfd : data_fd c = 0)
    (Hchunks : chunks_ok dev (incoming (p_world s) (client_fd c)))
    (Hfree : ∀ m, ts_owner (view (p_world s)) m = None)
    (Hrd : ready (mutex c) [Client (client_fd c) (incoming (p_world s) (client_fd c))]
             (view (p_world s)))
    (Htext : plain_texts dev (frames [] (incoming (p_world s) (client_fd c)))) :
  returns (connnection_handler dev x0 y0 args) s (λ _ s', ∃ evs,
    p_trace s' = p_trace s ++ evs
    ∧ (Forall well evs →
       let msgs := frames [] (incoming (p_world s) (client_fd c)) in
       sf_get (view (p_world s')) = foldl sf_append (sf_get (view (p_world s))) msgs
       ∧ sent_bytes evs = concat (replies (sf_get (view (p_world s))) msgs))).
Proof using L FL.
  destruct (connnection_handler_spec dev x0 y0 s args p c Halloc Hready Hchunks)
    as (r & s' & Hrun & Hpost).
  exists r, s'. split; [done|].
  destruct (traced_handler _ _ _ _ _ _ _ Hrun) as (evs & Ht & Hruns). exists evs.
  split; [done|]. intros Hwell msgs.
  destruct (runs_exec view 0 Hview (p_world s) evs (p_world s')) as [Hexec _]; [|done|].
  { intros mx j Hj. by rewrite Hfree in Hj. }
  set (chunks := incoming (p_world s) (client_fd c)) in *.
  assert (client_run dev x0 y0 (client_fd c) (mutex c) chunks true evs) as Hcr
    by (exists O, OL, s, s', args, p, c, (Returned r); done).
  destruct (serial_log (mutex c) [Client (client_fd c) chunks] (λ _, true) (view (p_world s))
    (tag 0 evs) (view (p_world s'))) as (ms & Hlog & Hsaid & _ & Hfin); try done.
  - unfold tag. intros [|i]; cbn; [|by rewrite select_other]. exists []. by rewrite select_all, app_nil_r.
  - by apply Forall_singleton.
  - by apply Forall_fmap.
  - intros Hd. apply settled_undisturbed. eapply handler_settled; [done|]. by eapply client_run_calls.
  - destruct (Hfin 0%nat chunks) as [Hone Hms].
    { split; [done|]. exists (client_fd c). split; [done|]. unfold tag. by rewrite select_all. }
    unfold tag in Hms. rewrite select_all in Hms.
    rewrite (select_one ms) in Hlog, Hms by (intros [|i]; [done|]; intros _; apply (Hsaid (Datatypes.S i))).
    by rewrite Hone, logged_one, answers_one in *.
Qed.

End Serial.

(** ** A thread on a concrete system *)

(** The thread of a client at the socket [fd], on the system [w]. *)
Definition thread_conn (fd : Z) : aesdsocketclientconn := Conn 0 fd 32 1 BUFFER_SIZE 24.

Definition thread_server (fd : Z) : server :=
  Server 3 0 0 (SL 0 ∅) ∅ {[ 40 := thread_conn fd ]} {[ 24 := 16 ]}.

Definition thread_start {O : OS} (fd : Z) (w : world) : pstate server :=
  PState conn_heap w [] (thread_server fd).

Lemma thread_ready {O : OS} fd w :
  owns w 1 = false → conn_ready (thread_start fd w) 40 16 (thread_conn fd).
Proof.
  intros H. split; try done. split; [done|]. by exists (Block 128 (replicate 128 7)).
Qed.

(** Its calls, and whether it is not cancelled. *)
Definition thread_trace {O : OS} (dev : bool) (fd : Z) (w : world)
    : list (call * answer) * bool :=
  match connnection_handler dev 0 0 40 (thread_start fd w) with
  | Ok (o, s') => (p_trace s', if o is Cancelled then false else true)
  | Err _ => ([], true)
  end.

Lemma chunks_text {O : OS} dev (chunks : list (list Z)) :
  Forall (λ ch, 0 < Z.of_nat (length ch) ≤ BUFFER_SIZE) chunks →
  Z.of_nat (length (concat chunks)) < 2 ^ 31 →
  Forall (λ msg, contains match_cmd msg = false) (frames [] chunks) →
  chunks_ok dev chunks.
Proof. intros H1 H2 H3. split; [done|done|]. eapply Forall_impl; [exact H3|]. by right; left. Qed.

(** They are a run of the handler. *)
Lemma thread_client_run {O : OS} {L : OSLaws O} dev fd w chunks evs whole :
  allocs_succeed O → incoming w fd = chunks → owns w 1 = false → chunks_ok dev chunks →
  thread_trace dev fd w = (evs, whole) → client_run dev 0 0 fd 1 chunks whole evs.
Proof.
  intros Ha Hc Ho Hch Ht. pose proof (thread_ready fd w Ho) as Hr. rewrite <- Hc in Hch.
  destruct (connnection_handler_runs dev 0 0 (thread_start fd w) 40 16 (thread_conn fd) Ha Hr Hch)
    as (o & s' & Hrun & _). unfold thread_trace in Ht. rewrite Hrun in Ht. injection Ht as <- <-.
  exists O, L, (thread_start fd w), s', 40, 16, (thread_conn fd), o.
  split_and!; try done. by rewrite <- Hc.
Qed.

(** A thread of the timer on the system [w]. *)
Definition timer_trace {O : OS} (ts0 : list Z) (w : world) : list (call * answer) :=
  match timer_action false 0 0 ts0 (timer_process O w) with Ok (_, s') => p_trace s' | Err _ => [] end.

Lemma timer_trace_run {O : OS} {L : OSLaws O} {N : Uncancelled O} ts0 w evs :
  length ts0 = 120%nat → strftime_fits O → owns w the_mutex = false →
  timer_trace ts0 w = evs → timer_run 0 0 evs.
Proof.
  intros Hts Hf Ho Ht.
  destruct (timer_action_spec 0 0 ts0 (timer_process O w) Hts Hf Ho) as (u & s' & Hrun & _).
  unfold timer_trace in Ht. rewrite Hrun in Ht.
  by exists O, L, N, (timer_process O w), s', ts0, (Returned u).
Qed.
