(* ===== verification/EndToEnd.v ===== *)
(** * The server on the device

    What the clients of the server see, when its data file is the char device: the
    system of [Device] is a [System], its device a [SharedFile], and the theorems of
    [Serial] apply. *)

From Stdlib Require Import String.
From S2P Require Import Prelude CircularBuffer Memory Kernel AesdIoctl CharDriver DriverSpec.
From S2P Require Import DriverRefine DriverProps CString Posix SimOS DataFile SList.
From S2P Require Import Server Runs Device ServerSpec ServerRefine ServerProps Timer Protocol Interleave.
From S2P Require Import Concurrent Serial.

(** ** Lines that fit the server's buffer *)

Section Fitting.
Context {K : Kernel} {KL : KernelLaws K} {U : UserMemory K} {UL : UserLaws K}.
Variable default : call → answer.

Definition fits_readbuf (l : list Z) : Prop := Z.of_nat (length l) ≤ readbuf_size.

(** Every line of the log fits, and no line is begun. *)
Definition log_fits (l : log) : Prop := Forall fits_readbuf (lines l) ∧ partial l = [].

(** What the server does with the device when the messages are [msgs]. *)
Definition call_fits (msgs : list (list Z)) (e : call * answer) : Prop :=
  match e.1 with
  | Cread _ n => n = readbuf_size
  | Cwrite _ bs => bs ∈ msgs
  | _ => True
  end.

Lemma rest_of_line_fits n ls p :
  Forall line ls → Forall (λ l, Z.of_nat (length l) ≤ n) ls →
  0 ≤ n → Z.of_nat (length (upto_nl (drop p (concat ls)))) ≤ n.
Proof using.
  intros Hl Hf Hn. revert p. induction ls as [|l ls IH]; intros p.
  - cbn. by rewrite drop_nil.
  - apply Forall_cons in Hl as [Hl Hls], Hf as [Hf Hfs]. cbn [concat].
    destruct (decide (p < length l)%nat) as [Hp|Hp].
    + rewrite drop_app_le by lia. rewrite upto_nl_line_suffix by done.
      rewrite length_drop. lia.
    + rewrite drop_app_ge by lia. by apply IH.
Qed.

Lemma log_write_fits l bs :
  log_fits l → NEWLINE ∈ bs → fits_readbuf bs → log_fits (log_write l bs).
Proof using.
  intros [Hl Hp] Hn Hb. unfold log_write. rewrite decide_True, Hp by done. split; [|done].
  cbn [lines]. unfold push. apply Forall_app. split.
  { destruct (decide _); [done|]. by destruct Hl. }
  apply Forall_singleton. unfold fits_readbuf in *. cbn [app].
  pose proof (upto_nl_length bs). lia.
Qed.

(** A write keeps the log or appends its bytes to it. *)
Lemma write_op_log bs pos k rv fp k' :
  drv_inv k → bs ≠ [] → write_op bs pos k = Ok (rv, fp, k') →
  log_of k' = log_of k ∨ log_of k' = log_write (log_of k) bs.
Proof using KL UL.
  intros Hinv Hne H. unfold write_op in H; cbn [fop_write aesd_fops] in H.
  apply call_write in H; [|destruct bs; cbn; [done|lia]].
  apply drv_call_inv in H as [_ H]; [|done]. cbn [k_user with_user] in H. rewrite copy_in in H.
  destruct (0 <=? rv); [by right|by left].
Qed.

(** No read of a line that fits runs past the buffer. *)
Lemma read_in_buffer fd n w a w' :
  0 ≤ n → dev_ok w → Forall (λ l, Z.of_nat (length l) ≤ n) (lines (dw_log w)) →
  device_read fd n w = (a, w') → dw_overrun w' = dw_overrun w ∧ dw_log w' = dw_log w.
Proof using KL UL.
  intros Hn (Hinv & Hlen & Hpos) Hf H.
  apply device_read_cases in H as [[H _]|(a1 & w1 & H & Ha & _ & ->)].
  - apply device_call_cases in H as [[-> _]|(pos & rv & fp & k & _ & Hop & _ & -> & _)]; [done|].
    split; [done|]. by eapply (read_op_log _ pos (dw_dev w)).
  - exfalso. apply device_call_success in H as (pos & fp & k & Hp & Hop & _ & -> & _); [|lia].
    unfold read_op in Hop; cbn [fop_read aesd_fops] in Hop.
    apply read_success in Hop as Hres; [|done|apply (map_Forall_lookup_1 _ _ _ _ Hpos Hp)
      |change (log_of _) with (dw_log w); lia|lia].
    unfold read_result in Hres. change (log_of (with_user _ _)) with (dw_log w) in Hres.
    pose proof (rest_of_line_fits n (lines (dw_log w)) (Z.to_nat pos)
      (proj1 (lines_ok _ _ (proj1 Hinv))) Hf Hn) as Hfit. cbn beta in Hfit.
    fold (contents (dw_log w)) in Hfit. clear Hop Hf.
    destruct (decide _); [injection Hres as H1 _ _; lia|].
    destruct (copy_to_user _ _ _) as [u missing]. destruct (missing =? 0);
      injection Hres as H1 _ _; unfold EFAULT in *; lia.
Qed.

Lemma csys_fits i w c a w' msgs :
  dev_ok w → log_fits (dw_log w) → Forall (λ msg, NEWLINE ∈ msg ∧ fits_readbuf msg) msgs →
  call_fits msgs (c, a) → csys default i w c = (a, w') →
  log_fits (dw_log w') ∧ dw_overrun w' = dw_overrun w.
Proof using KL UL.
  intros Hok Hf Hm Hc H. pose proof Hok as (Hinv & _ & _).
  destruct c; cbn [csys call_fits fst] in H, Hc; try (by injection H as _ <-).
  - by destruct (decide _); injection H as _ <-.
  - rewrite Hc in H. apply read_in_buffer in H as [H1 H2]; [by rewrite H2|done|done|apply Hf].
  - pose proof (proj1 (Forall_forall _ _) Hm _ Hc) as [Hn Hb].
    apply device_call_cases in H as [[-> _]|(pos & rv & fp & k & _ & Hop & _ & -> & _)]; [done|].
    split; [|done]. unfold dw_log. cbn [dw_dev with_pos with_device].
    apply write_op_log in Hop as [Hl|Hl]; [by rewrite Hl| |done|intros ->; by apply not_elem_of_nil in Hn].
    rewrite Hl. by apply log_write_fits.
  - apply device_call_cases in H as [[-> _]|(pos & rv & fp & k & _ & Hop & _ & -> & _)]; [done|].
    split; [|done]. unfold ioctl_op in Hop; cbn [fop_unlocked_ioctl aesd_fops] in Hop.
    apply aesd_ioctl_frame in Hop as [_ Hl]; [|exact Hinv]. unfold dw_log. cbn [dw_dev with_pos with_device].
    by rewrite Hl.
  - unfold dev_recv in H. destruct (dw_stream w fd); [by injection H as _ <-|].
    by destruct (_ <=? _); injection H as _ <-.
  - unfold dev_lock_mutex in H. by destruct (dw_owner w !! m); injection H as _ <-.
  - unfold dev_unlock_mutex in H. by destruct (decide _); injection H as _ <-.
Qed.

Lemma runs_fit i w evs w' msgs :
  runs (O := device_os default i) w evs w' →
  Forall (λ msg, NEWLINE ∈ msg ∧ fits_readbuf msg) msgs → Forall (call_fits msgs) evs →
  log_fits (dw_log (`w)) → log_fits (dw_log (`w')) ∧ dw_overrun (`w') = dw_overrun (`w).
Proof using KL UL.
  intros H Hm. induction H as [w|w c a w1 evs w' Hs H IH]; intros Hc Hf; [done|].
  apply Forall_cons in Hc as [Hc Hcs]. apply dsys_csys in Hs.
  destruct (csys_fits i (`w) c a (`w1) msgs (proj2_sig w) Hf Hm Hc Hs) as [Hf1 Ho1].
  destruct (IH Hcs Hf1) as [Hf2 Ho2]. split; [done|]. by rewrite Ho2.
Qed.

End Fitting.

(** The calls of a handler whose client sends [chunks]. *)
Section HandlerCalls.
Context {O : OS}.

Lemma reply_fits dfd cfd evs complete msgs :
  reply dfd cfd evs complete → Forall (call_fits msgs) evs.
Proof. induction 1; repeat constructor; done. Qed.

Lemma exchange_fits dev dfd cfd m msg evs complete msgs :
  exchange dev dfd cfd m msg evs complete → msg ∈ msgs → Forall (call_fits msgs) evs.
Proof.
  assert (∀ whence f, Forall (call_fits msgs) (seek_events dev dfd whence f)) as Hseek
    by (intros whence f; unfold seek_events; destruct dev; repeat constructor).
  intros H Hmsg. assert (∀ c d, message_call dev dfd msg c → call_fits msgs (c, d)) as Hm
    by by intros c d [[_ ->]|(_ & x & y & _ & _ & _ & ->)].
  destruct H as [b Hb|b c d f evs Hb Hc Hr|b c d f evs e Hb Hc Hr He];
    repeat (apply Forall_cons; split; [first [done|by apply Hm]|]); try by constructor.
  - apply Forall_app. split; [done|]. by eapply reply_fits.
  - apply Forall_app. split; [done|]. apply Forall_app. split; [by eapply reply_fits|].
    by repeat constructor.
Qed.

Lemma opened_fits dev a b msgs evs :
  Forall (call_fits msgs) evs → Forall (call_fits msgs) (opened dev a b ++ evs).
Proof.
  intros H. unfold opened, seek_events. destruct dev; cbn; by repeat constructor.
Qed.

Lemma session_fits dev cfd m pending chunks evs complete msgs :
  session dev cfd m pending chunks evs complete →
  (∀ msg, msg ∈ frames pending chunks → msg ∈ msgs) → Forall (call_fits msgs) evs.
Proof.
  induction 1 as [pending a Ha|pending chunk chunks a b Hb
    |pending chunk chunks a b evs complete Hb Hs H IH
    |pending chunk chunks l r a b evs Hb Hs Hx
    |pending chunk chunks l r a b evs rest complete Hb Hs Hx H IH]; intros Hsub;
    (apply Forall_cons; split; [done|]); cbn [frames] in Hsub.
  - constructor.
  - rewrite <- (app_nil_r (opened _ _ _)). by apply opened_fits.
  - rewrite Hs in Hsub. apply opened_fits. by apply IH.
  - rewrite Hs in Hsub. apply opened_fits. eapply exchange_fits; [done|]. apply Hsub.
    apply list_elem_of_here.
  - rewrite Hs in Hsub. apply opened_fits, Forall_app. split.
    + eapply exchange_fits; [done|]. apply Hsub, list_elem_of_here.
    + apply IH. intros msg Hmsg. by apply Hsub, list_elem_of_further.
Qed.

Lemma closing_fits c fd evs msgs : closing c fd evs → Forall (call_fits msgs) evs.
Proof. intros (a & b & e & ->). destruct (0 <? fd); repeat constructor. Qed.

End HandlerCalls.

Section EndToEnd.
Context {K : Kernel} {KL : KernelLaws K} {U : UserMemory K} {UL : UserLaws K}.
Variable default : call → answer.

(** The system that the threads share. *)
Definition device_system : System := {|
  ts_world := dev_world;
  ts_sys := csys default;
  ts_owner := λ w m, dw_owner w !! m
|}.

Lemma device_system_laws : SystemLaws device_system.
Proof using.
  split; cbn.
  - intros i w m a w' H%device_lock. destruct H as [H0 H1].
    destruct (decide (rc a = 0)) as [Ha|Ha]; [by apply H0|by rewrite (H1 Ha)].
  - intros i w m a w' H%device_unlock. destruct (decide _); [done|].
    destruct H as [? ->]. done.
  - intros i w m c a w' [-> | ->] [= _ <-]; done.
  - intros i w m c a w' Hc H. pose proof (csys_owner default i w c m Hc) as Ho.
    by rewrite H in Ho.
Qed.

(** ** The device as a file *)

Lemma new_fd_fresh w : dw_pos w !! new_fd w = None ∧ dw_streams w !! new_fd w = None.
Proof using.
  unfold new_fd. split; apply eq_None_not_Some; intros [x Hx]; apply above_spec in Hx; lia.
Qed.

Lemma csys_sockets i w c fd :
  is_Some (dw_streams (csys default i w c).2 !! fd) ↔ is_Some (dw_streams w !! fd).
Proof using.
  destruct c; cbn [csys]; try done.
  - by destruct (decide _).
  - destruct (device_read _ _ _) as [a w'] eqn:E. apply device_read_rest in E as [E _].
    cbn [snd]. by rewrite E.
  - destruct (device_call _ _ _ _) as [a w'] eqn:E. apply device_call_rest in E as [E _].
    cbn [snd]. by rewrite E.
  - destruct (device_call _ _ _ _) as [a w'] eqn:E. apply device_call_rest in E as [E _].
    cbn [snd]. by rewrite E.
  - unfold dev_recv, dw_stream. destruct (dw_streams w !! fd0) as [[|ch cs]|] eqn:E; [done| |done].
    destruct (_ <=? _); [|done]. cbn. destruct (decide (fd0 = fd)) as [->|Hne].
    + by rewrite lookup_insert_eq, E.
    + by rewrite lookup_insert_ne.
  - unfold dev_lock_mutex. by destruct (dw_owner w !! m).
  - unfold dev_unlock_mutex. by destruct (decide _).
Qed.

Lemma csys_fds i w c :
  on_fds c = false →
  dw_pos (csys default i w c).2 = dw_pos w ∧ dw_dev (csys default i w c).2 = dw_dev w.
Proof using.
  destruct c; cbn [on_fds csys]; intros Hc; try done.
  - unfold dev_recv. destruct (dw_stream w fd) as [|ch cs]; [done|]. by destruct (_ <=? _).
  - unfold dev_lock_mutex. by destruct (dw_owner w !! m).
  - unfold dev_unlock_mutex. by destruct (decide _).
Qed.

Lemma open_device i w a w' :
  csys default i w (open_call true) = (a, w') →
  a = Ans (new_fd w) [] ∧ w' = with_pos (<[new_fd w := 0]> (dw_pos w)) w.
Proof using.
  unfold open_call. cbn [csys]. rewrite decide_True by done. by intros [= <- <-].
Qed.

#[export] Instance device_file : SharedFile device_system :=
  @Build_SharedFile device_system log contents log_write dev_ok dw_log
    (λ w fd, dw_pos w !! fd)                      (* [sf_pos] *)
    (λ w fd, is_Some (dw_streams w !! fd)).       (* [sf_socket] *)

Lemma pos_insert (M : gmap Z Z) fd p fd' :
  <[fd := p]> M !! fd' = if decide (fd' = fd) then Some p else M !! fd'.
Proof using.
  destruct (decide (fd' = fd)) as [->|]; [apply lookup_insert_eq|by apply lookup_insert_ne].
Qed.

Lemma device_file_laws : SharedFileLaws true device_file.
Proof using KL UL.
  split; cbn [device_system device_file ts_sys ts_world sf_ok sf_get sf_pos sf_socket]; try done.
  - intros i w c a w' Hok H. pose proof (csys_ok default i w c Hok) as H'. by rewrite H in H'.
  - intros i w c a w' fd H. pose proof (csys_sockets i w c fd) as H'. by rewrite H in H'.
  - intros i w c a w' Hc H. destruct (csys_fds i w c Hc) as [Hp Hd]. rewrite H in Hp, Hd.
    cbn in Hp, Hd. unfold dw_log. by rewrite Hp, Hd.
  - intros i w a w' H _. apply open_device in H as [-> ->]. destruct (new_fd_fresh w) as [H1 H2].
    split; [|split; [done|intros [x Hx]; cbn in Hx; congruence]]. split; [done|]. apply pos_insert.
  - intros i w fd a w' [= _ <-]. split; [done|]. intros fd'. cbn.
    destruct (decide (fd' = fd)) as [->|]; [apply lookup_delete_eq|by apply lookup_delete_ne].
  - intros i w fd n a w' Hok H Hn Ha.
    destruct (read_effect default i w fd n a w') as (p & Hp & _ & _ & _ & Hp' & Hlog); try done.
    edestruct read_unread as (_ & _ & Hu & H0); [exact Hok|exact H|done|done|].
    unfold dw_unread in Hu, H0. rewrite Hp in Hu, H0. rewrite Hp', lookup_insert_eq, Hlog in Hu.
    exists p. split; [done|]. split; [split; [done|]|done]. intros fd'. cbn. by rewrite Hp', pos_insert.
  - intros i w fd bs a w' Hok H Ha _.
    edestruct write_effect as (_ & _ & Hl & Hp); [exact Hok|exact H|done|].
    split; [done|]. exists 0. split; [done|]. intros fd'. by rewrite Hp, pos_insert.
Qed.

Variables x0 y0 : Z.

#[local] Existing Instance device_system_laws.
#[local] Existing Instance device_file_laws.

(** The system a process runs on. *)
Definition system {V} (s : @pstate (device_os default 0) V) : dev_world :=
  proj1_sig (p_world s : good_world).

(** The handler makes no read that runs past its buffer. *)
Lemma handler_in_buffer (s : @pstate (device_os default 0) server) args p c r s' :
  conn_ready s args p c →
  chunks_ok (O := device_os default 0) true (incoming (p_world s) (client_fd c)) →
  Forall (λ msg, NEWLINE ∈ msg ∧ fits_readbuf msg)
    (frames [] (incoming (p_world s) (client_fd c))) →
  log_fits (dw_log (system s)) → connnection_handler true x0 y0 args s = Ok (Returned r, s') →
  dw_overrun (system s') = dw_overrun (system s).
Proof using KL UL.
  intros Hready Hchunks Hlines Hlog Hrun.
  destruct (connnection_handler_spec (L := device_os_laws default 0) true x0 y0 s args p c
    (device_allocs_succeed default 0) Hready Hchunks) as (r2 & s2 & Hrun2 & _ & e1 & e2 & complete & Ht & Hs & Hcl & _).
  rewrite Hrun in Hrun2. injection Hrun2 as <- <-.
  destruct (traced_handler _ _ _ _ _ _ _ Hrun) as (evs & Ht' & Hruns).
  rewrite Ht in Ht'. apply app_inv_head in Ht' as <-.
  eapply (runs_fit default 0); [exact Hruns|exact Hlines| |exact Hlog].
  apply Forall_app. split; [by eapply session_fits|by eapply closing_fits].
Qed.

(** C2: from the socket to the device and back.  On the system whose data file is the
    driver of [aesd-char-driver], the handler of a client that sends lines of text runs to
    its end.  When the lines, those of the client and those in the log before, fit the
    buffer the server reads into, no read of the driver writes past that buffer, whatever
    else fails.  When besides every call did what it was asked to (no call failed, writes
    and sends were complete), the log of the device is the one before with the client's
    lines written one after the other, and the bytes the socket accepted for the client
    are, for each of its lines, the contents of the device with that line. *)
Theorem device_serves_client (s : @pstate (device_os default 0) server) args p c
    (Hready : conn_ready s args p c) (Hfd : data_fd c = 0)
    (Hchunks : chunks_ok (O := device_os default 0) true (incoming (p_world s) (client_fd c)))
    (Hfree : dw_owner (system s) = ∅)
    (Hsockets : ∀ fd, is_Some (dw_streams (system s) !! fd) →
                  dw_pos (system s) !! fd = None)
    (Hclient : is_Some (dw_streams (system s) !! client_fd c))
    (Htext : Forall (λ msg, contains match_cmd msg = false)
               (frames [] (incoming (p_world s) (client_fd c))))
    (Hlines : Forall (λ msg, NEWLINE ∈ msg ∧ fits_readbuf msg)
                (frames [] (incoming (p_world s) (client_fd c))))
    (Hlog : log_fits (dw_log (system s))) :
  returns (connnection_handler true x0 y0 args) s (λ _ s',
    dw_overrun (system s') = dw_overrun (system s) ∧ ∃ evs,
    p_trace s' = p_trace s ++ evs
    ∧ (Forall well evs →
       let msgs := frames [] (incoming (p_world s) (client_fd c)) in
       dw_log (system s') = foldl log_write (dw_log (system s)) msgs
       ∧ sent_bytes evs = concat (replies (F := device_file) (dw_log (system s)) msgs))).
Proof using KL UL.
  destruct (alone_is_served true (S := device_system) (F := device_file) x0 y0 (O := device_os default 0)
    (OL := device_os_laws default 0) (λ w : good_world, `w) s args p c) as (r & s' & Hrun & Hserved);
    try done.
  - apply dsys_csys.
  - apply device_allocs_succeed.
  - intros mx. cbn. change (dw_owner (system s) !! mx = None). by rewrite Hfree.
  - split; [exact (proj2_sig (p_world s : good_world))| |exact Hsockets|by apply Forall_singleton].
    cbn. change (dw_owner (system s) !! mutex c = None). by rewrite Hfree.
  - by right.
  - exists r, s'. split; [done|]. split; [|done].
    by apply (handler_in_buffer s args p c r s').
Qed.

End EndToEnd.

(** ** Two clients on a concrete device *)

Section Witnesses.
#[local] Existing Instance demo_kernel.
#[local] Existing Instance DriverProps.demo_laws.
#[local] Instance demo_memory : UserMemory demo_kernel := sim_user_memory 4096 [0].
#[local] Instance demo_memory_laws : UserLaws demo_kernel := sim_user_laws 4096 [0].

(** A send sends everything. *)
Definition demo_default (c : call) : answer :=
  match c with Csend _ bs => Ans (Z.of_nat (length bs)) [] | _ => Ans 0 [] end.

(** The second client sends a line in one chunk. *)
Definition chunks2 : list (list Z) := [[120; 10]].

Definition demo_clients : list thread := [Client 5 demo_chunks; Client 6 chunks2].

(** A fresh device, and the sockets of the two clients. *)
Definition demo_world : dev_world :=
  DevWorld (KState ∅ (Dev aesd_circular_buffer_init 0 0 mutex_init) []) ∅
    {[ 5 := demo_chunks; 6 := chunks2 ]} ∅ false.

Lemma demo_world_ok : dev_ok demo_world.
Proof. split; [|done]. split; [apply drv_mem_fresh|done]. Qed.

Abbreviation demo_system := (device_system demo_default).
Abbreviation demo_file := (device_file demo_default).

Lemma demo_world_ready : ready (F := demo_file) 1 demo_clients demo_world.
Proof.
  split; [apply demo_world_ok|done|done|].
  repeat (apply Forall_cons; split; [by eexists|]). by apply Forall_nil.
Qed.

Abbreviation one_os := (device_os demo_default 0).

#[local] Instance one_os_laws : OSLaws one_os := device_os_laws demo_default 0.

(** The calls of the first client, alone. *)
Definition trace1 : list (call * answer) :=
  Eval vm_compute in (thread_trace (O := one_os) true 5 (demo_world ↾ demo_world_ok)).1.

Lemma trace1_run : client_run true 0 0 5 1 demo_chunks true trace1.
Proof.
  apply (thread_client_run (O := one_os) true 5 (demo_world ↾ demo_world_ok));
    [apply device_allocs_succeed|vm_compute; reflexivity..| |vm_compute; reflexivity].
  apply chunks_text; [|done|apply demo_texts].
  repeat (apply Forall_cons; split; [done|]). by apply Forall_nil.
Qed.

(** The system when the first client is about to be disconnected. *)
Definition world2 : dev_world := from_option id demo_world (replay (S := demo_system) demo_world (tag 0 (take 21 trace1))).

Lemma world2_ok : dev_ok world2.
Proof.
  assert (∃ w, replay (S := demo_system) demo_world (tag 0 (take 21 trace1)) = Some w) as [w Hw].
  { destruct (replay (S := demo_system) demo_world (tag 0 (take 21 trace1))) eqn:E; [by eexists|].
    assert (match replay (S := demo_system) demo_world (tag 0 (take 21 trace1)) with Some _ => true | None => false end
            = true) as H by (vm_compute; reflexivity). by rewrite E in H. }
  unfold world2. rewrite Hw. cbn. eapply (exec_ok true (F := demo_file) (FL := device_file_laws demo_default));
    [|exact demo_world_ok].
  by eapply (replay_exec _ []); [constructor|].
Qed.

(** The calls of the second client, from there on. *)
Definition trace2 : list (call * answer) :=
  Eval vm_compute in (thread_trace (O := one_os) true 6 (world2 ↾ world2_ok)).1.

Lemma trace2_run : client_run true 0 0 6 1 chunks2 true trace2.
Proof.
  apply (thread_client_run (O := one_os) true 6 (world2 ↾ world2_ok));
    [apply device_allocs_succeed|vm_compute; reflexivity..| |vm_compute; reflexivity].
  apply chunks_text; [|done|];
    repeat (apply Forall_cons; split; [done|]); by apply Forall_nil.
Qed.

(** Both: the second client sends its line first, but is served after the first one,
    whose connection ends while the second one has the lock. *)
Definition demo_events : list event :=
  tag 1 (take 1 trace2) ++ tag 0 (take 21 trace1) ++ tag 1 (take 3 (drop 1 trace2))
  ++ tag 0 (drop 21 trace1) ++ tag 1 (drop 4 trace2).

Lemma demo_exec : ∃ w, exec (S := demo_system) demo_world demo_events w.
Proof.
  destruct (replay (S := demo_system) demo_world demo_events) as [w|] eqn:E.
  - exists w. by eapply (replay_exec _ []); [constructor|].
  - assert (match replay (S := demo_system) demo_world demo_events with Some _ => true | None => false end = true)
      as H by (vm_compute; reflexivity). by rewrite E in H.
Qed.

Lemma demo_served : served true 0 0 1 demo_clients (λ _, true) demo_events.
Proof.
  intros [|[|i]]; cbn [demo_clients lookup list_lookup thread_run].
  - replace (select 0 demo_events) with trace1 by reflexivity. apply trace1_run.
  - replace (select 1 demo_events) with trace2 by reflexivity. apply trace2_run.
  - reflexivity.
Qed.

Lemma demo_well : Forall (λ e : event, well e.2) demo_events.
Proof. repeat (apply Forall_cons; split; [split; [vm_compute; done|split; [vm_compute; done|done]]|]). by apply Forall_nil. Qed.

(** The log of the device, and what the second client is sent, in that execution. *)
Example device_demo_log :
  ∃ w ms, exec (S := demo_system) demo_world demo_events w
    ∧ sf_get (SharedFile := demo_file) w = logged (F := demo_file) (dw_log demo_world) ms
    ∧ select 0 ms = [[97; 98; 10]; [99; 100; 10]] ∧ select 1 ms = [[120; 10]]
    ∧ sent_bytes (select 1 demo_events)
      = concat (select 1 (answers (F := demo_file) (dw_log demo_world) ms)).
Proof.
  destruct demo_exec as [w Hw].
  destruct (serial_log true (L := device_system_laws demo_default)
    (FL := device_file_laws demo_default) 0 0 1 demo_clients (λ _, true) demo_world demo_events w
    demo_world_ready Hw) as (ms & Hlog & _ & _ & Hfin).
  - apply served_serving, demo_served.
  - apply Forall_cons. split; [right; apply demo_texts|]. apply Forall_singleton. right.
    repeat (apply Forall_cons; split; [done|]). by apply Forall_nil.
  - apply demo_well.
  - done.
  - exists w, ms. split; [done|]. split; [done|].
    destruct (Hfin 0%nat demo_chunks) as [H0 _]; [split; [done|]; exists 5; split; [done|apply trace1_run]|].
    destruct (Hfin 1%nat chunks2) as [H1 H2]; [split; [done|]; exists 6; split; [done|apply trace2_run]|].
    by rewrite H0, H1.
Qed.

(** The write of the second client, in that execution. *)
Lemma handlers_exclude_each_other_witness :
  ∃ w1, exec (S := demo_system) demo_world (take 24 demo_events) w1
    ∧ ts_owner (System := demo_system) w1 1 = Some 1%nat
    ∧ ∀ j s, states_after true (role_of demo_clients (λ _, true)) 1 (take 24 demo_events) j = Some s →
        holding s = true → j = 1%nat.
Proof.
  destruct demo_exec as [w Hw].
  refine (handlers_exclude_each_other (L := device_system_laws demo_default) true 0 0 1
    demo_clients (λ _, true) demo_world
    (take 24 demo_events) 1 (Cwrite 10 [120; 10]) (Ans 2 []) (drop 25 demo_events) w
    Hw eq_refl (served_serving true 0 0 1 demo_clients (λ _, true) demo_events demo_served) eq_refl).
Defined.

Lemma demo_lines : Forall (λ msg, NEWLINE ∈ msg ∧ fits_readbuf msg) (frames [] demo_chunks).
Proof.
  repeat (apply Forall_cons; split;
    [split; [apply (bool_decide_eq_true_1 _); reflexivity|unfold fits_readbuf, readbuf_size; cbn; lia]|]).
  by apply Forall_nil.
Qed.

Lemma device_serves_client_witness :
  returns (connnection_handler true 0 0 40) (thread_start (O := one_os) 5 (demo_world ↾ demo_world_ok))
    (λ _ s', dw_overrun (system demo_default s') = false ∧ ∃ evs, p_trace s' = [] ++ evs
      ∧ (Forall well evs →
         dw_log (system demo_default s') = Log [[97; 98; 10]; [99; 100; 10]] []
         ∧ sent_bytes evs = [97; 98; 10] ++ [97; 98; 10; 99; 100; 10])).
Proof.
  refine (device_serves_client demo_default 0 0 (thread_start (O := one_os) 5 (demo_world ↾ demo_world_ok))
    40 16 (thread_conn 5) (thread_ready (O := one_os) 5 (demo_world ↾ demo_world_ok) eq_refl) eq_refl _ eq_refl _ _
    demo_texts demo_lines (conj (Forall_nil_2 _) eq_refl)).
  - apply chunks_text; [|done|apply demo_texts].
    repeat (apply Forall_cons; split; [done|]). by apply Forall_nil.
  - intros fd _. done.
  - by eexists.
Defined.

End Witnesses.
