(* ===== verification/PlainFile.v ===== *)
(** * The server on an ordinary file

    The build without the char device: a system whose data file is an ordinary file,
    as POSIX describes it.  A descriptor has an offset of its own; a write replaces
    what is at the offset, or extends the file there.  The threads share the system as
    in [Interleave].

    A client that is served alone gets what it should ([plain_serves_client]).  The last
    section has two executions: in the first one a client, the timer and a client whose
    handler is cancelled share the file as they should; in the second one, clients
    that are served at once may overwrite each other's messages: the handler goes to the
    end of the file before it takes the lock ([plain_file_loses_message]). *)

From Stdlib Require Import String.
From S2P Require Import Prelude Memory Kernel AesdIoctl CString Posix SimOS DataFile SList.
From S2P Require Import Server Runs ServerSpec ServerRefine ServerProps Cancel Timer Protocol Interleave.
From S2P Require Import Concurrent Serial.

Record pf_world := PfWorld {
  pf_file : list Z;
  pf_pos : gmap Z nat;                       (* the open descriptors of the file *)
  pf_streams : gmap Z (list (list Z));       (* what the peers of the sockets still send *)
  pf_owner : gmap Z nat                      (* the thread that holds a mutex *)
}.

Definition plain_path : list Z := str "/var/tmp/aesdsocketdata".

Definition with_offset (fd : Z) (p : nat) (w : pf_world) : pf_world :=
  PfWorld (pf_file w) (<[fd := p]> (pf_pos w)) (pf_streams w) (pf_owner w).

(** A descriptor that is not in use. *)
Definition pf_new_fd (w : pf_world) : Z :=
  3 `max` (above (pf_pos w) `max` above (pf_streams w)).

Definition pf_open (w : pf_world) : answer * pf_world :=
  (Ans (pf_new_fd w) [], with_offset (pf_new_fd w) 0 w).

Definition pf_lseek (w : pf_world) (fd offset whence : Z) : answer * pf_world :=
  match pf_pos w !! fd with
  | Some p =>
      let target := (if whence =? SEEK_SET then 0
                     else if whence =? SEEK_CUR then Z.of_nat p
                     else Z.of_nat (length (pf_file w))) + offset in
      if target <? 0 then (Ans (-1) [], w)
      else (Ans target [], with_offset fd (Z.to_nat target) w)
  | None => (Ans (-1) [], w)
  end.

Definition pf_read (w : pf_world) (fd n : Z) : answer * pf_world :=
  match pf_pos w !! fd with
  | Some p =>
      let bs := take (Z.to_nat n) (drop p (pf_file w)) in
      (Ans (Z.of_nat (length bs)) bs, with_offset fd (p + length bs) w)
  | None => (Ans (-1) [], w)
  end.

(** The contents after [bs] was written at [p]; a gap is filled with zeros. *)
Definition put_at (file : list Z) (p : nat) (bs : list Z) : list Z :=
  take p file ++ replicate (p - length file) 0 ++ bs ++ drop (p + length bs) file.

Definition pf_write (w : pf_world) (fd : Z) (bs : list Z) : answer * pf_world :=
  match pf_pos w !! fd with
  | Some p =>
      (Ans (Z.of_nat (length bs)) [],
       PfWorld (put_at (pf_file w) p bs) (<[fd := (p + length bs)%nat]> (pf_pos w))
               (pf_streams w) (pf_owner w))
  | None => (Ans (-1) [], w)
  end.

Definition pf_stream (w : pf_world) (fd : Z) : list (list Z) :=
  match pf_streams w !! fd with Some cs => cs | None => [] end.

Definition pf_recv (w : pf_world) (fd n : Z) : answer * pf_world :=
  match pf_stream w fd with
  | c :: cs =>
    if Z.of_nat (length c) <=? n
    then (Ans (Z.of_nat (length c)) c,
          PfWorld (pf_file w) (pf_pos w) (<[fd := cs]> (pf_streams w)) (pf_owner w))
    else (Ans (-1) [], w)
  | [] => (Ans 0 [], w)
  end.

Definition pf_lock (i : nat) (w : pf_world) (m : Z) : answer * pf_world :=
  match pf_owner w !! m with
  | Some _ => (Ans 35 [], w)                       (* EDEADLK *)
  | None => (Ans 0 [], PfWorld (pf_file w) (pf_pos w) (pf_streams w) (<[m := i]> (pf_owner w)))
  end.

Definition pf_unlock (i : nat) (w : pf_world) (m : Z) : answer * pf_world :=
  if decide (pf_owner w !! m = Some i)
  then (Ans 0 [], PfWorld (pf_file w) (pf_pos w) (pf_streams w) (delete m (pf_owner w)))
  else (Ans 1 [], w).                              (* EPERM *)

Section PlainFile.
(* the answers of the calls that concern neither the file, a stream nor a mutex *)
Variable default : call → answer.

(** A call of thread [i]. *)
Definition plain_sys (i : nat) (w : pf_world) (c : call) : answer * pf_world :=
  match c with
  | Copen path _ _ => if decide (path = plain_path) then pf_open w else (Ans (-1) [], w)
  | Cclose fd =>
      (Ans 0 [], PfWorld (pf_file w) (delete fd (pf_pos w)) (pf_streams w) (pf_owner w))
  | Clseek fd offset whence => pf_lseek w fd offset whence
  | Cread fd n => pf_read w fd n
  | Cwrite fd bs => pf_write w fd bs
  | Crecv fd n => pf_recv w fd n
  | Cmutex_lock m => pf_lock i w m
  | Cmutex_unlock m => pf_unlock i w m
  | _ => (default c, w)
  end.

(** ** The laws *)

Lemma plain_cases i w c a w' :
  plain_sys i w c = (a, w') →
  match c with
  | Copen _ _ _ | Cclose _ | Clseek _ _ _ | Cread _ _ | Cwrite _ _ =>
      pf_streams w' = pf_streams w ∧ pf_owner w' = pf_owner w
  | Crecv _ _ => pf_file w' = pf_file w ∧ pf_pos w' = pf_pos w ∧ pf_owner w' = pf_owner w
  | Cmutex_lock _ | Cmutex_unlock _ =>
      pf_file w' = pf_file w ∧ pf_pos w' = pf_pos w ∧ pf_streams w' = pf_streams w
  | _ => w' = w
  end.
Proof using.
  unfold plain_sys, pf_open, pf_lseek, pf_read, pf_write, pf_recv, pf_lock, pf_unlock.
  destruct c; intros H;
    repeat match type of H with
           | context [if ?d then _ else _] => destruct d
           | context [match ?x with _ => _ end] => destruct x
           end;
    by injection H as _ <-.
Qed.

(** Where [plain_cases] says that the part [E] of the system is as before. *)
Ltac plain_same E :=
  try (let H := fresh in assert E as H by (destruct_and?; congruence); by rewrite H).

Lemma plain_owner i w c m :
  on_mutex m c = false → pf_owner (plain_sys i w c).2 !! m = pf_owner w !! m.
Proof using.
  intros Hc. destruct (plain_sys i w c) as [a w'] eqn:E. pose proof (plain_cases i w c a w' E) as H.
  cbn [snd]. destruct c; plain_same (pf_owner w' = pf_owner w);
    cbn in Hc, E; apply Z.eqb_neq in Hc.
  - unfold pf_lock in E. destruct (pf_owner w !! m0); injection E as _ <-; [done|].
    cbn. by rewrite lookup_insert_ne.
  - unfold pf_unlock in E. destruct (decide _); injection E as _ <-; [|done].
    cbn. by rewrite lookup_delete_ne.
Qed.

Lemma pf_lock_spec i w m a w' :
  pf_lock i w m = (a, w') →
  if decide (rc a = 0) then pf_owner w !! m = None ∧ pf_owner w' !! m = Some i else w' = w.
Proof using.
  unfold pf_lock. destruct (pf_owner w !! m) eqn:E; intros [= <- <-]; cbn; [done|].
  split; [done|apply lookup_insert_eq].
Qed.

Lemma pf_unlock_spec i w m a w' :
  pf_unlock i w m = (a, w') →
  if decide (pf_owner w !! m = Some i) then rc a = 0 ∧ pf_owner w' !! m = None
  else rc a ≠ 0 ∧ w' = w.
Proof using.
  unfold pf_unlock. destruct (decide _); intros [= <- <-]; [|done].
  split; [done|]. cbn. apply lookup_delete_eq.
Qed.

(** The system that the threads share. *)
Definition plain_system : System := {|
  ts_world := pf_world;
  ts_sys := plain_sys;
  ts_owner := λ w m, pf_owner w !! m
|}.

Lemma plain_system_laws : SystemLaws plain_system.
Proof using.
  split; cbn.
  - intros i w m a w' H%pf_lock_spec. destruct (decide _); [done|by rewrite H].
  - intros i w m a w' H%pf_unlock_spec. destruct (decide _); [done|].
    destruct H as [? ->]. done.
  - intros i w m c a w' [-> | ->] [= _ <-]; done.
  - intros i w m c a w' Hc H. pose proof (plain_owner i w c m Hc) as Ho. by rewrite H in Ho.
Qed.

#[export] Instance plain_file : SharedFile plain_system :=
  @Build_SharedFile plain_system (list Z) id app (λ _, True) pf_file
    (λ w fd, Z.of_nat <$> (pf_pos w !! fd))       (* [sf_pos] *)
    (λ w fd, is_Some (pf_streams w !! fd)).       (* [sf_socket] *)

Lemma pf_new_fd_fresh w : pf_pos w !! pf_new_fd w = None ∧ pf_streams w !! pf_new_fd w = None.
Proof using.
  unfold pf_new_fd. split; apply eq_None_not_Some; intros [x Hx]; apply above_spec in Hx; lia.
Qed.

(** The descriptors after one of them moved. *)
Lemma pf_moved (M : gmap Z nat) fd p fd' :
  Z.of_nat <$> (<[fd := p]> M !! fd')
  = if decide (fd' = fd) then Some (Z.of_nat p) else Z.of_nat <$> (M !! fd').
Proof using.
  destruct (decide (fd' = fd)) as [->|]; [by rewrite lookup_insert_eq|by rewrite lookup_insert_ne].
Qed.

Lemma put_at_end file bs : put_at file (length file) bs = file ++ bs.
Proof using.
  unfold put_at. rewrite firstn_all, Nat.sub_diag, drop_ge by lia. cbn. by rewrite app_nil_r.
Qed.

Lemma pf_sockets i w c a w' fd :
  plain_sys i w c = (a, w') → is_Some (pf_streams w' !! fd) ↔ is_Some (pf_streams w !! fd).
Proof using.
  intros E. pose proof (plain_cases i w c a w' E) as H.
  destruct c; plain_same (pf_streams w' = pf_streams w).
  cbn in E. unfold pf_recv, pf_stream in E.
  destruct (pf_streams w !! fd0) as [[|ch cs]|] eqn:Hs; [by injection E as _ <-| |by injection E as _ <-].
  destruct (_ <=? _); injection E as _ <-; [|done]. cbn. destruct (decide (fd0 = fd)) as [->|Hne].
  - by rewrite lookup_insert_eq, Hs.
  - by rewrite lookup_insert_ne.
Qed.

(** A seek that succeeds. *)
Lemma pf_lseek_spec w fd offset whence a w' :
  pf_lseek w fd offset whence = (a, w') → 0 ≤ rc a →
  ∃ p, pf_pos w !! fd = Some p ∧ w' = with_offset fd (Z.to_nat (rc a)) w
    ∧ rc a = (if whence =? SEEK_SET then 0
              else if whence =? SEEK_CUR then Z.of_nat p
              else Z.of_nat (length (pf_file w))) + offset.
Proof using.
  unfold pf_lseek. destruct (pf_pos w !! fd) as [p|]; [|by intros [= <- <-]].
  destruct (_ <? 0); intros [= <- <-]; [done|]. intros _. by exists p.
Qed.

(** A read that succeeds. *)
Lemma pf_read_spec w fd n a w' :
  pf_read w fd n = (a, w') → 0 < n → 0 ≤ rc a →
  ∃ p, pf_pos w !! fd = Some p ∧ rc a = Z.of_nat (length (out a)) ∧ rc a ≤ n
    ∧ w' = with_offset fd (p + length (out a)) w
    ∧ drop p (pf_file w) = out a ++ drop (p + length (out a)) (pf_file w)
    ∧ (rc a = 0 → drop p (pf_file w) = []).
Proof using.
  unfold pf_read. destruct (pf_pos w !! fd) as [p|]; [|by intros [= <- <-]].
  intros [= <- <-] Hn _. exists p. cbn [rc out]. split_and!; try done.
  - rewrite length_take. lia.
  - rewrite <- drop_drop. set (l := drop p (pf_file w)).
    destruct (decide (Z.to_nat n ≤ length l)%nat) as [Hl|Hl].
    + rewrite length_take, Nat.min_l by done. by rewrite take_drop.
    + rewrite take_ge, drop_all, app_nil_r by lia. done.
  - rewrite length_take. intros H. apply length_zero_iff_nil. lia.
Qed.

Lemma plain_file_laws : SharedFileLaws false plain_file.
Proof using.
  split; cbn [plain_system plain_file ts_sys ts_world sf_ok sf_get sf_pos sf_socket]; try done.
  - intros i w c a w' fd. apply pf_sockets.
  - intros i w c a w' Hc H. pose proof (plain_cases i w c a w' H) as Hw.
    destruct c; try discriminate Hc; try (by rewrite Hw); destruct Hw as (-> & -> & _); done.
  - intros i w a w' [= <- <-] _. destruct (pf_new_fd_fresh w) as [H1 H2].
    split; [|split; [cbn; by rewrite H1|intros [x Hx]; cbn in Hx; congruence]].
    split; [done|]. apply pf_moved.
  - intros i w fd a w' [= _ <-]. split; [done|]. intros fd'. cbn.
    destruct (decide (fd' = fd)) as [->|]; [by rewrite lookup_delete_eq|by rewrite lookup_delete_ne].
  - intros i w fd a w' _ H Ha. apply pf_lseek_spec in H as (p & Hp & -> & Hrc); [|done].
    cbn in Hrc. split; [done|]. intros fd'. cbn. rewrite pf_moved, Hrc.
    unfold size. cbn. destruct (decide _); [f_equal; lia|done].
  - intros i w fd a w' _ H Ha. apply pf_lseek_spec in H as (p & Hp & -> & Hrc); [|done].
    cbn in Hrc. split; [done|]. intros fd'. cbn. by rewrite pf_moved, Hrc.
  - intros i w fd n a w' _ H Hn Ha.
    apply pf_read_spec in H as (p & Hp & Hrc & _ & -> & Hd & H0); [|done..].
    exists (Z.of_nat p). rewrite Hp. split; [done|]. split.
    + split; [done|]. intros fd'. cbn. rewrite pf_moved.
      destruct (decide _); [f_equal; lia|done].
    + unfold from. cbn. rewrite Nat2Z.id. split; [|done].
      replace (Z.to_nat (Z.of_nat p + rc a)) with (p + length (out a))%nat by lia. done.
  - intros i w fd bs a w' _ H Ha Hend. destruct (Hend eq_refl) as [_ Hp].
    destruct (pf_pos w !! fd) as [p|] eqn:E; [|done]. cbn in Hp. unfold size in Hp. cbn in Hp.
    assert (p = length (pf_file w)) as -> by (injection Hp; lia).
    cbn in H. unfold pf_write in H. rewrite E in H. injection H as _ <-. cbn.
    split; [apply put_at_end|]. exists (Z.of_nat (length (pf_file w) + length bs)).
    split; [done|]. intros fd'. apply pf_moved.
Qed.

(** ** The system of one thread *)

Variable i : nat.

Definition pf_unread (w : pf_world) (fd : Z) : list Z :=
  match pf_pos w !! fd with Some p => drop p (pf_file w) | None => [] end.

Definition plain_os : OS := {|
  world := pf_world;
  sys := plain_sys i;
  cancels := λ _ _, false;
  uncancel := id;
  malloc := sim_kmalloc (object_max - 1) [];
  realloc := sim_krealloc (object_max - 1) [];
  free := sim_kfree;
  os_IOWR := sim_IOWR;
  incoming := pf_stream;
  unread := pf_unread;
  owns := λ w m, bool_decide (pf_owner w !! m = Some i)
|}.

Lemma pf_recv_chunk w fd n c cs :
  pf_stream w fd = c :: cs → Z.of_nat (length c) ≤ n →
  (pf_recv w fd n).1 = Ans (Z.of_nat (length c)) c ∧ pf_stream (pf_recv w fd n).2 fd = cs.
Proof using.
  intros H Hn. unfold pf_recv. rewrite H, (proj2 (Z.leb_le _ _)) by done.
  split; [done|]. unfold pf_stream. cbn. by rewrite lookup_insert_eq.
Qed.

Lemma pf_stream_frame w c a w' fd :
  on_stream fd c = false → plain_sys i w c = (a, w') → pf_stream w' fd = pf_stream w fd.
Proof using.
  intros Hc E. pose proof (plain_cases i w c a w' E) as H. unfold pf_stream.
  destruct c; plain_same (pf_streams w' = pf_streams w).
  cbn in E, Hc. apply Z.eqb_neq in Hc. unfold pf_recv in E.
  destruct (pf_stream w fd0) as [|ch cs]; [by injection E as _ <-|].
  destruct (_ <=? _); injection E as _ <-; [|done]. cbn. by rewrite lookup_insert_ne.
Qed.

Lemma plain_os_laws : OSLaws plain_os.
Proof using.
  pose proof (sim_os_laws (object_max - 1) default eq_refl) as L.
  split; try apply L; cbn [sys incoming unread owns world plain_os].
  - intros w fd n c cs a w' Hc _ Hn H. pose proof (pf_recv_chunk w fd n c cs Hc Hn) as Hr.
    cbn in H. by rewrite H in Hr.
  - intros w fd n a w' Hc H. cbn in H. unfold pf_recv in H. rewrite Hc in H.
    injection H as <- _. by left.
  - intros w fd c a w'. apply pf_stream_frame.
  - intros w fd n a w' Hn H Ha. apply pf_read_spec in H as (p & Hp & Hrc & Hle & -> & Hd & _); [|lia..].
    split; [done|]. split; [done|]. unfold pf_unread. rewrite Hp. cbn.
    by rewrite lookup_insert_eq.
  - intros w fd n a w' Hn H. cbn in H. unfold pf_read in H.
    destruct (pf_pos w !! fd); injection H as <- _; cbn; lia.
  - intros w fd n a w' Hn H Ha. apply pf_read_spec in H as (p & Hp & _ & _ & _ & _ & H0); [|lia..].
    unfold pf_unread. rewrite Hp. auto.
  - intros w fd fd' bs a w' H. cbn in H. by injection H as _ <-.
  - intros w m a w' H Ha. apply pf_lock_spec in H. rewrite decide_True in H by done.
    destruct H as [H1 H2]. rewrite H1, H2. split; [by apply bool_decide_eq_false|].
    by apply bool_decide_eq_true.
  - intros w m a w' H Ha. apply pf_lock_spec in H. rewrite decide_False in H by done. by rewrite H.
  - intros w m a w' Ho H. apply bool_decide_eq_true in Ho. apply pf_unlock_spec in H.
    rewrite decide_True in H by done. destruct H as [H1 H2]. split; [done|]. by rewrite H2.
  - intros w m a w' Ho H. apply bool_decide_eq_false in Ho. apply pf_unlock_spec in H.
    rewrite decide_False in H by done. destruct H as [H1 ->]. split; [done|].
    by apply bool_decide_eq_false.
  - intros w m a w' Ho H. by injection H as _ <-.
  - intros w m a w' Ho H. by injection H as _ <-.
  - intros w m c a w' Hc H. pose proof (plain_owner i w c m Hc) as Hr. rewrite H in Hr.
    cbn in Hr. by rewrite Hr.
  - done.
  - done.
Qed.

#[export] Instance plain_uncancelled : Uncancelled plain_os.
Proof using. done. Qed.

Lemma plain_allocs_succeed : allocs_succeed plain_os.
Proof using. apply (sim_allocs_succeed default). Qed.

End PlainFile.

(** ** A client alone *)

Section Alone.
Variable default : call → answer.
Variables x0 y0 : Z.

#[local] Existing Instance plain_system_laws.
#[local] Existing Instance plain_file_laws.

Lemma foldl_app_concat (f : list Z) msgs : foldl app f msgs = f ++ concat msgs.
Proof using.
  revert f. induction msgs as [|msg msgs IH]; intros f; cbn; [by rewrite app_nil_r|].
  by rewrite IH, app_assoc.
Qed.

(** C4: the build without the char device, from the socket to the file and back.  On a
    system whose data file is an ordinary file, the handler of a client that is served
    alone runs to its end; when no call failed and writes and sends were complete, the file
    is the one before followed by the client's lines, and the bytes the socket accepted for
    the client are, for each of its lines, the contents of the file with that line. *)
Theorem plain_serves_client (s : @pstate (plain_os default 0) server) args p c
    (Hready : conn_ready s args p c) (Hfd : data_fd c = 0)
    (Hchunks : chunks_ok (O := plain_os default 0) false
                 (incoming (p_world s) (client_fd c)))
    (Hfree : pf_owner (p_world s) = ∅)
    (Hsockets : ∀ fd, is_Some (pf_streams (p_world s) !! fd) → pf_pos (p_world s) !! fd = None)
    (Hclient : is_Some (pf_streams (p_world s) !! client_fd c)) :
  returns (connnection_handler false x0 y0 args) s (λ _ s', ∃ evs,
    p_trace s' = p_trace s ++ evs
    ∧ (Forall well evs →
       let msgs := frames [] (incoming (p_world s) (client_fd c)) in
       pf_file (p_world s') = pf_file (p_world s) ++ concat msgs
       ∧ sent_bytes evs
         = concat (replies (F := plain_file default) (pf_file (p_world s)) msgs))).
Proof using.
  eapply returns_weaken.
  - apply (alone_is_served false (S := plain_system default) (F := plain_file default) x0 y0
      (O := plain_os default 0) (OL := plain_os_laws default 0) id s args p c); try done.
    + apply plain_allocs_succeed.
    + intros mx. cbn. by rewrite Hfree.
    + split; [done| | |by apply Forall_singleton].
      * cbn. by rewrite Hfree.
      * intros fd Hfd'. cbn. by rewrite Hsockets.
    + by left.
  - intros r s' (evs & Ht & H). exists evs. split; [done|]. intros Hw msgs.
    destruct (H Hw) as [Hf Hs]. split; [|exact Hs]. etrans; [exact Hf|]. apply foldl_app_concat.
Qed.

End Alone.

(** ** Executions *)

Section Demo.

(** A send sends everything, and it is always Monday. *)
Definition all_sent (c : call) : answer :=
  match c with
  | Csend _ bs => Ans (Z.of_nat (length bs)) []
  | Cstrftime _ => Ans 3 ([77; 111; 110] ++ NUL :: [])
  | _ => Ans 0 []
  end.

Abbreviation demo_system := (plain_system all_sent).
Abbreviation demo_plain := (plain_os all_sent).
Abbreviation demo_file := (plain_file all_sent).
#[local] Instance demo_system_laws : SystemLaws demo_system := plain_system_laws all_sent.
#[local] Instance demo_plain_laws i : OSLaws (demo_plain i) := plain_os_laws all_sent i.

(** The world after the calls [evs]. *)
Definition world_after (w : pf_world) (evs : list event) : pf_world :=
  from_option id w (replay (S := demo_system) w evs).

(** Two clients that send a line each, and an empty file. *)
Definition demo_start : pf_world := PfWorld [] ∅ {[ 5 := [[97; 10]]; 6 := [[98; 10]] ]} ∅.

Lemma demo_start_ready threads :
  Forall (λ th, match th with Client fd _ => fd = 5 ∨ fd = 6 | TimerThread => True end) threads →
  ready (F := demo_file) 1 threads demo_start.
Proof.
  intros H. split; [done|done|done|]. eapply Forall_impl; [exact H|].
  intros [fd chunks|]; [|done]. by intros [-> | ->]; eexists.
Qed.

Lemma one_line_ok {O : OS} dev x : x ≠ NUL → x ≠ NEWLINE →
  contains match_cmd [x; NEWLINE] = false → chunks_ok dev [[x; NEWLINE]].
Proof.
  intros H0 H1 H2. apply chunks_text; [by apply Forall_singleton|done|].
  cbn [frames split_line]. rewrite (proj2 (Z.eqb_neq x NEWLINE)) by done.
  cbn [Z.eqb NEWLINE Pos.eqb app upto_nul]. rewrite (proj2 (Z.eqb_neq x NUL)) by done.
  by apply Forall_singleton.
Qed.

(** *** A client, the timer, and a client that is cancelled *)

Definition threads : list thread := [Client 5 [[97; 10]]; Client 6 [[98; 10]]; TimerThread].

(** The second client is cancelled. *)
Definition uncut (i : nat) : bool := negb (i =? 1)%nat.

(** The calls of the first client, and then of the timer. *)
Definition calls0 : list (call * answer) :=
  Eval vm_compute in (thread_trace (O := demo_plain 0) false 5 demo_start).1.

Definition world0 : pf_world := Eval vm_compute in world_after demo_start (tag 0 calls0).

Definition calls2 : list (call * answer) :=
  Eval vm_compute in timer_trace (O := demo_plain 2) (replicate 120 7) world0.

Definition world2 : pf_world := Eval vm_compute in world_after world0 (tag 2 calls2).

(** The second client, cancelled when it has appended its line and reads the answer. *)
Definition calls1 : list (call * answer) :=
  Eval vm_compute in
    (thread_trace (O := cancel_os (demo_plain 1)) false 6 (world2, Some 5%nat)).1.

(** Its line arrives first. *)
Definition events : list event :=
  tag 1 (take 1 calls1) ++ tag 0 calls0 ++ tag 2 calls2 ++ tag 1 (drop 1 calls1).

Lemma events_exec : exec (S := demo_system) demo_start events (world_after demo_start events).
Proof. eapply (replay_exec (S := demo_system) demo_start []); [constructor|]. vm_compute. reflexivity. Qed.

Lemma demo_date : strftime_fits (demo_plain 2).
Proof.
  intros w a w' [= <- <-]. exists [77; 111; 110], []. split; [forall_neq|].
  split; [cbn; lia|done].
Qed.

Lemma events_served : served false 0 0 1 threads uncut events.
Proof.
  intros [|[|[|i]]]; cbn [threads lookup list_lookup thread_run]; [| | |reflexivity].
  - replace (select 0 events) with calls0 by reflexivity.
    apply (thread_client_run (O := demo_plain 0) false 5 demo_start);
      [apply plain_allocs_succeed|reflexivity..|by apply one_line_ok|vm_compute; reflexivity].
  - replace (select 1 events) with calls1 by reflexivity.
    apply (thread_client_run (O := cancel_os (demo_plain 1)) (L := cancel_os_laws) false 6 (world2, Some 5%nat));
      [apply cancel_allocs_succeed, plain_allocs_succeed|reflexivity..|by apply one_line_ok
      |vm_compute; reflexivity].
  - replace (select 2 events) with calls2 by reflexivity. split; [done|]. split; [done|].
    apply (timer_trace_run (O := demo_plain 2) (replicate 120 7) world0);
      [reflexivity|apply demo_date|reflexivity|vm_compute; reflexivity].
Qed.

Lemma events_well : Forall (λ e : event, well e.2) events.
Proof. repeat (apply Forall_cons; split; [by split_and!|]). by apply Forall_nil. Qed.

Lemma clients_share_serial_log_witness :
  let w := world_after demo_start events in
  pf_file w = [97; 10] ++ str "timestamp:Mon" ++ [10; 98; 10]
  ∧ ∃ ms, pf_file w = logged (F := demo_file) [] ms
    ∧ (∀ i, match threads !! i with Some th => said th (select i ms) | None => select i ms = [] end)
    ∧ (∀ i, sent_bytes (select i events)
            `prefix_of` concat (select i (answers (F := demo_file) [] ms)))
    ∧ ∀ i chunks, finished false 0 0 1 threads uncut events i chunks →
        select i ms = frames [] chunks
        ∧ sent_bytes (select i events) = concat (select i (answers (F := demo_file) [] ms)).
Proof.
  split; [vm_compute; reflexivity|].
  refine (clients_share_serial_log false (F := demo_file) (FL := plain_file_laws all_sent) 0 0 1
    threads uncut demo_start events (world_after demo_start events) _ events_exec _ _ events_well _).
  - apply demo_start_ready. repeat (apply Forall_cons; split; [auto|]). by apply Forall_nil.
  - apply served_serving, events_served.
  - repeat (apply Forall_cons; split; [by left|]). apply Forall_singleton. exact I.
  - intros _. apply undisturbed_computed. vm_compute. reflexivity.
Defined.

(** The second client's last call is the unlock of [connection_cleanup]. *)
Lemma lock_is_free_in_the_end_witness :
  uncut <$> [0; 1; 2]%nat = [true; false; true]
  ∧ ts_owner (System := demo_system) (world_after demo_start events) 1 = None.
Proof.
  split; [reflexivity|].
  refine (lock_is_free_in_the_end (S := demo_system) false 0 0 1 threads uncut demo_start events
    (world_after demo_start events) events_exec eq_refl events_served _).
  intros [|[|[|i]]] Hi; [by left| |by left|by destruct Hi].
  right. exists (removelast calls1), (Ans 0 []). vm_compute. reflexivity.
Defined.

(** *** Two clients at once *)

Definition racers : list thread := [Client 5 [[97; 10]]; Client 6 [[98; 10]]].

(** The calls of the first client, which gets to the end of the file and then waits. *)
Definition racer1 : list (call * answer) :=
  Eval vm_compute in (thread_trace (O := demo_plain 0) false 5 demo_start).1.

Definition race_middle : pf_world :=
  Eval vm_compute in world_after demo_start (tag 0 (take 3 racer1)).

(** The calls of the second one, in the meantime. *)
Definition racer2 : list (call * answer) :=
  Eval vm_compute in (thread_trace (O := demo_plain 1) false 6 race_middle).1.

Definition race : list event := tag 0 (take 3 racer1) ++ tag 1 racer2 ++ tag 0 (drop 3 racer1).

Definition race_end : pf_world := world_after demo_start race.

Lemma race_exec : exec (S := demo_system) demo_start race race_end.
Proof. eapply (replay_exec (S := demo_system) demo_start []); [constructor|]. vm_compute. reflexivity. Qed.

Lemma race_served : served false 0 0 1 racers (λ _, true) race.
Proof.
  intros [|[|i]]; cbn [racers lookup list_lookup thread_run]; [| |reflexivity].
  - replace (select 0 race) with racer1 by reflexivity.
    apply (thread_client_run (O := demo_plain 0) false 5 demo_start);
      [apply plain_allocs_succeed|reflexivity..|by apply one_line_ok|vm_compute; reflexivity].
  - replace (select 1 race) with racer2 by reflexivity.
    apply (thread_client_run (O := demo_plain 1) false 6 race_middle);
      [apply plain_allocs_succeed|reflexivity..|by apply one_line_ok|vm_compute; reflexivity].
Qed.

Lemma race_well : Forall (λ e : event, well e.2) race.
Proof. repeat (apply Forall_cons; split; [by split_and!|]). by apply Forall_nil. Qed.

(** One order [ms] of all messages of the clients, in which every client has its own in
    the order it sent them. *)
Definition one_order (clients : list thread) (ms : list (nat * list Z)) : Prop :=
  ∀ i, select i ms = match clients !! i with
                     | Some (Client _ chunks) => frames [] chunks
                     | _ => []
                     end.

Lemma in_order_in_file ms i msg x :
  msg ∈ select i ms → x ∈ msg → x ∈ logged (F := demo_file) [] ms.
Proof.
  intros Hm Hx. unfold logged. cbn. rewrite foldl_app_concat. cbn.
  induction ms as [|[j l] ms IH]; cbn in *; [by apply elem_of_nil in Hm|].
  apply elem_of_app. destruct (decide (j = i)) as [->|]; [|right; auto].
  apply elem_of_cons in Hm as [->|Hm]; [by left|right; auto].
Qed.

(** C6: in the build without the char device a message can be lost.  Two handlers run to
    their ends, no call fails, every write is complete, and the lock is used as it
    should be; but both went to the end of the file before either took the lock, so the
    second write replaces the first one's message: no order of the two messages explains
    what the file holds. *)
Theorem plain_file_loses_message :
  ready (F := demo_file) 1 racers demo_start
  ∧ exec (S := demo_system) demo_start race race_end
  ∧ served false 0 0 1 racers (λ _, true) race
  ∧ Forall (λ e : event, well e.2) race
  ∧ pf_file race_end = [97; 10]
  ∧ ¬ ∃ ms, one_order racers ms
        ∧ pf_file race_end = logged (F := demo_file) (pf_file demo_start) ms.
Proof.
  split; [by apply demo_start_ready; repeat (apply Forall_cons; split; [auto|])|].
  split; [apply race_exec|]. split; [apply race_served|].
  split; [apply race_well|]. split; [reflexivity|]. intros (ms & Hone & Hf).
  change (pf_file demo_start) with (@nil Z) in Hf.
  assert (98 ∈ pf_file race_end) as Hin.
  { rewrite Hf. apply (in_order_in_file ms 1 [98; 10]); [|apply list_elem_of_here].
    rewrite (Hone 1%nat). apply list_elem_of_here. }
  change (pf_file race_end) with [97; 10] in Hin.
  apply elem_of_cons in Hin as [?|Hin]; [done|]. by apply list_elem_of_singleton in Hin.
Qed.

Lemma plain_serves_client_witness :
  returns (connnection_handler false 0 0 40) (thread_start (O := demo_plain 0) 5 demo_start)
    (λ _ s', ∃ evs, p_trace s' = [] ++ evs
      ∧ (Forall well evs →
         pf_file (p_world (s' : @pstate (demo_plain 0) server)) = [97; 10]
         ∧ sent_bytes evs = [97; 10])).
Proof.
  refine (plain_serves_client all_sent 0 0 (thread_start (O := demo_plain 0) 5 demo_start)
    40 16 (thread_conn 5) (thread_ready (O := demo_plain 0) 5 demo_start eq_refl) eq_refl _ eq_refl _ _).
  - by apply (one_line_ok (O := demo_plain 0) false 97).
  - intros fd _. done.
  - by eexists.
Defined.

End Demo.
