(* ===== verification/ConnList.v ===== *)
(** * The list of connections

    What [cleanup_term_conn] and [accept_conn] of [server/aesdsocket.c] do with the list of
    connections and with the memory its elements own. *)

From Stdlib Require Import String.
From S2P Require Import Prelude Memory Kernel AesdIoctl CString Posix SimOS DataFile SList.
From S2P Require Import Server.

(** ** Ended connections *)

(** The elements whose join succeeded, and the others. *)
Fixpoint ended (items : list Z) (answers : list answer) : list Z :=
  match items, answers with
  | x :: items, a :: answers => if rc a =? 0 then x :: ended items answers else ended items answers
  | _, _ => []
  end.

Fixpoint running (items : list Z) (answers : list answer) : list Z :=
  match items, answers with
  | x :: items, a :: answers =>
      if rc a =? 0 then running items answers else x :: running items answers
  | _, _ => []
  end.

(** The memory after the elements [xs] and the connections they point to are freed. *)
Fixpoint freed (info : Z → clientconn_info) (h : heap) (xs : list Z) : heap :=
  match xs with
  | [] => h
  | x :: xs => freed info (delete x (delete (ref (info x)) h)) xs
  end.

Fixpoint forgotten {A} (m : gmap Z A) (xs : list Z) : gmap Z A :=
  match xs with [] => m | x :: xs => forgotten (delete x m) xs end.

Definition join_call (await_termination tid : Z) : call :=
  if negb (await_termination =? 0) then Cthread_join tid else Cthread_tryjoin tid.

Section Cleanup.
Context {O : OS} {L : OSLaws O} {N : Uncancelled O}.
Variable info : Z → clientconn_info.
Variable await : Z.

(** The elements [items] are allocated, as the connections they point to, and all of
    these are different objects. *)
Record list_owned (s : pstate server) (items : list Z) : Prop := {
  owned_infos : ∀ x, x ∈ items → infos (p_vars s) !! x = Some (info x);
  owned_live : ∀ x, x ∈ items →
    is_Some (p_heap s !! x) ∧ ref (info x) ≠ 0 ∧ is_Some (p_heap s !! ref (info x));
  owned_distinct : NoDup (items ++ ((ref ∘ info) <$> items))
}.

(** The variables of the main loop, and the mutexes of the thread, are as before. *)
Definition same_scalars (s s' : pstate server) : Prop :=
  server_fd (p_vars s') = server_fd (p_vars s) ∧ timer_id (p_vars s') = timer_id (p_vars s)
  ∧ stopApp (p_vars s') = stopApp (p_vars s)
  ∧ ∀ m, owns (p_world s') m = owns (p_world s) m.

Lemma same_scalars_refl s : same_scalars s s.
Proof. done. Qed.

Lemma same_scalars_trans s1 s2 s3 :
  same_scalars s1 s2 → same_scalars s2 s3 → same_scalars s1 s3.
Proof.
  intros (H1 & H2 & H3 & H4) (G1 & G2 & G3 & G4).
  split_and!; [congruence..|]. intros m. by rewrite G4.
Qed.

Lemma join_owns c tid w a w' :
  c = Cthread_join tid ∨ c = Cthread_tryjoin tid → sys w c = (a, w') →
  ∀ m, owns w' m = owns w m.
Proof. intros Hc H m. eapply owns_frame; [|done]. by destruct Hc as [-> | ->]. Qed.

(** What the loop leaves of [s] when it has gone through [items]. *)
Definition cleaned (s : pstate server) (pre items : list Z) (s' : pstate server) : Prop :=
  ∃ answers, length answers = length items
    ∧ p_trace s' = p_trace s ++ zip ((λ x, join_call await (thread_id (info x))) <$> items) answers
    ∧ sl_rep (connections (p_vars s')) (pre ++ running items answers)
    ∧ p_heap s' = freed info (p_heap s) (ended items answers)
    ∧ infos (p_vars s') = forgotten (infos (p_vars s)) (ended items answers)
    ∧ conns (p_vars s') = forgotten (conns (p_vars s)) ((ref ∘ info) <$> ended items answers)
    ∧ same_scalars s s'.

Lemma seg_next next p pre x rest :
  seg next p (pre ++ x :: rest) 0 → x ≠ 0 ∧ next !! x = Some (hd 0 rest).
Proof.
  intros H. apply seg_app in H as (r & _ & (-> & Hx & r' & Hr & Hs)). split; [done|].
  rewrite Hr. f_equal. destruct rest; [done|]. by destruct Hs as (-> & _).
Qed.

Lemma list_owned_tail s x items :
  list_owned s (x :: items) →
  ∀ s', p_heap s' = delete x (delete (ref (info x)) (p_heap s)) →
  infos (p_vars s') = delete x (infos (p_vars s)) → list_owned s' items.
Proof.
  intros [H1 H2 H3] s' Hh Hi. cbn in H3. apply NoDup_cons in H3 as [Hx H3].
  assert (NoDup (items ++ ((ref ∘ info) <$> items)) ∧ ref (info x) ∉ items
          ∧ ref (info x) ∉ ((ref ∘ info) <$> items)) as (Hnd & Hr1 & Hr2).
  { apply NoDup_app in H3 as (G1 & G2 & G3). apply NoDup_cons in G3 as [G3 G4].
    split_and!; [apply NoDup_app; split_and!; [done| |done]|intros Hin|done].
    - intros y Hy Hy'. by apply (G2 y Hy), list_elem_of_further.
    - apply (G2 _ Hin), list_elem_of_here. }
  assert (∀ y, y ∈ items → x ≠ y ∧ x ≠ ref (info y) ∧ ref (info x) ≠ y
            ∧ ref (info x) ≠ ref (info y)) as Hne.
  { intros y Hy. assert (ref (info y) ∈ (ref ∘ info) <$> items) as Hry
      by (by apply (list_elem_of_fmap_2 (ref ∘ info))).
    split_and!; intros Heq.
    - apply Hx. rewrite Heq. by apply elem_of_app; left.
    - apply Hx. rewrite Heq. apply elem_of_app. right. by apply list_elem_of_further.
    - by rewrite Heq in Hr1.
    - by rewrite Heq in Hr2. }
  split; [| |done].
  - intros y Hy. rewrite Hi, lookup_delete_ne by by apply Hne.
    by apply H1, list_elem_of_further.
  - intros y Hy. destruct (Hne y Hy) as (N1 & N2 & N3 & N4).
    destruct (H2 y (list_elem_of_further _ _ _ Hy)) as (G1 & G2 & G3).
    rewrite Hh, !lookup_delete_ne by done. done.
Qed.

Lemma free_info_conn s x (Q : unit → pstate server → Prop) :
  x ≠ 0 → ref (info x) ≠ 0 → is_Some (p_heap s !! x) → is_Some (p_heap s !! ref (info x)) →
  ref (info x) ≠ x →
  (∀ s', p_heap s' = delete x (delete (ref (info x)) (p_heap s)) → p_world s' = p_world s →
     p_trace s' = p_trace s →
     connections (p_vars s') = SL (slh_first (connections (p_vars s)))
                                  (delete x (sle_next (connections (p_vars s)))) →
     infos (p_vars s') = delete x (infos (p_vars s)) →
     conns (p_vars s') = delete (ref (info x)) (conns (p_vars s)) → same_scalars s s' → Q () s') →
  returns (_ ← free_conn (ref (info x)); free_info x) s Q.
Proof.
  intros Hx Hr [b Hb] [b' Hb'] Hne HQ. unfold free_conn, free_info, modify.
  prog_step. prog_step. eapply returns_free; [done|done|]. prog_step. prog_step. prog_step.
  prog_step. eapply returns_free; [done|cbn; by rewrite lookup_delete_ne|].
  prog_step. prog_step. prog_step. by apply HQ.
Qed.

Lemma cleanup_loop_spec items pre fuel s :
  (length items < fuel)%nat → sl_rep (connections (p_vars s)) (pre ++ items) →
  list_owned s items →
  returns (cleanup_loop fuel await (hd 0 items)) s (λ _ s', cleaned s pre items s').
Proof.
  revert pre fuel s. induction items as [|x items IH]; intros pre fuel s Hf Hrep Hown;
    (destruct fuel as [|fuel]; [cbn in Hf; lia|]); cbn [cleanup_loop hd].
  - cbn [Z.eqb]. prog_step. exists []. split; [done|]. cbn. rewrite app_nil_r. by split_and!.
  - destruct (seg_next _ _ _ _ _ (proj1 Hrep)) as [Hx Hnext].
    rewrite (proj2 (Z.eqb_neq _ _) Hx). prog_step. prog_step. prog_step.
    eapply returns_lift; [by apply SLIST_NEXT_Some|]. prog_step.
    pose proof Hown as [H1 H2 H3]. destruct (H2 x (list_elem_of_here _ _)) as (Hl1 & Hr0 & Hl2).
    eapply returns_lift.
    { unfold deref. rewrite (proj2 (Z.eqb_neq _ _) Hx).
      by rewrite (H1 x (list_elem_of_here _ _)). }
    prog_step. prog_step. fold (join_call await (thread_id (info x))) in *.
    set (s1 := after _ _ _ _).
    assert (same_scalars s s1) as Hsc1.
    { split_and!; try done. eapply (join_owns _ (thread_id (info x))); [|exact H].
      unfold join_call. destruct (negb _); [by left|by right]. }
    destruct (rc a =? 0) eqn:Ea.
    + destruct (remove_rep _ _ _ _ Hrep) as (l' & Hrem & Hrep' & _).
      prog_step. prog_step. eapply returns_lift; [done|]. prog_step. unfold modify at 1.
      prog_step. prog_step. prog_step. set (s2 := PState _ _ _ _).
      assert (ref (info x) ≠ x) as Hne.
      { cbn in H3. apply NoDup_cons in H3 as [H3 _]. intros Heq. apply H3.
        rewrite <- Heq at 1. apply elem_of_app. right. apply list_elem_of_here. }
      apply (free_info_conn s2 x); [exact Hx|exact Hr0|exact Hl1|exact Hl2|exact Hne|].
      intros s3 Hh3 Hw3 Ht3 Hc3 Hi3 Hcn3 Hsc3.
      assert (list_owned s3 items) as Hown3 by by eapply (list_owned_tail s2 x).
      eapply returns_weaken; [apply (IH pre fuel s3); [cbn in Hf; lia| |done]|].
      { rewrite Hc3. apply release_rep; [done|]. destruct Hrep as [_ Hnd].
        apply NoDup_app in Hnd as (_ & Hd & Hnd). apply NoDup_cons in Hnd as [Hnd _].
        intros Hin. apply elem_of_app in Hin as [Hin|Hin]; [|done].
        apply (Hd x Hin), list_elem_of_here. }
      intros _ s4 (answers & Hlen & Ht & Hrep4 & Hh & Hi & Hcn & Hsc).
      exists (a :: answers). cbn. rewrite Ea. split; [by rewrite Hlen|].
      split; [rewrite Ht, Ht3; cbn; by rewrite <- app_assoc|]. split; [done|].
      rewrite Hh, Hh3, Hi, Hi3, Hcn, Hcn3. split_and!; [done..|].
      apply (same_scalars_trans _ s1); [done|]. by apply (same_scalars_trans _ s3).
    + prog_step. prog_step. rewrite (app_assoc pre [x] items : pre ++ x :: items = _) in Hrep.
      eapply returns_weaken; [apply (IH (pre ++ [x]) fuel s1); [cbn in Hf; lia|done|]|].
      { cbn in H3. apply NoDup_cons in H3 as [_ H3]. split.
        - intros y Hy. by apply H1, list_elem_of_further.
        - intros y Hy. by apply H2, list_elem_of_further.
        - apply NoDup_app in H3 as (G1 & G2 & G3). apply NoDup_cons in G3 as [_ G3].
          apply NoDup_app. split_and!; [done| |done].
          intros y Hy Hy'. by apply (G2 y Hy), list_elem_of_further. }
      intros _ s4 (answers & Hlen & Ht & Hrep4 & Hh & Hi & Hcn & Hsc).
      exists (a :: answers). cbn. rewrite Ea. split; [by rewrite Hlen|].
      split; [rewrite Ht; cbn; by rewrite <- app_assoc|].
      split; [by rewrite <- app_assoc in Hrep4|]. split_and!; [done..|].
      by apply (same_scalars_trans _ s1).
Qed.

End Cleanup.

Lemma cleanup_term_conn_spec {O : OS} {L : OSLaws O} {N : Uncancelled O} info await s items
    (Hrep : sl_rep (connections (p_vars s)) items) (Hown : list_owned info s items) :
  returns (cleanup_term_conn await) s (λ _ s', cleaned info await s [] items s').
Proof.
  unfold cleanup_term_conn. prog_step. prog_step. unfold SLIST_FIRST.
  destruct Hrep as [Hs Hnd]. assert (slh_first (connections (p_vars s)) = hd 0 items) as ->.
  { destruct items; [done|]. by destruct Hs as (-> & _). }
  apply cleanup_loop_spec; [|done|done]. pose proof (seg_size _ _ _ _ Hnd Hs). lia.
Qed.

(** C25: [cleanup_term_conn] joins the connections in the order of the list, takes
    out exactly those whose join succeeds and keeps the others in their order; the
    elements taken out and their connections are freed, and nothing else; no
    element is used after it was freed. *)
Theorem cleanup_removes_ended {O : OS} {L : OSLaws O} {N : Uncancelled O} info await s items
    (Hrep : sl_rep (connections (p_vars s)) items) (Hown : list_owned info s items) :
  returns (cleanup_term_conn await) s (λ _ s', cleaned info await s [] items s').
Proof.
  by apply cleanup_term_conn_spec.
Qed.

(** Three connections, of which the second has ended. *)
Definition three_info (x : Z) : clientconn_info := Info (x + 100) (x + 1).

Definition three_server : server :=
  Server 3 0 0 (SL 10 (<[10 := 20]> (<[20 := 30]> (<[30 := 0]> ∅))))
    (<[10 := three_info 10]> (<[20 := three_info 20]> (<[30 := three_info 30]> ∅))) ∅ ∅.

Definition three_os : OS :=
  sim_os (object_max - 1) (λ c, if decide (c = Cthread_tryjoin 120) then Ans 0 [] else Ans 16 []).

Definition three_heap : heap :=
  <[10 := Block 24 []]> (<[11 := Block 40 []]> (<[20 := Block 24 []]> (<[21 := Block 40 []]>
    (<[30 := Block 24 []]> (<[31 := Block 40 []]> ∅))))).

Definition three_process : @pstate three_os server :=
  @PState three_os server three_heap (SimWorld ∅ [] 0 []) [] three_server.

Lemma three_rep : sl_rep (connections (p_vars three_process)) [10; 20; 30].
Proof.
  split; [|apply (bool_decide_unpack _); reflexivity].
  cbn. split_and!; try done. exists 20. split_and!; try done.
  exists 30. split_and!; try done. by exists 0.
Qed.

Lemma three_owned : list_owned three_info three_process [10; 20; 30].
Proof.
  split; [| |apply (bool_decide_unpack _); reflexivity];
    intros x Hx; repeat (apply elem_of_cons in Hx as [->|Hx]); try by apply elem_of_nil in Hx.
  all: try done. all: split_and!; [by eexists|done|by eexists].
Qed.

Lemma cleanup_removes_ended_witness :
  sl_rep (connections (p_vars three_process)) [10; 20; 30]
  ∧ list_owned three_info three_process [10; 20; 30]
  ∧ returns (cleanup_term_conn 0) three_process
      (λ _ s', cleaned three_info 0 three_process [] [10; 20; 30] s').
Proof.
  split; [apply three_rep|]. split; [apply three_owned|].
  exact (cleanup_removes_ended (L := sim_os_laws (object_max - 1) _ eq_refl)
           three_info 0 three_process [10; 20; 30] three_rep three_owned).
Defined.
