(* ===== verification/Lifetime.v ===== *)
(** * The threads that the main thread creates

    The calls of the main thread as an automaton: [lnext].  Its state is the multiset of
    the threads that it created and has not joined, and whether every [pthread_join] so far
    succeeded.  A thread is cancelled and joined only while it is in the multiset, since its
    identifier means nothing afterwards and may be used again for another thread; the lock is
    initialised only when the multiset is empty, and destroyed only when it is empty or a
    join failed: the code does not look at what [pthread_join] answers; and the main thread
    makes none of the calls that serve a client.  [lives] states that the calls a program
    made are a run of it. *)

From stdpp Require Import gmultiset.
From S2P Require Import Prelude Memory Kernel AesdIoctl CString Posix SimOS DataFile SList.
From S2P Require Import Server ConnList.

Abbreviation threads_alive := (gmultiset Z).

Lemma alive_remove (t x : Z) (live : threads_alive) : t ∈ live → t ≠ x → t ∈ live ∖ {[+ x +]}.
Proof. intros. multiset_solver. Qed.

Lemma remove_first (t : Z) (l rest : threads_alive) : (({[+ t +]} ⊎ l) ⊎ rest) ∖ {[+ t +]} = l ⊎ rest.
Proof. multiset_solver. Qed.

Lemma first_last (t : Z) (l rest : threads_alive) : ({[+ t +]} ⊎ l) ⊎ rest = l ⊎ ({[+ t +]} ⊎ rest).
Proof. multiset_solver. Qed.

(** The calls of the handlers and of the timer. *)
Definition serves_client (c : call) : bool :=
  match c with
  | Cread _ _ | Cwrite _ _ | Cioctl _ _ _ | Crecv _ _ | Csend _ _ | Cmutex_lock _
  | Cmutex_unlock _ => true
  | _ => false
  end.

(** The calls that concern neither a thread nor the lock. *)
Definition plain_call (c : call) : bool :=
  match c with
  | Cthread_create _ | Cthread_join _ | Cthread_tryjoin _ | Cthread_cancel _ | Cmutex_init _
  | Cmutex_destroy _ => false
  | _ => negb (serves_client c)
  end.

(** The threads that are alive, and whether no join failed. *)
Abbreviation main_state := (threads_alive * bool)%type.

Definition lnext (st : main_state) (e : call * answer) : option main_state :=
  let '(live, joins_ok) := st in
  let '(c, a) := e in
  match c with
  | Cthread_create _ =>
      Some (if rc a =? 0 then {[+ hd 0 (out a) +]} ⊎ live else live, joins_ok)
  | Cthread_join t =>
      if decide (t ∈ live)
      then Some (if rc a =? 0 then (live ∖ {[+ t +]}, joins_ok) else (live, false)) else None
  | Cthread_tryjoin t =>
      if decide (t ∈ live)
      then Some (if rc a =? 0 then live ∖ {[+ t +]} else live, joins_ok) else None
  | Cthread_cancel t => if decide (t ∈ live) then Some st else None
  | Cmutex_init _ => if decide (live = ∅) then Some st else None
  | Cmutex_destroy _ => if decide (live = ∅ ∨ joins_ok = false) then Some st else None
  | c => if serves_client c then None else Some st
  end.

Fixpoint lrun (st : main_state) (evs : list (call * answer)) : option main_state :=
  match evs with
  | [] => Some st
  | e :: evs => match lnext st e with Some st' => lrun st' evs | None => None end
  end.

Lemma lrun_app st e1 e2 :
  lrun st (e1 ++ e2) = match lrun st e1 with Some st' => lrun st' e2 | None => None end.
Proof.
  revert st. induction e1 as [|e e1 IH]; intros st; cbn; [done|]. by destruct (lnext st e).
Qed.

Lemma lnext_plain st c a : plain_call c = true → lnext st (c, a) = Some st.
Proof. destruct st. by destruct c. Qed.

Lemma lrun_plain st evs : Forall (λ c, plain_call c = true) evs.*1 → lrun st evs = Some st.
Proof.
  induction evs as [|[c a] evs IH]; intros H; [done|].
  apply Forall_cons in H as [Hc H]. cbn [lrun]. rewrite lnext_plain by done. by apply IH.
Qed.

Lemma lrun_cancels live ok evs :
  Forall (λ c, ∃ t, c = Cthread_cancel t ∧ t ∈ live) evs.*1 → lrun (live, ok) evs = Some (live, ok).
Proof.
  induction evs as [|[c a] evs IH]; intros H; [done|].
  apply Forall_cons in H as [(t & Hc & Ht) H]. cbn in Hc. subst c. cbn.
  rewrite decide_True by done. by apply IH.
Qed.

(** ** What the automaton allows *)

(** A [pthread_join] that succeeds; other calls may fail. *)
Definition joined (e : call * answer) : Prop :=
  match e.1 with Cthread_join _ => rc e.2 = 0 | _ => True end.

(** The second component of the state is what it says. *)
Lemma lrun_joins_ok st evs st' :
  lrun st evs = Some st' → Forall joined evs → st'.2 = st.2.
Proof.
  revert st. induction evs as [|[c a] evs IH]; intros [live ok] H Hj.
  { cbn in H. by injection H as <-. }
  apply Forall_cons in Hj as [Hc Hj]. cbn [lrun] in H.
  destruct (lnext (live, ok) (c, a)) as [st1|] eqn:Hn; [|done]. rewrite (IH _ H Hj).
  destruct c; cbn [lnext serves_client] in Hn; try discriminate Hn;
    try match type of Hn with (if ?d then _ else _) = _ => destruct d; [|discriminate Hn] end;
    injection Hn as <-; try done. cbn in Hc. by rewrite Hc.
Qed.

(** A thread that is no longer alive was joined. *)
Lemma lrun_joined t st evs st' :
  lrun st evs = Some st' → t ∈ st.1 → t ∉ st'.1 →
  ∃ e1 c a e2, evs = e1 ++ (c, a) :: e2 ∧ c ∈ [Cthread_join t; Cthread_tryjoin t] ∧ rc a = 0.
Proof.
  revert st. induction evs as [|[c a] evs IH]; intros [live ok] H Hin Hout.
  { cbn in H. by injection H as <-. }
  cbn [lrun] in H. destruct (lnext (live, ok) (c, a)) as [st1|] eqn:Hn; [|done].
  destruct (decide (t ∈ st1.1)) as [Hl|Hl].
  - destruct (IH st1 H Hl Hout) as (e1 & c' & a' & e2 & -> & Hc & Ha).
    by exists ((c, a) :: e1), c', a', e2.
  - exists [], c, a, evs. split; [done|]. cbn [fst] in Hin.
    destruct c; cbn [lnext serves_client] in Hn; try discriminate Hn;
      try match type of Hn with (if ?d then _ else _) = _ => destruct d; [|discriminate Hn] end;
      injection Hn as <-; try done; destruct (Z.eqb_spec (rc a) 0); try done; cbn [fst] in Hl.
    + exfalso. by apply Hl, gmultiset_elem_of_disj_union; right.
    + destruct (decide (tid = t)) as [->|]; [split; [left|done]|by exfalso; apply Hl, alive_remove].
    + destruct (decide (tid = t)) as [->|]; [split; [right; left|done]|by exfalso; apply Hl, alive_remove].
Qed.

(** ** Programs *)

Section Lives.
Context {O : OS} {V : Type}.
Implicit Types s : pstate V.

(** The calls from [s] to [s'] are a run of the automaton. *)
Definition lives (s : pstate V) (st : main_state) (s' : pstate V) (st' : main_state) : Prop :=
  ∃ evs, p_trace s' = p_trace s ++ evs ∧ lrun st evs = Some st'.

Lemma lives_same s live s' : p_trace s' = p_trace s → lives s live s' live.
Proof. intros H. exists []. by rewrite app_nil_r. Qed.

Lemma lives_trans s1 l1 s2 l2 s3 l3 : lives s1 l1 s2 l2 → lives s2 l2 s3 l3 → lives s1 l1 s3 l3.
Proof.
  intros (e1 & Ht1 & H1) (e2 & Ht2 & H2). exists (e1 ++ e2).
  split; [by rewrite Ht2, Ht1, app_assoc|]. by rewrite lrun_app, H1.
Qed.

Lemma lives_call s live c a w live' : lnext live (c, a) = Some live' → lives s live (after s c a w) live'.
Proof. intros H. exists [(c, a)]. split; [done|]. cbn [lrun]. by rewrite H. Qed.

Lemma lives_plain_call s live c a w : plain_call c = true → lives s live (after s c a w) live.
Proof. intros H. by apply lives_call, lnext_plain. Qed.

(** However the program ends, its calls are a run that leads back to [live]. *)
Variable live : main_state.

Definition keeps_alive {A} (p : prog V A) : Prop := ∀ s o s', p s = Ok (o, s') → lives s live s' live.

Lemma alive_quiet {A} (p : prog V A) :
  (∀ s o s', p s = Ok (o, s') → p_trace s' = p_trace s) → keeps_alive p.
Proof. intros H s o s' E. by eapply lives_same, H. Qed.

Lemma alive_ret {A} (a : A) : keeps_alive (mret a).
Proof. apply alive_quiet. by intros s o s' [= <- <-]. Qed.

Lemma alive_exit {A} code : keeps_alive (exit (A := A) code).
Proof. apply alive_quiet. by intros s o s' [= <- <-]. Qed.

Lemma alive_get_vars : keeps_alive (get_vars (V := V)).
Proof. apply alive_quiet. by intros s o s' [= <- <-]. Qed.

Lemma alive_set_vars v : keeps_alive (set_vars (V := V) v).
Proof. apply alive_quiet. by intros s o s' [= <- <-]. Qed.

Lemma alive_bind {A B} (p : prog V A) (f : A → prog V B) :
  keeps_alive p → (∀ a, keeps_alive (f a)) → keeps_alive (p ≫= f).
Proof.
  intros Hp Hf s o s' E. unfold mbind, prog_bind in E.
  destruct (p s) as [[[a|code| |path args] s1]|f'] eqn:Ep; simplify_eq; try by eapply Hp.
  eapply lives_trans; [by eapply Hp|by eapply Hf].
Qed.

(** A call that leads back to [live]. *)
Lemma alive_syscall_at c : (∀ a, lnext live (c, a) = Some live) → keeps_alive (syscall (V := V) c).
Proof.
  intros Hc s o s' E. unfold syscall in E.
  destruct (_ && _); [injection E as <- <-; by apply lives_same|].
  destruct (sys (p_world s) c) as [a w]. injection E as <- <-. by apply lives_call.
Qed.

Lemma alive_syscall c : plain_call c = true → keeps_alive (syscall (V := V) c).
Proof. intros Hc. apply alive_syscall_at. intros a. by apply lnext_plain. Qed.

End Lives.

Create HintDb keeps_alive.
#[export] Hint Resolve alive_ret alive_exit alive_get_vars alive_set_vars alive_syscall
  : keeps_alive.

(** [plain_step] takes a program apart. *)
Ltac plain_step :=
  match goal with
  | |- keeps_alive _ (_ ≫= _) => apply alive_bind
  | |- keeps_alive _ (if ?b then _ else _) => destruct b
  | |- keeps_alive _ (match ?x with _ => _ end) => destruct x
  | |- ∀ _, _ => intros ?
  | |- keeps_alive _ _ => solve [auto with keeps_alive]
  end.

Lemma alive_do_call {O : OS} {V} live c : plain_call c = true → keeps_alive live (do_call (V := V) c).
Proof. intros Hc. unfold do_call. repeat plain_step. Qed.
#[export] Hint Resolve alive_do_call : keeps_alive.

(** ** The parts of the server that create no thread *)

Section Server.
Context {O : OS}.
Variables (dev : bool) (live : main_state).

Lemma alive_open : keeps_alive live (open_datafile (V := server) dev).
Proof. unfold open_datafile. repeat plain_step. Qed.

Lemma alive_close fd : keeps_alive live (close_datafile (V := server) fd).
Proof. unfold close_datafile. repeat plain_step. Qed.

Lemma alive_destroy : keeps_alive live (destroy_datafile (V := server) dev).
Proof. unfold destroy_datafile. repeat plain_step. Qed.
#[local] Hint Resolve alive_destroy : keeps_alive.

Lemma alive_give_up {A} : keeps_alive live (give_up_start (A := A) dev).
Proof. unfold give_up_start, cleanup. repeat plain_step. Qed.

Lemma alive_make_daemon : keeps_alive live make_daemon.
Proof. unfold make_daemon. repeat plain_step. Qed.
#[local] Hint Resolve alive_give_up alive_make_daemon : keeps_alive.

Lemma alive_start_server port daemon : keeps_alive live (start_server dev port daemon).
Proof. unfold start_server. repeat plain_step. Qed.

Lemma alive_register : keeps_alive live register_sighandlers.
Proof. unfold register_sighandlers. repeat plain_step. Qed.

Lemma alive_create_timer : keeps_alive live create_timer.
Proof. unfold create_timer, modify. repeat plain_step. Qed.

End Server.

#[export] Hint Resolve alive_open alive_close alive_start_server alive_register
  alive_create_timer : keeps_alive.

(** The lock is initialised before there is a thread. *)
Lemma alive_main_setup {O : OS} dev argv : keeps_alive (∅, true) (main_setup dev argv).
Proof.
  assert (keeps_alive (∅, true) (do_call (V := server) (Cmutex_init the_mutex))) as Hinit.
  { unfold do_call. apply alive_bind; [by apply alive_syscall_at|repeat plain_step]. }
  unfold main_setup, modify. repeat plain_step.
Qed.

(** ** The list of connections *)

(** The threads of the elements [items] of the list. *)
Definition tids (info : Z → clientconn_info) (items : list Z) : threads_alive :=
  list_to_set_disj ((thread_id ∘ info) <$> items).

Lemma tids_cons info x items : tids info (x :: items) = {[+ thread_id (info x) +]} ⊎ tids info items.
Proof. done. Qed.

Lemma tids_ext info info' items :
  (∀ x, x ∈ items → info' x = info x) → tids info' items = tids info items.
Proof.
  intros H. unfold tids. f_equal. apply list_fmap_ext. intros i x Hx. cbn.
  rewrite H; [done|]. by eapply list_elem_of_lookup_2.
Qed.

Lemma tids_elem info items x : x ∈ items → thread_id (info x) ∈ tids info items.
Proof.
  intros H. apply elem_of_list_to_set_disj. by apply (list_elem_of_fmap_2 (thread_id ∘ info)).
Qed.

(** Whether all joins succeeded, when they were asked for with [await]. *)
Definition all_joined (await : Z) (answers : list answer) : bool :=
  (await =? 0) || forallb (λ a, rc a =? 0) answers.

(** The joins of the elements take the ended threads out; [rest]: of other elements. *)
Lemma joins_live info await items answers rest ok :
  length answers = length items →
  lrun (tids info items ⊎ rest, ok)
    (zip ((λ x, join_call await (thread_id (info x))) <$> items) answers)
  = Some (tids info (running items answers) ⊎ rest, ok && all_joined await answers).
Proof.
  revert answers rest ok. induction items as [|x items IH]; intros [|a answers] rest ok Hl; try done.
  { cbn. unfold all_joined. cbn. by rewrite orb_true_r, andb_true_r. }
  cbn [running fmap list_fmap zip zip_with lrun]. rewrite tids_cons. set (t := thread_id (info x)).
  assert (∀ live, t ∈ live → lnext (live, ok) (join_call await t, a)
    = Some (if rc a =? 0 then live ∖ {[+ t +]} else live, ok && ((await =? 0) || (rc a =? 0)))) as ->.
  { intros live Ht. unfold join_call. destruct (await =? 0); cbn; rewrite decide_True by done.
    - by rewrite andb_true_r.
    - destruct (rc a =? 0); by rewrite ?andb_true_r, ?andb_false_r. }
  2: { rewrite !gmultiset_elem_of_disj_union, gmultiset_elem_of_singleton. auto. }
  cbn in Hl. assert (ok && all_joined await (a :: answers)
    = ok && ((await =? 0) || (rc a =? 0)) && all_joined await answers) as ->.
  { unfold all_joined. cbn [forallb]. by destruct ok, (await =? 0), (rc a =? 0). }
  destruct (rc a =? 0).
  - rewrite remove_first. apply IH. lia.
  - rewrite first_last, IH by lia. by rewrite tids_cons, <- first_last.
Qed.

Lemma cleaned_lives {O : OS} info await (s : pstate server) items s' answers ok :
  length answers = length items →
  p_trace s' = p_trace s ++ zip ((λ x, join_call await (thread_id (info x))) <$> items) answers →
  lives s (tids info items, ok) s' (tids info (running items answers), ok && all_joined await answers).
Proof.
  intros Hl Ht. eexists. split; [exact Ht|].
  pose proof (joins_live info await items answers ∅ ok Hl) as H.
  by rewrite !(right_id_L ∅ (⊎)) in H.
Qed.
