(* ===== verification/StartProps.v ===== *)
(** * Accepting, answering and starting up

    Properties of [accept_conn], [send_response] and [start_server] of
    [server/aesdsocket.c]. *)

From Stdlib Require Import String.
From S2P Require Import Prelude Memory Kernel AesdIoctl CString Posix SimOS DataFile SList.
From S2P Require Import Server ServerSpec ServerRefine ServerProps ConnList.

Section Accept.
Context {O : OS} {L : OSLaws O} {N : Uncancelled O}.
Variable inet_ntoa : list Z → list Z.

(** A connection set up in fresh memory, ready for its handler. *)
Definition set_up (fd : Z) (s : pstate server) (args : Z) (s' : pstate server) : Prop :=
  ∃ p c, conn_ready s' args p c ∧ client_fd c = fd
    ∧ p_world s' = p_world s ∧ p_trace s' = p_trace s ∧ p_heap s ⊆ p_heap s'
    ∧ connections (p_vars s') = connections (p_vars s) ∧ infos (p_vars s') = infos (p_vars s)
    ∧ same_scalars s s'
    ∧ NoDup [args; p; buffer_cell c; client_ip_addr c]
    ∧ Forall (λ q, p_heap s !! q = None ∧ is_Some (p_heap s' !! q))
        [args; p; buffer_cell c; client_ip_addr c].

Lemma strcpy_new_spec p b bs s (Q : unit → pstate server → Prop) :
  p ≠ 0 → p_heap s !! p = Some b → Z.of_nat (length (blk_mem b)) = Z.of_nat (length bs) + 1 →
  (∀ b', Q () (PState (<[p := b']> (p_heap s)) (p_world s) (p_trace s) (p_vars s))) →
  returns (strcpy_new p bs) s Q.
Proof.
  intros Hp Hb Hl HQ. unfold strcpy_new. prog_step. prog_step. prog_step.
  eapply returns_lift; [apply (store_bytes_in _ _ b); [done|done|rewrite length_app; cbn; lia]|].
  prog_step. apply HQ.
Qed.

Lemma put_conn_spec p c s (Q : unit → pstate server → Prop) :
  p ≠ 0 →
  Q () (PState (p_heap s) (p_world s) (p_trace s)
          (with_conns (<[p := c]> (conns (p_vars s))) (p_vars s))) →
  returns (put_conn p c) s Q.
Proof.
  intros Hp HQ. unfold put_conn, modify. rewrite (proj2 (Z.eqb_neq _ _) Hp).
  prog_step. prog_step. by prog_step.
Qed.

Lemma put_cell_spec p x s (Q : unit → pstate server → Prop) :
  p ≠ 0 →
  Q () (PState (p_heap s) (p_world s) (p_trace s)
          (with_cells (<[p := x]> (cells (p_vars s))) (p_vars s))) →
  returns (put_cell p x) s Q.
Proof.
  intros Hp HQ. unfold put_cell, modify. rewrite (proj2 (Z.eqb_neq _ _) Hp).
  prog_step. prog_step. by prog_step.
Qed.

Lemma fresh_ne (h : heap) q p b : (<[p := b]> h) !! q = None → q ≠ p ∧ h !! q = None.
Proof.
  intros H. destruct (decide (q = p)) as [->|Hne].
  - by rewrite lookup_insert_eq in H.
  - by rewrite lookup_insert_ne in H.
Qed.

Lemma setup_conn_spec fd addr s :
  allocs_succeed O → owns (p_world s) the_mutex = false →
  Z.of_nat (length addr) + 1 < object_max → returns (setup_conn fd addr) s (set_up fd s).
Proof.
  intros Hal Hown Haddr. unfold setup_conn.
  prog_step. apply returns_malloc; [done|done|]. intros a b1 Ha Hf1 [Hs1 [Hl1 _]].
  prog_step. apply put_conn_spec; [done|]. prog_step.
  apply returns_malloc; [done|lia|]. intros ip b2 Hip Hf2 [Hs2 [Hl2 _]]. cbn in Hf2 |- *.
  prog_step. eapply (strcpy_new_spec ip b2); [done|by cbn; rewrite lookup_insert_eq|done|].
  intros b2'. cbn. rewrite insert_insert_eq.
  prog_step. apply returns_malloc; [done|done|]. intros cell b3 Hc Hf3 Hb3. cbn in Hf3 |- *.
  prog_step. apply returns_malloc; [done|done|]. intros p b4 Hp Hf4 Hb4. cbn in Hf4 |- *.
  apply fresh_ne in Hf4 as [N1 Hf4]. apply fresh_ne in Hf4 as [N2 Hf4].
  apply fresh_ne in Hf4 as [N3 Hf4]. apply fresh_ne in Hf3 as [N4 Hf3].
  apply fresh_ne in Hf3 as [N5 Hf3]. apply fresh_ne in Hf2 as [N6 Hf2].
  prog_step. apply put_cell_spec; [done|]. prog_step. apply put_conn_spec; [done|].
  prog_step. exists p, (Conn 0 fd ip the_mutex BUFFER_SIZE cell). split_and!; try done.
  - split; cbn; try done; split_and?; try done; simplify_map_eq; try done; eauto.
  - cbn. rewrite <- !insert_subseteq by (rewrite ?lookup_insert_ne; done). done.
  - repeat (apply NoDup_cons; split; [cbn; rewrite ?not_elem_of_cons; split_and?; auto using not_elem_of_nil|]).
    by apply NoDup_nil.
  - cbn. repeat (apply Forall_cons; split); try by apply Forall_nil.
    all: (split; [done|]); simplify_map_eq; by eexists.
Qed.

(** What [accept_conn] sets up for a client is what the connection handler
    needs ([conn_ready] is the hypothesis of the handler's theorems): four fresh
    blocks, all different, and nothing else changed in memory. *)
Theorem setup_conn_is_ready fd addr s
    (Halloc : allocs_succeed O) (Hown : owns (p_world s) the_mutex = false)
    (Haddr : Z.of_nat (length addr) + 1 < object_max) :
  returns (setup_conn fd addr) s (set_up fd s).
Proof. by apply setup_conn_spec. Qed.

(** When the thread of a connection cannot be created, the client's socket is
    not closed and three blocks stay allocated that nothing refers to. *)
Theorem thread_failure_leaks s a w
    (Halloc : allocs_succeed O) (Hown : owns w the_mutex = false)
    (Hacc : sys (p_world s) (Caccept (server_fd (p_vars s))) = (a, w)) (Ha : rc a ≠ -1)
    (Haddr : Z.of_nat (length (inet_ntoa (out a))) + 1 < object_max)
    (Hfail : ∀ w arg t w', sys w (Cthread_create arg) = (t, w') → rc t ≠ 0) :
  returns (accept_conn inet_ntoa) s (λ _ s', ∃ args t,
    p_trace s' = p_trace s ++ [(Caccept (server_fd (p_vars s)), a); (Cthread_create args, t)]
    ∧ ∃ p q r, NoDup [p; q; r]
        ∧ Forall (λ x, p_heap s !! x = None ∧ is_Some (p_heap s' !! x)) [p; q; r]).
Proof.
  unfold accept_conn. prog_step. prog_step. prog_step. apply returns_syscall.
  intros a' w' E. rewrite Hacc in E. injection E as <- <-.
  rewrite (proj2 (Z.eqb_neq _ _) Ha). prog_step.
  eapply returns_weaken; [by apply setup_conn_spec|].
  intros args s1 (p & c & Hr & Hfd & Hw & Ht & Hsub & _ & _ & _ & Hnd & Hfresh). cbn beta.
  prog_step. apply returns_syscall. intros t w2 Et.
  rewrite (proj2 (Z.eqb_neq _ _) (Hfail _ _ _ _ Et)). cbn [negb].
  apply Forall_cons in Hfresh as [[Hf1 [b Hb]] Hfresh]. apply NoDup_cons in Hnd as [Hni Hnd].
  unfold free_conn, modify. prog_step. eapply returns_free; [apply Hr|done|].
  prog_step. prog_step. prog_step. exists args, t.
  split; [cbn; rewrite Ht; cbn; by rewrite <- app_assoc|].
  exists p, (buffer_cell c), (client_ip_addr c). split; [done|].
  apply Forall_forall. intros x Hx. cbn.
  rewrite Forall_forall in Hfresh. destruct (Hfresh x Hx) as [H1 H2]. split; [done|].
  rewrite lookup_delete_ne; [done|]. by intros ->.
Qed.

(** The answer to a client is the file: [send_response] ends, leaves memory
    alone, rewinds a plain file, and hands to [send] exactly the bytes it reads, in
    order; when it reports success and no [read] failed, these are all the bytes that
    were to be read from the file, once rewound.  What [send] accepts of them is sent. *)
Theorem send_response_sends_file dev dfd cfd s :
  returns (send_response dev dfd cfd) s (λ r s', ∃ f evs,
    p_trace s' = p_trace s ++ seek_events dev dfd SEEK_SET f ++ evs
    ∧ p_heap s' = p_heap s ∧ p_vars s' = p_vars s
    ∧ offered_bytes evs = read_bytes evs
    ∧ (Forall event_ok evs → sent_bytes evs = offered_bytes evs)
    ∧ (0 ≤ r → unread (rewound dev (p_world s) dfd) dfd = offered_bytes evs
               ∨ ∃ a, (Cread dfd readbuf_size, a) ∈ evs ∧ rc a = -1)).
Proof.
  eapply runs_to_returns, runs_to_weaken;
    [apply (send_response_spec dev _ _ _ 0 0); intros ?????; never_cancelled|].
  intros r s' (f & evs & Hq & Hr & Hu). exists f, evs. apply reply_facts in Hr as (_ & Hs & _).
  split; [apply Hq|]. split; [apply Hq|]. split; [apply Hq|]. split; [done|].
  split; [apply sent_offered|done].
Qed.

End Accept.

(** ** Starting up *)

Section Start.
Context {O : OS} {N : Uncancelled O}.

(** The calls [evs] of a program that changes neither memory nor variables, and how it ends. *)
Definition makes {A} (p : prog server A) (s : pstate server)
    (Q : list (call * answer) → outcome A → Prop) : Prop :=
  ∃ s' evs o, p s = Ok (o, s') ∧ p_trace s' = p_trace s ++ evs ∧ p_heap s' = p_heap s
    ∧ p_vars s' = p_vars s ∧ Q evs o.

Lemma makes_ret {A} (a : A) s Q : Q [] (Returned a) → makes (mret a) s Q.
Proof using. intros H. exists s, [], (Returned a). by rewrite app_nil_r. Qed.

Lemma makes_exit {A} code s (Q : _ → outcome A → Prop) : Q [] (Exited code) → makes (exit code) s Q.
Proof using. intros H. exists s, [], (Exited code). by rewrite app_nil_r. Qed.

Lemma makes_step {A} c (f : Z → prog server A) s Q :
  (∀ a s1, p_vars s1 = p_vars s → makes (f (rc a)) s1 (λ evs o, Q ((c, a) :: evs) o)) →
  makes (do_call c ≫= f) s Q.
Proof.
  intros H. unfold makes. rewrite run_call. set (a := (sys _ _).1). set (s1 := after _ _ _ _).
  destruct (H a s1 eq_refl) as (s' & evs & o & Hrun & Ht & Hh & Hv & HQ).
  exists s', ((c, a) :: evs), o. split_and!; try done. rewrite Ht. cbn. by rewrite <- app_assoc.
Qed.

Lemma makes_bind {A B} (p : prog server A) (f : A → prog server B) s Q :
  makes p s (λ e1 o, match o with
    | Returned a => ∀ s1, p_vars s1 = p_vars s → makes (f a) s1 (λ e2 o, Q (e1 ++ e2) o)
    | Exited code => Q e1 (Exited code)
    | _ => False
    end) → makes (p ≫= f) s Q.
Proof using.
  intros (s1 & e1 & o & Hrun & Ht & Hh & Hv & HQ). unfold makes, mbind, prog_bind. rewrite Hrun.
  destruct o as [a|code| |]; try done; [|by exists s1, e1, (Exited code)].
  destruct (HQ s1 Hv) as (s2 & e2 & o & Hrun2 & Ht2 & Hh2 & Hv2 & HQ2).
  exists s2, (e1 ++ e2), o. split_and!; try congruence. by rewrite Ht2, Ht, app_assoc.
Qed.

(** ** What [start_server] does *)

(** Some calls in order, each with the answers that let the program go on: all of them, or
    up to the first one that fails. *)
Inductive attempt : list (call * (Z → Prop)) → list (call * answer) → bool → Prop :=
| attempt_done : attempt [] [] true
| attempt_failed c P steps a : ¬ P (rc a) → attempt ((c, P) :: steps) [(c, a)] false
| attempt_next c P steps a evs b :
    P (rc a) → attempt steps evs b → attempt ((c, P) :: steps) ((c, a) :: evs) b.

Definition bind_steps (port : list Z) (fd : Z) : list (call * (Z → Prop)) :=
  [(Csetsockopt fd, λ r, 0 ≤ r); (Cgetaddrinfo port, λ r, r = 0); (Cbind fd, λ r, r = 0)].

(** [make_daemon] in the process that goes on, and in the processes that exit. *)
Definition daemonised (evs : list (call * answer)) : Prop :=
  ∃ a b c d e, evs = [(Cfork, a); (Csetsid, b); (Cfork, c); (Cumask 0, d); (Cchdir (str "/"), e)]
    ∧ rc a = 0 ∧ 0 ≤ rc b ∧ rc c = 0.

Inductive daemon_exits : list (call * answer) → Z → Prop :=
| first_fork_fails a : rc a < 0 → daemon_exits [(Cfork, a)] EXIT_FAILURE
| first_parent a : 0 < rc a → daemon_exits [(Cfork, a)] EXIT_SUCCESS
| setsid_fails a b : rc a = 0 → rc b < 0 → daemon_exits [(Cfork, a); (Csetsid, b)] EXIT_FAILURE
| second_fork_fails a b c : rc a = 0 → 0 ≤ rc b → rc c < 0 →
    daemon_exits [(Cfork, a); (Csetsid, b); (Cfork, c)] EXIT_FAILURE
| second_parent a b c : rc a = 0 → 0 ≤ rc b → 0 < rc c →
    daemon_exits [(Cfork, a); (Csetsid, b); (Cfork, c)] EXIT_SUCCESS.

(** The end of a start that fails: the plain-file build removes the data file, no
    descriptor is closed. *)
Definition given_up (dev : bool) (evs : list (call * answer)) : Prop :=
  if dev then evs = [] else ∃ a, evs = [(Cremove (DATA_FILE_PATH false), a)].

(** The calls of [start_server], and its result or how the process exits. *)
Inductive start_run (dev : bool) (port : list Z) (as_daemon : bool)
    : list (call * answer) → outcome Z → Prop :=
| start_no_socket a evs :
    rc a < 0 → given_up dev evs → start_run dev port as_daemon ((Csocket, a) :: evs) (Exited EXIT_FAILURE)
| start_refused a e1 e2 :
    0 ≤ rc a → attempt (bind_steps port (rc a)) e1 false → given_up dev e2 →
    start_run dev port as_daemon ((Csocket, a) :: e1 ++ e2) (Exited EXIT_FAILURE)
| start_forked a e1 e2 code :
    0 ≤ rc a → attempt (bind_steps port (rc a)) e1 true → as_daemon = true → daemon_exits e2 code →
    start_run dev port as_daemon ((Csocket, a) :: e1 ++ e2) (Exited code)
| start_deaf a e1 e2 b e3 :
    0 ≤ rc a → attempt (bind_steps port (rc a)) e1 true →
    (if as_daemon then daemonised e2 else e2 = []) → rc b ≠ 0 → given_up dev e3 →
    start_run dev port as_daemon
      ((Csocket, a) :: e1 ++ e2 ++ (Clisten (rc a) LISTEN_BACKLOG, b) :: e3) (Exited EXIT_FAILURE)
| start_listens a e1 e2 b :
    0 ≤ rc a → attempt (bind_steps port (rc a)) e1 true →
    (if as_daemon then daemonised e2 else e2 = []) → rc b = 0 →
    start_run dev port as_daemon
      ((Csocket, a) :: e1 ++ e2 ++ [(Clisten (rc a) LISTEN_BACKLOG, b)]) (Returned (rc a)).

Lemma give_up_makes dev s (Q : _ → outcome Z → Prop) :
  server_fd (p_vars s) ≤ 0 → (∀ evs, given_up dev evs → Q evs (Exited EXIT_FAILURE)) →
  makes (give_up_start dev) s Q.
Proof.
  intros Hfd HQ. unfold give_up_start, cleanup, destroy_datafile. apply makes_bind.
  unfold get_vars at 1. unfold makes at 1, mbind at 1, prog_bind at 1.
  rewrite (proj2 (Z.ltb_ge 0 _)) by done. destruct dev; cbn [negb].
  - exists s, [], (Returned ()). rewrite app_nil_r. split_and!; try done. intros s1 _.
    apply makes_exit. by apply HQ.
  - destruct (makes_step (Cremove (DATA_FILE_PATH false)) (λ _, mret ()) s
      (λ evs o, o = Returned () ∧ ∃ a, evs = [(Cremove (DATA_FILE_PATH false), a)]))
      as (s1 & evs & o & Hrun & Ht & Hh & Hv & -> & Hevs).
    { intros a s1 _. apply makes_ret. eauto. }
    exists s1, evs, (Returned ()). split_and!; try done. intros s2 _. apply makes_exit.
    rewrite app_nil_r. by apply HQ.
Qed.

Lemma make_daemon_makes s :
  makes make_daemon s (λ evs o, match o with
    | Returned _ => daemonised evs | Exited code => daemon_exits evs code | _ => False end).
Proof.
  unfold make_daemon. apply makes_step. intros a s1 _.
  destruct (Z.ltb_spec (rc a) 0); [apply makes_exit; by constructor|].
  destruct (Z.ltb_spec 0 (rc a)); [apply makes_exit; by constructor|].
  apply makes_step. intros b s2 _.
  destruct (Z.ltb_spec (rc b) 0); [apply makes_exit; constructor; lia|].
  apply makes_step. intros c s3 _.
  destruct (Z.ltb_spec (rc c) 0); [apply makes_exit; constructor; lia|].
  destruct (Z.ltb_spec 0 (rc c)); [apply makes_exit; constructor; lia|].
  apply makes_step. intros d s4 _. apply makes_step. intros e s5 _. apply makes_ret.
  exists a, b, c, d, e. split; [done|]. lia.
Qed.

(** C33: [start_server], with and without the daemon option, makes the calls of [start_run].
    It opens the socket, sets its option, resolves the port and binds, each call only after
    those before succeeded; as a daemon it forks, makes a session and forks again, and the
    parents exit with 0; then it listens and returns the socket.  After any of these that
    fails the process exits with status 1 (nobody looks at [umask] and [chdir]); the socket
    it opened is never closed, because [cleanup] looks at the global [server_fd], which the
    local variable of the same name hides. *)
Theorem start_server_outcomes dev port daemon s (Hfd : server_fd (p_vars s) ≤ 0) :
  ∃ s' evs o, start_server dev port daemon s = Ok (o, s') ∧ p_trace s' = p_trace s ++ evs
    ∧ p_heap s' = p_heap s ∧ p_vars s' = p_vars s ∧ start_run dev port daemon evs o.
Proof.
  change (makes (start_server dev port daemon) s (start_run dev port daemon)).
  unfold start_server. apply makes_step. intros a s1 H1.
  destruct (Z.ltb_spec (rc a) 0).
  { apply give_up_makes; [by rewrite H1|]. intros evs. by constructor. }
  apply makes_step. intros a1 s2 H2. destruct (Z.ltb_spec (rc a1) 0).
  { apply give_up_makes; [by rewrite H2, H1|]. intros evs Hg.
    apply (start_refused _ _ _ a [(Csetsockopt (rc a), a1)]); [done| |done].
    constructor. cbn. lia. }
  apply makes_step. intros a2 s3 H3. destruct (Z.eqb_spec (rc a2) 0); cbn [negb].
  2: { apply give_up_makes; [by rewrite H3, H2, H1|]. intros evs Hg.
       apply (start_refused _ _ _ a [(Csetsockopt (rc a), a1); (Cgetaddrinfo port, a2)]); [done| |done].
       by repeat constructor. }
  apply makes_step. intros a3 s4 H4. destruct (Z.eqb_spec (rc a3) 0); cbn [negb].
  2: { apply give_up_makes; [by rewrite H4, H3, H2, H1|]. intros evs Hg.
       apply (start_refused _ _ _ a [(Csetsockopt (rc a), a1); (Cgetaddrinfo port, a2); (Cbind (rc a), a3)]);
         [done| |done]. by repeat constructor. }
  set (e1 := [(Csetsockopt (rc a), a1); (Cgetaddrinfo port, a2); (Cbind (rc a), a3)]).
  assert (attempt (bind_steps port (rc a)) e1 true) as He1 by by repeat constructor.
  assert (∀ s5 e2, p_vars s5 = p_vars s → (if daemon then daemonised e2 else e2 = []) →
    makes (rc0 ← do_call (Clisten (rc a) LISTEN_BACKLOG);
           if negb (rc0 =? 0) then give_up_start dev else mret (rc a)) s5
      (λ evs o, start_run dev port daemon ((Csocket, a) :: e1 ++ e2 ++ evs) o)) as Hlisten.
  { intros s5 e2 H5 He2. apply makes_step. intros a4 s6 H6. destruct (Z.eqb_spec (rc a4) 0); cbn [negb].
    - apply makes_ret. by constructor.
    - apply give_up_makes; [by rewrite H6, H5|]. intros evs Hg. by constructor. }
  apply makes_bind. destruct daemon.
  - destruct (make_daemon_makes s4) as (s5 & e2 & o & Hrun & Ht & Hh & Hv & Ho).
    exists s5, e2, o. split_and!; try done. destruct o as [[]|code| |]; try done.
    + intros s6 H6. apply (Hlisten s6 e2); [by rewrite H6, H4, H3, H2|done].
    + by apply (start_forked _ _ _ a e1 e2).
  - apply makes_ret. intros s6 H6. apply (Hlisten s6 []); [by rewrite H6, H4, H3, H2|done].
Qed.

End Start.

(** ** Runs *)

Definition empty_process (O : OS) (w : @world O) : @pstate O server :=
  @PState O server ∅ w [] (Server 0 0 0 (SL 0 ∅) ∅ ∅ ∅).

Definition quiet_world : sim_world := SimWorld ∅ [65; 66] 0 [].

Lemma setup_conn_is_ready_witness :
  owns (OS := demo_os) quiet_world the_mutex = false
  ∧ returns (setup_conn 5 [49; 48]) (empty_process demo_os quiet_world)
      (set_up 5 (empty_process demo_os quiet_world)).
Proof.
  split; [done|].
  exact (setup_conn_is_ready (L := demo_laws) 5 [49; 48] (empty_process demo_os quiet_world)
           (sim_allocs_succeed _) eq_refl eq_refl).
Defined.

(** A system on which threads cannot be created. *)
Definition no_threads (c : call) : answer :=
  match c with Cthread_create _ => Ans 11 [] | Caccept _ => Ans 5 [] | _ => Ans 0 [] end.

Definition no_thread_os : OS := sim_os (object_max - 1) no_threads.

Lemma no_thread_fails w arg t w' :
  @sys no_thread_os w (Cthread_create arg) = (t, w') → rc t ≠ 0.
Proof. by intros [= <- <-]. Qed.

Lemma thread_failure_leaks_witness :
  @sys no_thread_os quiet_world (Caccept 0) = (Ans 5 [], quiet_world)
  ∧ returns (accept_conn (λ _, [49; 48])) (empty_process no_thread_os quiet_world)
      (λ _ s', ∃ args t,
    p_trace s' = p_trace (empty_process no_thread_os quiet_world)
                 ++ [(Caccept 0, Ans 5 []); (Cthread_create args, t)]
    ∧ ∃ p q r, NoDup [p; q; r]
        ∧ Forall (λ x, p_heap (empty_process no_thread_os quiet_world) !! x = None
                       ∧ is_Some (p_heap s' !! x)) [p; q; r]).
Proof.
  split; [done|].
  exact (thread_failure_leaks (L := sim_os_laws (object_max - 1) no_threads eq_refl)
           (λ _, [49; 48]) (empty_process no_thread_os quiet_world) (Ans 5 []) quiet_world
           (sim_allocs_succeed _) eq_refl eq_refl ltac:(done) eq_refl no_thread_fails).
Defined.

Lemma send_response_sends_file_witness :
  OSLaws demo_os ∧ returns (send_response false 4 5) (empty_process demo_os quiet_world)
    (λ r s', ∃ f evs, p_trace s' = [] ++ [(Clseek 4 0 SEEK_SET, f)] ++ evs ∧ p_heap s' = ∅
    ∧ p_vars s' = p_vars (empty_process demo_os quiet_world)
    ∧ offered_bytes evs = read_bytes evs
    ∧ (Forall event_ok evs → sent_bytes evs = offered_bytes evs)
    ∧ (0 ≤ r → [65; 66] = offered_bytes evs ∨ ∃ a, (Cread 4 readbuf_size, a) ∈ evs ∧ rc a = -1)).
Proof.
  split; [exact demo_laws|].
  exact (send_response_sends_file (L := demo_laws) false 4 5 (empty_process demo_os quiet_world)).
Defined.

(** A daemon, in the process that is left. *)
Lemma start_server_outcomes_witness :
  server_fd (p_vars (empty_process demo_os quiet_world)) ≤ 0
  ∧ ∃ s' evs o, start_server true SERVER_PORT true (empty_process demo_os quiet_world) = Ok (o, s')
    ∧ p_trace s' = [] ++ evs ∧ p_heap s' = ∅
    ∧ p_vars s' = p_vars (empty_process demo_os quiet_world)
    ∧ start_run true SERVER_PORT true evs o.
Proof.
  split; [done|].
  by apply (start_server_outcomes true SERVER_PORT true (empty_process demo_os quiet_world)).
Defined.
