(* ===== verification/Signals.v ===== *)
(** * Serving until a signal

    The main loop of [server/aesdsocket.c] with its signals: what [accept_conn] and
    [signal_handler] do to the list of connections and its memory, and that the loop
    ends after SIGINT or SIGTERM.  A signal is handled while [accept] waits. *)

From Stdlib Require Import String.
From S2P Require Import Prelude Memory Kernel AesdIoctl CString Posix SimOS DataFile SList.
From S2P Require Import Server Runs ServerSpec ServerRefine ServerProps ConnList Lifetime StartProps.

(** ** Memory that is freed *)

Lemma freed_lookup info h xs q :
  q ∉ xs → q ∉ ((ref ∘ info) <$> xs) → freed info h xs !! q = h !! q.
Proof.
  revert h. induction xs as [|x xs IH]; intros h H1 H2; [done|]. cbn in *.
  apply not_elem_of_cons in H1 as [N1 H1]. apply not_elem_of_cons in H2 as [N2 H2].
  by rewrite IH, !lookup_delete_ne by done.
Qed.

Lemma forgotten_lookup {A} (m : gmap Z A) xs q : q ∉ xs → forgotten m xs !! q = m !! q.
Proof.
  revert m. induction xs as [|x xs IH]; intros m H; [done|]. cbn.
  apply not_elem_of_cons in H as [N H]. by rewrite IH, lookup_delete_ne.
Qed.

Lemma ended_running_perm items answers :
  length answers = length items → ended items answers ++ running items answers ≡ₚ items.
Proof.
  revert answers. induction items as [|x items IH]; intros [|a answers] H; try done.
  cbn in *. assert (ended items answers ++ running items answers ≡ₚ items) as Hp by (apply IH; lia).
  destruct (rc a =? 0); cbn; [by constructor|]. rewrite <- Permutation_middle. by constructor.
Qed.

Section Signals.
Context {O : OS} {L : OSLaws O} {N : Uncancelled O}.
Variable inet_ntoa : list Z → list Z.

(** ** The list of connections *)

Definition info_of (s : pstate server) (x : Z) : clientconn_info :=
  match infos (p_vars s) !! x with Some i => i | None => Info 0 0 end.

(** The list is well formed: its elements are [items], allocated like the connections
    they point to. *)
Definition list_ok (s : pstate server) (items : list Z) : Prop :=
  sl_rep (connections (p_vars s)) items ∧ list_owned (info_of s) s items.

Lemma list_owned_ext info info' s items :
  (∀ x, x ∈ items → info x = info' x) → list_owned info s items → list_owned info' s items.
Proof.
  intros He [H1 H2 H3].
  assert ((ref ∘ info) <$> items = (ref ∘ info') <$> items) as Hm.
  { apply list_fmap_ext. intros i x Hx. cbn. rewrite He; [done|]. by eapply list_elem_of_lookup_2. }
  split.
  - intros x Hx. rewrite <- He by done. by apply H1.
  - intros x Hx. rewrite <- He by done. by apply H2.
  - by rewrite <- Hm.
Qed.

(** Calls do not change the list. *)
Lemma list_ok_frame s s' items :
  p_heap s' = p_heap s → infos (p_vars s') = infos (p_vars s) →
  connections (p_vars s') = connections (p_vars s) → list_ok s items → list_ok s' items.
Proof.
  intros Hh Hi Hc [Hrep [H1 H2 H3]].
  assert (∀ x, info_of s' x = info_of s x) as He by by intros x; unfold info_of; rewrite Hi.
  assert ((ref ∘ info_of s') <$> items = (ref ∘ info_of s) <$> items) as Hm
    by (apply list_fmap_ext; intros i x _; cbn; by rewrite He).
  split; [by rewrite Hc|]. split.
  - intros x Hx. rewrite Hi, He. by apply H1.
  - intros x Hx. rewrite Hh, He. by apply H2.
  - by rewrite Hm.
Qed.


(** The elements that stay in the list are still allocated. *)
Lemma cleaned_owned info await s items s' :
  list_owned info s items → cleaned info await s [] items s' →
  ∃ answers, length answers = length items
    ∧ p_trace s' = p_trace s ++ zip ((λ x, join_call await (thread_id (info x))) <$> items) answers
    ∧ p_heap s' = freed info (p_heap s) (ended items answers)
    ∧ list_ok s' (running items answers)
    ∧ ∀ ok, lives s (tids info items, ok)
              s' (tids (info_of s') (running items answers), ok && all_joined await answers).
Proof.
  intros Hown (answers & Hlen & Ht & Hrep & Hh & Hi & _).
  set (e := ended items answers) in *. set (r := running items answers) in *.
  pose proof (ended_running_perm items answers Hlen) as Hperm. fold e r in Hperm.
  pose proof Hown as [H1 H2 H3].
  assert (∀ x, x ∈ r → x ∈ items) as Hsub
    by (intros x Hx; rewrite <- Hperm; apply elem_of_app; by right).
  assert (NoDup ((e ++ r) ++ ((ref ∘ info) <$> (e ++ r)))) as Hnd by by rewrite Hperm.
  rewrite fmap_app in Hnd.
  assert (∀ x, x ∈ r → x ∉ e ∧ x ∉ ((ref ∘ info) <$> e) ∧ ref (info x) ∉ e
            ∧ ref (info x) ∉ ((ref ∘ info) <$> e)) as Hsep.
  { intros x Hx. assert (ref (info x) ∈ (ref ∘ info) <$> r) as Hr
      by (by apply (list_elem_of_fmap_2 (ref ∘ info))).
    apply NoDup_app in Hnd as (G1 & G2 & G3). apply NoDup_app in G1 as (_ & G1 & _).
    apply NoDup_app in G3 as (_ & G3 & _). split_and!; intros Hin.
    - by apply (G1 x).
    - apply (G2 x); apply elem_of_app; [by right|by left].
    - apply (G2 (ref (info x))); apply elem_of_app; [by left|by right].
    - by apply (G3 (ref (info x))). }
  assert (∀ x, x ∈ r → info_of s' x = info x) as Hinfo.
  { intros x Hx. unfold info_of. rewrite Hi, forgotten_lookup by by apply Hsep.
    by rewrite (H1 x (Hsub x Hx)). }
  exists answers. split; [done|]. split; [done|]. split; [done|]. fold r.
  split; [|by intros ok; rewrite (tids_ext _ _ _ Hinfo); apply (cleaned_lives info await s items s' answers)].
  split; [done|]. apply (list_owned_ext info); [intros x Hx; by rewrite Hinfo|].
  split.
  - intros x Hx. rewrite Hi, forgotten_lookup by by apply Hsep. by apply H1, Hsub.
  - intros x Hx. destruct (Hsep x Hx) as (S1 & S2 & S3 & S4).
    rewrite Hh, !freed_lookup by done. by apply H2, Hsub.
  - apply NoDup_app in Hnd as (G1 & G2 & G3). apply NoDup_app in G1 as (_ & _ & G1).
    apply NoDup_app in G3 as (_ & _ & G3). apply NoDup_app. split; [done|]. split; [|done].
    intros x Hx Hx'. apply (G2 x); apply elem_of_app; by right.
Qed.

Lemma cleaned_scalars info await s items s' :
  cleaned info await s [] items s' → same_scalars s s'.
Proof. by intros (answers & _ & _ & _ & _ & _ & _ & H). Qed.

(** A new element in front, for the connection at [args]. *)
Lemma list_ok_insert s s0 items conn b args tid l' :
  list_ok s0 items → infos (p_vars s) = infos (p_vars s0) → p_heap s0 ⊆ p_heap s →
  p_heap s0 !! args = None → args ≠ 0 → is_Some (p_heap s !! args) → p_heap s !! conn = None →
  ∀ s', infos (p_vars s') = <[conn := Info tid args]> (infos (p_vars s)) →
  p_heap s' = <[conn := b]> (p_heap s) → connections (p_vars s') = l' →
  sl_rep l' (conn :: items) →
  list_ok s' (conn :: items)
  ∧ tids (info_of s') (conn :: items) = {[+ tid +]} ⊎ tids (info_of s0) items.
Proof.
  intros [_ Hown] Hi Hsub Ha Ha0 Hal Hc s' Hi' Hh' Hl' Hrep'.
  pose proof Hown as [H1 H2 H3].
  assert (∀ q, is_Some (p_heap s0 !! q) → q ≠ conn ∧ q ≠ args ∧ is_Some (p_heap s !! q)) as Hold.
  { intros q [x Hq]. pose proof (lookup_weaken _ _ _ _ Hq Hsub) as Hq'.
    split_and!; [congruence|congruence|by eexists]. }
  assert (∀ x, x ∈ items → x ≠ conn ∧ info_of s' x = info_of s0 x) as Hne.
  { intros x Hx. destruct (H2 x Hx) as (Hx1 & _). destruct (Hold x Hx1) as (N1 & _).
    split; [done|]. unfold info_of. by rewrite Hi', Hi, lookup_insert_ne. }
  assert (info_of s' conn = Info tid args) as Hic
    by (unfold info_of; by rewrite Hi', lookup_insert_eq).
  split; [|rewrite tids_cons, Hic; f_equal; apply tids_ext; intros x Hx; by apply Hne].
  split; [by rewrite Hl'|]. split.
  - intros x Hx. apply elem_of_cons in Hx as [->|Hx].
    + by rewrite Hi', Hic, lookup_insert_eq.
    + destruct (Hne x Hx) as [N1 N2]. rewrite N2, Hi', lookup_insert_ne, Hi by done. by apply H1.
  - intros x Hx. rewrite Hh'. apply elem_of_cons in Hx as [->|Hx].
    + rewrite Hic, lookup_insert_eq. cbn. split; [by eexists|]. split; [done|].
      rewrite lookup_insert_ne; [done|]. intros <-. rewrite Hc in Hal. by destruct Hal.
    + destruct (Hne x Hx) as [N1 N2]. destruct (H2 x Hx) as (G1 & G2 & G3). rewrite N2.
      destruct (Hold _ G1) as (M1 & _ & M2). destruct (Hold _ G3) as (M3 & _ & M4).
      by rewrite !lookup_insert_ne by done.
  - assert ((ref ∘ info_of s') <$> items = (ref ∘ info_of s0) <$> items) as Hm.
    { apply list_fmap_ext. intros i x Hx. cbn. f_equal. apply Hne. by eapply list_elem_of_lookup_2. }
    rewrite fmap_cons, Hm. cbn [compose]. rewrite Hic. cbn [ref app].
    assert (∀ q, q ∈ items ++ ((ref ∘ info_of s0) <$> items) → q ≠ conn ∧ q ≠ args) as Hlive.
    { intros q Hq. apply elem_of_app in Hq as [Hq|Hq].
      - destruct (H2 q Hq) as (G1 & _). destruct (Hold _ G1) as (? & ? & _). done.
      - apply list_elem_of_fmap in Hq as (x & -> & Hx). destruct (H2 x Hx) as (_ & _ & G3).
        destruct (Hold _ G3) as (? & ? & _). done. }
    rewrite <- Permutation_middle. apply NoDup_cons. split.
    + intros Hin. apply elem_of_cons in Hin as [Heq|Hin]; [|by apply Hlive in Hin as [? _]].
      rewrite <- Heq in Hal. rewrite Hc in Hal. by destruct Hal.
    + apply NoDup_cons. split; [|done]. intros Hin. by apply Hlive in Hin as [_ ?].
Qed.

Lemma track_conn_spec s0 s items args tid :
  allocs_succeed O → list_ok s0 items → connections (p_vars s) = connections (p_vars s0) →
  infos (p_vars s) = infos (p_vars s0) → p_heap s0 ⊆ p_heap s →
  p_heap s0 !! args = None → args ≠ 0 → is_Some (p_heap s !! args) →
  returns (track_conn args tid) s (λ _ s', same_scalars s s' ∧ ∃ items', list_ok s' items'
    ∧ ∀ ok, lives s ({[+ tid +]} ⊎ tids (info_of s0) items, ok) s' (tids (info_of s') items', ok)).
Proof.
  intros Hal Hok Hc Hi Hsub Ha Ha0 Hlive. pose proof Hok as [[Hseg Hnd] Hown].
  unfold track_conn. prog_step. apply returns_malloc; [done|done|].
  intros conn b Hn Hfresh Hb. cbn in Hfresh |- *.
  assert (conn ∉ items) as Hni.
  { intros Hin. destruct (owned_live _ _ _ Hown conn Hin) as ([x Hx] & _).
    apply (lookup_weaken _ _ _ _ Hx) in Hsub. congruence. }
  prog_step. unfold put_info, modify. rewrite (proj2 (Z.eqb_neq _ _) Hn).
  prog_step. prog_step. prog_step. prog_step. prog_step.
  set (s1 := PState _ _ _ _). cbn [p_vars s1 connections with_infos with_connections].
  destruct (insert_head_rep (SL (slh_first (connections (p_vars s)))
    (<[conn := 0]> (sle_next (connections (p_vars s))))) items conn) as (l' & Hl' & Hrep' & _).
  { split; [|done]. cbn. rewrite Hc. by apply seg_insert_ne. }
  { done. }
  { done. }
  { cbn. rewrite lookup_insert_eq. by eexists. }
  prog_step. eapply returns_lift; [exact Hl'|]. prog_step. prog_step. prog_step. prog_step.
  set (s2 := PState _ _ _ _).
  assert (list_ok s2 (conn :: items)
    ∧ tids (info_of s2) (conn :: items) = {[+ tid +]} ⊎ tids (info_of s0) items) as [Hok2 Htids]
    by by apply (list_ok_insert s s0 items conn b args tid l').
  destruct Hok2 as [Hrep2 Hown2].
  eapply returns_weaken; [by apply (cleanup_term_conn_spec (info_of s2) 0 s2 (conn :: items))|].
  intros [] s3 Hcl. split; [by apply (cleaned_scalars _ _ _ _ _ Hcl)|].
  destruct (cleaned_owned (info_of s2) 0 s2 (conn :: items) s3 Hown2 Hcl)
    as (answers & _ & _ & _ & Hr & Hli).
  exists (running (conn :: items) answers). split; [done|]. intros ok. specialize (Hli ok).
  rewrite Htids, andb_true_r in Hli. exact Hli.
Qed.

Lemma sys_same_scalars s c a w :
  (∀ m, on_mutex m c = false) → sys (p_world s) c = (a, w) → same_scalars s (after s c a w).
Proof. intros Hc E. split_and!; try done. intros m. by eapply owns_frame. Qed.

Lemma accept_conn_spec s items
    (Halloc : allocs_succeed O) (Hlist : list_ok s items)
    (Hown : owns (p_world s) the_mutex = false)
    (Haddr : ∀ a, Z.of_nat (length (inet_ntoa a)) + 1 < object_max) :
  returns (accept_conn inet_ntoa) s (λ _ s', same_scalars s s' ∧ ∃ items', list_ok s' items'
    ∧ ∀ ok, lives s (tids (info_of s) items, ok) s' (tids (info_of s') items', ok)).
Proof.
  unfold accept_conn. prog_step. prog_step. prog_step. prog_step.
  assert (same_scalars s (after s (Caccept (server_fd (p_vars s))) a w)) as Hsc1
    by by apply sys_same_scalars.
  destruct (rc a =? -1); [prog_step; split; [done|]|].
  { exists items. split; [by apply (list_ok_frame s)|intros ok; by apply lives_plain_call]. }
  prog_step.
  eapply returns_weaken; [apply setup_conn_spec; [done| |done]|].
  { destruct Hsc1 as (_ & _ & _ & Ho). by rewrite Ho. }
  intros args s1 (p & c & Hr & _ & Hw & Ht & Hsub & Hc & Hi & Hsc2 & Hnd & Hfresh). cbn beta.
  pose proof (same_scalars_trans _ _ _ Hsc1 Hsc2) as Hsc3.
  apply Forall_cons in Hfresh as [[Hf1 Hf2] _]. destruct Hr as [Hargs _ _ _ _ _ _ _].
  prog_step. prog_step.
  assert (same_scalars s (after s1 (Cthread_create args) a0 w0)) as Hsc4
    by (apply (same_scalars_trans _ s1); [done|by apply sys_same_scalars]).
  destruct (rc a0 =? 0) eqn:Hcr; cbn [negb].
  2: { (* the thread is not created *)
    destruct Hf2 as [b Hb]. unfold free_conn, modify. prog_step.
    eapply returns_free; [done|done|]. prog_step. prog_step. prog_step.
    split; [done|]. exists items. split.
    2: { intros ok. rewrite (tids_ext (info_of s) (info_of (PState _ _ _ _))) by (intros x _; unfold info_of; cbn; by rewrite Hi).
         eapply lives_trans; [by apply (lives_plain_call s _ (Caccept (server_fd (p_vars s))) a w)|].
         eapply lives_trans; [by apply (lives_same _ _ s1)|].
         exists [(Cthread_create args, a0)]. split; [done|]. cbn [lrun lnext]. by rewrite Hcr. }
    destruct Hlist as [Hrep Hown1]. split; [cbn; by rewrite Hc|].
    apply (list_owned_ext (info_of s)); [intros x _; unfold info_of; cbn; by rewrite Hi|].
    destruct Hown1 as [H1 H2 H3]. split; [intros x Hx; cbn; rewrite Hi; by apply H1| |done].
    assert (∀ q, is_Some (p_heap s !! q) → is_Some (delete args (p_heap s1) !! q)) as Hkeep.
    { intros q [x Hq]. rewrite lookup_delete_ne; [|intros <-; cbn in Hf1; congruence].
      exists x. by apply (lookup_weaken _ _ _ _ Hq Hsub). }
    intros x Hx. destruct (H2 x Hx) as (G1 & G2 & G3).
    split_and!; [by apply Hkeep|done|by apply Hkeep]. }
  eapply returns_weaken.
  { apply (track_conn_spec s (after s1 (Cthread_create args) a0 w0) items args); try done. }
  intros _ s2 (Hsc5 & items' & Hok & Hli). split; [by apply (same_scalars_trans _ _ _ Hsc4)|].
  exists items'. split; [done|]. intros ok.
  eapply lives_trans; [by apply (lives_plain_call s _ (Caccept (server_fd (p_vars s))) a w)|].
  eapply lives_trans; [by apply (lives_same _ _ s1)|]. eapply lives_trans; [|exact (Hli ok)].
  apply lives_call. cbn [lnext]. by rewrite Hcr.
Qed.

(** C16: [accept_conn] keeps the list of connections well formed, whatever [accept] and
    [pthread_create] answer: after it the list runs through distinct allocated
    elements that point to distinct allocated connections; a new connection is in
    front, the ended ones are gone, and nothing that is in the list was freed.  The
    threads of its elements are exactly those that were created and not joined, and no
    other thread is asked for ([lives]). *)
Theorem accept_keeps_list s items
    (Halloc : allocs_succeed O) (Hlist : list_ok s items)
    (Hown : owns (p_world s) the_mutex = false)
    (Haddr : ∀ a, Z.of_nat (length (inet_ntoa a)) + 1 < object_max) :
  returns (accept_conn inet_ntoa) s (λ _ s', same_scalars s s' ∧ ∃ items', list_ok s' items'
    ∧ ∀ ok, lives s (tids (info_of s) items, ok) s' (tids (info_of s') items', ok)).
Proof.
  by apply (accept_conn_spec s items).
Qed.

(** ** Signals *)

(** Only calls [cs] were made, none of them on a mutex that the thread could take. *)
Record made (s s' : pstate server) (cs : list call) : Prop := {
  made_heap : p_heap s' = p_heap s;
  made_vars : p_vars s' = p_vars s;
  made_trace : ∃ evs, p_trace s' = p_trace s ++ evs ∧ evs.*1 = cs;
  made_owns : ∀ m, Forall (λ c, on_mutex m c = false) cs → owns (p_world s') m = owns (p_world s) m
}.

Lemma made_calls s s' cs : made s s' cs → (p_trace s').*1 = (p_trace s).*1 ++ cs.
Proof. intros [_ _ (evs & -> & <-) _]. by rewrite fmap_app. Qed.

(** The calls keep to the automaton of the main thread. *)
Lemma made_lives s s' cs live :
  made s s' cs → (∀ evs : list (call * answer), evs.*1 = cs → lrun live evs = Some live) → lives s live s' live.
Proof. intros [_ _ (evs & Ht & Hcs) _] H. exists evs. auto. Qed.

Lemma made_nil s : made s s [].
Proof. split; try done. exists []. by rewrite app_nil_r. Qed.

Lemma made_call s c a w : sys (p_world s) c = (a, w) → made s (after s c a w) [c].
Proof.
  intros E. split; try done.
  - by exists [(c, a)].
  - intros m Hm. apply Forall_cons in Hm as [Hm _]. by eapply owns_frame.
Qed.

Lemma made_trans s1 s2 s3 cs1 cs2 :
  made s1 s2 cs1 → made s2 s3 cs2 → made s1 s3 (cs1 ++ cs2).
Proof.
  intros [H1 H2 (e1 & H3 & <-) H4] [G1 G2 (e2 & G3 & <-) G4]. split; [congruence..| |].
  - exists (e1 ++ e2). by rewrite G3, H3, app_assoc, fmap_app.
  - intros m [Hm1 Hm2]%Forall_app. by rewrite G4, H4.
Qed.

(** [shutdown] fails [n] times, then it succeeds. *)
Fixpoint shutdown_succeeds (n : nat) (w : world) (fd : Z) : Prop :=
  let '(a, w') := sys w (Cshutdown fd) in
  match n with
  | 0%nat => rc a ≠ -1
  | S n => rc a = -1 ∧ shutdown_succeeds n w' fd
  end.

Lemma shutdown_loop_spec n fuel fd s :
  shutdown_succeeds n (p_world s) fd → (n < fuel)%nat →
  returns (shutdown_loop fuel fd) s (λ _ s', made s s' (replicate (S n) (Cshutdown fd))).
Proof.
  revert fuel s. induction n as [|n IH]; intros [|fuel] s Hn Hf; try lia;
    cbn [shutdown_loop shutdown_succeeds] in *; prog_step; prog_step;
    match goal with E : sys _ _ = _ |- _ => rewrite E in Hn; rename E into Es end.
  - rewrite (proj2 (Z.eqb_neq _ _) Hn). prog_step. by apply made_call.
  - destruct Hn as [-> Hn]. cbn [Z.eqb Pos.eqb].
    eapply returns_weaken; [apply (IH fuel (after s (Cshutdown fd) a w)); [done|lia]|].
    intros [] s' H. by apply (made_trans _ _ _ [_] _ (made_call _ _ _ _ Es)).
Qed.

Lemma cancel_all_spec items s :
  (∀ x, x ∈ items → x ≠ 0 ∧ infos (p_vars s) !! x = Some (info_of s x)) →
  returns (cancel_all items) s (λ _ s',
    made s s' ((λ x, Cthread_cancel (thread_id (info_of s x))) <$> items)).
Proof.
  revert s. induction items as [|x items IH]; intros s Hi; cbn [cancel_all].
  - prog_step. apply made_nil.
  - destruct (Hi x (list_elem_of_here _ _)) as [Hx Hl].
    prog_step. prog_step. prog_step. eapply returns_lift.
    { unfold deref. rewrite (proj2 (Z.eqb_neq _ _) Hx). by rewrite Hl. }
    prog_step. prog_step.
    match goal with E : sys _ _ = _ |- _ => rename E into Es end.
    eapply returns_weaken; [apply IH|].
    { intros y Hy. by apply Hi, list_elem_of_further. }
    intros [] s' H. by apply (made_trans _ _ _ [_] _ (made_call _ _ _ _ Es)).
Qed.

(** The calls of [signal_handler] before the connections are joined. *)
Definition stop_calls (n : nat) (v : server) : list call :=
  (if 0 <? server_fd v then replicate (S n) (Cshutdown (server_fd v)) ++ [Cclose (server_fd v)] else [])
  ++ (if negb (timer_id v =? 0) then [Ctimer_delete (timer_id v)] else []).

Lemma ended_all items answers :
  length answers = length items → Forall (λ a, rc a = 0) answers →
  ended items answers = items ∧ running items answers = [].
Proof.
  revert answers. induction items as [|x items IH]; intros [|a answers] Hl Ha; try done.
  apply Forall_cons in Ha as [H0 Ha]. cbn. rewrite H0. cbn.
  destruct (IH answers) as [-> ->]; [cbn in Hl; lia|done|done].
Qed.

(** The two parts of [signal_handler] around the loop over the connections. *)
Lemma stop_calls_spec n fuel s {A} (rest : server → prog server A)
    (R : A → pstate server → Prop) :
  (0 < server_fd (p_vars s) → shutdown_succeeds n (p_world s) (server_fd (p_vars s))
     ∧ (n < fuel)%nat) →
  (∀ s', made s s' (stop_calls n (p_vars s)) → returns (rest (p_vars s)) s' R) →
  returns (v ← get_vars;
           _ ← (if 0 <? server_fd v then
                  _ ← shutdown_loop fuel (server_fd v);
                  _ ← do_call (Cclose (server_fd v)); mret ()
                else mret ());
           _ ← (if negb (timer_id v =? 0) then _ ← do_call (Ctimer_delete (timer_id v)); mret ()
                else mret ());
           rest v) s R.
Proof.
  intros Hsh Hrest. prog_step. prog_step. prog_step.
  assert (∀ s1 cs, made s s1 cs →
    cs = (if 0 <? server_fd (p_vars s)
          then replicate (S n) (Cshutdown (server_fd (p_vars s))) ++ [Cclose (server_fd (p_vars s))]
          else []) →
    returns (_ ← (if negb (timer_id (p_vars s) =? 0)
                  then _ ← do_call (Ctimer_delete (timer_id (p_vars s))); mret ()
                  else mret ()); rest (p_vars s)) s1 R) as Htimer.
  { intros s1 cs Hm Hcs. unfold stop_calls in Hrest. rewrite <- Hcs in Hrest. prog_step.
    destruct (timer_id (p_vars s) =? 0); cbn [negb] in *.
    - prog_step. apply Hrest. by rewrite app_nil_r.
    - prog_step. prog_step. prog_step. apply Hrest. eapply made_trans; [done|by apply made_call]. }
  destruct (Z.ltb_spec 0 (server_fd (p_vars s))) as [Hfd|Hfd].
  - destruct (Hsh Hfd) as [Hok Hlt]. prog_step.
    eapply returns_weaken; [by apply (shutdown_loop_spec n)|]. intros [] s1 H1. cbn beta.
    prog_step. prog_step. prog_step. eapply Htimer; [|done].
    eapply made_trans; [done|by apply made_call].
  - prog_step. eapply Htimer; [apply made_nil|done].
Qed.

(** The state after [stopApp = 1]. *)
Definition stopped (s : pstate server) : pstate server :=
  PState (p_heap s) (p_world s) (p_trace s) (with_stopApp 1 (p_vars s)).

(** The calls for the connections: cancel all, then join all. *)
Definition cancel_calls (info : Z → clientconn_info) (items : list Z) : list call :=
  ((λ x, Cthread_cancel (thread_id (info x))) <$> items)
  ++ ((λ x, Cthread_join (thread_id (info x))) <$> items).

(** The last calls. *)
Definition end_calls (dev : bool) : list call :=
  Cmutex_destroy the_mutex :: (if dev then [] else [Cremove (DATA_FILE_PATH dev)]).

Lemma fst_zip_calls (cs : list call) (answers : list answer) :
  length answers = length cs → (zip cs answers).*1 = cs.
Proof. intros H. apply fst_zip. lia. Qed.

Lemma end_calls_spec dev (s : pstate server) :
  owns (p_world s) the_mutex = false →
  returns (_ ← do_call (Cmutex_destroy the_mutex); destroy_datafile dev) s (λ _ s',
    p_heap s' = p_heap s ∧ p_vars s' = p_vars s
    ∧ (p_trace s').*1 = (p_trace s).*1 ++ end_calls dev ∧ owns (p_world s') the_mutex = false
    ∧ ∀ live ok, live = ∅ ∨ ok = false → lives s (live, ok) s' (live, ok)).
Proof.
  intros Ho. prog_step. prog_step.
  match goal with E : sys _ _ = _ |- _ => rename E into Es end.
  pose proof (destroy_free _ _ _ _ Ho Es) as Ho1. unfold destroy_datafile, end_calls.
  assert (∀ live ok, live = ∅ ∨ ok = false →
    lives s (live, ok) (after s (Cmutex_destroy the_mutex) a w) (live, ok)) as Hl.
  { intros live ok H. apply lives_call. cbn. by rewrite decide_True. }
  destruct dev; cbn [negb].
  - prog_step. split_and!; try done. cbn. by rewrite fmap_app.
  - prog_step. prog_step. prog_step. split_and!; try done.
    + cbn. by rewrite !fmap_app, <- app_assoc.
    + rewrite <- Ho1. by eapply (owns_frame _ _ (Cremove _)).
    + intros live ok Hg. eapply lives_trans; [by apply Hl|]. by apply lives_plain_call.
Qed.

(** Every join succeeded, if every join that the system can answer does. *)
Definition joins_of_system (answers : list answer) : Prop :=
  (∀ w tid a w', sys w (Cthread_join tid) = (a, w') → rc a = 0) → Forall (λ a, rc a = 0) answers.

(** The joins of [signal_handler]: the connections whose join succeeds are taken out and
    freed. *)
Lemma join_all_spec info s items :
  sl_rep (connections (p_vars s)) items → list_owned info s items →
  returns (cleanup_term_conn 1) s (λ _ s', ∃ answers, length answers = length items
    ∧ list_ok s' (running items answers) ∧ p_heap s' = freed info (p_heap s) (ended items answers)
    ∧ same_scalars s s' ∧ joins_of_system answers
    ∧ (p_trace s').*1 = (p_trace s).*1
        ++ ((λ x, Cthread_join (thread_id (info x))) <$> items)
    ∧ ∀ ok, lives s (tids info items, ok)
              s' (tids (info_of s') (running items answers), ok && all_joined 1 answers)).
Proof.
  intros Hrep Hown. destruct (cleanup_term_conn_spec info 1 s items Hrep Hown)
    as ([] & s' & Hrun & Hcl).
  destruct (cleaned_owned info 1 s items s' Hown Hcl) as (answers & Hlen & Ht & Hh & Hok & Hli).
  exists (), s'. split; [done|]. exists answers. split; [done|]. split; [done|]. split; [done|].
  split; [by apply (cleaned_scalars _ _ _ _ _ Hcl)|]. split; [|split; [|done]].
  - intros Hjoin. destruct (traced_cleanup_term_conn _ _ _ _ Hrun) as (evs & Ht' & Hruns).
    rewrite Ht in Ht'. apply app_inv_head in Ht'.
    apply (runs_forall (λ e, match e.1 with Cthread_join _ => rc e.2 = 0 | _ => True end)) in Hruns;
      [|by intros w [] a w' E; try done; eapply Hjoin].
    rewrite <- Ht' in Hruns. clear -Hruns Hlen. revert answers Hlen Hruns.
    induction items as [|x items IH]; intros [|a answers] Hlen H; try done.
    apply Forall_cons in H as [H0 H]. constructor; [done|]. apply IH; [cbn in Hlen; lia|done].
  - rewrite Ht, fmap_app, fst_zip_calls by by rewrite length_fmap. done.
Qed.

(** The parts of [signal_handler] keep to the automaton. *)
Lemma stop_lives n s s1 s2 s3 s4 items ok st3 :
  made (stopped s) s1 (stop_calls n (p_vars s)) →
  made s1 s2 ((λ x, Cthread_cancel (thread_id (info_of s1 x))) <$> items) →
  lives s2 (tids (info_of s2) items, ok) s3 st3 → lives s3 st3 s4 st3 →
  lives s (tids (info_of s) items, ok) s4 st3.
Proof.
  intros Hm1 Hm2 H3 H4.
  assert (∀ s s', p_vars s' = p_vars s → info_of s' = info_of s) as Hinfo
    by by (intros s0 s' H; unfold info_of; rewrite H).
  rewrite (Hinfo _ _ (made_vars _ _ _ Hm2)), (Hinfo _ _ (made_vars _ _ _ Hm1)) in H3.
  apply (lives_trans s _ s1 (tids (info_of s) items, ok)).
  { apply (made_lives (stopped s) s1 _ _ Hm1). intros evs Hevs. apply lrun_plain. rewrite Hevs.
    unfold stop_calls. rewrite !Forall_app. split.
    - destruct (0 <? _); [|done]. apply Forall_app. split; [by apply Forall_replicate|by repeat constructor].
    - destruct (negb _); [|done]. by repeat constructor. }
  apply (lives_trans _ _ s2 (tids (info_of s) items, ok)).
  { apply (made_lives _ _ _ _ Hm2). intros evs Hevs. apply lrun_cancels. rewrite Hevs.
    apply Forall_fmap, Forall_forall. intros x Hx. cbn. eexists. split; [done|].
    rewrite (Hinfo _ _ (made_vars _ _ _ Hm1)). by apply (tids_elem (info_of s)). }
  by eapply lives_trans.
Qed.

(** All joins succeeded: nothing is left. *)
Lemma all_joined_running items answers :
  length answers = length items → all_joined 1 answers = true → running items answers = [].
Proof.
  unfold all_joined. cbn [Z.eqb orb]. revert answers.
  induction items as [|x items IH]; intros [|a answers] Hl H; try done.
  cbn in H |- *. apply andb_prop in H as [-> H]. apply IH; [cbn in Hl; lia|done].
Qed.

(** [signal_handler], whatever the joins answer: the connections whose join succeeded are
    taken out and freed, the others stay in the list. *)
Lemma signal_handler_spec dev fuel signum n s items
    (Hsig : signum = SIGINT ∨ signum = SIGTERM) (Hlist : list_ok s items)
    (Hfree : owns (p_world s) the_mutex = false)
    (Hshut : 0 < server_fd (p_vars s) →
       shutdown_succeeds n (p_world s) (server_fd (p_vars s)) ∧ (n < fuel)%nat) :
  returns (signal_handler dev fuel signum) s (λ _ s', ∃ answers, length answers = length items
    ∧ stopApp (p_vars s') = 1 ∧ list_ok s' (running items answers)
    ∧ owns (p_world s') the_mutex = false
    ∧ p_heap s' = freed (info_of s) (p_heap s) (ended items answers)
    ∧ joins_of_system answers
    ∧ (p_trace s').*1 = (p_trace s).*1 ++ stop_calls n (p_vars s)
                          ++ cancel_calls (info_of s) items ++ end_calls dev
    ∧ ∀ ok, lives s (tids (info_of s) items, ok)
              s' (tids (info_of s') (running items answers), ok && all_joined 1 answers)).
Proof.
  unfold signal_handler.
  assert ((signum =? SIGINT) || (signum =? SIGTERM) = true) as -> by by destruct Hsig as [-> | ->].
  prog_step. unfold modify. prog_step. prog_step. prog_step. fold (stopped s).
  apply (stop_calls_spec n fuel (stopped s)); [exact Hshut|]. intros s1 Hm1.
  assert (list_ok s1 items) as Hok1.
  { apply (list_ok_frame s); [apply Hm1| | |done]; by rewrite (made_vars _ _ _ Hm1). }
  assert (∀ x, info_of s1 x = info_of s x) as Hinfo
    by (intros x; unfold info_of; by rewrite (made_vars _ _ _ Hm1)).
  pose proof Hok1 as [[Hseg Hnd] Hown]. prog_step.
  rewrite (made_vars _ _ _ Hm1) in Hseg. pose proof (seg_size _ _ _ _ Hnd Hseg) as Hsize.
  eapply returns_lift; [apply (foreach_rep _ _ items); [exact Hseg|lia]|].
  prog_step. eapply returns_weaken; [apply cancel_all_spec|].
  { intros x Hx. split; [by eapply seg_live in Hseg as [? _]|by apply (owned_infos _ _ _ Hown)]. }
  intros [] s2 Hm2. cbn beta. pose proof (made_trans _ _ _ _ _ Hm1 Hm2) as Hm12.
  assert (list_ok s2 items) as [Hrep2 Hown2].
  { apply (list_ok_frame s1); [apply Hm2| | |done]; by rewrite (made_vars _ _ _ Hm2). }
  prog_step. eapply returns_weaken; [apply (join_all_spec (info_of s2) s2 items); done|].
  intros [] s3 (answers & Hlen & Hok3 & Hh3 & (_ & _ & Hstop3 & Ho3) & Hjs & Ht3 & Hl3). cbn beta.
  eapply returns_weaken; [apply end_calls_spec|].
  - rewrite Ho3, (made_owns _ _ _ Hm12); [done|]. unfold stop_calls.
    rewrite !Forall_app. split.
    + split; [destruct (0 <? _); [|done]|destruct (negb _); [|done]].
      * apply Forall_app. split; [by apply Forall_replicate|by repeat constructor].
      * by repeat constructor.
    + apply Forall_fmap, Forall_forall. done.
  - intros [] s4 (Hh4 & Hv4 & Ht4 & Ho4 & Hl4). cbn beta.
    assert (∀ x, info_of s2 x = info_of s x) as Hinfo2.
    { intros x. rewrite <- Hinfo. unfold info_of. by rewrite (made_vars _ _ _ Hm2). }
    assert (info_of s4 = info_of s3) as Hinfo4 by by (unfold info_of; rewrite Hv4).
    exists answers. split; [done|].
    split; [by rewrite Hv4, Hstop3, (made_vars _ _ _ Hm12)|].
    split; [by apply (list_ok_frame s3); [|rewrite Hv4..|]|].
    split; [done|]. split_and!.
    + rewrite Hh4, Hh3, (made_heap _ _ _ Hm12). cbn [stopped p_heap]. clear -Hinfo2.
      generalize (p_heap s). induction (ended items answers) as [|x xs IH]; intros h; [done|].
      cbn. rewrite IH. by rewrite Hinfo2.
    + done.
    + rewrite Ht4, Ht3, (made_calls _ _ _ Hm12). unfold cancel_calls.
      rewrite <- !app_assoc. cbn [stopped p_trace p_vars]. do 3 f_equal.
      * apply list_fmap_ext. intros i x _. by rewrite Hinfo.
      * f_equal. apply list_fmap_ext. intros i x _. by rewrite Hinfo2.
    + intros ok. rewrite Hinfo4. apply (stop_lives n s s1 s2 s3 s4 items ok); [done|done|by apply Hl3|].
      apply Hl4. destruct (all_joined 1 answers) eqn:Hall; [|right; by rewrite andb_false_r].
      left. by rewrite (all_joined_running items answers).
Qed.

(** C11: on SIGINT or SIGTERM the handler stops the server.  It shuts down and closes the
    listening socket, deletes the timer, cancels every connection of the list before
    it joins them all, destroys the lock and, in the build without the device,
    removes the data file, in this order and nothing else; the list is empty then,
    every element and the connection it points to is freed, once, and [stopApp] is
    set.  It needs that [shutdown] succeeds at some point, since the code repeats it until
    then, and that the joins succeed. *)
Theorem signal_stops_server dev fuel signum n s items
    (Hsig : signum = SIGINT ∨ signum = SIGTERM) (Hlist : list_ok s items)
    (Hfree : owns (p_world s) the_mutex = false)
    (Hshut : 0 < server_fd (p_vars s) →
       shutdown_succeeds n (p_world s) (server_fd (p_vars s)) ∧ (n < fuel)%nat)
    (Hjoin : ∀ w tid a w', sys w (Cthread_join tid) = (a, w') → rc a = 0) :
  returns (signal_handler dev fuel signum) s (λ _ s',
    stopApp (p_vars s') = 1 ∧ list_ok s' [] ∧ owns (p_world s') the_mutex = false
    ∧ p_heap s' = freed (info_of s) (p_heap s) items
    ∧ (p_trace s').*1 = (p_trace s).*1 ++ stop_calls n (p_vars s)
                          ++ cancel_calls (info_of s) items ++ end_calls dev).
Proof.
  eapply returns_weaken; [by apply (signal_handler_spec dev fuel signum n s items)|].
  intros [] s' (answers & Hlen & Hst & Hok & Ho & Hh & Hjs & Ht & _).
  destruct (ended_all items answers Hlen (Hjs Hjoin)) as [He Hr]. rewrite He in Hh. rewrite Hr in Hok.
  by split_and!.
Qed.

(** ** The main loop *)

(** The state between two rounds. *)
Definition between_rounds (s : pstate server) : Prop :=
  (∃ items, list_ok s items) ∧ owns (p_world s) the_mutex = false.

(** The round is not interrupted by SIGINT or SIGTERM. *)
Definition goes_on (r : option Z) : Prop := r ≠ Some SIGINT ∧ r ≠ Some SIGTERM.

Section Loop.
Variable dev : bool.
Context (Halloc : allocs_succeed O)
  (Haddr : ∀ a, Z.of_nat (length (inet_ntoa a)) + 1 < object_max).

Lemma accept_round s :
  between_rounds s → returns (accept_conn inet_ntoa) s (λ _ s', between_rounds s' ∧ same_scalars s s').
Proof.
  intros [[items Hl] Ho]. eapply returns_weaken; [by apply (accept_conn_spec s items)|].
  intros [] s' (Hsc & items' & Hl' & _). split; [|done]. split; [by exists items'|].
  destruct Hsc as (_ & _ & _ & H). by rewrite H.
Qed.

Lemma quiet_signal fuel r s (Q : unit → pstate server → Prop) :
  goes_on r → Q () s →
  returns (match r with Some signum => signal_handler dev fuel signum | None => mret () end) s Q.
Proof.
  intros [H1 H2] HQ. destruct r as [signum|]; [|by prog_step]. unfold signal_handler.
  assert ((signum =? SIGINT) || (signum =? SIGTERM) = false) as ->; [|by prog_step].
  apply orb_false_iff. split; apply Z.eqb_neq; congruence.
Qed.

(** Without SIGINT or SIGTERM the server goes on: after any number of rounds, whatever
    [accept] and [pthread_create] answer, the loop has not ended, the list of
    connections is well formed and the lock is not held by the main thread. *)
Theorem server_keeps_serving fuel rounds s
    (Hs : between_rounds s) (Hrun : stopApp (p_vars s) < 1) (Hrounds : Forall goes_on rounds) :
  returns (main_loop dev inet_ntoa fuel rounds) s (λ r s',
    r = None ∧ between_rounds s' ∧ stopApp (p_vars s') = stopApp (p_vars s)).
Proof.
  revert s Hs Hrun. induction Hrounds as [|r rounds Hr _ IH]; intros s Hs Hrun; cbn [main_loop].
  - prog_step. prog_step. rewrite (proj2 (Z.ltb_lt _ 1) Hrun). prog_step. done.
  - prog_step. prog_step. rewrite (proj2 (Z.ltb_lt _ 1) Hrun).
    prog_step. apply quiet_signal; [done|]. prog_step.
    eapply returns_weaken; [by apply accept_round|]. intros [] s1 [Hs1 (_ & _ & Hst & _)]. cbn beta.
    eapply returns_weaken; [apply IH; [done|by rewrite Hst]|]. intros r' s' (-> & H & ->). done.
Qed.

(** The server stops.  From any state between two rounds, after any rounds
    without SIGINT or SIGTERM, the round in which one of them arrives is the last: the
    loop ends and [main] returns 0, whatever would come later.  The connections whose
    threads could not be joined are still in the list then. *)
Lemma server_loop_stops fuel before signum after s
    (Hs : between_rounds s) (Hrun : stopApp (p_vars s) < 1) (Hbefore : Forall goes_on before)
    (Hsig : signum = SIGINT ∨ signum = SIGTERM)
    (Hshut : ∀ w fd, 0 < fd → ∃ n, shutdown_succeeds n w fd ∧ (n < fuel)%nat) :
  returns (main_loop dev inet_ntoa fuel (before ++ Some signum :: after)) s (λ r s',
    r = Some 0 ∧ between_rounds s' ∧ stopApp (p_vars s') = 1).
Proof.
  revert s Hs Hrun. induction Hbefore as [|r rounds Hr _ IH]; intros s Hs Hrun;
    cbn [main_loop app]; prog_step; prog_step; rewrite (proj2 (Z.ltb_lt _ 1) Hrun).
  - destruct Hs as [[items Hl] Ho].
    assert (∃ n, 0 < server_fd (p_vars s) →
      shutdown_succeeds n (p_world s) (server_fd (p_vars s)) ∧ (n < fuel)%nat) as [n Hn].
    { destruct (decide (0 < server_fd (p_vars s))) as [Hfd|Hfd]; [|by exists 0%nat].
      destruct (Hshut (p_world s) _ Hfd) as [n Hn]. by exists n. }
    prog_step. eapply returns_weaken.
    { by apply (signal_handler_spec dev fuel signum n s items). }
    intros [] s1 (answers & _ & Hst1 & Hl1 & Ho1 & _). cbn beta. prog_step.
    eapply returns_weaken; [apply accept_round; split; [by eexists|done]|].
    intros [] s2 [Hs2 (_ & _ & Hst2 & _)]. cbn beta. rewrite Hst1 in Hst2.
    destruct after as [|r after]; cbn [main_loop]; prog_step; prog_step; rewrite Hst2;
      change (1 <? 1) with false; cbv beta iota; by apply returns_ret.
  - prog_step. apply quiet_signal; [done|]. prog_step.
    eapply returns_weaken; [by apply accept_round|]. intros [] s1 [Hs1 (_ & _ & Hst & _)]. cbn beta.
    apply IH; [done|by rewrite Hst].
Qed.

End Loop.
End Signals.

(** ** Witnesses *)

(** A system on which every call succeeds; [accept] gives descriptor 7, the thread of a
    connection is still running when it is looked at. *)
Definition calm_default (c : call) : answer :=
  match c with
  | Caccept _ => Ans 7 []
  | Cthread_create _ => Ans 0 [50]
  | Cthread_tryjoin _ => Ans 16 []
  | _ => Ans 0 []
  end.

Definition calm_os : OS := sim_os (object_max - 1) calm_default.

Definition calm_laws : OSLaws calm_os := sim_os_laws (object_max - 1) _ eq_refl.

Definition calm_process : @pstate calm_os server :=
  @PState calm_os server three_heap (SimWorld ∅ [] 0 []) [] three_server.

Lemma calm_list : list_ok calm_process [10; 20; 30].
Proof.
  split; [apply three_rep|]. apply (list_owned_ext three_info).
  - intros x Hx. repeat (apply elem_of_cons in Hx as [->|Hx]); try by apply elem_of_nil in Hx.
    all: reflexivity.
  - destruct three_owned as [H1 H2 H3]. by split.
Qed.

Lemma calm_between : between_rounds calm_process.
Proof. split; [exists [10; 20; 30]; apply calm_list|done]. Qed.

Definition no_ip (_ : list Z) : list Z := [48].

Lemma calm_join w tid a w' : @sys calm_os w (Cthread_join tid) = (a, w') → rc a = 0.
Proof. by intros [= <- _]. Qed.

Lemma calm_shutdown (w : @world calm_os) fd : shutdown_succeeds 0 w fd.
Proof. done. Qed.

Lemma accept_keeps_list_witness :
  list_ok calm_process [10; 20; 30]
  ∧ returns (accept_conn no_ip) calm_process (λ _ s',
      same_scalars calm_process s' ∧ ∃ items', list_ok s' items'
      ∧ ∀ ok, lives calm_process (tids (info_of calm_process) [10; 20; 30], ok)
                 s' (tids (info_of s') items', ok)).
Proof.
  split; [apply calm_list|].
  exact (accept_keeps_list (L := calm_laws) no_ip calm_process [10; 20; 30]
    (sim_allocs_succeed _) calm_list eq_refl (λ _, eq_refl)).
Defined.

Lemma signal_stops_server_witness :
  list_ok calm_process [10; 20; 30]
  ∧ returns (signal_handler true 1 SIGTERM) calm_process (λ _ s',
      stopApp (p_vars s') = 1 ∧ list_ok s' [] ∧ owns (p_world s') the_mutex = false
      ∧ p_heap s' = freed (info_of calm_process) (p_heap calm_process) [10; 20; 30]
      ∧ (p_trace s').*1 = [] ++ [Cshutdown 3; Cclose 3]
          ++ [Cthread_cancel 110; Cthread_cancel 120; Cthread_cancel 130;
              Cthread_join 110; Cthread_join 120; Cthread_join 130]
          ++ [Cmutex_destroy the_mutex]).
Proof.
  split; [apply calm_list|].
  exact (signal_stops_server (L := calm_laws) true 1 SIGTERM 0 calm_process [10; 20; 30]
    (or_intror eq_refl) calm_list eq_refl
    (λ _, conj (calm_shutdown _ _) (le_n 1)) calm_join).
Defined.

Lemma server_keeps_serving_witness :
  between_rounds calm_process
  ∧ returns (main_loop true no_ip 1 [None; Some 1; None]) calm_process (λ r s',
      r = None ∧ between_rounds s' ∧ stopApp (p_vars s') = 0).
Proof.
  split; [apply calm_between|].
  refine (server_keeps_serving (L := calm_laws) no_ip true (sim_allocs_succeed _) (λ _, eq_refl)
    1 [None; Some 1; None] calm_process calm_between eq_refl _).
  repeat (apply Forall_cons; split; [done|]). by apply Forall_nil.
Defined.

Lemma server_loop_stops_witness :
  between_rounds calm_process
  ∧ returns (main_loop true no_ip 1 ([None; None] ++ Some SIGTERM :: [None])) calm_process (λ r s',
      r = Some 0 ∧ between_rounds s' ∧ stopApp (p_vars s') = 1).
Proof.
  split; [apply calm_between|].
  refine (server_loop_stops (L := calm_laws) no_ip true (sim_allocs_succeed _) (λ _, eq_refl)
    1 [None; None] SIGTERM [None] calm_process calm_between eq_refl _ (or_intror eq_refl)
    (λ w fd _, ex_intro _ 0%nat (conj (calm_shutdown w fd) (le_n 1)))).
  repeat (apply Forall_cons; split; [done|]). by apply Forall_nil.
Defined.
