(* ===== verification/Main.v ===== *)
(** * The server from start to end

    [main] of [server/aesdsocket.c] as a whole: what the set-up leaves, and that the
    program ends: with a failure while it sets up, as a parent of the daemon, or with 0
    after a signal ([main_serves_until_signal]). *)

From Stdlib Require Import String.
From S2P Require Import Prelude Memory Kernel CString Posix SimOS DataFile SList Server.
From S2P Require Import ConnList StartProps Signals.

(** [p] runs from [s] to its end without a fault: it returns, and [Q] holds, or the
    process exits, and [E] holds of the status. *)
Definition finishes {O : OS} {V A} (p : prog V A) (s : pstate V) (Q : A → pstate V → Prop)
    (E : Z → pstate V → Prop) : Prop :=
  ∃ o s', p s = Ok (o, s')
    ∧ match o with Returned a => Q a s' | Exited code => E code s' | _ => False end.

Section Finishes.
Context {O : OS} {N : Uncancelled O} {V : Type}.
Implicit Types s : pstate V.

Lemma finishes_ret {A} (a : A) s (Q : A → pstate V → Prop) E : Q a s → finishes (mret a) s Q E.
Proof. intros H. by exists (Returned a), s. Qed.

Lemma finishes_exit {A} code s (Q : A → pstate V → Prop) (E : Z → pstate V → Prop) :
  E code s → finishes (exit code) s Q E.
Proof. intros H. by exists (Exited code), s. Qed.

Lemma finishes_returns {A} (p : prog V A) s (Q : A → pstate V → Prop) E :
  returns p s Q → finishes p s Q E.
Proof. intros (a & s' & H & HQ). by exists (Returned a), s'. Qed.

Lemma finishes_bind {A B} (p : prog V A) (f : A → prog V B) s Q E :
  finishes p s (λ a s', finishes (f a) s' Q E) E → finishes (p ≫= f) s Q E.
Proof.
  intros (o & s' & H & HQ). unfold finishes, mbind, prog_bind. rewrite H.
  destruct o as [a|code| |]; [exact HQ|by exists (Exited code), s'|done..].
Qed.

Lemma finishes_call {B} c (f : Z → prog V B) s Q E :
  (∀ a w, sys (p_world s) c = (a, w) → finishes (f (rc a)) (after s c a w) Q E) →
  finishes (do_call c ≫= f) s Q E.
Proof.
  intros H. apply finishes_bind, finishes_returns, returns_call. intros a w E'. by apply H.
Qed.

Lemma finishes_weaken {A} (p : prog V A) s (Q R : A → pstate V → Prop) (E : Z → pstate V → Prop) :
  finishes p s Q E → (∀ a s', Q a s' → R a s') → finishes p s R E.
Proof. intros (o & s' & H & HQ) HR. exists o, s'. split; [done|]. destruct o; auto. Qed.

End Finishes.

Section Main.
Context {O : OS} {L : OSLaws O} {N : Uncancelled O}.
Variable inet_ntoa : list Z → list Z.
Variable dev : bool.
Implicit Types s : pstate server.

(** Nothing asked the server to stop, and the main thread does not have the lock. *)
Definition idle s : Prop := stopApp (p_vars s) = 0 ∧ owns (p_world s) the_mutex = false.

Lemma idle_after s c a w :
  on_mutex the_mutex c = false → sys (p_world s) c = (a, w) → idle s → idle (after s c a w).
Proof. intros Hc H [H1 H2]. split; [done|]. rewrite <- H2. by eapply owns_frame. Qed.

(** The process was started as a daemon. *)
Definition as_daemon (argv : list (list Z)) : bool :=
  match argv with [_; a] => bool_decide (a = str "-d") | _ => false end.

(** How the process may exit before it serves: with a failure, or as the parent of the
    process that serves. *)
Definition early_exit (daemon : bool) (code : Z) (s : pstate server) : Prop :=
  code = EXIT_FAILURE ∨ daemon = true ∧ code = EXIT_SUCCESS.

Lemma give_up_exits {A} daemon s (Q : A → pstate server → Prop) :
  finishes (give_up_start dev) s Q (early_exit daemon).
Proof.
  assert (∀ s (R : unit → pstate server → Prop), (∀ s', R () s') →
    finishes (destroy_datafile dev) s R (early_exit daemon)) as Hd.
  { intros s0 R H. unfold destroy_datafile. destruct (negb dev); [|by apply finishes_ret].
    apply finishes_call. intros a w _. by apply finishes_ret. }
  unfold give_up_start, cleanup. apply finishes_bind, finishes_bind.
  apply finishes_returns, returns_get_vars. apply finishes_bind.
  assert (∀ s', finishes (destroy_datafile dev) s'
    (λ _ s'', finishes (exit EXIT_FAILURE) s'' Q (early_exit daemon)) (early_exit daemon)) as He.
  { intros s'. apply Hd. intros s''. apply finishes_exit. by left. }
  destruct (0 <? server_fd (p_vars s)); [|by apply finishes_ret].
  apply finishes_call. intros a w _. by apply finishes_ret.
Qed.

Lemma make_daemon_idle s :
  idle s → finishes make_daemon s (λ _ s', idle s') (early_exit true).
Proof.
  intros Hi. unfold make_daemon. apply finishes_call. intros a w H1.
  pose proof (idle_after s Cfork a w eq_refl H1 Hi) as Hi1.
  destruct (rc a <? 0); [apply finishes_exit; by left|].
  destruct (0 <? rc a); [apply finishes_exit; by right|].
  apply finishes_call. intros a2 w2 H2. pose proof (idle_after _ Csetsid _ _ eq_refl H2 Hi1) as Hi2.
  destruct (rc a2 <? 0); [apply finishes_exit; by left|].
  apply finishes_call. intros a3 w3 H3. pose proof (idle_after _ Cfork _ _ eq_refl H3 Hi2) as Hi3.
  destruct (rc a3 <? 0); [apply finishes_exit; by left|].
  destruct (0 <? rc a3); [apply finishes_exit; by right|].
  apply finishes_call. intros a4 w4 H4. pose proof (idle_after _ (Cumask 0) _ _ eq_refl H4 Hi3) as Hi4.
  apply finishes_call. intros a5 w5 H5.
  apply finishes_ret. by apply (idle_after _ (Cchdir (str "/"))).
Qed.

Lemma start_server_idle port daemon s :
  idle s → finishes (start_server dev port daemon) s (λ _ s', idle s') (early_exit daemon).
Proof.
  intros Hi. unfold start_server. apply finishes_call. intros a1 w1 H1.
  pose proof (idle_after _ Csocket _ _ eq_refl H1 Hi) as Hi1.
  destruct (rc a1 <? 0); [apply give_up_exits|].
  apply finishes_call. intros a2 w2 H2.
  pose proof (idle_after _ (Csetsockopt (rc a1)) _ _ eq_refl H2 Hi1) as Hi2.
  destruct (rc a2 <? 0); [apply give_up_exits|].
  apply finishes_call. intros a3 w3 H3.
  pose proof (idle_after _ (Cgetaddrinfo port) _ _ eq_refl H3 Hi2) as Hi3.
  destruct (negb (rc a3 =? 0)); [apply give_up_exits|].
  apply finishes_call. intros a4 w4 H4.
  pose proof (idle_after _ (Cbind (rc a1)) _ _ eq_refl H4 Hi3) as Hi4.
  destruct (negb (rc a4 =? 0)); [apply give_up_exits|].
  assert (∀ s', idle s' → finishes
    (rc0 ← do_call (Clisten (rc a1) LISTEN_BACKLOG);
     if negb (rc0 =? 0) then give_up_start dev else mret (rc a1)) s' (λ _ s'', idle s'')
    (early_exit daemon)) as Hlisten.
  { intros s' Hs'. apply finishes_call. intros a5 w5 H5.
    destruct (negb (rc a5 =? 0)); [apply give_up_exits|]. apply finishes_ret.
    by apply (idle_after _ (Clisten (rc a1) LISTEN_BACKLOG)). }
  apply finishes_bind. destruct daemon; [|by apply finishes_ret, Hlisten].
  eapply finishes_weaken; [by apply make_daemon_idle|]. intros [] s' Hs'. by apply Hlisten.
Qed.

(** A call whose result does not matter. *)
Lemma idle_call {B} c (f : Z → prog server B) s Q E :
  on_mutex the_mutex c = false → idle s →
  (∀ x s', idle s' → finishes (f x) s' Q E) → finishes (do_call c ≫= f) s Q E.
Proof.
  intros Hc Hi Hf. apply finishes_call. intros a w H. apply Hf. by eapply idle_after.
Qed.

Lemma register_sighandlers_idle s (E : Z → pstate server → Prop) :
  idle s → finishes register_sighandlers s (λ _ s', idle s') E.
Proof.
  intros Hi. unfold register_sighandlers. apply idle_call; [done|done|]. intros rc s1 H1.
  destruct (negb (rc =? 0)); [by apply finishes_ret|].
  apply idle_call; [done|done|]. intros rc2 s2 H2.
  destruct (negb (rc2 =? 0)); by apply finishes_ret.
Qed.

Lemma create_timer_idle s (E : Z → pstate server → Prop) :
  idle s → finishes create_timer s (λ _ s', idle s' ∧ ∀ items, list_ok s items → list_ok s' items) E.
Proof.
  intros Hi. apply finishes_returns. unfold create_timer. prog_step. prog_step.
  pose proof (idle_after _ Ctimer_create _ _ eq_refl H Hi) as Hi1.
  assert (∀ items, list_ok s items → list_ok (after s Ctimer_create a w) items) as Hl.
  { intros items Hok. by apply (list_ok_frame s). }
  destruct (negb (rc a =? 0)); [by prog_step|]. unfold modify.
  do 7 prog_step.
  split; [eapply idle_after; [|eassumption|]; done|].
  intros items Hok. by apply (list_ok_frame s).
Qed.

(** What the set-up leaves for the accept loop. *)
Definition set_up_for_loop (r : Z) (s : pstate server) : Prop :=
  r = EXIT_FAILURE ∨ r = EXIT_SUCCESS ∧ idle s ∧ list_ok s [].

Lemma main_setup_idle argv s :
  idle s → finishes (main_setup dev argv) s set_up_for_loop (early_exit (as_daemon argv)).
Proof.
  intros Hi. unfold main_setup. apply finishes_bind.
  eapply finishes_weaken; [by apply start_server_idle|]. intros fd s1 H1. cbn beta.
  unfold modify. apply finishes_bind, finishes_bind.
  apply finishes_returns, returns_get_vars. apply finishes_returns, returns_set_vars.
  set (s2 := PState _ _ _ _). assert (idle s2) as H2 by exact H1.
  destruct (fd <? 0); [apply finishes_ret; by left|].
  apply finishes_bind. eapply finishes_weaken; [by apply register_sighandlers_idle|].
  intros rc s3 H3. cbn beta. destruct (negb (rc =? 0)); [apply finishes_exit; by left|].
  unfold open_datafile. apply idle_call; [done|done|]. intros fd2 s4 H4.
  destruct (fd2 <? 0); [apply finishes_exit; by left|].
  apply finishes_bind. apply (finishes_weaken _ _ (λ _ s', idle s')).
  { unfold close_datafile. destruct (0 <? fd2); [|by apply finishes_ret].
    apply idle_call; [done|done|]. intros x s5 H5. by apply finishes_ret. }
  intros [] s5 H5. cbn beta. apply finishes_bind, finishes_bind.
  apply finishes_returns, returns_get_vars. apply finishes_returns, returns_set_vars.
  set (s6 := PState _ _ _ _). assert (idle s6) as [H6s H6o] by exact H5.
  assert (list_ok s6 []) as Hok6.
  { split; [split; [done|apply NoDup_nil_2]|]. split; [by intros x ?%not_elem_of_nil..|].
    constructor. }
  apply finishes_call. intros a w Hinit. set (s7 := after _ _ _ _).
  assert (idle s7) as H7 by (split; [done|by eapply (init_free (p_world s6))]).
  assert (list_ok s7 []) as Hok7 by by apply (list_ok_frame s6).
  apply finishes_bind. apply (finishes_weaken _ _ (λ _ s', idle s' ∧ list_ok s' [])).
  { destruct (negb dev); [|by apply finishes_ret].
    eapply finishes_weaken; [by apply create_timer_idle|]. intros [] s8 [H8 Hl]. auto. }
  intros [] s8 [H8 Hl8]. apply finishes_ret. right. done.
Qed.

Context (Halloc : allocs_succeed O)
  (Haddr : ∀ a, Z.of_nat (length (inet_ntoa a)) + 1 < object_max).

(** C7: the server as a whole, on a system whose [shutdown] of a socket succeeds after
    fewer than [fuel] failures, since the signal handler repeats it until then, and whose
    allocations succeed; every other call, the joins of the threads included, may answer
    anything.  From the start of the process [main] ends without a fault in one of three
    ways: it gives up with status 1 while it sets up; it is a parent process of the daemon
    and exits with 0; or it serves, for any number of rounds, and in the round in which
    SIGINT or SIGTERM arrives it stops and returns 0, with the list of connections still
    well formed and the lock not held by it. *)
Theorem main_serves_until_signal fuel (argv : list (list Z)) before signum
    (later : list (option Z)) s
    (Hi : idle s) (Hbefore : Forall goes_on before) (Hsig : signum = SIGINT ∨ signum = SIGTERM)
    (Hshut : ∀ w fd, 0 < fd → ∃ n, shutdown_succeeds n w fd ∧ (n < fuel)%nat) :
  finishes (main dev inet_ntoa fuel argv (before ++ Some signum :: later)) s
    (λ r s', r = Some EXIT_FAILURE
       ∨ r = Some EXIT_SUCCESS ∧ stopApp (p_vars s') = 1 ∧ between_rounds s')
    (early_exit (as_daemon argv)).
Proof.
  unfold main. apply finishes_bind. eapply finishes_weaken; [by apply main_setup_idle|].
  intros r s1 [->|(-> & [Hst Ho] & Hok)]; cbn beta.
  - apply finishes_ret. by left.
  - apply finishes_returns. eapply returns_weaken.
    + apply server_loop_stops; try done; [split; [by exists []|done]|lia].
    + intros r s2 (-> & Hb & Hs2). by right.
Qed.

End Main.

(** ** Witness *)

Definition fresh_process : @pstate calm_os server :=
  @PState calm_os server three_heap (SimWorld ∅ [] 0 []) [] three_server.

Lemma main_serves_until_signal_witness :
  idle fresh_process
  ∧ finishes (main true no_ip 1 [str "aesdsocket"; str "-d"] ([None; None] ++ Some SIGTERM :: [None]))
      fresh_process
      (λ r s', r = Some EXIT_FAILURE
         ∨ r = Some EXIT_SUCCESS ∧ stopApp (p_vars s') = 1 ∧ between_rounds s')
      (early_exit true).
Proof.
  split; [by split|].
  refine (main_serves_until_signal (L := calm_laws) no_ip true (sim_allocs_succeed _) (λ _, eq_refl)
    1 [str "aesdsocket"; str "-d"] [None; None] SIGTERM [None] fresh_process (conj eq_refl eq_refl)
    _ (or_intror eq_refl)
    (λ w fd _, ex_intro _ 0%nat (conj (calm_shutdown w fd) (le_n 1)))).
  repeat (apply Forall_cons; split; [done|]). by apply Forall_nil.
Defined.
