(* ===== verification/MainThread.v ===== *)
(** * The main thread and the threads it creates

    [main] keeps to the automaton of [Lifetime], whatever the calls answer, but for the
    allocations, which succeed, and whichever signals arrive ([main_joins_its_threads]): it asks only for threads that it created
    and has not joined, and destroys the lock when it has joined all of them, as long as no
    [pthread_join] failed.  After a join that fails it destroys the lock all the same
    ([failed_join_is_ignored]). *)

From Stdlib Require Import String.
From stdpp Require Import gmultiset.
From S2P Require Import Prelude Memory Kernel CString Posix SimOS DataFile SList Server.
From S2P Require Import ConnList Lifetime StartProps Signals Main.

Section MainThread.
Context {O : OS} {L : OSLaws O} {N : Uncancelled O}.
Variable inet_ntoa : list Z → list Z.
Variable dev : bool.
Implicit Types s : pstate server.

(** A loop over [shutdown] that ended had the fuel. *)
Lemma shutdown_loop_ended fuel fd s o s' :
  shutdown_loop fuel fd s = Ok (o, s') →
  ∃ n, shutdown_succeeds n (p_world s) fd ∧ (n < fuel)%nat.
Proof.
  revert s. induction fuel as [|fuel IH]; intros s H; [done|].
  cbn [shutdown_loop] in H. rewrite run_call in H.
  destruct (sys (p_world s) (Cshutdown fd)) as [a w] eqn:E. cbn [fst snd] in H.
  destruct (Z.eqb_spec (rc a) (-1)) as [Ha|Ha].
  - destruct (IH _ H) as (n & Hn & Hlt). exists (S n). split; [|lia].
    cbn [shutdown_succeeds]. by rewrite E.
  - exists 0%nat. split; [|lia]. cbn [shutdown_succeeds]. by rewrite E.
Qed.

Lemma signal_handler_ended fuel signum s o s' :
  signum = SIGINT ∨ signum = SIGTERM → signal_handler dev fuel signum s = Ok (o, s') →
  0 < server_fd (p_vars s) →
  ∃ n, shutdown_succeeds n (p_world s) (server_fd (p_vars s)) ∧ (n < fuel)%nat.
Proof.
  intros Hsig H Hfd. unfold signal_handler in H.
  assert ((signum =? SIGINT) || (signum =? SIGTERM) = true) as Hb by by destruct Hsig as [-> | ->].
  rewrite Hb in H.
  destruct (shutdown_loop fuel (server_fd (p_vars s)) (stopped s)) as [[o1 s1]|f] eqn:E.
  { by apply shutdown_loop_ended in E. }
  exfalso. unfold modify, get_vars, set_vars in H. unfold mbind, prog_bind in H. cbn [p_vars] in H.
  cbn [server_fd with_stopApp] in H. rewrite (proj2 (Z.ltb_lt _ _) Hfd) in H.
  unfold stopped in E. by rewrite E in H.
Qed.

Context (Halloc : allocs_succeed O)
  (Haddr : ∀ a, Z.of_nat (length (inet_ntoa a)) + 1 < object_max).

(** The list and the threads: what holds between two rounds. *)
Definition tracks_threads s (st : main_state) : Prop :=
  ∃ items, list_ok s items ∧ st.1 = tids (info_of s) items ∧ owns (p_world s) the_mutex = false.

Lemma accept_tracks s st o s' :
  tracks_threads s st → accept_conn inet_ntoa s = Ok (o, s') →
  ∃ st', lives s st s' st' ∧ tracks_threads s' st' ∧ ∃ a, o = Returned a.
Proof.
  destruct st as [live ok]. intros (items & Hl & Hlive & Ho) H. cbn in Hlive. subst live.
  destruct (accept_conn_spec inet_ntoa s items Halloc Hl Ho Haddr)
    as (a & s1 & Hrun & (_ & _ & _ & Hown) & items' & Hl' & Hli).
  rewrite H in Hrun. injection Hrun as -> ->. eexists. split; [exact (Hli ok)|].
  split; [|by eexists]. exists items'. by rewrite Hown.
Qed.

Lemma signal_tracks fuel signum s st o s' :
  tracks_threads s st → signal_handler dev fuel signum s = Ok (o, s') →
  ∃ st', lives s st s' st' ∧ tracks_threads s' st' ∧ ∃ a, o = Returned a.
Proof.
  destruct st as [live ok]. intros (items & Hl & Hlive & Ho) H. cbn in Hlive. subst live.
  destruct (decide (signum = SIGINT ∨ signum = SIGTERM)) as [Hsig|Hsig].
  - assert (∃ n, 0 < server_fd (p_vars s) →
      shutdown_succeeds n (p_world s) (server_fd (p_vars s)) ∧ (n < fuel)%nat) as [n Hn].
    { destruct (decide (0 < server_fd (p_vars s))) as [Hfd|Hfd]; [|by exists 0%nat].
      destruct (signal_handler_ended _ _ _ _ _ Hsig H Hfd) as [n Hn]. by exists n. }
    destruct (signal_handler_spec dev fuel signum n s items Hsig Hl Ho Hn)
      as (a & s1 & Hrun & answers & _ & _ & Hl1 & Ho1 & _ & _ & _ & Hli).
    rewrite H in Hrun. injection Hrun as -> ->. eexists. split; [exact (Hli ok)|].
    split; [|by eexists]. by eexists.
  - unfold signal_handler in H.
    assert ((signum =? SIGINT) || (signum =? SIGTERM) = false) as Hb.
    { apply orb_false_iff. split; apply Z.eqb_neq; tauto. }
    rewrite Hb in H. injection H as <- <-. eexists. split; [by apply lives_same|].
    split; [by exists items|by eexists].
Qed.

Lemma main_loop_tracks fuel rounds s st o s' :
  tracks_threads s st → main_loop dev inet_ntoa fuel rounds s = Ok (o, s') →
  ∃ st', lives s st s' st'.
Proof.
  revert s st. induction rounds as [|r rounds IH]; intros s st Hs H; cbn [main_loop] in H;
    unfold mbind, prog_bind, get_vars in H.
  - injection H as _ <-. exists st. by apply lives_same.
  - destruct (stopApp (p_vars s) <? 1); [|injection H as _ <-; exists st; by apply lives_same].
    destruct ((match r with Some signum => signal_handler dev fuel signum | None => mret () end) s)
      as [[o1 s1]|f] eqn:E1; [|done].
    assert (∃ st1, lives s st s1 st1 ∧ tracks_threads s1 st1 ∧ ∃ a, o1 = Returned a)
      as (st1 & Hl1 & Hs1 & a1 & ->).
    { destruct r as [signum|]; [by eapply signal_tracks|]. injection E1 as <- <-.
      exists st. split; [by apply lives_same|]. split; [done|by eexists]. }
    destruct (accept_conn inet_ntoa s1) as [[o2 s2]|f] eqn:E2; [|done].
    destruct (accept_tracks _ _ _ _ Hs1 E2) as (st2 & Hl2 & Hs2 & a2 & ->).
    destruct (IH _ _ Hs2 H) as (st3 & Hl3). exists st3.
    eapply lives_trans; [exact Hl1|]. by eapply lives_trans.
Qed.

Lemma main_lives fuel argv rounds s o s' :
  idle s → main dev inet_ntoa fuel argv rounds s = Ok (o, s') → ∃ st, lives s (∅, true) s' st.
Proof.
  intros Hi H. unfold main, mbind, prog_bind in H.
  destruct (main_setup_idle dev argv s Hi) as (o1 & s1 & Hrun & Ho1). rewrite Hrun in H.
  pose proof (alive_main_setup dev argv s o1 s1 Hrun) as Hl.
  destruct o1 as [r|code| |]; try done; [|injection H as _ <-; by eexists].
  destruct Ho1 as [->|(-> & [_ Hown] & Hok)]; cbn in H; [injection H as _ <-; by eexists|].
  destruct (main_loop_tracks fuel rounds s1 (∅, true) o s') as [st Hst]; [by exists []|done|].
  exists st. by eapply lives_trans.
Qed.

(** C13: the main thread and the threads of the connections.  In every run of [main] that
    ends, whatever the calls answer and whichever signals arrive, a thread is
    cancelled or joined only while it is alive, that is, after [pthread_create] gave its
    identifier and before it was joined; when the lock is initialised there is no thread;
    and when [signal_handler] destroys it, every thread that was created has been joined,
    provided that every [pthread_join] before answered 0: the second component of the state
    says so ([lrun_joins_ok]), and the code does not look at these answers.  The allocations
    succeed. *)
Theorem main_joins_its_threads fuel argv rounds s o s'
    (Hi : idle s) (Hrun : main dev inet_ntoa fuel argv rounds s = Ok (o, s')) :
  ∃ evs, p_trace s' = p_trace s ++ evs ∧ is_Some (lrun (∅, true) evs)
    ∧ ∀ e1 m a e2, evs = e1 ++ (Cmutex_destroy m, a) :: e2 → Forall joined e1 →
        lrun (∅, true) e1 = Some (∅, true).
Proof.
  destruct (main_lives fuel argv rounds s o s' Hi Hrun) as (st & evs & Ht & Hl).
  exists evs. split; [done|]. split; [by eexists|]. intros e1 m a e2 -> Hj.
  rewrite lrun_app in Hl. destruct (lrun (∅, true) e1) as [[live ok]|] eqn:E; [|done].
  pose proof (lrun_joins_ok _ _ _ E Hj) as Hok. cbn in Hok. subst ok. cbn [lrun lnext] in Hl.
  by destruct (decide _) as [[->|[=]]|].
Qed.

End MainThread.

(** ** Witness *)

(** A connection, then the signal. *)
Abbreviation calm_main := (main true no_ip 1 [str "aesdsocket"] [None; Some SIGTERM] fresh_process).

Definition calm_trace : list (call * answer) :=
  match calm_main with Ok (_, s') => p_trace s' | Err _ => [] end.

Lemma main_joins_its_threads_witness :
  ((λ st, elements st.1) <$> lrun (∅, true) (take 12 calm_trace) = Some [50])
  ∧ match calm_main with
    | Ok (_, s') => ∃ evs, p_trace s' = [] ++ evs ∧ is_Some (lrun (∅, true) evs)
        ∧ ∀ e1 m a e2, evs = e1 ++ (Cmutex_destroy m, a) :: e2 → Forall joined e1 →
            lrun (∅, true) e1 = Some (∅, true)
    | Err _ => False
    end.
Proof.
  split; [vm_compute; reflexivity|].
  assert (match calm_main with Ok _ => true | Err _ => false end = true) as Hok
    by (vm_compute; reflexivity).
  destruct calm_main as [[o s']|f] eqn:E; [|discriminate Hok].
  exact (main_joins_its_threads (L := calm_laws) no_ip true (sim_allocs_succeed _) (λ _, eq_refl)
    1 [str "aesdsocket"] [None; Some SIGTERM] fresh_process o s'
    (conj eq_refl eq_refl) E).
Defined.

(** The same on a system on which joins fail. *)
Definition stuck_default (c : call) : answer :=
  match c with Cthread_join _ => Ans 35 [] | c => calm_default c end.

Definition stuck_os : OS := sim_os (object_max - 1) stuck_default.

Definition stuck_trace : list (call * answer) :=
  match main (O := stuck_os) true no_ip 1 [str "aesdsocket"] [None; Some SIGTERM]
          (@PState stuck_os server three_heap (SimWorld ∅ [] 0 []) [] three_server) with
  | Ok (_, s') => p_trace s'
  | Err _ => []
  end.

(** A join that fails is ignored: the lock is destroyed while the thread of a connection has
    not been joined. *)
Theorem failed_join_is_ignored :
  ∃ e1 a e2, stuck_trace = e1 ++ (Cmutex_destroy the_mutex, a) :: e2
    ∧ ∃ live, lrun (∅, true) e1 = Some (live, false) ∧ 50 ∈ live.
Proof.
  exists (take 14 stuck_trace), (Ans 0 []), (drop 15 stuck_trace).
  split; [vm_compute; reflexivity|].
  destruct (lrun (∅, true) (take 14 stuck_trace)) as [[live ok]|] eqn:E.
  2: { assert (match lrun (∅, true) (take 14 stuck_trace) with Some _ => true | None => false end = true)
         as H by (vm_compute; reflexivity). by rewrite E in H. }
  exists live. assert (match lrun (∅, true) (take 14 stuck_trace) with
    | Some (l, b) => negb b && bool_decide (50 ∈ l) | None => false end = true) as H
    by (vm_compute; reflexivity).
  rewrite E in H. apply andb_prop in H as [Hok Hin]. destruct ok; [done|].
  split; [done|]. by apply bool_decide_eq_true in Hin.
Qed.
