(* ===== verification/Shutdown.v ===== *)
(** * The server stops

    The main thread as one more thread of the interleavings of [Interleave]: while it runs,
    only one thread has the lock ([main_and_threads_exclude]), and when its signal handler
    destroys the lock, nobody has it ([mutex_is_destroyed_free]).  What the two sides promise
    each other is the automaton of [Lifetime] for the main thread, those of [Protocol] for
    the others, and [posix_threads] for the system. *)

From Stdlib Require Import String.
From stdpp Require Import gmultiset.
From S2P Require Import Prelude Memory Kernel AesdIoctl CString Posix SimOS DataFile SList.
From S2P Require Import Server Runs ServerSpec ServerRefine ServerProps Timer Protocol Interleave.
From S2P Require Import ConnList Lifetime StartProps Signals Main MainThread.

(** ** Events of one thread and of the others *)

(** The events of all threads but [mi]. *)
Definition others {A} (mi : nat) (l : list (nat * A)) : list (nat * A) := filter (λ e, e.1 ≠ mi) l.

Lemma others_app {A} mi (l k : list (nat * A)) : others mi (l ++ k) = others mi l ++ others mi k.
Proof. apply filter_app. Qed.

Lemma others_cons {A} mi j (x : A) l :
  others mi ((j, x) :: l) = if decide (j = mi) then others mi l else (j, x) :: others mi l.
Proof.
  unfold others. destruct (decide (j = mi)) as [->|Hne].
  - by rewrite filter_cons_False by auto.
  - by rewrite filter_cons_True.
Qed.

Lemma select_others {A} mi i (l : list (nat * A)) :
  select i (others mi l) = if decide (i = mi) then [] else select i l.
Proof.
  induction l as [|[j x] l IH]; [by destruct (decide _)|].
  rewrite others_cons. cbn. destruct (decide (j = mi)) as [->|Hj]; cbn; rewrite ?IH;
    destruct (decide (i = mi)) as [->|Hi]; repeat case_decide; congruence.
Qed.

(** Where the items of a thread are among all. *)
Lemma select_split {A} i (l : list (nat * A)) k1 x k2 :
  select i l = k1 ++ x :: k2 →
  ∃ l1 l2, l = l1 ++ (i, x) :: l2 ∧ select i l1 = k1 ∧ select i l2 = k2.
Proof.
  revert k1. induction l as [|[j y] l IH]; intros k1 H; [by destruct k1|].
  cbn in H. destruct (decide (j = i)) as [->|Hne].
  - destruct k1 as [|z k1]; cbn in H.
    + injection H as -> <-. by exists [], l.
    + injection H as -> H. destruct (IH _ H) as (l1 & l2 & -> & H1 & H2).
      exists ((i, z) :: l1), l2. cbn. by rewrite decide_True, H1.
  - destruct (IH _ H) as (l1 & l2 & -> & H1 & H2).
    exists ((j, y) :: l1), l2. cbn. by rewrite decide_False.
Qed.

(** The items of a list, each with those before it. *)
Fixpoint splits {A} (pre l : list A) : list (list A * A) :=
  match l with [] => [] | x :: l => (pre, x) :: splits (pre ++ [x]) l end.

Lemma splits_spec {A} pre (l : list A) e1 x e2 : l = e1 ++ x :: e2 → (pre ++ e1, x) ∈ splits pre l.
Proof.
  revert pre l. induction e1 as [|y e1 IH]; intros pre l ->; cbn.
  - rewrite app_nil_r. left.
  - right. rewrite (app_assoc pre [y] e1 : pre ++ y :: e1 = _). by apply IH.
Qed.

(** ** The main thread among the others *)

(** The calls of a run of [main]. *)
Definition main_run (dev : bool) (evs : list (call * answer)) : Prop :=
  ∃ (O : OS) (L : OSLaws O) (N : Uncancelled O) inet_ntoa fuel argv rounds s s' o,
    allocs_succeed O ∧ (∀ a, Z.of_nat (length (inet_ntoa a)) + 1 < object_max)
    ∧ idle s ∧ main dev inet_ntoa fuel argv rounds s = Ok (o, s') ∧ p_trace s' = p_trace s ++ evs.

Lemma main_run_lives dev evs : main_run dev evs → is_Some (lrun (∅, true) evs).
Proof.
  intros (O & L & N & ntoa & fuel & argv & rounds & s & s' & o & Ha & Hn & Hi & Hrun & Ht).
  destruct (main_lives ntoa dev Ha Hn fuel argv rounds s o s' Hi Hrun) as (live & evs' & Ht' & H).
  rewrite Ht in Ht'. apply app_inv_head in Ht' as ->. by eexists.
Qed.

(** The calls of a run that is written down. *)
Definition main_trace {O : OS} (dev : bool) inet_ntoa fuel argv rounds (s : pstate server)
    : option (list (call * answer)) :=
  match main dev inet_ntoa fuel argv rounds s with Ok (_, s') => Some (p_trace s') | Err _ => None end.

Lemma main_trace_run {O : OS} {L : OSLaws O} {N : Uncancelled O} dev inet_ntoa fuel argv rounds s evs :
  allocs_succeed O → (∀ a, Z.of_nat (length (inet_ntoa a)) + 1 < object_max) →
  idle s → p_trace s = [] →
  main_trace dev inet_ntoa fuel argv rounds s = Some evs → main_run dev evs.
Proof.
  intros Ha Hn Hi Ht H. unfold main_trace in H.
  destruct (main dev inet_ntoa fuel argv rounds s) as [[o s']|f] eqn:E; [|done]. injection H as <-.
  exists O, L, N, inet_ntoa, fuel, argv, rounds, s, s', o. by rewrite Ht.
Qed.

Lemma lnext_owner m live c a :
  is_Some (lnext live (c, a)) →
  on_mutex m c = false ∨ c = Cmutex_init m ∨ c = Cmutex_destroy m.
Proof.
  destruct live as [live ok]. intros [live' H]. destruct c; cbn in *; auto; try done.
  all: destruct (Z.eqb_spec m m0) as [->|]; auto.
Qed.

Section Shutdown.
Context {S : System} {L : SystemLaws S}.
Variables (dev : bool) (x0 y0 : Z).
(* the main thread, and the identifiers of the others *)
Variables (mi : nat) (tid : nat → Z).
Variables (m : Z) (threads : list thread) (whole : nat → bool).

(** Thread [mi] runs [main], the others serve, each up to some point. *)
Record crew (evs : list event) : Prop := {
  crew_main : ∃ rest, main_run dev (select mi evs ++ rest);
  crew_others : serving dev x0 y0 m threads whole (others mi evs);
  crew_apart : threads !! mi = None
}.

Lemma crew_app e1 e2 : crew (e1 ++ e2) → crew e1.
Proof using.
  intros [[rest H1] H2 H3]. split; [|rewrite others_app in H2; by eapply serving_app|done].
  rewrite select_app, <- app_assoc in H1. by eexists.
Qed.

(** The threads that are alive after [evs]. *)
Definition alive_after (evs : list event) : option threads_alive :=
  fst <$> lrun (∅, true) (select mi evs).

Lemma crew_main_state evs : crew evs → is_Some (lrun (∅, true) (select mi evs)).
Proof using.
  intros [[rest H%main_run_lives] _ _]. rewrite lrun_app in H.
  destruct (lrun (∅, true) (select mi evs)); [by eexists|by destruct H].
Qed.

Abbreviation states_of evs := (states_after dev (role_of threads whole) m (others mi evs)).

Lemma crew_owner w0 evs w :
  exec w0 evs w → ts_owner w0 m = None → crew evs → owner_inv m w (states_of evs).
Proof using L.
  intros H Hm. induction H as [|evs w1 j c a w2 H IH Hen Hsys]; intros Hc.
  - intros i s Hi. apply states_start in Hi as ->. rewrite Hm. done.
  - specialize (IH (crew_app _ _ Hc)). pose proof (crew_others _ Hc) as Hsv.
    rewrite others_app, others_cons in *. cbn in *. destruct (decide (j = mi)) as [->|Hj].
    + rewrite app_nil_r. intros i s Hi. rewrite (IH i s Hi).
      enough (ts_owner w2 m = ts_owner w1 m) as -> by done.
      destruct (crew_main_state _ Hc) as [st Hl].
      rewrite select_snoc, decide_True, lrun_app in Hl by done.
      destruct (lrun (∅, true) (select mi evs)) as [l1|]; [|done]. cbn [lrun] in Hl.
      destruct (lnext l1 (c, a)) as [l2|] eqn:Hn; [|done].
      destruct (lnext_owner m l1 c a) as [Hmx|Hmx]; [by eexists| |].
      * by apply (ts_frame mi w1 m c a w2).
      * by apply (ts_init mi w1 m c a w2).
    + destruct (states_snoc dev (role_of threads whole) m (others mi evs) j (c, a)) as (s & s' & Hs & Hstep & Heq).
      { by apply (serving_states dev x0 y0). }
      by apply (owner_inv_ext _ _ _ _ Heq), (owner_step dev (role_of threads whole) m w1 w2 _ j s c a).
Qed.

(** C3: mutual exclusion, in both builds and on every system with the mutexes of POSIX.
    In every interleaving of [main], its signal handler included, with the handlers of any
    number of clients and runs of the timer, whatever fails, whichever handlers are
    cancelled and wherever the threads are, a thread that appends to the data file or reads
    it has the lock, and no other thread is between its lock and its unlock.  The
    unlock in [connection_cleanup], which a thread also does without having the lock, takes
    it from nobody. *)
Theorem main_and_threads_exclude w0 evs i c a evs' w
    (Hexec : exec w0 (evs ++ (i, (c, a)) :: evs') w) (Hfree : ts_owner w0 m = None)
    (Hcrew : crew (evs ++ (i, (c, a)) :: evs')) (Haccess : accesses c = true) :
  ∃ w1, exec w0 evs w1 ∧ ts_owner w1 m = Some i
    ∧ ∀ j s, states_of evs j = Some s → holding s = true → j = i.
Proof using L.
  destruct (exec_app_inv _ _ _ _ Hexec) as (w1 & H1 & _). exists w1. split; [done|].
  pose proof (crew_owner _ _ _ H1 Hfree (crew_app _ _ Hcrew)) as Hown.
  rewrite cons_middle, app_assoc in Hcrew. apply crew_app in Hcrew.
  assert (i ≠ mi) as Hi.
  { intros ->. destruct (crew_main_state _ Hcrew) as [st Hl].
    rewrite select_snoc, decide_True, lrun_app in Hl by done.
    destruct (lrun (∅, true) (select mi evs)) as [[live ok]|]; [|done]. destruct c; done. }
  pose proof (crew_others _ Hcrew) as Hsv. rewrite others_app, others_cons in Hsv. cbn in Hsv.
  rewrite decide_False in Hsv by done.
  destruct (states_snoc dev (role_of threads whole) m (others mi evs) i (c, a)) as (s & s' & Hs & Hstep & _).
  { by apply (serving_states dev x0 y0). }
  assert (ts_owner w1 m = Some i) as Ho by (apply (Hown i s Hs); inversion Hstep; subst; done).
  split; [done|]. intros j sj Hj Hh. apply (Hown j sj Hj) in Hh. congruence.
Qed.

(** ** Threads of POSIX *)

Definition is_client (i : nat) : Prop := ∃ fd chunks, threads !! i = Some (Client fd chunks).

(** Thread [i] has made no call, or has come to its end. *)
Definition ended_or_new (th : thread) (i : nat) (evs : list event) : Prop :=
  select i evs = [] ∨ thread_run dev x0 y0 m th (whole i) (select i evs).

(** What the system does for the threads: a thread runs after [pthread_create] gave its
    identifier and before it was joined, and a join that succeeds was of a thread that has
    come to its end. *)
Record posix_threads (evs : list event) : Prop := {
  acts_alive e1 i e e2 :
    evs = e1 ++ (i, e) :: e2 → is_client i → ∃ live, alive_after e1 = Some live ∧ tid i ∈ live;
  join_waits e1 c a e2 i th :
    evs = e1 ++ (mi, (c, a)) :: e2 → threads !! i = Some th → is_client i →
    c ∈ [Cthread_join (tid i); Cthread_tryjoin (tid i)] → rc a = 0 → ended_or_new th i e1
}.

(** A client that is not alive any more has come to its end. *)
Lemma joined_ended evs e2 j th :
  posix_threads (evs ++ e2) → is_client j → j ≠ mi → threads !! j = Some th →
  alive_after evs = Some ∅ →
  ended_or_new th j evs.
Proof using.
  intros Hp Hj Hne Hth Hdead. destruct (select j evs) as [|x l] eqn:Hsel using rev_ind; [by left|].
  clear IHl. destruct (select_last _ _ _ _ Hsel) as (ea & eb & -> & Hea).
  assert (select j eb = []) as Heb.
  { rewrite select_app in Hsel. cbn in Hsel. rewrite decide_True, Hea in Hsel by done.
    apply app_inv_head in Hsel. by injection Hsel. }
  rewrite <- app_assoc in Hp. cbn in Hp.
  destruct (acts_alive _ Hp _ _ _ _ eq_refl Hj) as (live & Hl & Hin).
  unfold alive_after in Hdead, Hl. rewrite select_app, lrun_app in Hdead.
  destruct (lrun (∅, true) (select mi ea)) as [st1|]; [|done]. injection Hl as <-.
  cbn in Hdead. rewrite decide_False in Hdead by done.
  destruct (lrun st1 (select mi eb)) as [st2|] eqn:Hrun2; [|done]. injection Hdead as Hdead.
  destruct (lrun_joined (tid j) st1 (select mi eb) st2 Hrun2 Hin) as (k1 & c & a & k2 & Hk & Hc & Ha).
  { rewrite Hdead. by apply gmultiset_not_elem_of_empty. }
  destruct (select_split _ _ _ _ _ Hk) as (l1 & l2 & -> & _).
  assert (select j l1 = []) as Hl1 by (rewrite select_app in Heb; by apply app_eq_nil in Heb as [? _]).
  destruct (join_waits _ Hp (ea ++ (j, x) :: l1) c a (l2 ++ e2) j th) as [H|H]; try done.
  - by rewrite <- !app_assoc; cbn; rewrite <- ?app_assoc.
  - exfalso. rewrite select_app in H. cbn in H. rewrite decide_True in H by done. by destruct (select j ea).
  - right. rewrite !select_app in H |- *. cbn in H |- *. rewrite decide_True in H |- * by done.
    by rewrite Hl1 in H; rewrite Heb.
Qed.

(** A thread at its end does not have the lock. *)
Lemma ended_not_owner w0 evs w j th :
  exec w0 evs w → ts_owner w0 m = None → crew evs → threads !! j = Some th →
  thread_run dev x0 y0 m th (whole j) (select j evs) → ends_well m th (whole j) (select j evs) →
  ts_owner w m ≠ Some j.
Proof using L.
  intros Hexec Hfree Hcrew Hth Hrun Hend Hj.
  assert (j ≠ mi) as Hne by (intros ->; pose proof (crew_apart _ Hcrew); congruence).
  assert (∀ k, states_of k j = hrun dev m (role_of threads whole j) hstart (select j k)) as Hst.
  { intros k. unfold states_after. by rewrite select_others, decide_False. }
  destruct (run_ends dev x0 y0 m threads whole j th _ Hth Hrun Hend) as (s & Hs & Hor). rewrite <- Hst in Hs.
  pose proof (crew_owner _ _ _ Hexec Hfree Hcrew) as Hown. apply (Hown j s Hs) in Hj.
  destruct Hor as [Hor|(pre & a & Hpre)]; [congruence|].
  destruct (select_last _ _ _ _ Hpre) as (e1 & e2 & -> & He1).
  destruct (exec_app_inv _ _ _ _ Hexec) as (w1 & H1 & H2).
  destruct (exec_app_inv _ [_] _ _ H2) as (w2 & Hone & _). apply exec_one in Hone.
  rewrite cons_middle, app_assoc in Hcrew. apply crew_app in Hcrew as Hcrew1.
  pose proof (crew_owner _ _ _ H1 Hfree (crew_app _ _ Hcrew1)) as Hown1.
  rewrite Hst, Hpre, hrun_app, <- He1, <- Hst in Hs. destruct (states_of e1 j) as [s0|] eqn:Hs0; [|done].
  cbn [hrun] in Hs. destruct (hnext _ _ _ _ _) as [s1|] eqn:Hn; [|done]. injection Hs as ->.
  apply hnext_hstep in Hn. pose proof (unlock_lets_go _ _ _ _ _ _ _ _ _ _ Hown1 Hs0 Hone Hn). congruence.
Qed.

(** C12: the lock is free when it is destroyed.  In every interleaving of [main], its signal
    handler included, with the handlers of any number of clients and runs of the timer, on
    every system with the threads and mutexes of POSIX: at the moment at which
    [signal_handler] calls [pthread_mutex_destroy] nobody has the lock, provided that the
    joins of the main thread before succeeded, at which the code does not look.  In the build
    without the device this needs that no run of the timer is under way, which the code
    does not ensure; and a handler that was cancelled has to have made the last call of
    [connection_cleanup], the unlock (see [cancelled_cleanup_keeps_lock]). *)
Theorem mutex_is_destroyed_free w0 evs a evs' w
    (Hexec : exec w0 (evs ++ (mi, (Cmutex_destroy m, a)) :: evs') w) (Hfree : ts_owner w0 m = None)
    (Hcrew : crew (evs ++ (mi, (Cmutex_destroy m, a)) :: evs'))
    (Hposix : posix_threads (evs ++ (mi, (Cmutex_destroy m, a)) :: evs'))
    (Hjoins : Forall joined (select mi evs))
    (Htimer : ∀ i, dev = false → threads !! i = Some TimerThread → ended_or_new TimerThread i evs)
    (Hcut : ∀ i, is_client i → select i evs ≠ [] →
              whole i = true ∨ ends_with_unlock m (select i evs)) :
  ∃ w1, exec w0 evs w1 ∧ ts_owner w1 m = None.
Proof using L.
  destruct (exec_app_inv _ _ _ _ Hexec) as (w1 & H1 & _). exists w1. split; [done|].
  pose proof (crew_app _ _ Hcrew) as Hc1. pose proof (crew_owner _ _ _ H1 Hfree Hc1) as Hown.
  destruct (ts_owner w1 m) as [j|] eqn:Hj; [exfalso|done].
  destruct (serving_states dev x0 y0 m threads whole (others mi evs) j (crew_others _ Hc1)) as [s Hs].
  pose proof (proj2 (Hown j s Hs) Hj) as Hh. unfold states_after in Hs. rewrite select_others in Hs.
  destruct (decide (j = mi)) as [->|Hne]; [by injection Hs as <-|].
  assert (select j evs ≠ []) as Hnil by (intros E; rewrite E in Hs; by injection Hs as <-).
  pose proof (crew_others _ Hc1 j) as Hsv. rewrite select_others, decide_False in Hsv by done.
  destruct (threads !! j) as [th|] eqn:Hth; [|done].
  assert (ended_or_new th j evs) as [?|Hrun]; [|done|].
  { destruct th as [fd chunks|]; [|by destruct Hsv as (rest & ? & _); apply Htimer].
    eapply joined_ended; [exact Hposix|by eexists _, _|done|done|].
    rewrite cons_middle, app_assoc in Hcrew. apply crew_app in Hcrew.
    destruct (crew_main_state _ Hcrew) as [st Hl]. unfold alive_after.
    rewrite select_snoc, decide_True, lrun_app in Hl by done.
    destruct (lrun (∅, true) (select mi evs)) as [[l ok]|] eqn:E; [|done].
    pose proof (lrun_joins_ok _ _ _ E Hjoins) as Hok. cbn in Hok. subst ok.
    cbn [lrun lnext] in Hl. by destruct (decide _) as [[->|[=]]|]. }
  apply (ended_not_owner w0 evs w1 j th H1 Hfree Hc1 Hth Hrun); [|done].
  destruct th as [fd chunks|]; [right|by left]. apply Hcut; [by eexists _, _|done].
Qed.

(** ** Executions that are written down *)

Definition client_at (i : nat) : bool := match threads !! i with Some (Client _ _) => true | _ => false end.

Lemma client_at_spec i : is_client i → client_at i = true ∧ (i < length threads)%nat.
Proof using.
  intros (fd & chunks & H). unfold client_at. rewrite H. split; [done|]. by eapply lookup_lt_Some.
Qed.

Definition acts_check (pe : list event * event) : bool :=
  let '(pre, (i, _)) := pe in
  negb (client_at i)
  || match alive_after pre with Some live => bool_decide (tid i ∈ live) | None => false end.

Definition join_check (evs : list event) (pe : list event * event) : bool :=
  let '(pre, (i, (c, a))) := pe in
  negb (i =? mi)%nat || negb (rc a =? 0)
  || forallb (λ k, negb (client_at k)
                   || negb (bool_decide (c ∈ [Cthread_join (tid k); Cthread_tryjoin (tid k)]))
                   || (length (select k pre) =? length (select k evs))%nat) (seq 0 (length threads)).

Lemma posix_computed evs :
  (∀ i th, is_client i → threads !! i = Some th → thread_run dev x0 y0 m th (whole i) (select i evs)) →
  forallb (λ pe, acts_check pe && join_check evs pe) (splits [] evs) = true → posix_threads evs.
Proof using.
  intros Hrun Hall.
  assert (∀ e1 x e2, evs = e1 ++ x :: e2 → acts_check (e1, x) = true ∧ join_check evs (e1, x) = true) as Hat.
  { intros e1 x e2 He. apply andb_true_iff.
    rewrite forallb_forall in Hall. apply Hall, list_elem_of_In. by apply (splits_spec [] evs e1 x e2). }
  split.
  - intros e1 i e e2 He Hi. destruct (Hat _ _ _ He) as [H _]. cbn in H.
    rewrite (proj1 (client_at_spec i Hi)) in H. cbn in H.
    destruct (alive_after e1) as [live|]; [|done]. apply bool_decide_eq_true in H. by exists live.
  - intros e1 c a e2 i th He Hth Hi Hc Ha. destruct (Hat _ _ _ He) as [_ H]. cbn in H.
    destruct (client_at_spec i Hi) as [Hci Hlt].
    rewrite Nat.eqb_refl, Ha in H. cbn in H. rewrite forallb_forall in H.
    specialize (H i). rewrite Hci, bool_decide_eq_true_2 in H by done. cbn in H.
    assert (length (select i e1) = length (select i evs)) as Hl.
    { apply Nat.eqb_eq, H, in_seq. lia. }
    right. enough (select i e1 = select i evs) as -> by by apply Hrun.
    rewrite He, select_app in Hl |- *. rewrite length_app in Hl.
    assert (select i ((mi, (c, a)) :: e2) = []) as -> by (apply length_zero_iff_nil; lia).
    by rewrite app_nil_r.
Qed.

End Shutdown.
