(* ===== verification/ShutdownDemo.v ===== *)
(** * Two executions in which the server stops

    The build without the device on the system of [PlainFile], with a main thread, a client
    and the timer.  In the first one the signal handler cancels the client's thread and joins
    it before it destroys the lock.  In the second one the timer has the lock when it is
    destroyed: [signal_handler] does not wait for it ([timer_holds_destroyed_lock]). *)

From Stdlib Require Import String.
From stdpp Require Import gmultiset.
From S2P Require Import Prelude Memory Kernel AesdIoctl CString Posix SimOS DataFile SList.
From S2P Require Import Server Runs ServerSpec ServerRefine ServerProps Cancel Timer Protocol Interleave.
From S2P Require Import Concurrent Serial PlainFile.
From S2P Require Import ConnList Lifetime StartProps Signals Main MainThread Shutdown.

(** One client connects, its thread is number 50 and does not end by itself. *)
Definition stop_answers (c : call) : answer :=
  match c with
  | Csend _ bs => Ans (Z.of_nat (length bs)) []
  | Cstrftime _ => Ans 3 ([77; 111; 110] ++ NUL :: [])
  | Csocket => Ans 9 []
  | Caccept _ => Ans 5 []
  | Cthread_create _ => Ans 0 [50]
  | Cthread_tryjoin _ => Ans 16 []
  | Ctimer_create => Ans 0 [77]
  | _ => Ans 0 []
  end.

Abbreviation stop_system := (plain_system stop_answers).
Abbreviation stop_os := (plain_os stop_answers).
#[local] Instance stop_system_laws : SystemLaws stop_system := plain_system_laws stop_answers.
#[local] Instance stop_os_laws i : OSLaws (stop_os i) := plain_os_laws stop_answers i.

Definition stop_start : pf_world := PfWorld [] ∅ {[ 5 := [[97; 10]] ]} ∅.

Definition stop_world (w : pf_world) (evs : list event) : pf_world :=
  from_option id w (replay (S := stop_system) w evs).

(** The threads 0 and 1, the main thread is number 2. *)
Definition stop_threads : list thread := [Client 5 [[97; 10]]; TimerThread].
Definition stop_tid (i : nat) : Z := if (i =? 0)%nat then 50 else 0.

(** *** The main thread: the set-up, a round, and a round with SIGTERM *)

Definition stop_process : @pstate (stop_os 2) server :=
  @PState (stop_os 2) server ∅ stop_start [] (Server 0 0 0 (SL 0 ∅) ∅ ∅ ∅).

Definition main_calls : list (call * answer) :=
  Eval vm_compute in
    from_option id [] (main_trace false no_ip 1 [str "aesdsocket"] [None; Some SIGTERM] stop_process).

Lemma main_calls_run : main_run false main_calls.
Proof.
  apply (main_trace_run (O := stop_os 2) false no_ip 1 [str "aesdsocket"] [None; Some SIGTERM]
    stop_process); [apply plain_allocs_succeed|done|done|done|].
  vm_compute. reflexivity.
Qed.

(** The calls up to the signal, those before the joins, and the join and the destruction
    of the lock. *)
Definition main_serves : list event := tag 2 (take 15 main_calls).
Definition main_cancels : list event := tag 2 (take 4 (drop 15 main_calls)).
Definition main_joins : list event := tag 2 (take 1 (drop 19 main_calls)).
Definition destruction : event := (2%nat, (Cmutex_destroy 1, Ans 0 [])).

(** *** The other threads *)

Definition served_world : pf_world := Eval vm_compute in stop_world stop_start main_serves.

Definition timer_calls1 : list (call * answer) :=
  Eval vm_compute in timer_trace (O := stop_os 1) (replicate 120 7) served_world.

Definition timed_world : pf_world := Eval vm_compute in stop_world served_world (tag 1 timer_calls1).

(** The client, cancelled when it reads the answer, after 6 calls. *)
Definition client_calls : list (call * answer) :=
  Eval vm_compute in
    (thread_trace (O := cancel_os (stop_os 0)) false 5 (timed_world, Some 5%nat)).1.

Lemma one_line_served : @chunks_ok (cancel_os (stop_os 0)) false [[97; 10]].
Proof. by apply one_line_ok. Qed.

Lemma client_calls_run : client_run false 0 0 5 1 [[97; 10]] false client_calls.
Proof.
  apply (thread_client_run (O := cancel_os (stop_os 0)) (L := cancel_os_laws) false 5 (timed_world, Some 5%nat));
    [apply cancel_allocs_succeed, plain_allocs_succeed|reflexivity..|apply one_line_served
    |vm_compute; reflexivity].
Qed.

Lemma stop_date : strftime_fits (stop_os 1).
Proof.
  intros w a w' [= <- <-]. exists [77; 111; 110], []. split; [forall_neq|].
  split; [cbn; lia|done].
Qed.

Lemma timer_calls1_run : timer_run 0 0 timer_calls1.
Proof.
  apply (timer_trace_run (O := stop_os 1) (replicate 120 7) served_world);
    [reflexivity|apply stop_date|reflexivity|vm_compute; reflexivity].
Qed.

(** The client is cancelled, the timer is not. *)
Definition stop_whole (i : nat) : bool := negb (i =? 0)%nat.

(** ** The server stops as it should *)

Definition before_destruction : list event :=
  main_serves ++ tag 1 timer_calls1 ++ tag 0 (take 6 client_calls) ++ main_cancels
    ++ tag 0 (drop 6 client_calls) ++ main_joins.

Definition stop_events : list event := before_destruction ++ [destruction].

Abbreviation stop_crew := (crew false 0 0 2 1 stop_threads).
Abbreviation stop_posix := (posix_threads false 0 0 2 stop_tid 1 stop_threads).

Lemma stop_exec : exec (S := stop_system) stop_start stop_events (stop_world stop_start stop_events).
Proof. eapply (replay_exec (S := stop_system) stop_start []); [constructor|]. vm_compute. reflexivity. Qed.

(** The rest of the run of [main] is still to come. *)
Lemma main_part evs : select 2 evs = take 21 main_calls → ∃ rest, main_run false (select 2 evs ++ rest).
Proof. intros ->. exists (drop 21 main_calls). rewrite take_drop. apply main_calls_run. Qed.

Lemma stop_is_crew : stop_crew stop_whole stop_events.
Proof.
  split; [by apply main_part| |done].
  apply served_serving. intros [|[|i]]; cbn [stop_threads lookup list_lookup thread_run].
  - exact client_calls_run.
  - split; [done|]. split; [done|]. exact timer_calls1_run.
  - rewrite select_others. destruct (decide _) as [|Hne]; [done|]. by destruct i.
Qed.

Lemma stop_is_posix : stop_posix stop_whole stop_events.
Proof.
  apply posix_computed; [|vm_compute; reflexivity].
  intros [|[|i]] th (fd & chunks & H) Hth; cbn in H, Hth; try done.
  injection Hth as <-. exact client_calls_run.
Qed.

Lemma mutex_is_destroyed_free_witness :
  select 0 stop_events = client_calls
  ∧ ∃ w1, exec (S := stop_system) stop_start before_destruction w1
      ∧ ts_owner (System := stop_system) w1 1 = None.
Proof.
  split; [reflexivity|].
  refine (mutex_is_destroyed_free (S := stop_system) false 0 0 2 stop_tid 1 stop_threads stop_whole
    stop_start before_destruction (Ans 0 []) [] _ stop_exec eq_refl stop_is_crew stop_is_posix _ _ _).
  - apply Forall_forall. intros e He. vm_compute in He.
    repeat (apply elem_of_cons in He as [->|He]; [done|]). by apply elem_of_nil in He.
  - intros [|[|i]] _ H; cbn in H; try done. right. exact (conj eq_refl (conj eq_refl timer_calls1_run)).
  - intros [|[|i]] (fd & chunks & H) _; cbn in H; try done.
    right. exists (removelast client_calls), (Ans 0 []). reflexivity.
Defined.

Lemma main_and_threads_exclude_witness :
  ∃ w1, exec (S := stop_system) stop_start (take 27 stop_events) w1
    ∧ ts_owner (System := stop_system) w1 1 = Some 0%nat
    ∧ ∀ j s, states_after false (role_of stop_threads stop_whole) 1 (others 2 (take 27 stop_events)) j = Some s →
        holding s = true → j = 0%nat.
Proof.
  exact (main_and_threads_exclude (S := stop_system) false 0 0 2 1 stop_threads stop_whole stop_start
    (take 27 stop_events) 0 (Cwrite 6 [97; 10]) (Ans 2 []) (drop 28 stop_events) _ stop_exec eq_refl
    stop_is_crew eq_refl).
Defined.

(** ** The timer has the lock *)

(** The client runs to its end, then the timer takes the lock. *)
Definition whole_client : list (call * answer) :=
  Eval vm_compute in (thread_trace (O := stop_os 0) false 5 served_world).1.

Definition client_world : pf_world := Eval vm_compute in stop_world served_world (tag 0 whole_client).

Definition late_timer : list (call * answer) :=
  Eval vm_compute in timer_trace (O := stop_os 1) (replicate 120 7) client_world.

Definition before_race : list event :=
  main_serves ++ tag 0 whole_client ++ tag 1 (take 5 late_timer) ++ main_cancels ++ main_joins.

Definition stop_race : list event := before_race ++ [destruction].

Lemma whole_client_run : client_run false 0 0 5 1 [[97; 10]] true whole_client.
Proof.
  apply (thread_client_run (O := stop_os 0) false 5 served_world);
    [apply plain_allocs_succeed|reflexivity..|by apply one_line_ok|vm_compute; reflexivity].
Qed.

Lemma late_timer_run : timer_run 0 0 late_timer.
Proof.
  apply (timer_trace_run (O := stop_os 1) (replicate 120 7) client_world);
    [reflexivity|apply stop_date|reflexivity|vm_compute; reflexivity].
Qed.

(** C36: in the build without the device the lock can be destroyed while the timer has it.
    No call fails, no handler is cut off, every thread is one of POSIX and keeps to its
    program: a run of the timer has taken the lock and gone to the end of the data file
    when SIGTERM arrives; [signal_handler] deletes the timer, which does not end the run,
    joins the client's thread, and destroys the lock. *)
Theorem timer_holds_destroyed_lock :
  exec (S := stop_system) stop_start stop_race (stop_world stop_start stop_race)
  ∧ stop_crew (λ _, true) stop_race
  ∧ stop_posix (λ _, true) stop_race
  ∧ Forall (λ e : event, well e.2) stop_race
  ∧ exec (S := stop_system) stop_start before_race (stop_world stop_start before_race)
  ∧ ts_owner (System := stop_system) (stop_world stop_start before_race) 1 = Some 1%nat
  ∧ (Ctimer_delete 77, Ans 0 []) ∈ select 2 before_race.
Proof.
  split; [eapply (replay_exec (S := stop_system) stop_start []); [constructor|vm_compute; reflexivity]|].
  split.
  { split; [by apply main_part| |done].
    intros [|[|i]]; cbn [stop_threads lookup list_lookup thread_run].
    - exists []. exact whole_client_run.
    - exists (drop 5 late_timer). split; [done|]. split; [done|]. exact late_timer_run.
    - rewrite select_others. destruct (decide _) as [|Hne]; [done|]. by destruct i. }
  split.
  { apply posix_computed; [|vm_compute; reflexivity].
    intros [|[|i]] th (fd & chunks & H) Hth; cbn in H, Hth; try done.
    injection Hth as <-. exact whole_client_run. }
  split; [repeat (apply Forall_cons; split; [by split_and!|]); by apply Forall_nil|].
  split; [eapply (replay_exec (S := stop_system) stop_start []); [constructor|vm_compute; reflexivity]|].
  split; [vm_compute; reflexivity|].
  apply (list_elem_of_lookup_2 _ 17). vm_compute. reflexivity.
Qed.
