(* ===== verification/SystemCalls.v ===== *)
(** * Running commands

    Models [examples/systemcalls/systemcalls.c].  A [char *] argument is its
    address.  After [fork] the model follows the process that its answer says: the
    parent for a positive process id, the child for 0. *)

From Stdlib Require Import String.
From S2P Require Import Prelude Memory Kernel Posix SimOS.

Definition STDOUT : Z := 1.
(** [O_WRONLY|O_TRUNC|O_CREAT]. *)
Definition redirect_flags : Z := Z.lor 1 (Z.lor 0x200 0x40).
Definition redirect_mode : Z := 0x1A4.

(** The status that [wait] stores, as the C library takes it apart. *)
Definition WIFEXITED (w : Z) : bool := Z.land w 0x7f =? 0.
Definition WEXITSTATUS (w : Z) : Z := Z.shiftr (Z.land w 0xff00) 8.

(** The loop over the variable arguments. *)
Fixpoint copy_args (n : nat) (args : list Z) : res (list Z) :=
  match n with
  | 0%nat => mret []
  | S n =>
    match args with
    | a :: args => r ← copy_args n args; mret (a :: r)
    | [] => Err OutOfBounds
    end
  end.

(** [command[count+1]], filled with the arguments and the null pointer. *)
Definition make_command (count : Z) (args : list Z) : res (list Z) :=
  if count <? 0 then Err OutOfBounds
  else r ← copy_args (Z.to_nat count) args; mret (r ++ [0]).

Section SystemCalls.
Context {O : OS} {N : Uncancelled O} {V : Type}.

Definition do_system (cmd : Z) : prog V bool :=
  if negb (cmd =? 0) then ret ← do_call (Csystem cmd); mret (ret =? 0) else mret false.

(** [execv(command[0], command); exit(EXIT_FAILURE);] *)
Definition run_command (command : list Z) : prog V bool :=
  path ← lift (arr_get command 0);
  _ ← execv path command;
  exit 1.

Definition await_child : prog V bool :=
  a ← syscall Cwait;
  if rc a =? -1 then mret false
  else let w := hd 0 (out a) in mret (WIFEXITED w && (WEXITSTATUS w =? 0)).

(** [case -1] falls through to [case 0]. *)
Definition do_exec (count : Z) (args : list Z) : prog V bool :=
  command ← lift (make_command count args);
  if 0 <? count then
    pid ← do_call Cfork;
    if (pid =? -1) || (pid =? 0) then run_command command
    else await_child
  else mret true.

Definition redirect_child (fd : Z) (command : list Z) : prog V bool :=
  r ← do_call (Cdup2 fd STDOUT);
  if r <? 0 then exit 1
  else
    _ ← do_call (Cclose fd);
    run_command command.

Definition do_exec_redirect (outputfile : list Z) (count : Z) (args : list Z) : prog V bool :=
  command ← lift (make_command count args);
  fd ← do_call (Copen outputfile redirect_flags redirect_mode);
  if fd <? 0 then mret false
  else if 0 <? count then
    pid ← do_call Cfork;
    if pid =? -1 then
      _ ← do_call (Cclose fd);
      redirect_child fd command
    else if pid =? 0 then redirect_child fd command
    else
      _ ← do_call (Cclose fd);
      await_child
  else mret true.

(** ** Facts *)

Lemma make_command_spec count args :
  0 ≤ count ≤ Z.of_nat (length args) →
  make_command count args = Ok (take (Z.to_nat count) args ++ [0]).
Proof.
  intros Hc. unfold make_command. rewrite (proj2 (Z.ltb_ge count 0)) by lia.
  assert (∀ n l, (n ≤ length l)%nat → copy_args n l = Ok (take n l)) as H.
  { induction n as [|n IH]; intros [|x l] Hl; try done; cbn in *; [lia|].
    by rewrite IH by lia. }
  by rewrite H by lia.
Qed.

(** The result of [wait] that means success: the child exited with status 0. *)
Definition child_succeeded (a : answer) : bool :=
  negb (rc a =? -1) && WIFEXITED (hd 0 (out a)) && (WEXITSTATUS (hd 0 (out a)) =? 0).

Lemma await_child_run (s : pstate V) :
  await_child s =
  Ok (Returned (child_succeeded (sys (p_world s) Cwait).1),
      after s Cwait (sys (p_world s) Cwait).1 (sys (p_world s) Cwait).2).
Proof.
  unfold await_child, child_succeeded, mbind, prog_bind, mret, prog_ret. rewrite run_syscall.
  destruct (sys (p_world s) Cwait) as [a w]. cbn. by destruct (rc a =? -1).
Qed.

(** The process that runs a command never comes back. *)
Definition replaced_or_exited (command : list Z) (r : res (outcome bool * pstate V)) : Prop :=
  (∃ s', r = Ok (Replaced (hd 0 command) command, s')) ∨ (∃ s', r = Ok (Exited 1, s')).

Lemma run_command_run x command (s : pstate V) :
  replaced_or_exited (x :: command) (run_command (x :: command) s).
Proof.
  unfold run_command. cbn [arr_get]. change (arr_get (x :: command) 0) with (Ok x).
  rewrite run_lift. unfold execv, mbind, prog_bind.
  destruct (sys (p_world s) _) as [a w]. destruct (rc a =? -1).
  - right. by eexists.
  - left. by eexists.
Qed.

Lemma command_cons count args :
  0 < count ≤ Z.of_nat (length args) →
  ∃ x rest, take (Z.to_nat count) args ++ [0] = x :: rest ∧ args !! 0%nat = Some x.
Proof.
  intros Hc. destruct args as [|x args]; [cbn in Hc; lia|].
  destruct (Z.to_nat count) as [|n] eqn:E; [lia|]. by exists x, (take n args ++ [0]).
Qed.

(** ** Theorems *)

(** C37: in the process that called [do_exec] and whose [fork] succeeded, the result is
    [true] exactly when [wait] succeeded and the child exited by itself with status
    0; the only calls are [fork] and [wait].  The child is the one that [wait] reaped, which
    is another one when the caller has more. *)
Theorem do_exec_in_parent count args (s : pstate V)
    (Hcount : 0 < count ≤ Z.of_nat (length args))
    (Hpid : 0 < rc (sys (p_world s) Cfork).1) :
  ∃ a b s', do_exec count args s = Ok (Returned (child_succeeded b), s')
    ∧ p_trace s' = p_trace s ++ [(Cfork, a); (Cwait, b)] ∧ p_heap s' = p_heap s.
Proof.
  unfold do_exec. rewrite make_command_spec, run_lift, (proj2 (Z.ltb_lt 0 count)) by lia.
  rewrite run_call. set (a := (sys _ _).1) in *. set (s1 := after _ _ _ _).
  rewrite (proj2 (Z.eqb_neq (rc a) (-1))), (proj2 (Z.eqb_neq (rc a) 0)) by lia. cbn [orb].
  rewrite await_child_run. do 3 eexists. split; [done|]. cbn. by rewrite <- app_assoc.
Qed.

(** [do_exec] does not return when [fork] fails: the missing [break] lets the
    caller itself be replaced by the command, or exit with status 1, as the child
    would.  The comment says that it returns [false]. *)
Theorem do_exec_fork_failure count args (s : pstate V)
    (Hcount : 0 < count ≤ Z.of_nat (length args))
    (Hpid : rc (sys (p_world s) Cfork).1 = -1) :
  replaced_or_exited (take (Z.to_nat count) args ++ [0]) (do_exec count args s).
Proof.
  unfold do_exec. rewrite make_command_spec, run_lift, (proj2 (Z.ltb_lt 0 count)) by lia.
  rewrite run_call, Hpid. cbn [Z.eqb orb].
  destruct (command_cons count args Hcount) as (x & rest & -> & _). apply run_command_run.
Qed.

(** C38: the parent's copy of the output file is closed once, before it waits, and its
    result is that of [do_exec]. *)
Theorem do_exec_redirect_in_parent outputfile count args (s : pstate V) fd w
    (Hcount : 0 < count ≤ Z.of_nat (length args))
    (Hopen : sys (p_world s) (Copen outputfile redirect_flags redirect_mode) = (fd, w))
    (Hfd : 0 ≤ rc fd) (Hpid : 0 < rc (sys w Cfork).1) :
  ∃ a b d s', do_exec_redirect outputfile count args s = Ok (Returned (child_succeeded b), s')
    ∧ p_trace s' = p_trace s ++ [(Copen outputfile redirect_flags redirect_mode, fd);
                                 (Cfork, a); (Cclose (rc fd), d); (Cwait, b)].
Proof.
  unfold do_exec_redirect. rewrite make_command_spec, run_lift by lia.
  rewrite run_call, Hopen. cbn [fst snd]. set (s1 := after _ _ _ _).
  rewrite (proj2 (Z.ltb_ge (rc fd) 0)), (proj2 (Z.ltb_lt 0 count)) by lia.
  rewrite run_call. change (p_world s1) with w. set (a := (sys w Cfork).1) in *.
  rewrite (proj2 (Z.eqb_neq (rc a) (-1))), (proj2 (Z.eqb_neq (rc a) 0)) by lia.
  rewrite run_call, await_child_run. do 4 eexists. split; [done|]. cbn.
  by rewrite <- !app_assoc.
Qed.

(** Without a command to run the output file is opened, truncated and left open,
    and the result is [true]. *)
Theorem do_exec_redirect_leaks outputfile args (s : pstate V) fd w
    (Hopen : sys (p_world s) (Copen outputfile redirect_flags redirect_mode) = (fd, w))
    (Hfd : 0 ≤ rc fd) :
  do_exec_redirect outputfile 0 args s
  = Ok (Returned true, after s (Copen outputfile redirect_flags redirect_mode) fd w).
Proof.
  unfold do_exec_redirect. rewrite make_command_spec, run_lift by (cbn; lia).
  rewrite run_call, Hopen. cbn [fst snd]. by rewrite (proj2 (Z.ltb_ge (rc fd) 0)) by lia.
Qed.

(** In the child the command runs with its standard output on the file, or the
    child exits with status 1; it never returns into the caller's code. *)
Theorem do_exec_redirect_in_child outputfile count args (s : pstate V) fd w
    (Hcount : 0 < count ≤ Z.of_nat (length args))
    (Hopen : sys (p_world s) (Copen outputfile redirect_flags redirect_mode) = (fd, w))
    (Hfd : 0 ≤ rc fd) (Hpid : rc (sys w Cfork).1 = 0) :
  replaced_or_exited (take (Z.to_nat count) args ++ [0])
    (do_exec_redirect outputfile count args s).
Proof.
  unfold do_exec_redirect. rewrite make_command_spec, run_lift by lia.
  rewrite run_call, Hopen. cbn [fst snd]. set (s1 := after _ _ _ _).
  rewrite (proj2 (Z.ltb_ge (rc fd) 0)), (proj2 (Z.ltb_lt 0 count)) by lia.
  rewrite run_call. change (p_world s1) with w. rewrite Hpid. cbn [Z.eqb].
  unfold redirect_child. rewrite run_call. set (s2 := after s1 _ _ _).
  destruct (_ <? 0); [right; by eexists|]. rewrite run_call.
  destruct (command_cons count args Hcount) as (x & rest & -> & _). apply run_command_run.
Qed.

End SystemCalls.

(** ** Runs *)

(** A parent whose child succeeds, a child, and a process that cannot fork. *)
Definition fork_os (pid : Z) : OS :=
  sim_os 0 (λ c, match c with
                 | Cfork => Ans pid []
                 | Cwait => Ans 7 [0]
                 | Copen _ _ _ => Ans 3 []
                 | _ => Ans 0 []
                 end).

Definition fork_process (pid : Z) : @pstate (fork_os pid) unit :=
  @PState (fork_os pid) unit ∅ (SimWorld ∅ [] 0 []) [] ().

Lemma do_exec_in_parent_witness :
  (0 < 2 ≤ 2 ∧ 0 < rc (sys (p_world (fork_process 7)) Cfork).1)
  ∧ ∃ a b s', do_exec 2 [64; 72] (fork_process 7) = Ok (Returned (child_succeeded b), s')
    ∧ p_trace s' = p_trace (fork_process 7) ++ [(Cfork, a); (Cwait, b)]
    ∧ p_heap s' = p_heap (fork_process 7).
Proof. split; [done|]. by apply (do_exec_in_parent 2 [64; 72] (fork_process 7)). Defined.

Lemma do_exec_fork_failure_witness :
  rc (sys (p_world (fork_process (-1))) Cfork).1 = -1
  ∧ replaced_or_exited [64; 72; 0] (do_exec 2 [64; 72] (fork_process (-1))).
Proof. split; [done|]. by apply (do_exec_fork_failure 2 [64; 72] (fork_process (-1))). Defined.

Lemma do_exec_redirect_in_parent_witness :
  0 < rc (sys (p_world (fork_process 7)) Cfork).1
  ∧ ∃ a b d s', do_exec_redirect [47] 2 [64; 72] (fork_process 7)
                = Ok (Returned (child_succeeded b), s')
    ∧ p_trace s' = p_trace (fork_process 7)
        ++ [(Copen [47] redirect_flags redirect_mode, Ans 3 []); (Cfork, a);
            (Cclose 3, d); (Cwait, b)].
Proof.
  split; [done|].
  by apply (do_exec_redirect_in_parent [47] 2 [64; 72] (fork_process 7) (Ans 3 [])
              (p_world (fork_process 7))).
Defined.

Lemma do_exec_redirect_leaks_witness :
  0 ≤ rc (Ans 3 [])
  ∧ do_exec_redirect [47] 0 [] (fork_process 7)
    = Ok (Returned true, after (fork_process 7) (Copen [47] redirect_flags redirect_mode)
            (Ans 3 []) (p_world (fork_process 7))).
Proof.
  split; [done|].
  by apply (do_exec_redirect_leaks [47] [] (fork_process 7) (Ans 3 []) (p_world (fork_process 7))).
Defined.

Lemma do_exec_redirect_in_child_witness :
  rc (sys (p_world (fork_process 0)) Cfork).1 = 0
  ∧ replaced_or_exited [64; 72; 0] (do_exec_redirect [47] 2 [64; 72] (fork_process 0)).
Proof.
  split; [done|].
  by apply (do_exec_redirect_in_child [47] 2 [64; 72] (fork_process 0) (Ans 3 [])
              (p_world (fork_process 0))).
Defined.
