(* ===== verification/Threading.v ===== *)
(** * A thread that waits, locks, waits and unlocks

    Models [examples/threading/threading.c] and [threading.h].  The variables of the
    process are the [thread_data] objects, which have their blocks in the heap, and the
    [pthread_t] objects, which belong to the callers of [start_thread_obtaining_mutex]: the
    messages of [DEBUG_LOG] and [ERROR_LOG] read them through [thread_id].  What the messages
    print is not modelled. *)

From Stdlib Require Import String.
From S2P Require Import Prelude Memory Kernel Posix SimOS.

Record thread_data := ThreadData {
  thread_id : Z;
  mutex : Z;
  wait_to_obtain_ms : Z;
  wait_to_release_ms : Z;
  thread_complete_success : bool
}.

Definition sizeof_thread_data : Z := 32.

Record threads := Threads {
  datas : gmap Z thread_data;
  ids : gmap Z Z                 (* the [pthread_t] objects *)
}.

Section Threading.
Context {O : OS} {N : Uncancelled O}.
(* what [malloc] leaves in [thread_complete_success] *)
Variable success0 : bool.

Definition get_data (p : Z) : prog threads thread_data :=
  v ← get_vars;
  if p =? 0 then lift (Err NullDeref)
  else match datas v !! p with Some d => mret d | None => lift (Err OutOfBounds) end.

Definition put_data (p : Z) (d : thread_data) : prog threads unit :=
  if p =? 0 then lift (Err NullDeref)
  else v ← get_vars; set_vars (Threads (<[p := d]> (datas v)) (ids v)).

(** [*(args->thread_id)], in the arguments of a message. *)
Definition log_id (args : thread_data) : prog threads unit :=
  v ← get_vars;
  match ids v !! thread_id args with
  | Some _ => mret ()
  | None => lift (Err (if thread_id args =? 0 then NullDeref else OutOfBounds))
  end.

(** [pthread_create] stores the identifier of the new thread. *)
Definition put_id (p id : Z) : prog threads unit :=
  v ← get_vars;
  match ids v !! p with
  | Some _ => set_vars (Threads (datas v) (<[p := id]> (ids v)))
  | None => lift (Err (if p =? 0 then NullDeref else OutOfBounds))
  end.

(** [ms*1000] for an [unsigned int]. *)
Definition usec (ms : Z) : Z := u32 (ms * 1000).

Definition with_success (b : bool) (d : thread_data) : thread_data :=
  ThreadData (thread_id d) (mutex d) (wait_to_obtain_ms d) (wait_to_release_ms d) b.

Definition threadfunc (thread_param : Z) : prog threads Z :=
  args ← get_data thread_param;
  status ←
    (r ← do_call (Cusleep (usec (wait_to_obtain_ms args)));
     _ ← log_id args;
     if r =? 0 then
       rc ← do_call (Cmutex_lock (mutex args));
       _ ← log_id args;
       if rc =? 0 then
         r ← do_call (Cusleep (usec (wait_to_release_ms args)));
         _ ← log_id args;
         if r =? 0 then u ← do_call (Cmutex_unlock (mutex args)); mret (u =? 0)
         else mret false
       else mret false
     else mret false);
  _ ← put_data thread_param (with_success status args);
  _ ← log_id args;
  mret thread_param.

(** The [int] milliseconds are stored in [unsigned int] fields. *)
Definition start_thread_obtaining_mutex (thread mutex wait_to_obtain_ms wait_to_release_ms : Z)
    : prog threads bool :=
  args ← p_malloc sizeof_thread_data;
  _ ← put_data args (ThreadData thread mutex (u32 wait_to_obtain_ms) (u32 wait_to_release_ms)
                       success0);
  a ← syscall (Cthread_create args);
  if negb (rc a =? 0) then
    _ ← p_free args;
    v ← get_vars; _ ← set_vars (Threads (delete args (datas v)) (ids v));
    mret false
  else _ ← put_id thread (hd 0 (out a)); mret true.

(** ** Facts *)

Lemma returns_get_data p d (s : pstate threads) (Q : thread_data → pstate threads → Prop) :
  p ≠ 0 → datas (p_vars s) !! p = Some d → Q d s → returns (get_data p) s Q.
Proof.
  intros Hp Hd HQ. unfold get_data. prog_step. prog_step.
  rewrite (proj2 (Z.eqb_neq _ _) Hp), Hd. by prog_step.
Qed.

Lemma returns_put_data p d (s : pstate threads) (Q : unit → pstate threads → Prop) :
  p ≠ 0 → Q () (PState (p_heap s) (p_world s) (p_trace s)
                 (Threads (<[p := d]> (datas (p_vars s))) (ids (p_vars s)))) →
  returns (put_data p d) s Q.
Proof.
  intros Hp HQ. unfold put_data. rewrite (proj2 (Z.eqb_neq _ _) Hp). by do 3 prog_step.
Qed.

Lemma returns_log_id d (s : pstate threads) (Q : unit → pstate threads → Prop) :
  is_Some (ids (p_vars s) !! thread_id d) → Q () s → returns (log_id d) s Q.
Proof. intros [x Hx] HQ. unfold log_id. do 2 prog_step. rewrite Hx. by prog_step. Qed.

(** How far a thread got, by the calls it made. *)
Inductive thread_run (d : thread_data) : list (call * answer) → bool → Prop :=
| run_no_wait a : rc a ≠ 0 →
    thread_run d [(Cusleep (usec (wait_to_obtain_ms d)), a)] false
| run_no_lock a b : rc a = 0 → rc b ≠ 0 →
    thread_run d [(Cusleep (usec (wait_to_obtain_ms d)), a); (Cmutex_lock (mutex d), b)] false
| run_interrupted a b c : rc a = 0 → rc b = 0 → rc c ≠ 0 →
    thread_run d [(Cusleep (usec (wait_to_obtain_ms d)), a); (Cmutex_lock (mutex d), b);
                  (Cusleep (usec (wait_to_release_ms d)), c)] false
| run_complete a b c e : rc a = 0 → rc b = 0 → rc c = 0 →
    thread_run d [(Cusleep (usec (wait_to_obtain_ms d)), a); (Cmutex_lock (mutex d), b);
                  (Cusleep (usec (wait_to_release_ms d)), c); (Cmutex_unlock (mutex d), e)]
      (rc e =? 0).

(** The thread, when its identifier can be read. *)
Lemma threadfunc_runs p d (s : pstate threads) :
  p ≠ 0 → datas (p_vars s) !! p = Some d → is_Some (ids (p_vars s) !! thread_id d) →
  returns (threadfunc p) s (λ r s', r = p ∧ p_heap s' = p_heap s
    ∧ ∃ evs status, p_trace s' = p_trace s ++ evs ∧ thread_run d evs status
        ∧ p_vars s' = Threads (<[p := with_success status d]> (datas (p_vars s))) (ids (p_vars s))).
Proof.
  intros Hp Hd Hid. unfold threadfunc. prog_step. apply (returns_get_data p d); [done|done|].
  prog_step. prog_step. prog_step. prog_step. apply returns_log_id; [done|].
  assert (∀ status s1 evs, p_heap s1 = p_heap s → p_vars s1 = p_vars s →
    p_trace s1 = p_trace s ++ evs → thread_run d evs status →
    returns (_ ← put_data p (with_success status d); _ ← log_id d; mret p) s1 (λ r s',
      r = p ∧ p_heap s' = p_heap s ∧ ∃ evs status, p_trace s' = p_trace s ++ evs
      ∧ thread_run d evs status
      ∧ p_vars s' = Threads (<[p := with_success status d]> (datas (p_vars s))) (ids (p_vars s))))
    as Hend.
  { intros status s1 evs Hh Hv Ht Hrun. prog_step. apply returns_put_data; [done|]. prog_step.
    apply returns_log_id; [by cbn; rewrite Hv|]. prog_step. split; [done|]. split; [done|].
    exists evs, status. cbn. by rewrite Hv. }
  destruct (Z.eqb_spec (rc a) 0).
  2: { prog_step. eapply Hend; [done|done|done|by apply run_no_wait]. }
  prog_step. prog_step. prog_step. apply returns_log_id; [done|]. destruct (Z.eqb_spec (rc a0) 0).
  2: { prog_step. eapply Hend; [done|done|cbn; by rewrite <- !app_assoc|by apply run_no_lock]. }
  prog_step. prog_step. prog_step. apply returns_log_id; [done|]. destruct (Z.eqb_spec (rc a1) 0).
  2: { prog_step. eapply Hend; [done|done|cbn; by rewrite <- !app_assoc|by apply run_interrupted]. }
  prog_step. prog_step. prog_step.
  eapply Hend; [done|done|cbn; by rewrite <- !app_assoc|by apply run_complete].
Qed.

(** The thread, when its identifier cannot be read: its first message faults. *)
Lemma threadfunc_dangles p d (s : pstate threads) :
  p ≠ 0 → datas (p_vars s) !! p = Some d → ids (p_vars s) !! thread_id d = None →
  ∃ e, threadfunc p s = Err e.
Proof.
  intros Hp Hd Hid. unfold threadfunc.
  destruct (returns_get_data p d s (λ d' s', d' = d ∧ s' = s) Hp Hd ltac:(done))
    as (d' & s' & Hrun & -> & ->).
  unfold do_call, mbind, prog_bind. rewrite Hrun. unfold mret, prog_ret. rewrite run_syscall.
  destruct (sys _ _) as [a w]. unfold log_id, get_vars, mbind, prog_bind, mret, prog_ret. cbn.
  rewrite Hid. by eexists.
Qed.

(** C39: the thread makes the four calls in order, each one only when those before it
    succeeded; it ends with its argument, and [thread_complete_success] is set exactly
    when all four succeeded.  It needs the [pthread_t] object of the caller to be there:
    every message reads it, and without it the thread faults. *)
Theorem threadfunc_reports p d (s : pstate threads)
    (Hp : p ≠ 0) (Hd : datas (p_vars s) !! p = Some d) :
  match ids (p_vars s) !! thread_id d with
  | Some _ =>
      returns (threadfunc p) s (λ r s', r = p ∧ p_heap s' = p_heap s
        ∧ ∃ evs status, p_trace s' = p_trace s ++ evs ∧ thread_run d evs status
            ∧ p_vars s' = Threads (<[p := with_success status d]> (datas (p_vars s)))
                            (ids (p_vars s)))
  | None => ∃ e, threadfunc p s = Err e
  end.
Proof.
  destruct (ids (p_vars s) !! thread_id d) eqn:Hid; [|by eapply threadfunc_dangles].
  apply threadfunc_runs; [done|done|by eexists].
Qed.

(** A thread whose second wait is interrupted ends with the mutex still locked. *)
Theorem threadfunc_keeps_mutex {L : OSLaws O} p d (s : pstate threads)
    (Hp : p ≠ 0) (Hd : datas (p_vars s) !! p = Some d)
    (Hid : is_Some (ids (p_vars s) !! thread_id d)) (Hfree : owns (p_world s) (mutex d) = false)
    (H1 : ∀ w, rc (sys w (Cusleep (usec (wait_to_obtain_ms d)))).1 = 0)
    (H2 : ∀ w, owns w (mutex d) = false → rc (sys w (Cmutex_lock (mutex d))).1 = 0)
    (H3 : ∀ w, owns w (mutex d) = true →
                rc (sys w (Cusleep (usec (wait_to_release_ms d)))).1 = -1) :
  returns (threadfunc p) s (λ _ s', owns (p_world s') (mutex d) = true
    ∧ datas (p_vars s') !! p = Some (with_success false d)).
Proof.
  unfold threadfunc. prog_step. apply (returns_get_data p d); [done|done|].
  prog_step. prog_step. prog_step. prog_step. apply returns_log_id; [done|]. set (s1 := after _ _ _ _).
  pose proof (H1 (p_world s)) as E1. rewrite H in E1. cbn in E1. rewrite E1. cbn [Z.eqb].
  assert (owns (p_world s1) (mutex d) = false) as Ho1
    by (rewrite <- Hfree; by eapply (owns_frame _ _ (Cusleep _) a)).
  prog_step. prog_step. prog_step. apply returns_log_id; [done|]. set (s2 := after s1 _ _ _).
  pose proof (H2 _ Ho1) as E2. rewrite H0 in E2. cbn in E2. rewrite E2. cbn [Z.eqb].
  destruct (lock_ok _ _ _ _ H0 E2) as [_ Ho2].
  prog_step. prog_step. prog_step. apply returns_log_id; [done|]. set (s3 := after s2 _ _ _).
  pose proof (H3 _ Ho2) as E3. change w0 with (p_world s2) in E3. rewrite H4 in E3. cbn in E3.
  rewrite E3. cbn [Z.eqb]. prog_step. prog_step. apply returns_put_data; [done|].
  prog_step. apply returns_log_id; [done|]. prog_step. split.
  - cbn. rewrite <- Ho2. by eapply (owns_frame _ _ (Cusleep _) a1).
  - cbn. by rewrite lookup_insert_eq.
Qed.

(** [start_thread_obtaining_mutex] either starts a thread whose argument is a new
    block with the given mutex and waits and stores its identifier in the object of the
    caller, or frees the block and reports failure. *)
Theorem start_thread_outcomes {L : OSLaws O} thread m obtain release (s : pstate threads)
    (Halloc : allocs_succeed O)
    (Hid : is_Some (ids (p_vars s) !! thread))
    (Hfresh : ∀ p, p_heap s !! p = None → datas (p_vars s) !! p = None) :
  returns (start_thread_obtaining_mutex thread m obtain release) s (λ r s',
    ∃ p a, p ≠ 0 ∧ p_heap s !! p = None
      ∧ p_trace s' = p_trace s ++ [(Cthread_create p, a)] ∧ r = (rc a =? 0)
      ∧ if r
        then datas (p_vars s') !! p = Some (ThreadData thread m (u32 obtain) (u32 release) success0)
             ∧ ids (p_vars s') !! thread = Some (hd 0 (out a)) ∧ is_Some (p_heap s' !! p)
        else p_heap s' = p_heap s ∧ p_vars s' = p_vars s).
Proof.
  unfold start_thread_obtaining_mutex. prog_step. apply returns_malloc; [done|done|].
  intros p b Hp Hnew Hb. prog_step. apply returns_put_data; [done|].
  prog_step. prog_step. destruct (Z.eqb_spec (rc a) 0) as [Ha|Ha]; cbn [negb].
  - destruct Hid as [x Hx]. unfold put_id. do 3 prog_step. cbn. rewrite Hx. do 2 prog_step.
    exists p, a. rewrite Ha. split_and!; try done; cbn.
    + by rewrite lookup_insert_eq.
    + by rewrite lookup_insert_eq.
    + rewrite lookup_insert_eq. by eexists.
  - prog_step. eapply returns_free; [done|cbn; by rewrite lookup_insert_eq|].
    do 5 prog_step. exists p, a.
    rewrite (proj2 (Z.eqb_neq _ _) Ha). split_and!; try done; cbn.
    + by rewrite delete_insert_id.
    + rewrite delete_insert_id; [by destruct (p_vars s)|]. by apply Hfresh.
Qed.

(** The wait in microseconds is computed in 32 bits: it is the one asked for only
    up to 4294967 milliseconds, a little over 71 minutes; one more wraps to less than
    a millisecond. *)
Theorem wait_wraps ms (Hms : 0 ≤ ms < 2 ^ 32) :
  (usec ms = ms * 1000 ↔ ms ≤ 4294967) ∧ usec 4294968 = 704.
Proof.
  split; [|done]. unfold usec, u32. split.
  - intros H. pose proof (Z.mod_pos_bound (ms * 1000) (2 ^ 32) ltac:(lia)). lia.
  - intros H. apply Z.mod_small. lia.
Qed.
End Threading.

(** ** Runs *)

Definition thread_demo : thread_data := ThreadData 48 9 5 6 true.

(** A system on which a wait of 6 milliseconds is interrupted. *)
Definition interrupted (c : call) : answer :=
  if decide (c = Cusleep 6000) then Ans (-1) [] else Ans 0 [].

Definition interrupted_os : OS := sim_os (object_max - 1) interrupted.

Definition interrupted_laws : OSLaws interrupted_os := sim_os_laws (object_max - 1) _ eq_refl.

Definition thread_process : @pstate interrupted_os threads :=
  @PState interrupted_os threads {[ 64 := Block 32 (replicate 32 0) ]} (SimWorld ∅ [] 0 []) []
    (Threads {[ 64 := thread_demo ]} {[ 48 := 0 ]}).

Lemma thread_process_data : datas (p_vars thread_process) !! 64 = Some thread_demo.
Proof. reflexivity. Qed.

Lemma threadfunc_reports_witness :
  datas (p_vars thread_process) !! 64 = Some thread_demo
  ∧ returns (threadfunc 64) thread_process (λ r s', r = 64 ∧ p_heap s' = p_heap thread_process
    ∧ ∃ evs status, p_trace s' = p_trace thread_process ++ evs ∧ thread_run thread_demo evs status
        ∧ p_vars s' = Threads (<[64 := with_success status thread_demo]> (datas (p_vars thread_process)))
                        (ids (p_vars thread_process))).
Proof.
  split; [apply thread_process_data|].
  by apply (threadfunc_reports 64 thread_demo thread_process).
Defined.

Lemma threadfunc_keeps_mutex_witness :
  owns (p_world thread_process) (mutex thread_demo) = false
  ∧ returns (threadfunc 64) thread_process (λ _ s', owns (p_world s') (mutex thread_demo) = true
      ∧ datas (p_vars s') !! 64 = Some (with_success false thread_demo)).
Proof.
  split; [done|].
  apply (threadfunc_keeps_mutex (L := interrupted_laws) 64 thread_demo thread_process);
    [done|done|by eexists|done|done| |done].
  intros w Hw. cbn. unfold sim_mutex_lock. cbn in Hw. by rewrite Hw.
Defined.

Lemma start_thread_outcomes_witness :
  allocs_succeed interrupted_os
  ∧ returns (start_thread_obtaining_mutex false 48 9 5 (-1)) thread_process (λ r s',
    ∃ p a, p ≠ 0 ∧ p_heap thread_process !! p = None
      ∧ p_trace s' = p_trace thread_process ++ [(Cthread_create p, a)] ∧ r = (rc a =? 0)
      ∧ if r
        then datas (p_vars s') !! p = Some (ThreadData 48 9 5 (2 ^ 32 - 1) false)
             ∧ ids (p_vars s') !! 48 = Some (hd 0 (out a)) ∧ is_Some (p_heap s' !! p)
        else p_heap s' = p_heap thread_process ∧ p_vars s' = p_vars thread_process).
Proof.
  split; [apply sim_allocs_succeed|].
  apply (start_thread_outcomes (L := interrupted_laws) false 48 9 5 (-1) thread_process
           (sim_allocs_succeed _) ltac:(by eexists)).
  intros p Hp. cbn in *. destruct (decide (p = 64)) as [->|Hne].
  - by rewrite lookup_singleton_eq in Hp.
  - by rewrite lookup_singleton_ne.
Defined.

Lemma wait_wraps_witness :
  0 ≤ 4294968 < 2 ^ 32 ∧ (usec 4294968 = 4294968 * 1000 ↔ 4294968 ≤ 4294967) ∧ usec 4294968 = 704.
Proof. split; [done|]. by apply (wait_wraps 4294968). Defined.
