(* ===== verification/Writer.v ===== *)
(** * The writer

    Models [finder-app/writer.c]: a program that writes its second argument to the
    file its first argument names.  Logging is left out, so [exitWriter] only passes
    its code on. *)

From Stdlib Require Import String.
From S2P Require Import Prelude Memory Kernel Posix SimOS.

(** [O_CREAT | O_TRUNC | O_WRONLY]. *)
Definition writer_flags : Z := Z.lor 0x40 (Z.lor 0x200 1).

Section Writer.
Context {O : OS} {N : Uncancelled O}.
(* the mode of a created file: [open] reads it, but it is not passed *)
Variable mode0 : Z.

Definition exitWriter (code : Z) : prog unit Z := mret code.

(** [argv] are the strings of the argument vector. *)
Definition main (argv : list (list Z)) : prog unit Z :=
  match argv with
  | _ :: filename :: text :: _ =>
    if (length filename =? 0)%nat then exitWriter 1
    else if (length text =? 0)%nat then exitWriter 1
    else
      fd ← do_call (Copen filename writer_flags mode0);
      exitCode ←
        (if 0 <? fd then
           result ← do_call (Cwrite fd text);
           let exitCode := if result =? -1 then 1 else 0 in
           _ ← do_call (Cclose fd);
           mret exitCode
         else mret 0);
      exitWriter exitCode
  | _ => exitWriter 1
  end.

(** C40: with a file name and a text, the writer opens the file for writing from its
    start, writes the whole text with one call, closes the file, and exits with 0
    exactly when the write did not fail. *)
Theorem writer_writes_text prog_name filename text rest (s : pstate unit) a w
    (Hf : filename ≠ []) (Ht : text ≠ [])
    (Hopen : sys (p_world s) (Copen filename writer_flags mode0) = (a, w)) (Hfd : 0 < rc a) :
  ∃ b d s', main (prog_name :: filename :: text :: rest) s
              = Ok (Returned (if rc b =? -1 then 1 else 0), s')
    ∧ p_trace s' = p_trace s ++ [(Copen filename writer_flags mode0, a);
                                 (Cwrite (rc a) text, b); (Cclose (rc a), d)].
Proof.
  unfold main. destruct filename as [|f filename]; [done|]. destruct text as [|t text]; [done|].
  cbn [length Nat.eqb]. rewrite run_call, Hopen. cbn [fst snd]. set (s1 := after _ _ _ _).
  rewrite (proj2 (Z.ltb_lt 0 (rc a)) Hfd).
  set (b := (sys (p_world s1) (Cwrite (rc a) (t :: text))).1).
  set (s2 := after s1 (Cwrite (rc a) (t :: text)) b
               (sys (p_world s1) (Cwrite (rc a) (t :: text))).2).
  set (d := (sys (p_world s2) (Cclose (rc a))).1).
  eexists b, d, (after s2 (Cclose (rc a)) d (sys (p_world s2) (Cclose (rc a))).2).
  split; [|cbn; by rewrite <- !app_assoc].
  erewrite run_bind; [done|]. by rewrite !run_call.
Qed.

(** When the file cannot be opened nothing is written, and the exit code is 0,
    the code of success. *)
Theorem writer_open_failure prog_name filename text rest (s : pstate unit) a w
    (Hf : filename ≠ []) (Ht : text ≠ [])
    (Hopen : sys (p_world s) (Copen filename writer_flags mode0) = (a, w)) (Hfd : rc a = -1) :
  main (prog_name :: filename :: text :: rest) s
  = Ok (Returned 0, after s (Copen filename writer_flags mode0) a w).
Proof.
  unfold main. destruct filename as [|f filename]; [done|]. destruct text as [|t text]; [done|].
  cbn [length Nat.eqb]. rewrite run_call, Hopen. cbn [fst snd]. by rewrite Hfd.
Qed.

(** With an argument missing or empty the writer makes no call and exits with 1. *)
Theorem writer_rejects_arguments argv (s : pstate unit)
    (Hbad : (length argv ≤ 2)%nat ∨ argv !! 1%nat = Some [] ∨ argv !! 2%nat = Some []) :
  main argv s = Ok (Returned 1, s).
Proof.
  unfold main. destruct argv as [|p [|f [|t rest]]]; try done.
  destruct Hbad as [H | [[= ->] | [= ->]]]; [cbn in H; lia|done|]. by destruct f.
Qed.
End Writer.

(** ** Runs *)

Definition writer_os (fd : Z) : OS :=
  sim_os 0 (λ c, match c with Copen _ _ _ => Ans fd [] | _ => Ans 0 [] end).

Definition writer_process (fd : Z) : @pstate (writer_os fd) unit :=
  @PState (writer_os fd) unit ∅ (SimWorld ∅ [] 0 []) [] ().

Lemma writer_writes_text_witness :
  sys (p_world (writer_process 3)) (Copen [47; 97] writer_flags 0)
    = (Ans 3 [], p_world (writer_process 3))
  ∧ ∃ b d s', main 0 [[119]; [47; 97]; [104; 105]] (writer_process 3)
              = Ok (Returned (if rc b =? -1 then 1 else 0), s')
    ∧ p_trace s' = p_trace (writer_process 3)
        ++ [(Copen [47; 97] writer_flags 0, Ans 3 []); (Cwrite 3 [104; 105], b); (Cclose 3, d)].
Proof.
  split; [done|].
  by apply (writer_writes_text 0 [119] [47; 97] [104; 105] [] (writer_process 3) (Ans 3 [])
              (p_world (writer_process 3))).
Defined.

Lemma writer_open_failure_witness :
  rc (Ans (-1) []) = -1
  ∧ main 0 [[119]; [47; 97]; [104; 105]] (writer_process (-1))
    = Ok (Returned 0, after (writer_process (-1)) (Copen [47; 97] writer_flags 0) (Ans (-1) [])
            (p_world (writer_process (-1)))).
Proof.
  split; [done|].
  by apply (writer_open_failure 0 [119] [47; 97] [104; 105] [] (writer_process (-1)) (Ans (-1) [])
              (p_world (writer_process (-1)))).
Defined.

Lemma writer_rejects_arguments_witness :
  [[119]; []; [104]] !! 1%nat = Some []
  ∧ main 0 [[119]; []; [104]] (writer_process 3) = Ok (Returned 1, writer_process 3).
Proof.
  split; [done|]. apply (writer_rejects_arguments 0 [[119]; []; [104]] (writer_process 3)).
  by right; left.
Defined.
