(* ===== verification/Autotest.v ===== *)
(** * The autotest example

    Models [examples/autotest-validate/autotest-validate.c], its main program, and the
    unit test [student-test/assignment1/Test_validate_username.c].  The test reads the
    user name from [conf/username.txt] by a function of the autotest submodule, which
    is a parameter here, and compares with an assertion of Unity, which leaves the test
    when it fails. *)

From Stdlib Require Import String.
From S2P Require Import Prelude Memory Kernel CString Posix.

Definition this_function_returns_true : bool := true.

Definition this_function_returns_false : bool := false.

Definition my_username : list Z := str "yura.tkachenko@gmail.com".

(** What the main program prints. *)
Definition bool_text (b : bool) : list Z := str (if b then "true" else "false").

Definition autotest_main : list (list Z) :=
  [str "this_function_returns_true returned " ++ bool_text this_function_returns_true;
   str "this_function_returns_false returned " ++ bool_text this_function_returns_false].

Section Test.
Context {O : OS}.
(* the name in the configuration file, in a block of its own *)
Variable malloc_username_from_conf_file : heap → Z * heap.

(** [Some h]: the test passes and leaves [h]; [None]: the assertion fails. *)
Definition test_validate_my_username (h : heap) : res (option heap) :=
  let uname := my_username in
  let '(p, h) := malloc_username_from_conf_file h in
  b ← blk_get h p;
  len ← strlen (blk_mem b);
  if bool_decide (take (Z.to_nat len) (blk_mem b) = uname)
  then h ← free h p; mret (Some h)
  else mret None.

(** The test passes exactly for the name in the program, and gives the block back. *)
Lemma test_validates_username {L : OSLaws O} h p h' b name
    (Hconf : malloc_username_from_conf_file h = (p, h')) (Hp : p ≠ 0)
    (Hb : h' !! p = Some b) (Hname : holds_str (blk_mem b) name) :
  test_validate_my_username h
  = Ok (if bool_decide (name = my_username) then Some (delete p h') else None).
Proof.
  unfold test_validate_my_username. rewrite Hconf, (blk_get_Some h' p b) by done.
  cbn [mbind res_bind]. rewrite (strlen_spec _ _ Hname). cbn [mbind res_bind].
  destruct Hname as [_ [rest ->]]. rewrite Nat2Z.id, take_app_length.
  case_bool_decide; [|done]. by rewrite (free_block h' p b).
Qed.

End Test.
